(** * patchelf-stripped: the section-replacement and layout-fixup engine

    A shallow embedding of [ElfFile] (the ELF rewriter of this repository)
    and the properties of its edit buffer, header parser, layout planners,
    note normalizer and header rewriter.

    Conventions of the embedding.
    - The file image [fileContents] is a [list byte]; every pointer access
      into it is an offset with an explicit bounds check.
    - The ELF header is not copied by the program: [hdr()] points into
      [fileContents].  Header fields are therefore read from and written to
      the image at their offsets.
    - Program and section headers are copied out of the image at open; the
      copies are records whose fields hold the values [rdi] reads.  The
      handful of places where the program reads such a field without [rdi]
      agree with that as long as the byte order of the host is the byte
      order of the file, which is the scope the program is used in.
    - An exception ([error], [std::out_of_range]) is [Throw], a failed
      [assert] is [Abort], behaviour the C++ standard leaves undefined
      (access outside a buffer, division by zero) is [Undef].  The one loop
      of the program that need not terminate takes fuel; [NoFuel] says that
      the fuel given was not enough and nothing about the program.
    - [size_t] and [off_t] are 64 bits wide, [unsigned int] and [int] 32. *)

From Stdlib Require Import ZArith Lia List.
From Stdlib Require Import Strings.String Strings.Byte Strings.Ascii.
From stdpp Require Import base option list strings pretty gmap fin_maps.

Local Open Scope Z_scope.

(** ** Outcomes of a computation *)

Inductive outcome (A : Type) : Type :=
| Done (a : A)
| Throw (msg : string)
| Abort (cond : string)
| Undef (why : string)
| NoFuel.

Arguments Done {A} a.
Arguments Throw {A} msg.
Arguments Abort {A} cond.
Arguments Undef {A} why.
Arguments NoFuel {A}.

Definition bind {A B : Type} (m : outcome A) (f : A -> outcome B) : outcome B :=
  match m with
  | Done a => f a
  | Throw msg => Throw msg
  | Abort c => Abort c
  | Undef w => Undef w
  | NoFuel => NoFuel
  end.

Definition ret {A : Type} (a : A) : outcome A := Done a.

Notation "x <- m ;; k" := (bind m (fun x => k))
  (at level 100, m at next level, right associativity).

(** [error(msg)] of the source. *)
Definition error {A : Type} (msg : string) : outcome A := Throw msg.

(** [assert(cond)] of the source. *)
Definition assert (cond : bool) (what : string) : outcome unit :=
  if cond then Done tt else Abort what.

Definition is_done {A : Type} (m : outcome A) : bool :=
  match m with Done _ => true | _ => false end.

(** ** Machine integers *)

(** The value of a C unsigned integer of [w] bits. *)
Definition wrap (w : Z) (x : Z) : Z := x mod 2 ^ w.

(** The value of a C signed integer of [w] bits (conversion from unsigned). *)
Definition swrap (w : Z) (x : Z) : Z :=
  let y := wrap w x in if y <? 2 ^ (w - 1) then y else y - 2 ^ w.

Definition u16 := wrap 16.
Definition u32 := wrap 32.
Definition u64 := wrap 64.
Definition i64 := swrap 64.

(** [a * b] on operands promoted to [int]: signed overflow is undefined. *)
Definition mul_int (a b : Z) : outcome Z :=
  if a * b <? 2 ^ 31 then Done (a * b) else Undef "signed integer overflow".

(** [__builtin_mul_overflow(a, b, &r)] and [__builtin_add_overflow(a, b, &r)]
    with [r] a [size_t]: the exact result, or [None] when it does not fit. *)
Definition builtin_mul_overflow (a b : Z) : option Z :=
  if a * b <? 2 ^ 64 then Some (a * b) else None.

Definition builtin_add_overflow (a b : Z) : option Z :=
  if a + b <? 2 ^ 64 then Some (a + b) else None.

(** ** Bytes and the endianness-aware accessor *)

#[global] Instance byte_eq_decision : EqDecision byte := Byte.byte_eq_dec.

Definition byteZ (b : byte) : Z := Z.of_N (Byte.to_N b).

Definition Zbyte (x : Z) : byte :=
  match Byte.of_N (Z.to_N (x mod 256)) with
  | Some b => b
  | None => x00
  end.

(** Least significant byte first. *)
Fixpoint le_decode (bs : list byte) : Z :=
  match bs with
  | [] => 0
  | b :: bs' => Z.lor (byteZ b) (Z.shiftl (le_decode bs') 8)
  end.

Fixpoint le_encode (n : nat) (x : Z) : list byte :=
  match n with
  | O => []
  | S n' => Zbyte x :: le_encode n' (Z.shiftr x 8)
  end.

(** [rdi]: the integer that the bytes of a field denote in the byte order
    recorded in the file. *)
Definition rdi (littleEndian : bool) (bs : list byte) : Z :=
  if littleEndian then le_decode bs else le_decode (rev bs).

(** The bytes of a field of [n] bytes holding [x]. *)
Definition field_bytes (littleEndian : bool) (n : nat) (x : Z) : list byte :=
  if littleEndian then le_encode n x else rev (le_encode n x).

(** [n] bytes at offset [off]; outside the buffer the access is undefined. *)
Definition mem_read (c : list byte) (off : Z) (n : Z) : outcome (list byte) :=
  if (0 <=? off) && (0 <=? n) && (off + n <=? Z.of_nat (length c))
  then Done (take (Z.to_nat n) (drop (Z.to_nat off) c))
  else Undef "read outside the file contents".

(** Overwrite [length bs] bytes at offset [off]. *)
Definition mem_write (c : list byte) (off : Z) (bs : list byte) : outcome (list byte) :=
  if (0 <=? off) && (off + Z.of_nat (length bs) <=? Z.of_nat (length c))
  then Done (take (Z.to_nat off) c ++ bs ++ drop (Z.to_nat off + length bs) c)
  else Undef "write outside the file contents".

(** [memset(data + off, b, n)]. *)
Definition mem_set (c : list byte) (off : Z) (b : byte) (n : Z) : outcome (list byte) :=
  if (0 <=? off) && (0 <=? n) && (off + n <=? Z.of_nat (length c))
  then Done (take (Z.to_nat off) c ++ replicate (Z.to_nat n) b ++ drop (Z.to_nat (off + n)) c)
  else Undef "write outside the file contents".

(** [v.resize(n, 0)] on the byte vector; a size above [max_size()] raises
    [std::length_error]. *)
Definition vec_resize (n : Z) (c : list byte) : outcome (list byte) :=
  if 2 ^ 63 <=? n then Throw "vector::_M_fill_insert"
  else Done (resize (Z.to_nat n) x00 c).

(** [std::string(p)] for a C string starting at [off] inside [s]. *)
Fixpoint c_str (bs : list byte) : list byte :=
  match bs with
  | [] => []
  | b :: bs' => if Byte.eqb b x00 then [] else b :: c_str bs'
  end.

(** [std::stable_sort] with the strict order [lt]: insertion from the
    right, an element going in front of the first one that is not below it. *)
Fixpoint insert_sorted {A : Type} (lt : A -> A -> bool) (x : A) (l : list A) : list A :=
  match l with
  | [] => [x]
  | y :: l' => if lt y x then y :: insert_sorted lt x l' else x :: l
  end.

Definition stable_sort {A : Type} (lt : A -> A -> bool) (l : list A) : list A :=
  foldr (insert_sorted lt) [] l.

(** [roundUp] of the source, on [uint64_t]. *)
Definition roundUp (n m : Z) : outcome Z :=
  if n =? 0 then Done m
  else if m =? 0 then Undef "division by zero"
  else Done (u64 (((n - 1) / m + 1) * m)).

(** ** ELF constants (elf.h) *)

Definition ET_EXEC : Z := 2.
Definition ET_DYN : Z := 3.

Definition EI_DATA : Z := 5.
Definition ELFDATA2LSB : Z := 1.
Definition ELFMAG : list byte := [x7f; x45; x4c; x46].
Definition SELFMAG : Z := 4.

Definition PT_LOAD : Z := 1.
Definition PT_DYNAMIC : Z := 2.
Definition PT_INTERP : Z := 3.
Definition PT_NOTE : Z := 4.
Definition PT_PHDR : Z := 6.
Definition PT_GNU_PROPERTY : Z := 0x6474e553.
Definition PT_MIPS_ABIFLAGS : Z := 0x70000003.

Definition PF_W : Z := 2.
Definition PF_R : Z := 4.

Definition SHT_PROGBITS : Z := 1.
Definition SHT_SYMTAB : Z := 2.
Definition SHT_RELA : Z := 4.
Definition SHT_NOTE : Z := 7.
Definition SHT_NOBITS : Z := 8.
Definition SHT_REL : Z := 9.
Definition SHT_DYNSYM : Z := 11.

Definition SHN_UNDEF : Z := 0.
Definition SHN_LORESERVE : Z := 0xff00.
Definition STT_SECTION : Z := 3.

Definition DT_NULL : Z := 0.
Definition DT_HASH : Z := 4.
Definition DT_STRTAB : Z := 5.
Definition DT_SYMTAB : Z := 6.
Definition DT_RELA : Z := 7.
Definition DT_STRSZ : Z := 10.
Definition DT_REL : Z := 17.
Definition DT_JMPREL : Z := 23.
Definition DT_VERSYM : Z := 0x6ffffff0.
Definition DT_VERNEED : Z := 0x6ffffffe.
Definition DT_GNU_HASH : Z := 0x6ffffef5.
Definition DT_MIPS_RLD_MAP_REL : Z := 0x70000035.
Definition DT_MIPS_XHASH : Z := 0x70000036.

Definition EM_SPARC : Z := 2.
Definition EM_MIPS : Z := 8.
Definition EM_PPC : Z := 20.
Definition EM_PPC64 : Z := 21.
Definition EM_SPARCV9 : Z := 43.
Definition EM_IA_64 : Z := 50.
Definition EM_AARCH64 : Z := 183.
Definition EM_TILEGX : Z := 191.
Definition EM_LOONGARCH : Z := 258.
Definition EM_ALPHA : Z := 0x9026.

(** [ELF32_ST_TYPE(i)]. *)
Definition ELF32_ST_TYPE (i : Z) : Z := Z.land i 0xf.

(** ** Headers as the program holds them *)

Inductive elf_class : Set := ELFCLASS32 | ELFCLASS64.

Record Elf_Phdr : Set := mkPhdr {
  p_type : Z; p_flags : Z; p_offset : Z; p_vaddr : Z;
  p_paddr : Z; p_filesz : Z; p_memsz : Z; p_align : Z }.

Record Elf_Shdr : Set := mkShdr {
  sh_name : Z; sh_type : Z; sh_flags : Z; sh_addr : Z; sh_offset : Z;
  sh_size : Z; sh_link : Z; sh_info : Z; sh_addralign : Z; sh_entsize : Z }.

Record Elf_Sym : Set := mkSym {
  st_name : Z; st_info : Z; st_other : Z; st_shndx : Z; st_value : Z; st_size : Z }.

#[global] Instance Elf_Phdr_eq_dec : EqDecision Elf_Phdr.
Proof. solve_decision. Defined.
#[global] Instance Elf_Shdr_eq_dec : EqDecision Elf_Shdr.
Proof. solve_decision. Defined.

Definition with_p_type (v : Z) (p : Elf_Phdr) : Elf_Phdr :=
  mkPhdr v (p_flags p) (p_offset p) (p_vaddr p) (p_paddr p) (p_filesz p) (p_memsz p) (p_align p).
Definition with_p_flags (v : Z) (p : Elf_Phdr) : Elf_Phdr :=
  mkPhdr (p_type p) v (p_offset p) (p_vaddr p) (p_paddr p) (p_filesz p) (p_memsz p) (p_align p).
Definition with_p_offset (v : Z) (p : Elf_Phdr) : Elf_Phdr :=
  mkPhdr (p_type p) (p_flags p) v (p_vaddr p) (p_paddr p) (p_filesz p) (p_memsz p) (p_align p).
Definition with_p_vaddr (v : Z) (p : Elf_Phdr) : Elf_Phdr :=
  mkPhdr (p_type p) (p_flags p) (p_offset p) v (p_paddr p) (p_filesz p) (p_memsz p) (p_align p).
Definition with_p_paddr (v : Z) (p : Elf_Phdr) : Elf_Phdr :=
  mkPhdr (p_type p) (p_flags p) (p_offset p) (p_vaddr p) v (p_filesz p) (p_memsz p) (p_align p).
Definition with_p_filesz (v : Z) (p : Elf_Phdr) : Elf_Phdr :=
  mkPhdr (p_type p) (p_flags p) (p_offset p) (p_vaddr p) (p_paddr p) v (p_memsz p) (p_align p).
Definition with_p_memsz (v : Z) (p : Elf_Phdr) : Elf_Phdr :=
  mkPhdr (p_type p) (p_flags p) (p_offset p) (p_vaddr p) (p_paddr p) (p_filesz p) v (p_align p).
Definition with_p_align (v : Z) (p : Elf_Phdr) : Elf_Phdr :=
  mkPhdr (p_type p) (p_flags p) (p_offset p) (p_vaddr p) (p_paddr p) (p_filesz p) (p_memsz p) v.

Definition with_sh_addr (v : Z) (s : Elf_Shdr) : Elf_Shdr :=
  mkShdr (sh_name s) (sh_type s) (sh_flags s) v (sh_offset s) (sh_size s)
         (sh_link s) (sh_info s) (sh_addralign s) (sh_entsize s).
Definition with_sh_offset (v : Z) (s : Elf_Shdr) : Elf_Shdr :=
  mkShdr (sh_name s) (sh_type s) (sh_flags s) (sh_addr s) v (sh_size s)
         (sh_link s) (sh_info s) (sh_addralign s) (sh_entsize s).
Definition with_sh_size (v : Z) (s : Elf_Shdr) : Elf_Shdr :=
  mkShdr (sh_name s) (sh_type s) (sh_flags s) (sh_addr s) (sh_offset s) v
         (sh_link s) (sh_info s) (sh_addralign s) (sh_entsize s).
Definition with_sh_link (v : Z) (s : Elf_Shdr) : Elf_Shdr :=
  mkShdr (sh_name s) (sh_type s) (sh_flags s) (sh_addr s) (sh_offset s) (sh_size s)
         v (sh_info s) (sh_addralign s) (sh_entsize s).
Definition with_sh_info (v : Z) (s : Elf_Shdr) : Elf_Shdr :=
  mkShdr (sh_name s) (sh_type s) (sh_flags s) (sh_addr s) (sh_offset s) (sh_size s)
         (sh_link s) v (sh_addralign s) (sh_entsize s).
Definition with_sh_addralign (v : Z) (s : Elf_Shdr) : Elf_Shdr :=
  mkShdr (sh_name s) (sh_type s) (sh_flags s) (sh_addr s) (sh_offset s) (sh_size s)
         (sh_link s) (sh_info s) v (sh_entsize s).

(** The fields of the ELF header the program reads or writes. *)
Inductive ehdr_field : Set :=
| e_type | e_machine | e_phoff | e_shoff | e_ehsize_
| e_phentsize | e_phnum | e_shentsize | e_shnum | e_shstrndx.

(** ** The object *)

Record ElfFile : Type := mkElfFile {
  fileContents : list byte;
  phdrs : list Elf_Phdr;
  shdrs : list Elf_Shdr;
  littleEndian : bool;
  changed : bool;
  isExecutable : bool;
  sectionNames : list byte;
  sectionsByOldIndex : list string;
  replacedSections : gmap string (list byte);
  (** what the program has printed on [stderr] (warnings) *)
  stderr : list string }.

Definition with_fileContents (c : list byte) (st : ElfFile) : ElfFile :=
  mkElfFile c (phdrs st) (shdrs st) (littleEndian st) (changed st) (isExecutable st)
            (sectionNames st) (sectionsByOldIndex st) (replacedSections st) (stderr st).
Definition with_phdrs (l : list Elf_Phdr) (st : ElfFile) : ElfFile :=
  mkElfFile (fileContents st) l (shdrs st) (littleEndian st) (changed st) (isExecutable st)
            (sectionNames st) (sectionsByOldIndex st) (replacedSections st) (stderr st).
Definition with_shdrs (l : list Elf_Shdr) (st : ElfFile) : ElfFile :=
  mkElfFile (fileContents st) (phdrs st) l (littleEndian st) (changed st) (isExecutable st)
            (sectionNames st) (sectionsByOldIndex st) (replacedSections st) (stderr st).
Definition with_replacedSections (m : gmap string (list byte)) (st : ElfFile) : ElfFile :=
  mkElfFile (fileContents st) (phdrs st) (shdrs st) (littleEndian st) (changed st) (isExecutable st)
            (sectionNames st) (sectionsByOldIndex st) m (stderr st).
Definition with_stderr (l : list string) (st : ElfFile) : ElfFile :=
  mkElfFile (fileContents st) (phdrs st) (shdrs st) (littleEndian st) (changed st) (isExecutable st)
            (sectionNames st) (sectionsByOldIndex st) (replacedSections st) l.

(** [fprintf(stderr, ...)]. *)
Definition warn (msg : string) (st : ElfFile) : ElfFile :=
  with_stderr (stderr st ++ [msg]) st.

(** [v.at(i)] and [v[i]] on a [std::vector]. *)
Definition vec_at {A : Type} (v : list A) (i : Z) : outcome A :=
  if 0 <=? i then
    match v !! Z.to_nat i with
    | Some x => Done x
    | None => Throw "vector::at: index out of range"
    end
  else Throw "vector::at: index out of range".

Definition vec_index {A : Type} (v : list A) (i : Z) : outcome A :=
  if 0 <=? i then
    match v !! Z.to_nat i with
    | Some x => Done x
    | None => Undef "vector index out of range"
    end
  else Undef "vector index out of range".

(** * The class [ElfFile<...>]

    The template parameters select the 32-bit or the 64-bit ELF structures;
    [forcedPageSize] and [clobberOldSections] are the file-scope settings of
    the program, and [dataAddress] is the address at which the storage of
    [fileContents] happens to live (it only decides which of two errors a
    wild string-table offset is reported as). *)

Section WithClass.

Context (ElfClass : elf_class).
Context (forcedPageSize : Z).
Context (clobberOldSections : bool).
Context (dataAddress : Z).

(** ** Sizes and layouts of the ELF structures *)

Definition sizeof_Ehdr : Z := match ElfClass with ELFCLASS32 => 52 | ELFCLASS64 => 64 end.
Definition sizeof_Phdr : Z := match ElfClass with ELFCLASS32 => 32 | ELFCLASS64 => 56 end.
Definition sizeof_Shdr : Z := match ElfClass with ELFCLASS32 => 40 | ELFCLASS64 => 64 end.
Definition sizeof_Sym : Z := match ElfClass with ELFCLASS32 => 16 | ELFCLASS64 => 24 end.
Definition sizeof_Dyn : Z := match ElfClass with ELFCLASS32 => 8 | ELFCLASS64 => 16 end.
Definition sizeof_Off : Z := match ElfClass with ELFCLASS32 => 4 | ELFCLASS64 => 8 end.

(** Width in bits of [Elf_Addr], [Elf_Off] and the word-sized fields. *)
Definition addr_bits : Z := 8 * sizeof_Off.

(** Conversion to [Elf_Addr] / [Elf_Off]. *)
Definition to_addr (x : Z) : Z := wrap addr_bits x.

(** The alignment of relocated section payloads: [sizeof(Elf_Off)]. *)
Definition sectionAlignment : Z := sizeof_Off.

Definition ehdr_offset (f : ehdr_field) : Z :=
  match ElfClass, f with
  | _, e_type => 16
  | _, e_machine => 18
  | ELFCLASS32, e_phoff => 28
  | ELFCLASS32, e_shoff => 32
  | ELFCLASS32, e_ehsize_ => 40
  | ELFCLASS32, e_phentsize => 42
  | ELFCLASS32, e_phnum => 44
  | ELFCLASS32, e_shentsize => 46
  | ELFCLASS32, e_shnum => 48
  | ELFCLASS32, e_shstrndx => 50
  | ELFCLASS64, e_phoff => 32
  | ELFCLASS64, e_shoff => 40
  | ELFCLASS64, e_ehsize_ => 52
  | ELFCLASS64, e_phentsize => 54
  | ELFCLASS64, e_phnum => 56
  | ELFCLASS64, e_shentsize => 58
  | ELFCLASS64, e_shnum => 60
  | ELFCLASS64, e_shstrndx => 62
  end.

Definition ehdr_size (f : ehdr_field) : Z :=
  match f with
  | e_phoff | e_shoff => sizeof_Off
  | _ => 2
  end.

(** Field [k] of a structure: [n] bytes at offset [off] of its bytes. *)
Definition field (le : bool) (bs : list byte) (off n : nat) : Z :=
  rdi le (take n (drop off bs)).

Definition parse_Phdr (le : bool) (bs : list byte) : Elf_Phdr :=
  match ElfClass with
  | ELFCLASS32 =>
      {| p_type := field le bs 0 4; p_offset := field le bs 4 4;
         p_vaddr := field le bs 8 4; p_paddr := field le bs 12 4;
         p_filesz := field le bs 16 4; p_memsz := field le bs 20 4;
         p_flags := field le bs 24 4; p_align := field le bs 28 4 |}
  | ELFCLASS64 =>
      {| p_type := field le bs 0 4; p_flags := field le bs 4 4;
         p_offset := field le bs 8 8; p_vaddr := field le bs 16 8;
         p_paddr := field le bs 24 8; p_filesz := field le bs 32 8;
         p_memsz := field le bs 40 8; p_align := field le bs 48 8 |}
  end.

Definition bytes_Phdr (le : bool) (p : Elf_Phdr) : list byte :=
  match ElfClass with
  | ELFCLASS32 =>
      field_bytes le 4 (p_type p) ++ field_bytes le 4 (p_offset p) ++
      field_bytes le 4 (p_vaddr p) ++ field_bytes le 4 (p_paddr p) ++
      field_bytes le 4 (p_filesz p) ++ field_bytes le 4 (p_memsz p) ++
      field_bytes le 4 (p_flags p) ++ field_bytes le 4 (p_align p)
  | ELFCLASS64 =>
      field_bytes le 4 (p_type p) ++ field_bytes le 4 (p_flags p) ++
      field_bytes le 8 (p_offset p) ++ field_bytes le 8 (p_vaddr p) ++
      field_bytes le 8 (p_paddr p) ++ field_bytes le 8 (p_filesz p) ++
      field_bytes le 8 (p_memsz p) ++ field_bytes le 8 (p_align p)
  end.

Definition parse_Shdr (le : bool) (bs : list byte) : Elf_Shdr :=
  match ElfClass with
  | ELFCLASS32 =>
      {| sh_name := field le bs 0 4; sh_type := field le bs 4 4;
         sh_flags := field le bs 8 4; sh_addr := field le bs 12 4;
         sh_offset := field le bs 16 4; sh_size := field le bs 20 4;
         sh_link := field le bs 24 4; sh_info := field le bs 28 4;
         sh_addralign := field le bs 32 4; sh_entsize := field le bs 36 4 |}
  | ELFCLASS64 =>
      {| sh_name := field le bs 0 4; sh_type := field le bs 4 4;
         sh_flags := field le bs 8 8; sh_addr := field le bs 16 8;
         sh_offset := field le bs 24 8; sh_size := field le bs 32 8;
         sh_link := field le bs 40 4; sh_info := field le bs 44 4;
         sh_addralign := field le bs 48 8; sh_entsize := field le bs 56 8 |}
  end.

Definition bytes_Shdr (le : bool) (s : Elf_Shdr) : list byte :=
  let w := Z.to_nat sizeof_Off in
  field_bytes le 4 (sh_name s) ++ field_bytes le 4 (sh_type s) ++
  field_bytes le w (sh_flags s) ++ field_bytes le w (sh_addr s) ++
  field_bytes le w (sh_offset s) ++ field_bytes le w (sh_size s) ++
  field_bytes le 4 (sh_link s) ++ field_bytes le 4 (sh_info s) ++
  field_bytes le w (sh_addralign s) ++ field_bytes le w (sh_entsize s).

(** Offsets of the fields of [Elf_Sym] that the program touches. *)
Definition sym_off_info : Z := match ElfClass with ELFCLASS32 => 12 | ELFCLASS64 => 4 end.
Definition sym_off_shndx : Z := match ElfClass with ELFCLASS32 => 14 | ELFCLASS64 => 6 end.
Definition sym_off_value : Z := match ElfClass with ELFCLASS32 => 4 | ELFCLASS64 => 8 end.

(** Offset of [d_un] inside [Elf_Dyn]; [d_tag] is at offset 0 and both are
    word sized. *)
Definition dyn_off_un : Z := sizeof_Off.

(** ** [hdr()] *)

Definition hdr_get (f : ehdr_field) (st : ElfFile) : outcome Z :=
  bs <- mem_read (fileContents st) (ehdr_offset f) (ehdr_size f);;
  ret (rdi (littleEndian st) bs).

Definition hdr_set (f : ehdr_field) (v : Z) (st : ElfFile) : outcome ElfFile :=
  c <- mem_write (fileContents st) (ehdr_offset f)
        (field_bytes (littleEndian st) (Z.to_nat (ehdr_size f)) v);;
  ret (with_fileContents c st).

(** ** Section directory *)

Definition getSectionName (shdr : Elf_Shdr) (st : ElfFile) : outcome string :=
  let name_off := sh_name shdr in
  if Z.of_nat (length (sectionNames st)) <=? name_off
  then error "section name offset out of bounds"
  else ret (string_of_list_byte (c_str (drop (Z.to_nat name_off) (sectionNames st)))).

(** The loop of [getSectionIndex], at index [i] with [rest] the headers
    from [i] on. *)
Fixpoint getSectionIndex_loop (sectionName : string) (shnum : Z) (st : ElfFile)
    (i : Z) (rest : list Elf_Shdr) : outcome Z :=
  if i <? shnum then
    match rest with
    | [] => Throw "vector::at: index out of range"
    | shdr :: rest' =>
        n <- getSectionName shdr st;;
        if decide (n = sectionName) then ret i
        else getSectionIndex_loop sectionName shnum st (i + 1) rest'
    end
  else ret 0.

Definition getSectionIndex (sectionName : string) (st : ElfFile) : outcome Z :=
  shnum <- hdr_get e_shnum st;;
  getSectionIndex_loop sectionName shnum st 1 (drop 1 (shdrs st)).

Definition tryFindSectionHeader (sectionName : string) (st : ElfFile)
    : outcome (option Elf_Shdr) :=
  i <- getSectionIndex sectionName st;;
  if i =? 0 then ret None
  else shdr <- vec_at (shdrs st) i;; ret (Some shdr).

Definition findSectionHeader (sectionName : string) (st : ElfFile) : outcome Elf_Shdr :=
  shdr <- tryFindSectionHeader sectionName st;;
  match shdr with
  | Some s => ret s
  | None =>
      let extraMsg :=
        if decide (sectionName = ".interp" ∨ sectionName = ".dynamic" ∨ sectionName = ".dynstr")
        then ". The input file is most likely statically linked" else "" in
      error ("cannot find section '" +:+ sectionName +:+ "'" +:+ extraMsg)
  end.

Definition hasReplacedSection (sectionName : string) (st : ElfFile) : bool :=
  bool_decide (is_Some (replacedSections st !! sectionName)).

Definition canReplaceSection (sectionName : string) (st : ElfFile) : outcome bool :=
  shdr <- findSectionHeader sectionName st;;
  ret (bool_decide (sectionName = ".interp") || negb (sh_type shdr =? SHT_PROGBITS)).

(** ** Edit buffer *)

Definition extractString (contents : list byte) (offset size : Z) : outcome (list byte) :=
  mem_read contents offset size.

(** [replaceSection(sectionName, size)]; [size] is an [unsigned int].  The
    reference the source returns is the entry stored under [sectionName]. *)
Definition replaceSection (sectionName : string) (size : Z) (st : ElfFile)
    : outcome (ElfFile * list byte) :=
  let size := u32 size in
  s <- match replacedSections st !! sectionName with
      | Some buf => ret buf
      | None =>
          shdr <- findSectionHeader sectionName st;;
          extractString (fileContents st) (sh_offset shdr) (sh_size shdr)
      end;;
  let s := resize (Z.to_nat size) x00 s in
  ret (with_replacedSections (<[sectionName := s]> (replacedSections st)) st, s).

(** ** Open: the constructor *)

(** Modelled from the spec: [checkPointer] is declared outside the given
    sources; by §4.2 and §7 a region that does not lie inside the file is a
    fatal structural error, so the check raises when [size] bytes at [off]
    do not fit in [contents]. *)
Definition checkPointer (contents : list byte) (off size : Z) : outcome unit :=
  if (off <? 0) || (Z.of_nat (length contents) <? size)
     || (Z.of_nat (length contents) - size <? off)
  then error "data region extends past file end"
  else ret tt.

(** The two copy loops of the constructor: entry [i] of a table of [n]
    entries of [esize] bytes that starts at [base]. *)
Fixpoint copy_headers {A : Type} (parse : list byte -> A) (contents : list byte)
    (base esize : Z) (n : nat) (i : Z) : outcome (list A) :=
  match n with
  | O => ret []
  | S n' =>
      let off := base + i * esize in
      _ <- checkPointer contents off esize;;
      bs <- mem_read contents off esize;;
      rest <- copy_headers parse contents base esize n' (i + 1);;
      ret (parse bs :: rest)
  end.

(** The last loop of the constructor: the names of sections 1.. *)
Fixpoint old_names (st : ElfFile) (l : list Elf_Shdr) : outcome (list string) :=
  match l with
  | [] => ret []
  | shdr :: l' =>
      n <- getSectionName shdr st;;
      rest <- old_names st l';;
      ret (n :: rest)
  end.

Definition ElfFile_ctor (fContents : list byte) : outcome ElfFile :=
  let size := Z.of_nat (length fContents) in
  (* Check the ELF header for basic validity. *)
  if size <? sizeof_Ehdr then error "missing ELF header" else
  ident <- mem_read fContents 0 SELFMAG;;
  if negb (bool_decide (ident = ELFMAG)) then error "not an ELF executable" else
  data <- mem_read fContents EI_DATA 1;;
  let le := bool_decide (data = [Zbyte ELFDATA2LSB]) in
  let st1 := mkElfFile fContents [] [] le false false [] [] ∅ [] in
  type <- hdr_get e_type st1;;
  if negb (type =? ET_EXEC) && negb (type =? ET_DYN) then error "wrong ELF type" else
  ph_offset <- hdr_get e_phoff st1;;
  ph_num <- hdr_get e_phnum st1;;
  ph_entsize <- hdr_get e_phentsize st1;;
  match builtin_mul_overflow ph_num ph_entsize with
  | None => error "program header table out of bounds"
  | Some ph_bytes =>
  match builtin_add_overflow ph_offset ph_bytes with
  | None => error "program header table out of bounds"
  | Some ph_end =>
  if size <? ph_end then error "program header table out of bounds" else
  sh_num <- hdr_get e_shnum st1;;
  if sh_num =? 0
  then error "no section headers. The input file is probably a statically linked, self-decompressing binary"
  else
  sh_off <- hdr_get e_shoff st1;;
  sh_entsize <- hdr_get e_shentsize st1;;
  match builtin_mul_overflow sh_num sh_entsize with
  | None => error "section header table out of bounds"
  | Some sh_bytes =>
  match builtin_add_overflow sh_off sh_bytes with
  | None => error "section header table out of bounds"
  | Some sh_end =>
  if size <? sh_end then error "section header table out of bounds" else
  if negb (ph_entsize =? sizeof_Phdr) then error "program headers have wrong size" else
  (* Copy the program and section headers. *)
  phs <- copy_headers (parse_Phdr le) fContents ph_offset sizeof_Phdr (Z.to_nat ph_num) 0;;
  let isExec := existsb (fun p => p_type p =? PT_INTERP) phs in
  shs <- copy_headers (parse_Shdr le) fContents sh_off sizeof_Shdr (Z.to_nat sh_num) 0;;
  (* Get the section header string table section. *)
  shstrtabIndex <- hdr_get e_shstrndx st1;;
  if Z.of_nat (length shs) <=? shstrtabIndex then error "string table index out of bounds" else
  strtab <- vec_index shs shstrtabIndex;;
  let shstrtabSize := sh_size strtab in
  match builtin_add_overflow dataAddress (sh_offset strtab) with
  | None => error "string table overflow"
  | Some _ =>
  _ <- checkPointer fContents (sh_offset strtab) shstrtabSize;;
  if shstrtabSize =? 0 then error "string table size is zero" else
  term <- mem_read fContents (sh_offset strtab + (shstrtabSize - 1)) 1;;
  if negb (bool_decide (term = [x00])) then error "string table is not zero terminated" else
  names <- mem_read fContents (sh_offset strtab) shstrtabSize;;
  let st2 := mkElfFile fContents phs shs le false isExec names [] ∅ [] in
  olds <- old_names st2 (drop 1 shs);;
  ret (mkElfFile fContents phs shs le false isExec names (String.EmptyString :: olds) ∅ [])
  end end end end end.

(** ** Page size *)

Definition getPageSize (st : ElfFile) : outcome Z :=
  if 0 <? forcedPageSize then ret (u32 forcedPageSize) else
  m <- hdr_get e_machine st;;
  if (m =? EM_ALPHA) || (m =? EM_IA_64) || (m =? EM_MIPS) || (m =? EM_PPC)
     || (m =? EM_PPC64) || (m =? EM_AARCH64) || (m =? EM_TILEGX) || (m =? EM_LOONGARCH)
  then ret 0x10000
  else if (m =? EM_SPARC) || (m =? EM_SPARCV9) then ret 0x2000
  else ret 0x1000.

(** ** Loops bounded by a header field

    [for (i = from; i < rdi(hdr()->e_shnum); ++i) body(i)].  The bound is
    read again before every iteration, as the program does.  Every such
    loop of the program starts its body with an access to entry [i] of the
    header vector, whose length the loop does not change: the fuel is that
    length, and an iteration beyond it is left to the body, which fails on
    that access. *)

Fixpoint for_header {S : Type} (file : S -> ElfFile) (f : ehdr_field)
    (body : Z -> S -> outcome S) (fuel : nat) (i : Z) (s : S) : outcome S :=
  n <- hdr_get f (file s);;
  if i <? n then
    match fuel with
    | O => _ <- body i s;; NoFuel
    | S fuel' => s' <- body i s;; for_header file f body fuel' (i + 1) s'
    end
  else ret s.

Definition for_shnum (from : Z) (body : Z -> ElfFile -> outcome ElfFile) (st : ElfFile)
    : outcome ElfFile :=
  for_header id e_shnum body (length (shdrs st)) from st.

(** [v.at(i) = x] / [v[i] = x]: the element must exist. *)
Definition set_shdr (i : Z) (s : Elf_Shdr) (st : ElfFile) : ElfFile :=
  with_shdrs (<[Z.to_nat i := s]> (shdrs st)) st.

Definition set_phdr (i : Z) (p : Elf_Phdr) (st : ElfFile) : ElfFile :=
  with_phdrs (<[Z.to_nat i := p]> (phdrs st)) st.

(** Modelled from the spec: [wri] is declared outside the given sources; by
    §9 it assigns without swapping bytes, so the field receives the value
    converted to its type.  [wri_a] is for the word-sized fields, [wri32]
    for the 32-bit ones. *)
Definition wri_a (v : Z) : Z := to_addr v.
Definition wri32 (v : Z) : Z := u32 v.

(** ** Sorting the header tables *)

(** Modelled from the spec: the comparators [CompPhdr] and [CompShdr] are
    declared outside the given sources; by §4.7 (and the comments at their
    uses) both tables are sorted by offset. *)
Definition CompPhdr (x y : Elf_Phdr) : bool := p_offset x <? p_offset y.
Definition CompShdr (x y : Elf_Shdr) : bool := sh_offset x <? sh_offset y.

Definition sortPhdrs (st : ElfFile) : ElfFile :=
  with_phdrs (stable_sort CompPhdr (phdrs st)) st.

Definition sel_link (shdr : Elf_Shdr) : bool := negb (sh_link shdr =? 0).
Definition sel_info (shdr : Elf_Shdr) : bool :=
  negb (sh_info shdr =? 0) && ((sh_type shdr =? SHT_REL) || (sh_type shdr =? SHT_RELA)).

(** The two loops of [sortShdrs] that record cross references by name;
    [sel] picks the sections whose field [fld] is recorded.  They change
    nothing, so the bound is the same throughout. *)
Definition record_name (sel : Elf_Shdr -> bool) (fld : Elf_Shdr -> Z) (st : ElfFile)
    (acc : outcome (gmap string string)) (i : Z) : outcome (gmap string string) :=
  m <- acc;;
  shdr <- vec_at (shdrs st) i;;
  if sel shdr then
    target <- vec_at (shdrs st) (fld shdr);;
    v <- getSectionName target st;;
    k <- getSectionName shdr st;;
    ret (<[k := v]> m)
  else ret m.

Definition collect_names (sel : Elf_Shdr -> bool) (fld : Elf_Shdr -> Z) (st : ElfFile)
    : outcome (gmap string string) :=
  shnum <- hdr_get e_shnum st;;
  foldl (record_name sel fld st) (ret ∅) (seqZ 1 (shnum - 1)).

Definition restore_link (linkage : gmap string string) (i : Z) (st : ElfFile)
    : outcome ElfFile :=
  shdr <- vec_index (shdrs st) i;;
  if sel_link shdr then
    k <- getSectionName shdr st;;
    idx <- getSectionIndex (default String.EmptyString (linkage !! k)) st;;
    ret (set_shdr i (with_sh_link idx shdr) st)
  else ret st.

Definition restore_info (info : gmap string string) (i : Z) (st : ElfFile)
    : outcome ElfFile :=
  shdr <- vec_at (shdrs st) i;;
  if sel_info shdr then
    k <- getSectionName shdr st;;
    match info !! k with
    | None => Throw "map::at"
    | Some v =>
        idx <- getSectionIndex v st;;
        ret (set_shdr i (with_sh_info idx shdr) st)
    end
  else ret st.

Definition restore_shstrndx (shstrtab : Elf_Shdr) (i : Z) (st : ElfFile)
    : outcome ElfFile :=
  shdr <- vec_at (shdrs st) i;;
  if sh_offset shdr =? sh_offset shstrtab then hdr_set e_shstrndx i st
  else ret st.

Definition sortShdrs (st : ElfFile) : outcome ElfFile :=
  (* Translate sh_link mappings to section names. *)
  linkage <- collect_names sel_link sh_link st;;
  (* Idem for sh_info on certain sections. *)
  info <- collect_names sel_info sh_info st;;
  (* Idem for the index of the .shstrtab section in the ELF header. *)
  strndx <- hdr_get e_shstrndx st;;
  shstrtab <- vec_at (shdrs st) strndx;;
  (* Sort the sections by offset. *)
  st <- match shdrs st with
        | [] => Undef "iterator past the end of an empty vector"
        | null :: rest => ret (with_shdrs (null :: stable_sort CompShdr rest) st)
        end;;
  (* Restore the sh_link mappings. *)
  st <- for_shnum 1 (restore_link linkage) st;;
  (* And the st_info mappings. *)
  st <- for_shnum 1 (restore_info info) st;;
  (* And the .shstrtab index. *)
  for_shnum 1 (restore_shstrndx shstrtab) st.

(** ** The shift primitive *)

Definition zero_Phdr : Elf_Phdr := mkPhdr 0 0 0 0 0 0 0 0.

Definition shift_shdr (startOffset shift : Z) (i : Z) (st : ElfFile) : outcome ElfFile :=
  shdr <- vec_at (shdrs st) i;;
  let sh_off := sh_offset shdr in
  if startOffset <=? sh_off
  then ret (set_shdr i (with_sh_offset (wri_a (sh_off + shift)) shdr) st)
  else ret st.

(** The state of the loop over the program headers: the object,
    [splitIndex] and [splitShift]. *)
Record shift_state : Type := mkShift {
  shift_file : ElfFile;
  splitIndex : Z;
  splitShift : Z }.

Definition shift_phdr (startOffset shift : Z) (i : Z) (s : shift_state)
    : outcome shift_state :=
  let st := shift_file s in
  ph <- vec_at (phdrs st) i;;
  let p_start := p_offset ph in
  r <- (if (p_start <=? startOffset) && (startOffset <? to_addr (p_start + p_filesz ph))
           && (p_type ph =? PT_LOAD)
        then
          _ <- assert (splitIndex s =? -1) "splitIndex == -1";;
          let sshift := u64 (startOffset - p_start) in
          (* This is the load segment we're currently extending within, so we split it. *)
          let ph := with_p_offset (wri_a startOffset) ph in
          let ph := with_p_memsz (wri_a (p_memsz ph - sshift)) ph in
          let ph := with_p_filesz (wri_a (p_filesz ph - sshift)) ph in
          let ph := with_p_paddr (wri_a (p_paddr ph + sshift)) ph in
          let ph := with_p_vaddr (wri_a (p_vaddr ph + sshift)) ph in
          ret (ph, i, sshift, to_addr startOffset)
        else ret (ph, splitIndex s, splitShift s, p_start));;
  let '(ph, sidx, sshift, p_start) := r in
  ph <- (if startOffset <=? p_start then
           let ph := with_p_offset (wri_a (p_start + shift)) ph in
           if negb (p_align ph =? 0)
              && negb (to_addr (p_vaddr ph - p_offset ph) mod p_align ph =? 0)
           then pageSize <- getPageSize st;; ret (with_p_align (wri_a pageSize) ph)
           else ret ph
         else
           (* If we're not physically shifting, shift back virtual memory. *)
           let ph := if shift <=? p_paddr ph
                     then with_p_paddr (wri_a (p_paddr ph - shift)) ph else ph in
           let ph := if shift <=? p_vaddr ph
                     then with_p_vaddr (wri_a (p_vaddr ph - shift)) ph else ph in
           ret ph);;
  ret (mkShift (set_phdr i ph st) sidx sshift).

Definition shiftFile (extraPages startOffset extraBytes : Z) (st : ElfFile)
    : outcome ElfFile :=
  _ <- assert (sizeof_Ehdr <=? startOffset) "startOffset >= sizeof(Elf_Ehdr)";;
  let oldSize := Z.of_nat (length (fileContents st)) in
  _ <- assert (startOffset <? oldSize) "oldSize > startOffset";;
  (* Move the entire contents of the file after 'startOffset' by 'extraPages' pages further. *)
  pageSize <- getPageSize st;;
  let shift := u32 (extraPages * pageSize) in
  c <- vec_resize (u64 (oldSize + shift)) (fileContents st);;
  moved <- mem_read c startOffset (oldSize - startOffset);;
  c <- mem_write c (startOffset + shift) moved;;
  c <- mem_set c startOffset x00 shift;;
  let st := with_fileContents c st in
  (* Adjust the ELF header. *)
  st <- hdr_set e_phoff sizeof_Ehdr st;;
  shoff <- hdr_get e_shoff st;;
  st <- (if startOffset <=? shoff then hdr_set e_shoff (shoff + shift) st else ret st);;
  (* Update the offsets in the section headers. *)
  st <- for_shnum 1 (shift_shdr startOffset shift) st;;
  (* Update the offsets in the program headers. *)
  s <- for_header shift_file e_phnum (shift_phdr startOffset shift) (length (phdrs st)) 0
         (mkShift st (-1) 0);;
  let st := shift_file s in
  _ <- assert (negb (splitIndex s =? -1)) "splitIndex != -1";;
  (* Add another PT_LOAD segment loading the data we've split above. *)
  phnum <- hdr_get e_phnum st;;
  let st := with_phdrs (resize (Z.to_nat (phnum + 1)) zero_Phdr (phdrs st)) st in
  st <- hdr_set e_phnum (phnum + 1) st;;
  phnum <- hdr_get e_phnum st;;
  phdr <- vec_at (phdrs st) (phnum - 1);;
  split <- vec_at (phdrs st) (splitIndex s);;
  pageSize <- getPageSize st;;
  let phdr := with_p_type (wri32 PT_LOAD) phdr in
  let phdr := with_p_offset (wri_a (p_offset split - splitShift s - shift)) phdr in
  let phdr := with_p_paddr (wri_a (p_paddr split - splitShift s - shift)) phdr in
  let phdr := with_p_vaddr (wri_a (p_vaddr split - splitShift s - shift)) phdr in
  let phdr := with_p_memsz (wri_a (splitShift s + extraBytes)) phdr in
  let phdr := with_p_filesz (p_memsz phdr) phdr in
  let phdr := with_p_flags (wri32 (Z.lor PF_R PF_W)) phdr in
  let phdr := with_p_align (wri_a pageSize) phdr in
  ret (set_phdr (phnum - 1) phdr st).

(** ** Writing out the replaced sections *)

(** The pending edits in the order in which [std::map] iterates: by key. *)
Definition edits_in_order (m : gmap string (list byte)) : list (string * list byte) :=
  stable_sort (fun a b => String.ltb (fst a) (fst b)) (map_to_list m).

(** [phdr.p_offset = shdr.sh_offset; phdr.p_vaddr = phdr.p_paddr =
    shdr.sh_addr; phdr.p_filesz = phdr.p_memsz = shdr.sh_size]. *)
Definition sync_with (shdr : Elf_Shdr) (ph : Elf_Phdr) : Elf_Phdr :=
  mkPhdr (p_type ph) (p_flags ph) (sh_offset shdr) (sh_addr shdr) (sh_addr shdr)
         (sh_size shdr) (sh_size shdr) (p_align ph).

(** [for (auto & phdr : phdrs) if (rdi(phdr.p_type) == ptype) ...]. *)
Definition sync_segments (ptype : Z) (shdr : Elf_Shdr) (l : list Elf_Phdr) : list Elf_Phdr :=
  map (fun ph => if p_type ph =? ptype then sync_with shdr ph else ph) l.

(** The loop over the PT_NOTE segments for one replaced note section:
    [l] are the program headers from index [j] on. *)
Fixpoint sync_notes (orig_shdr shdr : Elf_Shdr) (j : nat) (noted : gset nat)
    (l : list Elf_Phdr) : outcome (list Elf_Phdr * gset nat) :=
  match l with
  | [] => ret ([], noted)
  | ph :: l' =>
      r <- (if (p_type ph =? PT_NOTE) && negb (bool_decide (j ∈ noted)) then
              let p_start := p_offset ph in
              let p_end := to_addr (p_start + p_filesz ph) in
              let s_start := sh_offset orig_shdr in
              let s_end := to_addr (s_start + sh_size orig_shdr) in
              (* Skip if no overlap. *)
              if negb ((p_start <=? s_start) && (s_start <? p_end))
                 && negb ((p_start <? s_end) && (s_end <=? p_end))
              then ret (ph, noted)
              (* We only support exact matches. *)
              else if negb (p_start =? s_start) || negb (p_end =? s_end)
              then error "unsupported overlap of SHT_NOTE and PT_NOTE"
              else ret (sync_with shdr ph, {[ j ]} ∪ noted)
            else ret (ph, noted));;
      rest <- sync_notes orig_shdr shdr (S j) (snd r) l';;
      ret (fst r :: fst rest, snd rest)
  end.

Record write_state : Type := mkWrite {
  w_file : ElfFile;
  w_curOff : Z;
  w_noted : gset nat }.

(** One iteration of [for (auto & shdr : shdrs)] in
    [writeReplacedSections], for the header at index [k]. *)
Definition write_section (startAddr startOffset : Z) (k : nat) (s : write_state)
    : outcome write_state :=
  let st := w_file s in
  let curOff := w_curOff s in
  shdr <- vec_index (shdrs st) (Z.of_nat k);;
  sectionName <- getSectionName shdr st;;
  match replacedSections st !! sectionName with
  | None => ret s
  | Some content =>
      let orig_shdr := shdr in
      let size := Z.of_nat (length content) in
      c <- mem_write (fileContents st) curOff content;;
      (* Update the section header for this section. *)
      let shdr := with_sh_offset (wri_a curOff) shdr in
      let shdr := with_sh_addr (wri_a (startAddr + (curOff - startOffset))) shdr in
      let shdr := with_sh_size (wri_a size) shdr in
      let shdr := with_sh_addralign (wri_a sectionAlignment) shdr in
      (* .interp and .dynamic: keep PT_INTERP / PT_DYNAMIC in sync. *)
      let phs :=
        if decide (sectionName = ".interp") then sync_segments PT_INTERP shdr (phdrs st)
        else if decide (sectionName = ".dynamic") then sync_segments PT_DYNAMIC shdr (phdrs st)
        else phdrs st in
      (* Note sections: keep the original alignment if possible, and
         sync the PT_NOTE segment that maps exactly this section. *)
      r <- (if sh_type shdr =? SHT_NOTE then
              let shdr := if sh_addralign orig_shdr <? sectionAlignment
                          then with_sh_addralign (sh_addralign orig_shdr) shdr else shdr in
              n <- sync_notes orig_shdr shdr 0 (w_noted s) phs;;
              ret (shdr, fst n, snd n)
            else ret (shdr, phs, w_noted s));;
      let '(shdr, phs, noted) := r in
      let phs := if decide (sectionName = ".MIPS.abiflags")
                 then sync_segments PT_MIPS_ABIFLAGS shdr phs else phs in
      let phs := if decide (sectionName = ".note.gnu.property")
                 then sync_segments PT_GNU_PROPERTY shdr phs else phs in
      step <- roundUp size sectionAlignment;;
      let st := with_fileContents c st in
      let st := with_shdrs (<[k := shdr]> (shdrs st)) st in
      let st := with_phdrs phs st in
      ret (mkWrite st (to_addr (curOff + step)) noted)
  end.

Fixpoint write_sections (startAddr startOffset : Z) (n : nat) (k : nat) (s : write_state)
    : outcome write_state :=
  match n with
  | O => ret s
  | S n' =>
      s' <- write_section startAddr startOffset k s;;
      write_sections startAddr startOffset n' (S k) s'
  end.

(** Overwrite the old contents of one replaced section with 'Z's. *)
Definition clobber (acc : outcome ElfFile) (e : string * list byte) : outcome ElfFile :=
  st <- acc;;
  shdr <- findSectionHeader (fst e) st;;
  if negb (sh_type shdr =? SHT_NOBITS) then
    c <- mem_set (fileContents st) (sh_offset shdr) x5a (sh_size shdr);;
    ret (with_fileContents c st)
  else ret st.

(** [writeReplacedSections(curOff, startAddr, startOffset)]; the result
    carries the final value of the reference parameter [curOff]. *)
Definition writeReplacedSections (curOff startAddr startOffset : Z) (st : ElfFile)
    : outcome (ElfFile * Z) :=
  st <- (if clobberOldSections
         then foldl clobber (ret st) (edits_in_order (replacedSections st))
         else ret st);;
  s <- write_sections startAddr startOffset (length (shdrs st)) 0 (mkWrite st curOff ∅);;
  ret (with_replacedSections ∅ (w_file s), w_curOff s).

(** ** Note-segment normalizer *)

(** [std::any_of] over the pending edits: is one of them a note section? *)
Fixpoint any_replaced_note (st : ElfFile) (l : list (string * list byte)) : outcome bool :=
  match l with
  | [] => ret false
  | e :: l' =>
      shdr <- findSectionHeader (fst e) st;;
      if sh_type shdr =? SHT_NOTE then ret true else any_replaced_note st l'
  end.

(** The search for the section that starts at the current offset: the
    resulting [size] (0 when there is none) and [curr_off]. *)
Fixpoint find_note (curr_off : Z) (l : list Elf_Shdr) : outcome (Z * Z) :=
  match l with
  | [] => ret (0, curr_off)
  | shdr :: l' =>
      if negb (sh_type shdr =? SHT_NOTE) then find_note curr_off l'
      else
        r <- roundUp curr_off (sh_addralign shdr);;
        if negb (sh_offset shdr =? r) then find_note curr_off l'
        else ret (sh_size shdr, r)
  end.

(** The program header built for the note section found at [curr_off]. *)
Definition note_phdr (phdr : Elf_Phdr) (start_off curr_off size : Z) : Elf_Phdr :=
  let new_phdr := phdr in
  let new_phdr := with_p_offset (wri_a curr_off) new_phdr in
  let new_phdr := with_p_vaddr (wri_a (p_vaddr phdr + (curr_off - start_off))) new_phdr in
  let new_phdr := with_p_paddr (wri_a (p_paddr phdr + (curr_off - start_off))) new_phdr in
  let new_phdr := with_p_filesz (wri_a size) new_phdr in
  with_p_memsz (wri_a size) new_phdr.

(** [while (curr_off < end_off)] for one PT_NOTE segment: [phdr] is the
    segment's own entry, [newPhdrs] the entries to append. *)
Fixpoint note_walk (fuel : nat) (shs : list Elf_Shdr) (start_off end_off curr_off : Z)
    (phdr : Elf_Phdr) (newPhdrs : list Elf_Phdr) : outcome (Elf_Phdr * list Elf_Phdr) :=
  if curr_off <? end_off then
    match fuel with
    | O => NoFuel
    | S fuel' =>
        (* Find a section that starts at the current offset. *)
        r <- find_note curr_off shs;;
        let (size, curr_off) := r : Z * Z in
        if size =? 0
        then error "cannot normalize PT_NOTE segment: non-contiguous SHT_NOTE sections"
        else if end_off <? u64 (curr_off + size)
        then error "cannot normalize PT_NOTE segment: partially mapped SHT_NOTE section"
        else
          (* Build a new phdr for this note section. *)
          let new_phdr := note_phdr phdr start_off curr_off size in
          (* If we haven't yet, reuse the existing phdr entry. Otherwise add
             a new phdr to the table. *)
          if curr_off =? start_off
          then note_walk fuel' shs start_off end_off (u64 (curr_off + size)) new_phdr newPhdrs
          else note_walk fuel' shs start_off end_off (u64 (curr_off + size)) phdr
                 (newPhdrs ++ [new_phdr])
    end
  else ret (phdr, newPhdrs).

(** Is no section header's offset inside [[start_off, end_off)]? *)
Definition note_segment_empty (shs : list Elf_Shdr) (start_off end_off : Z) : bool :=
  forallb (fun shdr => negb ((start_off <=? sh_offset shdr) && (sh_offset shdr <? end_off))) shs.

(** [for (auto & phdr : phdrs)]: the entries from here on, and the entries
    collected so far to append. *)
Fixpoint normalize_loop (fuel : nat) (shs : list Elf_Shdr) (l : list Elf_Phdr)
    (newPhdrs : list Elf_Phdr) : outcome (list Elf_Phdr * list Elf_Phdr) :=
  match l with
  | [] => ret ([], newPhdrs)
  | phdr :: l' =>
      if negb (p_type phdr =? PT_NOTE) then
        rest <- normalize_loop fuel shs l' newPhdrs;;
        ret (phdr :: fst rest, snd rest)
      else
        let start_off := p_offset phdr in
        let end_off := u64 (start_off + p_filesz phdr) in
        (* Binaries produced by older patchelf versions may contain empty
           PT_NOTE segments; ignore them. *)
        if note_segment_empty shs start_off end_off then
          rest <- normalize_loop fuel shs l' newPhdrs;;
          ret (phdr :: fst rest, snd rest)
        else
          r <- note_walk fuel shs start_off end_off start_off phdr newPhdrs;;
          rest <- normalize_loop fuel shs l' (snd r);;
          ret (fst r :: fst rest, snd rest)
  end.

Definition normalizeNoteSegments (fuel : nat) (st : ElfFile) : outcome ElfFile :=
  (* We don't need to do anything if no note segments were replaced. *)
  replaced_note <- any_replaced_note st (edits_in_order (replacedSections st));;
  if negb replaced_note then ret st else
  r <- normalize_loop fuel (shdrs st) (phdrs st) [];;
  let st := with_phdrs (fst r ++ snd r) st in
  hdr_set e_phnum (Z.of_nat (length (phdrs st))) st.

(** ** Header rewriter *)

(** The first PT_PHDR entry is pointed at the new program header table. *)
Fixpoint update_PT_PHDR (phoff phdrAddress tableSize : Z) (l : list Elf_Phdr)
    : list Elf_Phdr :=
  match l with
  | [] => []
  | phdr :: l' =>
      if p_type phdr =? PT_PHDR then
        let phdr := with_p_offset phoff phdr in
        let phdr := with_p_paddr (wri_a phdrAddress) phdr in
        let phdr := with_p_vaddr (p_paddr phdr) phdr in
        let phdr := with_p_memsz (wri_a tableSize) phdr in
        let phdr := with_p_filesz (p_memsz phdr) phdr in
        phdr :: l'
      else phdr :: update_PT_PHDR phoff phdrAddress tableSize l'
  end.

(** The loop that stores [phdrs.at(i)] as entry [i] of the table at
    [rdi(hdr()->e_phoff)], for [i] below [phdrs.size()]. *)
Fixpoint write_phdrs (l : list Elf_Phdr) (i : Z) (st : ElfFile) : outcome ElfFile :=
  match l with
  | [] => ret st
  | phdr :: l' =>
      phoff <- hdr_get e_phoff st;;
      c <- mem_write (fileContents st) (phoff + i * sizeof_Phdr)
             (bytes_Phdr (littleEndian st) phdr);;
      write_phdrs l' (i + 1) (with_fileContents c st)
  end.

Definition write_shdr (i : Z) (st : ElfFile) : outcome ElfFile :=
  shoff <- hdr_get e_shoff st;;
  shdr <- vec_at (shdrs st) i;;
  c <- mem_write (fileContents st) (shoff + i * sizeof_Shdr)
         (bytes_Shdr (littleEndian st) shdr);;
  ret (with_fileContents c st).

(** Reading and writing the two words of the [Elf_Dyn] at offset [off]. *)
Definition dyn_tag (off : Z) (st : ElfFile) : outcome Z :=
  bs <- mem_read (fileContents st) off sizeof_Off;;
  ret (u32 (rdi (littleEndian st) bs)).

Definition dyn_set (off : Z) (v : Z) (st : ElfFile) : outcome ElfFile :=
  c <- mem_write (fileContents st) (off + dyn_off_un)
         (field_bytes (littleEndian st) (Z.to_nat sizeof_Off) v);;
  ret (with_fileContents c st).

(** The value a dynamic entry with tag [d_tag] at [dyn_offset] bytes into
    the table is given, [None] when the entry is left alone, and what is
    printed. *)
Definition dyn_value (d_tag dyn_offset : Z) (shdrDynamic : Elf_Shdr) (st : ElfFile)
    : outcome (option Z * list string) :=
  if d_tag =? DT_STRTAB then s <- findSectionHeader ".dynstr" st;; ret (Some (sh_addr s), [])
  else if d_tag =? DT_STRSZ then s <- findSectionHeader ".dynstr" st;; ret (Some (sh_size s), [])
  else if d_tag =? DT_SYMTAB then s <- findSectionHeader ".dynsym" st;; ret (Some (sh_addr s), [])
  else if d_tag =? DT_HASH then s <- findSectionHeader ".hash" st;; ret (Some (sh_addr s), [])
  else if d_tag =? DT_GNU_HASH then
    shdr <- tryFindSectionHeader ".gnu.hash" st;;
    ret (sh_addr <$> shdr, [])
  else if d_tag =? DT_MIPS_XHASH then
    s <- findSectionHeader ".MIPS.xhash" st;; ret (Some (sh_addr s), [])
  else if d_tag =? DT_JMPREL then
    shdr <- tryFindSectionHeader ".rel.plt" st;;
    shdr <- (if shdr is None then tryFindSectionHeader ".rela.plt" st else ret shdr);;
    shdr <- (if shdr is None then tryFindSectionHeader ".rela.IA_64.pltoff" st else ret shdr);;
    match shdr with
    | None => error "cannot find section corresponding to DT_JMPREL"
    | Some s => ret (Some (sh_addr s), [])
    end
  else if d_tag =? DT_REL then
    shdr <- tryFindSectionHeader ".rel.dyn" st;;
    shdr <- (if shdr is None then tryFindSectionHeader ".rel.got" st else ret shdr);;
    ret (sh_addr <$> shdr, [])
  else if d_tag =? DT_RELA then
    shdr <- tryFindSectionHeader ".rela.dyn" st;;
    ret (sh_addr <$> shdr, [])
  else if d_tag =? DT_VERNEED then
    s <- findSectionHeader ".gnu.version_r" st;; ret (Some (sh_addr s), [])
  else if d_tag =? DT_VERSYM then
    s <- findSectionHeader ".gnu.version" st;; ret (Some (sh_addr s), [])
  else if d_tag =? DT_MIPS_RLD_MAP_REL then
    shdr <- tryFindSectionHeader ".rld_map" st;;
    match shdr with
    | Some _ =>
        s <- findSectionHeader ".rld_map" st;;
        let rld_map_addr := sh_addr s in
        ret (Some (to_addr (rld_map_addr - dyn_offset - sh_addr shdrDynamic)), [])
    | None =>
        ret (Some 0,
             ["warning: DT_MIPS_RLD_MAP_REL entry is present, but .rld_map section is not"])
    end
  else ret (None, []).

(** The loop over the dynamic table, which ends at the DT_NULL entry; an
    entry is [sizeof_Dyn] bytes, so [n] = the size of the file is more
    iterations than fit in it. *)
Fixpoint update_dynamic (n : nat) (shdrDynamic : Elf_Shdr) (dyn_table dyn : Z)
    (st : ElfFile) : outcome ElfFile :=
  d_tag <- dyn_tag dyn st;;
  if d_tag =? DT_NULL then ret st else
  match n with
  | O => Undef "read outside the file contents"
  | S n' =>
      r <- dyn_value d_tag (dyn - dyn_table) shdrDynamic st;;
      let st := with_stderr (stderr st ++ snd r) st in
      st <- (match fst r with
             | Some v => dyn_set dyn v st
             | None => ret st
             end);;
      update_dynamic n' shdrDynamic dyn_table (dyn + sizeof_Dyn) st
  end.

(** Reading and writing the fields of the [Elf_Sym] at offset [sym]. *)
Definition sym_get (sym fld size : Z) (st : ElfFile) : outcome Z :=
  bs <- mem_read (fileContents st) (sym + fld) size;;
  ret (rdi (littleEndian st) bs).

Definition sym_set (sym fld size : Z) (v : Z) (st : ElfFile) : outcome ElfFile :=
  c <- mem_write (fileContents st) (sym + fld)
         (field_bytes (littleEndian st) (Z.to_nat size) v);;
  ret (with_fileContents c st).

(** The warning for a symbol whose section index [shndx] names no section
    of the file as it was opened: the line that [fprintf] prints with
    [%d]. *)
Definition symbol_warning (shndx : Z) : string :=
  "warning: entry " +:+ pretty shndx
  +:+ " in symbol table refers to a non-existent section, skipping".

(** The body of the loop over the entries of a symbol table: the entry at
    offset [sym]. *)
Definition rewrite_symbol (sym : Z) (st : ElfFile) : outcome ElfFile :=
  shndx <- sym_get sym sym_off_shndx 2 st;;
  if negb (shndx =? SHN_UNDEF) && (shndx <? SHN_LORESERVE) then
    if Z.of_nat (length (sectionsByOldIndex st)) <=? shndx then
      ret (warn (symbol_warning shndx) st)
    else
      section <- vec_at (sectionsByOldIndex st) shndx;;
      _ <- assert (negb (bool_decide (section = String.EmptyString))) "!section.empty()";;
      newIndex <- getSectionIndex section st;;
      st <- sym_set sym sym_off_shndx 2 newIndex st;;
      (* Rewrite st_value. *)
      info <- sym_get sym sym_off_info 1 st;;
      if ELF32_ST_TYPE info =? STT_SECTION then
        target <- vec_at (shdrs st) newIndex;;
        sym_set sym sym_off_value sizeof_Off (sh_addr target) st
      else ret st
  else ret st.

(** [for (entry = 0; (entry + 1) * sizeof(Elf_Sym) <= rdi(shdr.sh_size);
    entry++)]; entries that do not lie in the file end the run, so [n] =
    the size of the file is more iterations than can complete. *)
Fixpoint rewrite_symbols (n : nat) (shdr : Elf_Shdr) (entry : Z) (st : ElfFile)
    : outcome ElfFile :=
  if u64 ((entry + 1) * sizeof_Sym) <=? sh_size shdr then
    match n with
    | O => Undef "read outside the file contents"
    | S n' =>
        st <- rewrite_symbol (sh_offset shdr + entry * sizeof_Sym) st;;
        rewrite_symbols n' shdr (entry + 1) st
    end
  else ret st.

Definition rewrite_symtab (i : Z) (st : ElfFile) : outcome ElfFile :=
  shdr <- vec_at (shdrs st) i;;
  if negb (sh_type shdr =? SHT_SYMTAB) && negb (sh_type shdr =? SHT_DYNSYM) then ret st
  else rewrite_symbols (length (fileContents st)) shdr 0 st.

Definition noSort : bool := false.

Definition rewriteHeaders (phdrAddress : Z) (st : ElfFile) : outcome ElfFile :=
  (* Rewrite the program header table. *)
  phoff <- hdr_get e_phoff st;;
  let st := with_phdrs (update_PT_PHDR phoff phdrAddress
                          (u64 (Z.of_nat (length (phdrs st)) * sizeof_Phdr)) (phdrs st)) st in
  let st := if negb noSort then sortPhdrs st else st in
  st <- write_phdrs (phdrs st) 0 st;;
  (* Rewrite the section header table. *)
  shnum <- hdr_get e_shnum st;;
  _ <- assert (shnum =? Z.of_nat (length (shdrs st))) "rdi(hdr()->e_shnum) == shdrs.size()";;
  st <- (if negb noSort then sortShdrs st else ret st);;
  st <- for_shnum 1 write_shdr st;;
  (* Update all those nasty virtual addresses in the .dynamic section. *)
  shdrDynamic <- tryFindSectionHeader ".dynamic" st;;
  st <- (match shdrDynamic with
         | Some dynamic =>
             update_dynamic (length (fileContents st)) dynamic
               (sh_offset dynamic) (sh_offset dynamic) st
         | None => ret st
         end);;
  (* Rewrite the symbol tables: the section indices need to be remapped. *)
  for_shnum 1 rewrite_symtab st.

(** ** Layout planner: the library strategy (ET_DYN) *)

(** The first loop of [rewriteSectionsLibrary]: [startPage], [firstPage]
    and [alignStartPage] after the program headers [l]. *)
Fixpoint scan_segments (l : list Elf_Phdr) (startPage firstPage alignStartPage : Z)
    : Z * Z * Z :=
  match l with
  | [] => (startPage, firstPage, alignStartPage)
  | phdr :: l' =>
      let thisPage := to_addr (p_vaddr phdr + p_memsz phdr) in
      let startPage := if startPage <? thisPage then thisPage else startPage in
      let firstPage := if p_type phdr =? PT_PHDR
                       then to_addr (p_vaddr phdr - p_offset phdr) else firstPage in
      let thisAlign := u32 (p_align phdr) in
      scan_segments l' startPage firstPage (Z.max alignStartPage thisAlign)
  end.

(** Does a section that cannot be moved lie where the grown program header
    table would go?  [rest] are the section headers from index [i] on. *)
Fixpoint pht_blocked (st : ElfFile) (shnum phtSize : Z) (i : Z) (rest : list Elf_Shdr)
    : outcome bool :=
  if i <? shnum then
    match rest with
    | [] => Throw "vector::at: index out of range"
    | shdr :: rest' =>
        if i64 (sh_offset shdr) <=? phtSize then
          sectionName <- getSectionName shdr st;;
          if hasReplacedSection sectionName st then pht_blocked st shnum phtSize (i + 1) rest'
          else
            can <- canReplaceSection sectionName st;;
            if can then pht_blocked st shnum phtSize (i + 1) rest' else ret true
        else ret false
    end
  else ret false.

(** The sections in the way of the program header table are scheduled as
    edits of their current size. *)
Fixpoint pht_make_room (shnum phtSize : Z) (i : Z) (rest : list Elf_Shdr) (st : ElfFile)
    : outcome ElfFile :=
  if i <? shnum then
    match rest with
    | [] => Throw "vector::at: index out of range"
    | shdr :: rest' =>
        if i64 (sh_offset shdr) <=? phtSize then
          sectionName <- getSectionName shdr st;;
          let sectionSize := sh_size shdr in
          st <- (if hasReplacedSection sectionName st then ret st
                 else r <- replaceSection sectionName sectionSize st;; ret (fst r));;
          pht_make_room shnum phtSize (i + 1) rest' st
        else ret st
    end
  else ret st.

(** [neededSpace += roundUp(s.second.size(), sectionAlignment)] over the
    pending edits, on an integer type converted to by [conv]. *)
Definition add_edit_sizes (conv : Z -> Z) (neededSpace : Z) (st : ElfFile) : outcome Z :=
  foldl (fun acc e => n <- acc;;
                      r <- roundUp (Z.of_nat (length (snd e))) sectionAlignment;;
                      ret (conv (n + r)))
        (ret neededSpace) (edits_in_order (replacedSections st)).

(** What the library strategy has decided when it resizes the file. *)
Record library_layout : Type := mkLayout {
  lay_startPage : Z;
  lay_firstPage : Z;
  lay_alignStartPage : Z;
  lay_phtSize : Z;
  lay_shtSize : Z;
  lay_relocatePht : bool;
  lay_neededSpace : Z;
  lay_startOffset : Z }.

(** [rewriteSectionsLibrary] up to and including the resize of the file. *)
Definition library_plan (st : ElfFile) : outcome (ElfFile * library_layout) :=
  pageSize <- getPageSize st;;
  let '(startPage, firstPage, alignStartPage) := scan_segments (phdrs st) 0 0 pageSize in
  startPage <- roundUp startPage alignStartPage;;
  let startPage := to_addr startPage in
  (* When normalizing note segments we will in the worst case be adding
     1 program header for each SHT_NOTE section. *)
  let num_notes :=
    u32 (Z.of_nat (length (List.filter (fun shdr => sh_type shdr =? SHT_NOTE) (shdrs st)))) in
  phtSize <- roundUp (u64 ((Z.of_nat (length (phdrs st)) + num_notes + 1) * sizeof_Phdr
                           + sizeof_Ehdr)) sectionAlignment;;
  let phtSize := i64 phtSize in
  shnum <- hdr_get e_shnum st;;
  shentsize <- hdr_get e_shentsize st;;
  shbytes <- mul_int shnum shentsize;;
  shtSize <- roundUp shbytes sectionAlignment;;
  let shtSize := i64 shtSize in
  (* Check if we can keep PHT at the beginning of the file. *)
  relocatePht <- pht_blocked st shnum phtSize 1 (drop 1 (shdrs st));;
  st <- (if negb relocatePht
         then pht_make_room shnum phtSize 1 (drop 1 (shdrs st)) st
         else ret st);;
  (* Calculate how much space we'll need. *)
  let neededSpace := shtSize in
  let neededSpace := if relocatePht then i64 (neededSpace + phtSize) else neededSpace in
  neededSpace <- add_edit_sizes i64 neededSpace st;;
  startOffset <- roundUp (Z.of_nat (length (fileContents st))) alignStartPage;;
  let startOffset := to_addr startOffset in
  let binutilsQuirkPadding := 1 in
  c <- vec_resize (u64 (startOffset + neededSpace + binutilsQuirkPadding)) (fileContents st);;
  ret (with_fileContents c st,
       mkLayout startPage firstPage alignStartPage phtSize shtSize relocatePht
                neededSpace startOffset).

(** [startOffset + neededSpace] with [startOffset] an [Elf_Off] and
    [neededSpace] an [off_t]: unsigned 64-bit arithmetic for the 64-bit
    class, signed 64-bit arithmetic for the 32-bit class. *)
Definition off_plus (a b : Z) : Z :=
  match ElfClass with ELFCLASS64 => u64 (a + b) | ELFCLASS32 => i64 (a + b) end.

(** The segment that maps the new space: the last one is extended when it
    fits, otherwise a new PT_LOAD is added.  The result carries
    [lastSegAddr]. *)
Definition library_segment (lay : library_layout) (st : ElfFile) : outcome (ElfFile * Z) :=
  let startOffset := lay_startOffset lay in
  let neededSpace := lay_neededSpace lay in
  let alignStartPage := lay_alignStartPage lay in
  let startPage := lay_startPage lay in
  match last (phdrs st) with
  | None => Undef "back() of an empty vector"
  | Some lastSeg =>
      (* As an optimization, instead of allocating a new PT_LOAD segment,
         try expanding the last one. *)
      r <- (if (p_type lastSeg =? PT_LOAD) && (p_flags lastSeg =? Z.lor PF_R PF_W)
               && (p_align lastSeg =? alignStartPage)
            then
              segEnd <- roundUp (to_addr (p_offset lastSeg + p_memsz lastSeg)) alignStartPage;;
              if segEnd =? startOffset then
                let newSz := off_plus startOffset neededSpace - p_offset lastSeg in
                let lastSeg := with_p_memsz (wri_a newSz) lastSeg in
                let lastSeg := with_p_filesz (p_memsz lastSeg) lastSeg in
                ret (with_phdrs (<[pred (length (phdrs st)) := lastSeg]> (phdrs st)) st,
                     to_addr (p_vaddr lastSeg + newSz - neededSpace))
              else ret (st, 0)
            else ret (st, 0));;
      let (st, lastSegAddr) := r : ElfFile * Z in
      if lastSegAddr =? 0 then
        (* Add a segment that maps the replaced sections into memory. *)
        phnum <- hdr_get e_phnum st;;
        let st := with_phdrs (resize (Z.to_nat (phnum + 1)) zero_Phdr (phdrs st)) st in
        st <- hdr_set e_phnum (phnum + 1) st;;
        phnum <- hdr_get e_phnum st;;
        phdr <- vec_at (phdrs st) (phnum - 1);;
        let phdr := with_p_type (wri32 PT_LOAD) phdr in
        let phdr := with_p_offset (wri_a startOffset) phdr in
        let phdr := with_p_paddr (wri_a startPage) phdr in
        let phdr := with_p_vaddr (p_paddr phdr) phdr in
        let phdr := with_p_memsz (wri_a neededSpace) phdr in
        let phdr := with_p_filesz (p_memsz phdr) phdr in
        let phdr := with_p_flags (wri32 (Z.lor PF_R PF_W)) phdr in
        let phdr := with_p_align (wri_a alignStartPage) phdr in
        let st := set_phdr (phnum - 1) phdr st in
        _ <- assert (startPage mod alignStartPage =? startOffset mod alignStartPage)
               "startPage % alignStartPage == startOffset % alignStartPage";;
        ret (st, startPage)
      else ret (st, lastSegAddr)
  end.

(** [rewriteSectionsLibrary] after the segment is in place. *)
Definition library_write (fuel : nat) (lay : library_layout) (lastSegAddr : Z)
    (st : ElfFile) : outcome ElfFile :=
  let startOffset := lay_startOffset lay in
  let neededSpace := lay_neededSpace lay in
  st <- normalizeNoteSegments fuel st;;
  (* Write out the replaced sections. *)
  let curOff := startOffset in
  r <- (if lay_relocatePht lay then
          st <- hdr_set e_phoff curOff st;;
          ret (st, to_addr (curOff + lay_phtSize lay))
        else ret (st, curOff));;
  let (st, curOff) := r : ElfFile * Z in
  st <- hdr_set e_shoff curOff st;;
  let curOff := to_addr (curOff + lay_shtSize lay) in
  r <- writeReplacedSections curOff (lay_startPage lay) startOffset st;;
  let (st, curOff) := r : ElfFile * Z in
  _ <- assert (curOff =? off_plus startOffset neededSpace) "curOff == startOffset + neededSpace";;
  (* Write out the updated program and section headers *)
  if lay_relocatePht lay then rewriteHeaders lastSegAddr st
  else
    phoff <- hdr_get e_phoff st;;
    rewriteHeaders (to_addr (lay_firstPage lay + phoff)) st.

(** [library_write] in two phases.  The first runs from
    [normalizeNoteSegments] to the return of [writeReplacedSections] and
    gives the object and the write cursor [curOff] at that point; the
    second is what follows the assertion on the cursor, the rewrite of the
    headers. *)
Definition library_placement (fuel : nat) (lay : library_layout) (st : ElfFile)
    : outcome (ElfFile * Z) :=
  let startOffset := lay_startOffset lay in
  st <- normalizeNoteSegments fuel st;;
  (* Write out the replaced sections. *)
  let curOff := startOffset in
  r <- (if lay_relocatePht lay then
          st <- hdr_set e_phoff curOff st;;
          ret (st, to_addr (curOff + lay_phtSize lay))
        else ret (st, curOff));;
  let (st, curOff) := r : ElfFile * Z in
  st <- hdr_set e_shoff curOff st;;
  let curOff := to_addr (curOff + lay_shtSize lay) in
  writeReplacedSections curOff (lay_startPage lay) startOffset st.

Definition library_headers (lay : library_layout) (lastSegAddr : Z) (st : ElfFile)
    : outcome ElfFile :=
  if lay_relocatePht lay then rewriteHeaders lastSegAddr st
  else
    phoff <- hdr_get e_phoff st;;
    rewriteHeaders (to_addr (lay_firstPage lay + phoff)) st.

Definition rewriteSectionsLibrary (fuel : nat) (st : ElfFile) : outcome ElfFile :=
  p <- library_plan st;;
  let (st, lay) := p : ElfFile * library_layout in
  s <- library_segment lay st;;
  let (st, lastSegAddr) := s : ElfFile * Z in
  library_write fuel lay lastSegAddr st.

(** ** Layout planner: the executable strategy (ET_EXEC) *)

(** The index of the last replaced section: [rest] are the section headers
    from index [i] on. *)
Fixpoint last_replaced (st : ElfFile) (shnum : Z) (i : Z) (rest : list Elf_Shdr)
    (lastReplaced : Z) : outcome Z :=
  if i <? shnum then
    match rest with
    | [] => Throw "vector::at: index out of range"
    | shdr :: rest' =>
        sectionName <- getSectionName shdr st;;
        last_replaced st shnum (i + 1) rest'
          (if hasReplacedSection sectionName st then i else lastReplaced)
    end
  else ret lastReplaced.

(** What the walk over the sections before the last replaced one decides. *)
Record exec_walk : Type := mkWalk {
  walk_file : ElfFile;
  walk_startOffset : Z;
  walk_startAddr : Z;
  walk_lastReplaced : Z }.

(** [for (i = 1; i <= lastReplaced; ++i)]: [rest] are the section headers
    from index [i] on, [w] holds the values the variables have when the
    loop runs to its end. *)
Fixpoint walk_sections (lastReplaced : Z) (i : Z) (rest : list Elf_Shdr)
    (prevSection : string) (w : exec_walk) : outcome exec_walk :=
  if i <=? lastReplaced then
    match rest with
    | [] => Throw "vector::at: index out of range"
    | shdr :: rest' =>
        let st := walk_file w in
        sectionName <- getSectionName shdr st;;
        (* !!! Why do we stop after a .dynstr section? I can't remember! *)
        if ((sh_type shdr =? SHT_PROGBITS) && negb (bool_decide (sectionName = ".interp")))
           || bool_decide (prevSection = ".dynstr")
        then ret (mkWalk st (sh_offset shdr) (sh_addr shdr) (i - 1))
        else
          st <- (if negb (hasReplacedSection sectionName st)
                 then r <- replaceSection sectionName (sh_size shdr) st;; ret (fst r)
                 else ret st);;
          walk_sections lastReplaced (i + 1) rest' sectionName
            (mkWalk st (walk_startOffset w) (walk_startAddr w) (walk_lastReplaced w))
    end
  else ret w.

(** [rewriteSectionsExecutable] up to the end of the walk. *)
Definition executable_walk (st : ElfFile) : outcome exec_walk :=
  st <- (if negb noSort then sortShdrs st else ret st);;
  (* What is the index of the last replaced section? *)
  shnum <- hdr_get e_shnum st;;
  lastReplaced <- last_replaced st shnum 1 (drop 1 (shdrs st)) 0;;
  _ <- assert (negb (lastReplaced =? 0)) "lastReplaced != 0";;
  (* Try to replace all sections before that, as far as possible. *)
  _ <- assert (lastReplaced + 1 <? Z.of_nat (length (shdrs st)))
         "lastReplaced + 1 < shdrs.size()";;
  next <- vec_at (shdrs st) (lastReplaced + 1);;
  walk_sections lastReplaced 1 (drop 1 (shdrs st)) String.EmptyString
    (mkWalk st (sh_offset next) (sh_addr next) lastReplaced).

(** The first PT_LOAD that covers the end of the program header table is
    extended to cover the needed space. *)
Fixpoint cover_phdrs (curOff neededSpace : Z) (l : list Elf_Phdr) : list Elf_Phdr :=
  match l with
  | [] => []
  | phdr :: l' =>
      if (p_type phdr =? PT_LOAD) && (p_offset phdr <=? curOff)
         && (curOff <? to_addr (p_offset phdr + p_filesz phdr))
         && (p_filesz phdr <? neededSpace)
      then with_p_memsz (wri_a neededSpace) (with_p_filesz (wri_a neededSpace) phdr) :: l'
      else phdr :: cover_phdrs curOff neededSpace l'
  end.

Definition rewriteSectionsExecutable (fuel : nat) (st : ElfFile) : outcome ElfFile :=
  w <- executable_walk st;;
  let st := walk_file w in
  let startOffset := walk_startOffset w in
  let startAddr := walk_startAddr w in
  pageSize <- getPageSize st;;
  _ <- assert (startAddr mod pageSize =? startOffset mod pageSize)
         "startAddr % getPageSize() == startOffset % getPageSize()";;
  let firstPage := to_addr (startAddr - startOffset) in
  shoff <- hdr_get e_shoff st;;
  st <- (if shoff <? startOffset then
           (* The section headers occur too early in the file and would be
              overwritten by the replaced sections. Move them to the end of
              the file before proceeding. *)
           let shoffNew := i64 (Z.of_nat (length (fileContents st))) in
           shnum <- hdr_get e_shnum st;;
           shentsize <- hdr_get e_shentsize st;;
           shbytes <- mul_int shnum shentsize;;
           let shSize := i64 (to_addr (shoff + shbytes)) in
           c <- vec_resize (u64 (Z.of_nat (length (fileContents st)) + shSize))
                  (fileContents st);;
           st <- hdr_set e_shoff shoffNew (with_fileContents c st);;
           shnum <- hdr_get e_shnum st;;
           _ <- assert (shnum =? Z.of_nat (length (shdrs st)))
                  "rdi(hdr()->e_shnum) == shdrs.size()";;
           st <- sortShdrs st;;
           for_shnum 1 write_shdr st
         else ret st);;
  st <- normalizeNoteSegments fuel st;;
  (* Compute the total space needed for the replaced sections, the ELF
     header, and the program headers. *)
  let neededSpace := u64 (sizeof_Ehdr + Z.of_nat (length (phdrs st)) * sizeof_Phdr) in
  neededSpace <- add_edit_sizes u64 neededSpace st;;
  (* If we need more space at the start of the file, then grow the file by
     the minimum number of pages and adjust internal offsets. *)
  r <- (if startOffset <? neededSpace then
          (* We also need an additional program header, so adjust for that. *)
          let neededSpace := u64 (neededSpace + sizeof_Phdr) in
          (* Calculate how many bytes are needed out of the additional pages. *)
          let extraSpace := u64 (neededSpace - startOffset) in
          pageSize <- getPageSize st;;
          up <- roundUp extraSpace pageSize;;
          (* Always give one extra page. *)
          let neededPages := u32 (1 + up / pageSize) in
          if firstPage <? u32 (neededPages * pageSize)
          then error "virtual address space underrun!"
          else
            st <- shiftFile neededPages startOffset extraSpace st;;
            pageSize <- getPageSize st;;
            ret (st, neededSpace,
                 to_addr (firstPage - u32 (neededPages * pageSize)),
                 u64 (startOffset + u32 (neededPages * pageSize)))
        else ret (st, neededSpace, firstPage, startOffset));;
  let '(st, neededSpace, firstPage, startOffset) := r in
  let curOff := to_addr (sizeof_Ehdr + Z.of_nat (length (phdrs st)) * sizeof_Phdr) in
  (* Ensure PHDR is covered by a LOAD segment. *)
  let st := with_phdrs (cover_phdrs curOff neededSpace (phdrs st)) st in
  (* Clear out the free space. *)
  c <- mem_set (fileContents st) curOff x00 (u64 (startOffset - curOff));;
  let st := with_fileContents c st in
  (* Write out the replaced sections. *)
  r <- writeReplacedSections curOff firstPage 0 st;;
  let (st, curOff) := r : ElfFile * Z in
  _ <- assert (curOff =? neededSpace) "curOff == neededSpace";;
  (* Write out the updated program and section headers *)
  phoff <- hdr_get e_phoff st;;
  rewriteHeaders (to_addr (firstPage + phoff)) st.

(** ** Commit *)

Definition rewriteSections (fuel : nat) (force : bool) (st : ElfFile) : outcome ElfFile :=
  if negb force && bool_decide (replacedSections st = ∅) then ret st else
  type <- hdr_get e_type st;;
  if type =? ET_DYN then rewriteSectionsLibrary fuel st
  else if type =? ET_EXEC then rewriteSectionsExecutable fuel st
  else error "unknown ELF type".

(** ** [setSubstr] *)

(** [setSubstr(s, pos, t)]: [pos] is an [unsigned int], the sum in the
    assertion is taken in [size_t]. *)
Definition setSubstr (s : list byte) (pos : Z) (t : list byte) : outcome (list byte) :=
  let pos := u32 pos in
  _ <- assert (u64 (pos + Z.of_nat (length t)) <=? Z.of_nat (length s))
         "pos + t.size() <= s.size()";;
  ret (take (Z.to_nat pos) s ++ t ++ drop (Z.to_nat pos + length t) s).

(** ** DT_NEEDED replacer *)

Definition with_changed (b : bool) (st : ElfFile) : ElfFile :=
  mkElfFile (fileContents st) (phdrs st) (shdrs st) (littleEndian st) b (isExecutable st)
            (sectionNames st) (sectionsByOldIndex st) (replacedSections st) (stderr st).

(** [std::string(p)] for the C string at offset [off] of the file: the
    bytes up to the first NUL; a string that starts outside the buffer or
    does not end inside it is read out of bounds. *)
Definition file_c_str (c : list byte) (off : Z) : outcome string :=
  if (0 <=? off) && (off <? Z.of_nat (length c)) then
    let bs := drop (Z.to_nat off) c in
    if existsb (Byte.eqb x00) bs then ret (string_of_list_byte (c_str bs))
    else Undef "read outside the file contents"
  else Undef "read outside the file contents".

Definition DT_NEEDED : Z := 1.
Definition DT_VERNEEDNUM : Z := 0x6fffffff.

(** The two words of the [Elf_Dyn] at offset [off], at their full width. *)
Definition dyn_tag_word (off : Z) (st : ElfFile) : outcome Z :=
  bs <- mem_read (fileContents st) off sizeof_Off;;
  ret (rdi (littleEndian st) bs).

Definition dyn_val (off : Z) (st : ElfFile) : outcome Z :=
  bs <- mem_read (fileContents st) (off + dyn_off_un) sizeof_Off;;
  ret (rdi (littleEndian st) bs).

(** The fields of [Elf_Verneed] the program touches; the structure is the
    same in both classes: two half words, then the words [vn_file],
    [vn_aux] and [vn_next]. *)
Definition vn_off_file : Z := 4.
Definition vn_off_next : Z := 12.

Definition verneed_get (need fld : Z) (st : ElfFile) : outcome Z :=
  bs <- mem_read (fileContents st) (need + fld) 4;;
  ret (rdi (littleEndian st) bs).

Definition verneed_set_file (need v : Z) (st : ElfFile) : outcome ElfFile :=
  c <- mem_write (fileContents st) (need + vn_off_file) (field_bytes (littleEndian st) 4 v);;
  ret (with_fileContents c st).

(** The variables of [replaceNeeded] that its loops update: the object,
    [addedStrings], the bytes added to the string section at hand
    ([dynStrAddedBytes], then [verStrAddedBytes]) and [verNeedNum]. *)
Record needed_state : Type := mkNeeded {
  nd_file : ElfFile;
  nd_added : gmap string Z;
  nd_bytes : Z;
  nd_verNeedNum : Z }.

Definition with_nd_file (st : ElfFile) (s : needed_state) : needed_state :=
  mkNeeded st (nd_added s) (nd_bytes s) (nd_verNeedNum s).

(** Append [replacement] and its NUL to the pending edit of the string
    section [sectionName], whose header is [strings]: the new state and the
    offset of the new string. *)
Definition append_string (sectionName : string) (strings : Elf_Shdr) (replacement : string)
    (s : needed_state) : outcome (needed_state * Z) :=
  (* relative location of the new string *)
  let strOffset := to_addr (sh_size strings + nd_bytes s) in
  let size := Z.of_nat (String.length replacement) in
  r <- replaceSection sectionName (u64 (strOffset + size + 1)) (nd_file s);;
  let (st, newStr) := r : ElfFile * list byte in
  newStr <- setSubstr newStr strOffset (list_byte_of_string replacement ++ [x00]);;
  let st := with_replacedSections (<[sectionName := newStr]> (replacedSections st)) st in
  ret (mkNeeded st (<[replacement := strOffset]> (nd_added s))
         (u32 (nd_bytes s + size + 1)) (nd_verNeedNum s), strOffset).

(** The body of the first loop for a DT_NEEDED entry at offset [dyn]; the
    flag tells whether the iteration ended with [continue]. *)
Definition needed_entry (libs : gmap string string) (shdrDynStr : Elf_Shdr)
    (strTab dyn : Z) (s : needed_state) : outcome (needed_state * bool) :=
  d_val <- dyn_val dyn (nd_file s);;
  name <- file_c_str (fileContents (nd_file s)) (strTab + d_val);;
  match libs !! name with
  | Some replacement =>
      if bool_decide (name <> replacement) then
        match nd_added s !! replacement with
        | Some off =>
            (* the same replacement string has already been added, reuse it *)
            st <- dyn_set dyn off (nd_file s);;
            ret (with_nd_file st s, true)
        | None =>
            r <- append_string ".dynstr" shdrDynStr replacement s;;
            let (s, strOffset) := r : needed_state * Z in
            st <- dyn_set dyn strOffset (nd_file s);;
            ret (with_nd_file (with_changed true st) s, false)
        end
      else ret (s, false)
  | None => ret (s, false)
  end.

(** [for ( ; rdi(dyn->d_tag) != DT_NULL; dyn++)]; an entry is [sizeof_Dyn]
    bytes, so [n] = the size of the file is more iterations than fit in
    it. *)
Fixpoint needed_loop (n : nat) (libs : gmap string string) (shdrDynStr : Elf_Shdr)
    (strTab dyn : Z) (s : needed_state) : outcome needed_state :=
  d_tag <- dyn_tag_word dyn (nd_file s);;
  if d_tag =? DT_NULL then ret s else
  match n with
  | O => Undef "read outside the file contents"
  | S n' =>
      r <- (if d_tag =? DT_NEEDED then needed_entry libs shdrDynStr strTab dyn s
            else ret (s, false));;
      let (s, continued) := r : needed_state * bool in
      s <- (if continued then ret s else
            d_tag <- dyn_tag_word dyn (nd_file s);;
            if d_tag =? DT_VERNEEDNUM then
              d_val <- dyn_val dyn (nd_file s);;
              ret (mkNeeded (nd_file s) (nd_added s) (nd_bytes s) (u32 d_val))
            else ret s);;
      needed_loop n' libs shdrDynStr strTab (dyn + sizeof_Dyn) s
  end.

(** The body of the second loop, for the [Elf_Verneed] at offset [need]. *)
Definition verneed_entry (libs : gmap string string) (strings : Elf_Shdr)
    (versionRStringsSName : string) (verStrTab need : Z) (s : needed_state)
    : outcome needed_state :=
  vn_file <- verneed_get need vn_off_file (nd_file s);;
  file <- file_c_str (fileContents (nd_file s)) (verStrTab + vn_file);;
  match libs !! file with
  | Some replacement =>
      if bool_decide (file <> replacement) then
        s <- match nd_added s !! replacement with
             | Some off =>
                 st <- verneed_set_file need off (nd_file s);;
                 ret (with_nd_file st s)
             | None =>
                 r <- append_string versionRStringsSName strings replacement s;;
                 let (s, strOffset) := r : needed_state * Z in
                 st <- verneed_set_file need strOffset (nd_file s);;
                 ret (with_nd_file st s)
             end;;
        ret (with_nd_file (with_changed true (nd_file s)) s)
      else ret s
  | None => ret s
  end.

(** [while (verNeedNum > 0)]: the entries form a linked list, [vn_next]
    is the distance to the next one. *)
Fixpoint verneed_loop (verNeedNum : nat) (libs : gmap string string) (strings : Elf_Shdr)
    (versionRStringsSName : string) (verStrTab need : Z) (s : needed_state)
    : outcome needed_state :=
  match verNeedNum with
  | O => ret s
  | S n' =>
      s <- verneed_entry libs strings versionRStringsSName verStrTab need s;;
      vn_next <- verneed_get need vn_off_next (nd_file s);;
      verneed_loop n' libs strings versionRStringsSName verStrTab (need + vn_next) s
  end.

(** The part of [replaceNeeded] for the version needs. *)
Definition replace_verneed (libs : gmap string string) (s : needed_state)
    : outcome needed_state :=
  let st := nd_file s in
  shdrVersionR <- findSectionHeader ".gnu.version_r" st;;
  (* the file name strings are in the section that sh_link names *)
  shdrVersionRStrings <- vec_at (shdrs st) (sh_link shdrVersionR);;
  let verStrTab := sh_offset shdrVersionRStrings in
  versionRStringsSName <- getSectionName shdrVersionRStrings st;;
  (* It may be that it is .dynstr again, in which case the bytes already
     added count; otherwise the strings added so far cannot be reused. *)
  let s := if bool_decide (versionRStringsSName = ".dynstr")
           then mkNeeded st (nd_added s) (u32 (0 + nd_bytes s)) (nd_verNeedNum s)
           else mkNeeded st ∅ 0 (nd_verNeedNum s) in
  verneed_loop (Z.to_nat (nd_verNeedNum s)) libs shdrVersionRStrings versionRStringsSName
    verStrTab (sh_offset shdrVersionR) s.

(** The two walks of [replaceNeeded], before the commit. *)
Definition replaceNeeded_edits (libs : gmap string string) (st : ElfFile)
    : outcome ElfFile :=
  shdrDynamic <- findSectionHeader ".dynamic" st;;
  shdrDynStr <- findSectionHeader ".dynstr" st;;
  let strTab := sh_offset shdrDynStr in
  s <- needed_loop (length (fileContents st)) libs shdrDynStr strTab
         (sh_offset shdrDynamic) (mkNeeded st ∅ 0 0);;
  (* If a replaced library uses symbol versions, then there will also be
     references to it in the version needed table. *)
  s <- (if negb (nd_verNeedNum s =? 0) then replace_verneed libs s else ret s);;
  ret (nd_file s).

Definition replaceNeeded (fuel : nat) (libs : gmap string string) (st : ElfFile)
    : outcome ElfFile :=
  if bool_decide (libs = ∅) then ret st else
  st <- replaceNeeded_edits libs st;;
  rewriteSections fuel false st.

(** ** The driver *)

(** [alwaysWrite] is set at its declaration and by [--output], to the same
    value. *)
Definition alwaysWrite : bool := true.

(** [patchElf2]: the bytes handed to [writeFile], if any.  The buffer the
    caller passes beside the object is the buffer the object holds (one
    shared vector), so an unchanged object is written with whatever the
    object's buffer holds then. *)
Definition patchElf2 (fuel : nat) (libs : gmap string string) (st : ElfFile)
    : outcome (option (list byte)) :=
  st <- replaceNeeded fuel libs st;;
  if changed st then ret (Some (fileContents st))
  else if alwaysWrite then ret (Some (fileContents st))
  else ret None.

(** ** [getElfType] *)

Record ElfType : Set := mkElfType { is32Bit : bool; machine : Z }.

Definition EI_CLASS : Z := 4.
Definition EI_VERSION : Z := 6.
Definition EV_CURRENT : Z := 1.

(** The value of [e_ident[EI_CLASS]] for a class. *)
Definition class_byte (c : elf_class) : Z :=
  match c with ELFCLASS32 => 1 | ELFCLASS64 => 2 end.

(** [sizeof(Elf32_Ehdr)], and the offset of [e_machine], which is the same
    in both classes. *)
Definition sizeof_Elf32_Ehdr : Z := 52.
Definition e_machine_offset : Z := 18.

(** [getElfType(fileContents)]; [ElfType { }] is [{false, 0}].  The buffer
    is [None] for the null pointer that [readFile] returns on failure.
    [e_machine] is read as the host holds it ([hostLittleEndian]). *)
Definition getElfType (hostLittleEndian : bool) (contents : option (list byte))
    : outcome ElfType :=
  match contents with
  | None => Undef "null FileContents"
  | Some c =>
      (* Check the ELF header for basic validity. *)
      if Z.of_nat (length c) <? sizeof_Elf32_Ehdr then ret (mkElfType false 0) else
      ident <- mem_read c 0 SELFMAG;;
      if negb (bool_decide (ident = ELFMAG)) then ret (mkElfType false 0) else
      version <- mem_read c EI_VERSION 1;;
      if negb (bool_decide (version = [Zbyte EV_CURRENT])) then ret (mkElfType false 0) else
      cls <- mem_read c EI_CLASS 1;;
      if negb (bool_decide (cls = [Zbyte (class_byte ELFCLASS32)]))
         && negb (bool_decide (cls = [Zbyte (class_byte ELFCLASS64)]))
      then ret (mkElfType false 0) else
      let is32Bit := bool_decide (cls = [Zbyte (class_byte ELFCLASS32)]) in
      m <- mem_read c e_machine_offset 2;;
      ret (mkElfType is32Bit (rdi hostLittleEndian m))
  end.

(** ** String helpers of [patchelf.h] *)

(** [std::isspace] and [std::tolower] in the C locale. *)
Definition isspace (c : ascii) : bool :=
  let n := N_of_ascii c in ((n =? 32) || ((9 <=? n) && (n <=? 13)))%N.

Definition tolower (c : ascii) : ascii :=
  let n := N_of_ascii c in
  if ((65 <=? n) && (n <=? 90))%N then ascii_of_N (n + 32) else c.

(** [s.find(':')]. *)
Fixpoint find_colon (s : string) : option nat :=
  match s with
  | EmptyString => None
  | String c s' => if Ascii.eqb c ":" then Some O else S <$> find_colon s'
  end.

(** [s.substr(0, pos)] and [s.substr(pos)], for [pos] up to the size. *)
Fixpoint substr_to (pos : nat) (s : string) : string :=
  match pos, s with
  | S p, String c s' => String c (substr_to p s')
  | _, _ => EmptyString
  end.

Fixpoint substr_from (pos : nat) (s : string) : string :=
  match pos, s with
  | S p, String _ s' => substr_from p s'
  | _, _ => s
  end.

(** The loop of [splitColonDelimitedString]; every round drops at least
    the colon, so the size of the string bounds the rounds. *)
Fixpoint split_loop (fuel : nat) (s : string) (parts : list string)
    : outcome (list string) :=
  match find_colon s with
  | Some pos =>
      match fuel with
      | O => NoFuel
      | S fuel' => split_loop fuel' (substr_from (pos + 1) s) (parts ++ [substr_to pos s])
      end
  | None => ret (if bool_decide (s = EmptyString) then parts else parts ++ [s])
  end.

Definition splitColonDelimitedString (s : string) : outcome (list string) :=
  split_loop (String.length s) s [].

(** [trim]: erase up to the first character that is not a space, then
    from behind the last one that is not a space. *)
Fixpoint erase_leading (s : string) : string :=
  match s with
  | EmptyString => EmptyString
  | String c s' => if isspace c then erase_leading s' else s
  end.

Fixpoint erase_trailing (s : string) : string :=
  match s with
  | EmptyString => EmptyString
  | String c s' =>
      match erase_trailing s' with
      | EmptyString => if isspace c then EmptyString else String c EmptyString
      | t => String c t
      end
  end.

Definition trim (s : string) : string := erase_trailing (erase_leading s).

(** [downcase]: [std::transform] with [std::tolower]. *)
Fixpoint downcase (s : string) : string :=
  match s with
  | EmptyString => EmptyString
  | String c s' => String (tolower c) (downcase s')
  end.

(** ** The command line *)

(** The file-scope variables that [mainWrapped] fills in. *)
Record options : Type := mkOptions {
  neededLibsToReplace : gmap string string;
  outputFileName : string;
  debugMode : bool;
  fileNames : list string }.

(** [resolveArgument]; [readFile] gives the contents of a file, [None]
    for the null pointer it returns on failure. *)
Definition resolveArgument (readFile : string -> option (list byte)) (arg : string)
    : outcome string :=
  match arg with
  | String "@" rest =>
      match readFile rest with
      | Some cnts => ret (string_of_list_byte cnts)
      | None => Undef "null FileContents"
      end
  | _ => ret arg
  end.

(** The loop over [argv[1..]]: [args] are the arguments from [argv[i]]
    on. *)
Fixpoint parse_args (readFile : string -> option (list byte)) (args : list string)
    (o : options) : outcome options :=
  match args with
  | [] => ret o
  | arg :: rest =>
      if bool_decide (arg = "--replace-needed") then
        match rest with
        | old :: new :: rest' =>
            parse_args readFile rest'
              (mkOptions (<[old := new]> (neededLibsToReplace o)) (outputFileName o)
                 (debugMode o) (fileNames o))
        | _ => error "missing argument(s)"
        end
      else if bool_decide (arg = "--output") then
        match rest with
        | file :: rest' =>
            name <- resolveArgument readFile file;;
            parse_args readFile rest'
              (mkOptions (neededLibsToReplace o) name (debugMode o) (fileNames o))
        | [] => error "missing argument"
        end
      else if bool_decide (arg = "--debug") then
        parse_args readFile rest
          (mkOptions (neededLibsToReplace o) (outputFileName o) true (fileNames o))
      else
        parse_args readFile rest
          (mkOptions (neededLibsToReplace o) (outputFileName o) (debugMode o)
             (fileNames o ++ [arg]))
  end.

(** [mainWrapped] up to the call of [patchElf]: [None] when the help text
    is shown and 1 returned.  [env_debug]: is PATCHELF_DEBUG set? *)
Definition mainWrapped_options (readFile : string -> option (list byte)) (env_debug : bool)
    (argv : list string) : outcome (option options) :=
  if (length argv <=? 1)%nat then ret None else
  o <- parse_args readFile (drop 1 argv) (mkOptions ∅ EmptyString env_debug []);;
  if bool_decide (fileNames o = []) then error "missing filename" else
  if negb (bool_decide (outputFileName o = EmptyString))
     && negb (length (fileNames o) =? 1)%nat
  then error "--output option only allowed with single input file"
  else ret (Some o).

(** * Properties *)

(** ** Reasoning about outcomes *)

Lemma bind_Done {A B : Type} (m : outcome A) (f : A -> outcome B) (b : B) :
  bind m f = Done b -> exists a, m = Done a /\ f a = Done b.
Proof. destruct m; simpl; intros H; try discriminate. eauto. Qed.

Lemma assert_Done (c : bool) (what : string) (u : unit) :
  assert c what = Done u -> c = true.
Proof. destruct c; simpl; [reflexivity | discriminate]. Qed.

(** Take a hypothesis [bind m f = Done b] apart. *)
Ltac bind_inv H :=
  let a := fresh "a" in
  let Ha := fresh "Ha" in
  apply bind_Done in H as (a & Ha & H).

Ltac done_inv H :=
  repeat lazymatch type of H with
  | bind _ _ = Done _ => bind_inv H
  | ret _ = Done _ => unfold ret in H
  | Done _ = Done _ => injection H as H
  | error _ = Done _ => discriminate H
  | Throw _ = Done _ => discriminate H
  | Undef _ = Done _ => discriminate H
  | Abort _ = Done _ => discriminate H
  | NoFuel = Done _ => discriminate H
  | match ?p with (_, _) => _ end = Done _ => destruct p
  end.

(** ** Memory accesses *)

Lemma mem_read_Done (c : list byte) (off n : Z) (bs : list byte) :
  mem_read c off n = Done bs ->
  0 <= off /\ 0 <= n /\ off + n <= Z.of_nat (length c)
  /\ bs = take (Z.to_nat n) (drop (Z.to_nat off) c).
Proof.
  unfold mem_read. intros H.
  destruct (0 <=? off) eqn:E1; simpl in H; [| discriminate].
  destruct (0 <=? n) eqn:E2; simpl in H; [| discriminate].
  destruct (off + n <=? Z.of_nat (length c)) eqn:E3; [| discriminate].
  injection H as <-. repeat split; lia.
Qed.

Lemma mem_read_in_bounds (c : list byte) (off n : Z) :
  0 <= off -> 0 <= n -> off + n <= Z.of_nat (length c) ->
  mem_read c off n = Done (take (Z.to_nat n) (drop (Z.to_nat off) c)).
Proof.
  intros H1 H2 H3. unfold mem_read.
  destruct (Z.leb_spec 0 off); [| lia].
  destruct (Z.leb_spec 0 n); [| lia].
  destruct (Z.leb_spec (off + n) (Z.of_nat (length c))); [| lia].
  reflexivity.
Qed.

Lemma mem_write_length (c : list byte) (off : Z) (bs c' : list byte) :
  mem_write c off bs = Done c' -> length c' = length c.
Proof.
  unfold mem_write. intros H.
  destruct (0 <=? off) eqn:E1; simpl in H; [| discriminate].
  destruct (off + Z.of_nat (length bs) <=? Z.of_nat (length c)) eqn:E2; [| discriminate].
  injection H as <-.
  rewrite !length_app, length_take, length_drop. lia.
Qed.

Lemma mem_set_length (c : list byte) (off : Z) (b : byte) (n : Z) (c' : list byte) :
  mem_set c off b n = Done c' -> length c' = length c.
Proof.
  unfold mem_set. intros H.
  destruct (0 <=? off) eqn:E1; simpl in H; [| discriminate].
  destruct (0 <=? n) eqn:E2; simpl in H; [| discriminate].
  destruct (off + n <=? Z.of_nat (length c)) eqn:E3; [| discriminate].
  injection H as <-.
  rewrite !length_app, length_take, length_replicate, length_drop. lia.
Qed.

(** ** The section directory *)

Lemma getSectionIndex_loop_found (sectionName : string) (shnum : Z) (st : ElfFile)
    (rest : list Elf_Shdr) (i r : Z) :
  getSectionIndex_loop sectionName shnum st i rest = Done r -> r <> 0 ->
  0 < i ->
  i <= r /\ r < shnum /\
  exists shdr, rest !! Z.to_nat (r - i) = Some shdr
               /\ getSectionName shdr st = Done sectionName.
Proof.
  revert i. induction rest as [| shdr rest IH]; intros i H Hr Hi; simpl in H.
  - destruct (i <? shnum); [discriminate |]. injection H as <-. congruence.
  - destruct (Z.ltb_spec i shnum) as [Hlt |]; [| injection H as <-; congruence].
    bind_inv H. destruct (decide (a = sectionName)) as [-> |].
    + injection H as <-. repeat split; try lia.
      exists shdr. replace (i - i) with 0 by lia. auto.
    + apply IH in H as (H1 & H2 & s & Hs & Hn); [| assumption | lia].
      repeat split; try lia. exists s. split; [| assumption].
      replace (Z.to_nat (r - i)) with (S (Z.to_nat (r - (i + 1)))) by lia.
      exact Hs.
Qed.

(** A name that [getSectionIndex] finds is the name of the header at the
    index it returns. *)
Lemma getSectionIndex_found (sectionName : string) (st : ElfFile) (i : Z) :
  getSectionIndex sectionName st = Done i -> i <> 0 ->
  0 < i /\
  exists shdr, shdrs st !! Z.to_nat i = Some shdr
               /\ getSectionName shdr st = Done sectionName.
Proof.
  unfold getSectionIndex. intros H Hi. bind_inv H.
  apply getSectionIndex_loop_found in H as (H1 & H2 & s & Hs & Hn); [| assumption | lia].
  split; [lia |]. exists s. split; [| assumption].
  rewrite lookup_drop in Hs.
  replace (Z.to_nat i) with (1 + Z.to_nat (i - 1))%nat by lia. exact Hs.
Qed.

Lemma findSectionHeader_found (sectionName : string) (st : ElfFile) (i : Z)
    (shdr : Elf_Shdr) :
  getSectionIndex sectionName st = Done i -> i <> 0 ->
  shdrs st !! Z.to_nat i = Some shdr ->
  findSectionHeader sectionName st = Done shdr.
Proof.
  intros H Hi Hs. pose proof (getSectionIndex_found _ _ _ H Hi) as [Hpos _].
  unfold findSectionHeader, tryFindSectionHeader. rewrite H. simpl.
  destruct (Z.eqb_spec i 0); [contradiction |].
  unfold vec_at. destruct (Z.leb_spec 0 i); [| lia]. rewrite Hs. reflexivity.
Qed.

(** ** The edit buffer *)

Lemma u32_id (x : Z) : 0 <= x < 2 ^ 32 -> u32 x = x.
Proof. intros H. unfold u32, wrap. apply Z.mod_small. exact H. Qed.

(** C1.  For a section name present in the section header table (at index
    [i], with header [shdr]) and a size in the range of [unsigned int],
    [replaceSection] starts from the pending edit for the name when there is
    one and otherwise from the bytes of the section in the file at
    [[sh_offset, sh_offset + sh_size)]; the buffer it returns has exactly
    [size] bytes, agrees with the start on the first [min oldSize size]
    bytes, is zero beyond them, and is stored as the one pending edit under
    that name, everything else staying as it was. *)
Theorem replaceSection_spec (sectionName : string) (size : Z) (st : ElfFile)
    (i : Z) (shdr : Elf_Shdr) (start : list byte) :
  getSectionIndex sectionName st = Done i -> i <> 0 ->
  shdrs st !! Z.to_nat i = Some shdr ->
  0 <= size < 2 ^ 32 ->
  match replacedSections st !! sectionName with
  | Some buf => start = buf
  | None =>
      0 <= sh_offset shdr /\ 0 <= sh_size shdr
      /\ sh_offset shdr + sh_size shdr <= Z.of_nat (length (fileContents st))
      /\ start = take (Z.to_nat (sh_size shdr))
                   (drop (Z.to_nat (sh_offset shdr)) (fileContents st))
  end ->
  exists (st' : ElfFile) (buf : list byte),
    replaceSection sectionName size st = Done (st', buf)
    /\ length buf = Z.to_nat size
    /\ take (min (length start) (Z.to_nat size)) buf
       = take (min (length start) (Z.to_nat size)) start
    /\ drop (length start) buf = replicate (Z.to_nat size - length start) x00
    /\ replacedSections st' !! sectionName = Some buf
    /\ (forall other, other <> sectionName ->
          replacedSections st' !! other = replacedSections st !! other)
    /\ fileContents st' = fileContents st
    /\ shdrs st' = shdrs st /\ phdrs st' = phdrs st.
Proof.
  intros Hidx Hi Hshdr Hsize Hstart.
  exists (with_replacedSections
            (<[sectionName := resize (Z.to_nat size) x00 start]> (replacedSections st)) st),
         (resize (Z.to_nat size) x00 start).
  split.
  { unfold replaceSection. rewrite (u32_id size Hsize).
    destruct (replacedSections st !! sectionName) as [buf |] eqn:E.
    - subst start. reflexivity.
    - destruct Hstart as (H1 & H2 & H3 & ->).
      rewrite (findSectionHeader_found _ _ _ _ Hidx Hi Hshdr). simpl.
      unfold extractString. rewrite mem_read_in_bounds by assumption. reflexivity. }
  split; [apply length_resize |].
  split.
  { rewrite take_resize.
    replace (min (min (length start) (Z.to_nat size)) (Z.to_nat size))
      with (min (length start) (Z.to_nat size)) by lia.
    apply resize_le. lia. }
  split.
  { destruct (Nat.le_gt_cases (length start) (Z.to_nat size)) as [Hle | Hgt].
    - rewrite resize_ge by exact Hle.
      rewrite drop_app_length. reflexivity.
    - rewrite resize_le by lia.
      replace (Z.to_nat size - length start)%nat with 0%nat by lia. simpl.
      apply drop_ge. rewrite length_take. lia. }
  split; [simpl; apply lookup_insert_eq |].
  split; [intros other Hne; simpl; apply lookup_insert_ne; congruence |].
  repeat split.
Qed.

(** C8.  For a section name present in the section header table (at index
    [i], with header [shdr]), [canReplaceSection] returns [true] exactly
    when the name is [.interp] or the type of the section is not
    SHT_PROGBITS. *)
Theorem canReplaceSection_spec (sectionName : string) (st : ElfFile)
    (i : Z) (shdr : Elf_Shdr) :
  getSectionIndex sectionName st = Done i -> i <> 0 ->
  shdrs st !! Z.to_nat i = Some shdr ->
  exists b : bool,
    canReplaceSection sectionName st = Done b
    /\ (b = true <-> sectionName = ".interp" \/ sh_type shdr <> SHT_PROGBITS).
Proof.
  intros Hidx Hi Hshdr. unfold canReplaceSection.
  rewrite (findSectionHeader_found _ _ _ _ Hidx Hi Hshdr). simpl.
  eexists. split; [reflexivity |].
  rewrite orb_true_iff, bool_decide_eq_true, negb_true_iff, Z.eqb_neq. reflexivity.
Qed.

(** ** Open *)

(** The byte order a buffer records, and the value of a field of its ELF
    header in that byte order. *)
Definition buffer_littleEndian (b : list byte) : bool :=
  bool_decide (take 1 (drop (Z.to_nat EI_DATA) b) = [Zbyte ELFDATA2LSB]).

Definition buffer_field (f : ehdr_field) (b : list byte) : Z :=
  rdi (buffer_littleEndian b)
      (take (Z.to_nat (ehdr_size f)) (drop (Z.to_nat (ehdr_offset f)) b)).

Lemma ehdr_field_in_header (f : ehdr_field) :
  0 <= ehdr_offset f /\ 0 <= ehdr_size f /\ ehdr_offset f + ehdr_size f <= sizeof_Ehdr.
Proof.
  unfold ehdr_offset, ehdr_size, sizeof_Ehdr, sizeof_Off.
  destruct ElfClass, f; lia.
Qed.

Lemma hdr_get_in_header (f : ehdr_field) (st : ElfFile) :
  sizeof_Ehdr <= Z.of_nat (length (fileContents st)) ->
  hdr_get f st
  = Done (rdi (littleEndian st)
            (take (Z.to_nat (ehdr_size f)) (drop (Z.to_nat (ehdr_offset f)) (fileContents st)))).
Proof.
  intros H. unfold hdr_get.
  pose proof (ehdr_field_in_header f) as (H1 & H2 & H3).
  rewrite mem_read_in_bounds by lia. reflexivity.
Qed.

Lemma hdr_get_buffer (f : ehdr_field) (b : list byte) (st : ElfFile) :
  sizeof_Ehdr <= Z.of_nat (length b) ->
  fileContents st = b -> littleEndian st = buffer_littleEndian b ->
  hdr_get f st = Done (buffer_field f b).
Proof.
  intros H Hc Hl. rewrite hdr_get_in_header by (rewrite Hc; exact H).
  rewrite Hc, Hl. reflexivity.
Qed.

(** The errors the constructor raises up to and including the two bounds
    checks of the header tables. *)
Definition table_errors : list string :=
  [ "missing ELF header"; "not an ELF executable"; "wrong ELF type";
    "program header table out of bounds";
    "no section headers. The input file is probably a statically linked, self-decompressing binary";
    "section header table out of bounds" ].

(** C6.  Whatever the buffer, the constructor raises a structural error
    (so no object is produced) whenever [e_phnum * e_phentsize] does not fit
    in a [size_t], or [e_phoff] plus that product does not, or the end of
    the table so computed lies beyond the buffer; and likewise for
    [e_shoff + e_shnum * e_shentsize].  The products and sums in the
    conditions are the exact ones. *)
Theorem ctor_rejects_tables_out_of_bounds (b : list byte) :
  let ph_end := buffer_field e_phoff b + buffer_field e_phnum b * buffer_field e_phentsize b in
  let sh_end := buffer_field e_shoff b + buffer_field e_shnum b * buffer_field e_shentsize b in
  2 ^ 64 <= buffer_field e_phnum b * buffer_field e_phentsize b
  \/ 2 ^ 64 <= ph_end \/ Z.of_nat (length b) < ph_end
  \/ 2 ^ 64 <= buffer_field e_shnum b * buffer_field e_shentsize b
  \/ 2 ^ 64 <= sh_end \/ Z.of_nat (length b) < sh_end ->
  exists msg, ElfFile_ctor b = Throw msg /\ In msg table_errors.
Proof.
  intros ph_end sh_end Hbad. unfold ElfFile_ctor.
  assert (Hmsg : forall m, In m table_errors ->
            exists msg, @Throw ElfFile m = Throw msg /\ In msg table_errors) by eauto.
  destruct (Z.ltb_spec (Z.of_nat (length b)) sizeof_Ehdr) as [| Hsize].
  { apply Hmsg. simpl. auto. }
  assert (Hge : 52 <= Z.of_nat (length b))
    by (unfold sizeof_Ehdr in Hsize; destruct ElfClass; lia).
  rewrite mem_read_in_bounds by (unfold SELFMAG; lia). cbn [bind].
  destruct (negb _); [apply Hmsg; simpl; auto |].
  rewrite mem_read_in_bounds by (unfold EI_DATA; lia). cbn [bind].
  change (bool_decide (take (Z.to_nat 1) (drop (Z.to_nat EI_DATA) b) = [Zbyte ELFDATA2LSB]))
    with (buffer_littleEndian b).
  rewrite !(hdr_get_buffer _ b) by (exact Hsize || reflexivity). cbn [bind].
  destruct (_ && _); [apply Hmsg; simpl; auto |].
  unfold builtin_mul_overflow at 1.
  destruct (Z.ltb_spec (buffer_field e_phnum b * buffer_field e_phentsize b) (2 ^ 64));
    [| apply Hmsg; simpl; auto].
  unfold builtin_add_overflow at 1.
  destruct (Z.ltb_spec (buffer_field e_phoff b
                        + buffer_field e_phnum b * buffer_field e_phentsize b) (2 ^ 64));
    [| apply Hmsg; simpl; auto].
  destruct (Z.ltb_spec (Z.of_nat (length b))
              (buffer_field e_phoff b + buffer_field e_phnum b * buffer_field e_phentsize b));
    [apply Hmsg; simpl; auto |].
  destruct (buffer_field e_shnum b =? 0); [apply Hmsg; simpl; auto 10 |].
  unfold builtin_mul_overflow at 1.
  destruct (Z.ltb_spec (buffer_field e_shnum b * buffer_field e_shentsize b) (2 ^ 64));
    [| apply Hmsg; simpl; auto 10].
  unfold builtin_add_overflow at 1.
  destruct (Z.ltb_spec (buffer_field e_shoff b
                        + buffer_field e_shnum b * buffer_field e_shentsize b) (2 ^ 64));
    [| apply Hmsg; simpl; auto 10].
  destruct (Z.ltb_spec (Z.of_nat (length b))
              (buffer_field e_shoff b + buffer_field e_shnum b * buffer_field e_shentsize b));
    [apply Hmsg; simpl; auto 10 |].
  exfalso. subst ph_end sh_end. lia.
Qed.

Lemma copy_headers_length {A : Type} (parse : list byte -> A) (contents : list byte)
    (base esize : Z) (n : nat) :
  forall i l, copy_headers parse contents base esize n i = Done l -> length l = n.
Proof.
  induction n as [| n IH]; intros i l H; simpl in H.
  - injection H as <-. reflexivity.
  - done_inv H. subst l. simpl. f_equal. eapply IH. eassumption.
Qed.

(** What the constructor leaves in the object it produces. *)
Lemma ctor_Done (b : list byte) (st : ElfFile) :
  ElfFile_ctor b = Done st ->
  fileContents st = b /\ replacedSections st = ∅ /\ stderr st = []
  /\ sizeof_Ehdr <= Z.of_nat (length b)
  /\ littleEndian st = buffer_littleEndian b
  /\ length (phdrs st) = Z.to_nat (buffer_field e_phnum b)
  /\ length (shdrs st) = Z.to_nat (buffer_field e_shnum b).
Proof.
  unfold ElfFile_ctor. intros H.
  destruct (Z.ltb_spec (Z.of_nat (length b)) sizeof_Ehdr) as [| Hsize]; [discriminate |].
  bind_inv H. destruct (negb _); [discriminate |]. bind_inv H.
  apply mem_read_Done in Ha0 as (_ & _ & _ & ->).
  change (bool_decide (take (Z.to_nat 1) (drop (Z.to_nat EI_DATA) b) = [Zbyte ELFDATA2LSB]))
    with (buffer_littleEndian b) in H.
  rewrite !(hdr_get_buffer _ b) in H by (exact Hsize || reflexivity). cbn [bind] in H.
  repeat match type of H with
  | (if ?c then _ else _) = Done _ =>
      let E := fresh "E" in destruct c eqn:E; [try discriminate H | try discriminate H]
  | match ?o with Some _ => _ | None => _ end = Done _ =>
      destruct o; [| discriminate H]
  | bind _ _ = Done _ => bind_inv H
  end.
  injection H as <-. simpl.
  repeat match goal with
  | Hc : copy_headers _ _ _ _ _ _ = Done _ |- _ => apply copy_headers_length in Hc
  end.
  repeat split; try assumption; lia.
Qed.

(** C2.  When opening the image [b] succeeds, a commit with [force = false]
    right after it (no pending edits) returns at once: the object is
    unchanged, and its byte buffer is [b]. *)
Theorem open_commit_noop (b : list byte) (st : ElfFile) (fuel : nat) :
  ElfFile_ctor b = Done st ->
  rewriteSections fuel false st = Done st
  /\ fileContents st = b /\ replacedSections st = ∅.
Proof.
  intros H. apply ctor_Done in H as (Hc & He & _).
  repeat split; try assumption.
  unfold rewriteSections. rewrite He. reflexivity.
Qed.

(** ** What the phases of a commit leave alone *)

(** [keeps st st']: the step from [st] to [st'] changed neither the size
    of the file, nor the pending edits, nor what was captured at open. *)
Record keeps (st st' : ElfFile) : Prop := mkKeeps {
  keeps_length : length (fileContents st') = length (fileContents st);
  keeps_edits : replacedSections st' = replacedSections st;
  keeps_names : sectionNames st' = sectionNames st;
  keeps_old : sectionsByOldIndex st' = sectionsByOldIndex st;
  keeps_endian : littleEndian st' = littleEndian st }.

Lemma keeps_refl (st : ElfFile) : keeps st st.
Proof. split; reflexivity. Qed.

Lemma keeps_trans (st1 st2 st3 : ElfFile) : keeps st1 st2 -> keeps st2 st3 -> keeps st1 st3.
Proof. intros [] []. split; congruence. Qed.

Lemma keeps_with_phdrs (l : list Elf_Phdr) (st : ElfFile) : keeps st (with_phdrs l st).
Proof. split; reflexivity. Qed.

Lemma keeps_with_shdrs (l : list Elf_Shdr) (st : ElfFile) : keeps st (with_shdrs l st).
Proof. split; reflexivity. Qed.

Lemma keeps_with_stderr (l : list string) (st : ElfFile) : keeps st (with_stderr l st).
Proof. split; reflexivity. Qed.

Lemma keeps_with_fileContents (c : list byte) (st : ElfFile) :
  length c = length (fileContents st) -> keeps st (with_fileContents c st).
Proof. intros H. split; try reflexivity. exact H. Qed.

Lemma keeps_mem_write (st : ElfFile) (off : Z) (bs c : list byte) :
  mem_write (fileContents st) off bs = Done c -> keeps st (with_fileContents c st).
Proof. intros H. apply keeps_with_fileContents. eapply mem_write_length, H. Qed.

Lemma hdr_set_keeps (f : ehdr_field) (v : Z) (st st' : ElfFile) :
  hdr_set f v st = Done st' -> keeps st st'.
Proof.
  unfold hdr_set. intros H. done_inv H. subst st'. eapply keeps_mem_write, Ha.
Qed.

Lemma for_header_keeps {S : Type} (file : S -> ElfFile) (f : ehdr_field)
    (body : Z -> S -> outcome S) :
  (forall i s s', body i s = Done s' -> keeps (file s) (file s')) ->
  forall fuel i s s',
    for_header file f body fuel i s = Done s' -> keeps (file s) (file s').
Proof.
  intros Hbody. induction fuel as [| fuel IH]; intros i s s' H; simpl in H.
  - bind_inv H. destruct (i <? a); [bind_inv H; discriminate |].
    injection H as <-. apply keeps_refl.
  - bind_inv H. destruct (i <? a).
    + bind_inv H. eapply keeps_trans; [eapply Hbody, Ha0 | eapply IH, H].
    + injection H as <-. apply keeps_refl.
Qed.

Lemma for_shnum_keeps (from : Z) (body : Z -> ElfFile -> outcome ElfFile) :
  (forall i s s', body i s = Done s' -> keeps s s') ->
  forall st st', for_shnum from body st = Done st' -> keeps st st'.
Proof.
  intros Hbody st st' H.
  exact (for_header_keeps id e_shnum body Hbody _ from st st' H).
Qed.

(** Close a goal [keeps st st'] for a step that is a sequence of binds:
    take the hypothesis apart and chain the facts at hand. *)
Ltac keeps_step :=
  first
  [ apply keeps_refl
  | apply keeps_with_phdrs
  | apply keeps_with_shdrs
  | apply keeps_with_stderr
  | eapply hdr_set_keeps; eassumption
  | eapply keeps_mem_write; eassumption ].

Lemma restore_link_keeps (linkage : gmap string string) (i : Z) (st st' : ElfFile) :
  restore_link linkage i st = Done st' -> keeps st st'.
Proof.
  unfold restore_link. intros H. bind_inv H.
  destruct (sel_link a); done_inv H; subst; keeps_step.
Qed.

Lemma restore_info_keeps (info : gmap string string) (i : Z) (st st' : ElfFile) :
  restore_info info i st = Done st' -> keeps st st'.
Proof.
  unfold restore_info. intros H. bind_inv H.
  destruct (sel_info a); done_inv H; [| subst; keeps_step].
  destruct (info !! a0); done_inv H. subst. keeps_step.
Qed.

Lemma restore_shstrndx_keeps (shstrtab : Elf_Shdr) (i : Z) (st st' : ElfFile) :
  restore_shstrndx shstrtab i st = Done st' -> keeps st st'.
Proof.
  unfold restore_shstrndx. intros H. bind_inv H.
  destruct (_ =? _); done_inv H; subst; keeps_step.
Qed.

Lemma sortShdrs_keeps (st st' : ElfFile) : sortShdrs st = Done st' -> keeps st st'.
Proof.
  unfold sortShdrs. intros H. do 5 bind_inv H. bind_inv H. bind_inv H.
  apply (for_shnum_keeps _ _ (restore_shstrndx_keeps _)) in H.
  apply (for_shnum_keeps _ _ (restore_info_keeps _)) in Ha5.
  apply (for_shnum_keeps _ _ (restore_link_keeps _)) in Ha4.
  assert (keeps st a3).
  { destruct (shdrs st); done_inv Ha3. subst. keeps_step. }
  eauto using keeps_trans.
Qed.

Lemma write_phdrs_keeps (l : list Elf_Phdr) (i : Z) (st st' : ElfFile) :
  write_phdrs l i st = Done st' -> keeps st st'.
Proof.
  revert i st. induction l as [| p l IH]; intros i st H; simpl in H.
  - injection H as <-. apply keeps_refl.
  - do 2 bind_inv H. apply IH in H. eapply keeps_trans; [| exact H]. keeps_step.
Qed.

Lemma write_shdr_keeps (i : Z) (st st' : ElfFile) :
  write_shdr i st = Done st' -> keeps st st'.
Proof. unfold write_shdr. intros H. done_inv H. subst. keeps_step. Qed.

Lemma dyn_set_keeps (off v : Z) (st st' : ElfFile) :
  dyn_set off v st = Done st' -> keeps st st'.
Proof. unfold dyn_set. intros H. done_inv H. subst. keeps_step. Qed.

Lemma update_dynamic_keeps (n : nat) (shdrDynamic : Elf_Shdr) (dyn_table : Z) :
  forall dyn st st',
    update_dynamic n shdrDynamic dyn_table dyn st = Done st' -> keeps st st'.
Proof.
  induction n as [| n IH]; intros dyn st st' H; simpl in H; bind_inv H.
  - destruct (a =? DT_NULL); done_inv H. subst. keeps_step.
  - destruct (a =? DT_NULL); [done_inv H; subst; keeps_step |].
    do 2 bind_inv H. apply IH in H.
    eapply keeps_trans; [| exact H].
    eapply keeps_trans; [apply (keeps_with_stderr (stderr st ++ snd a0)) |].
    destruct (fst a0); [eapply dyn_set_keeps, Ha1 | done_inv Ha1; subst; keeps_step].
Qed.

Lemma sym_set_keeps (sym fld size v : Z) (st st' : ElfFile) :
  sym_set sym fld size v st = Done st' -> keeps st st'.
Proof. unfold sym_set. intros H. done_inv H. subst. keeps_step. Qed.

Lemma rewrite_symbol_keeps (sym : Z) (st st' : ElfFile) :
  rewrite_symbol sym st = Done st' -> keeps st st'.
Proof.
  unfold rewrite_symbol. intros H. bind_inv H.
  destruct (_ && _); [| done_inv H; subst; keeps_step].
  destruct (_ <=? _); [done_inv H; subst; unfold warn; keeps_step |].
  do 5 bind_inv H. apply sym_set_keeps in Ha3.
  eapply keeps_trans; [exact Ha3 |].
  destruct (_ =? _); [| done_inv H; subst; keeps_step].
  bind_inv H. eapply sym_set_keeps, H.
Qed.

Lemma rewrite_symbols_keeps (n : nat) (shdr : Elf_Shdr) :
  forall entry st st', rewrite_symbols n shdr entry st = Done st' -> keeps st st'.
Proof.
  induction n as [| n IH]; intros entry st st' H; simpl in H.
  - destruct (_ <=? _); done_inv H. subst. keeps_step.
  - destruct (_ <=? _); [| done_inv H; subst; keeps_step].
    bind_inv H. apply rewrite_symbol_keeps in Ha. apply IH in H.
    eauto using keeps_trans.
Qed.

Lemma rewrite_symtab_keeps (i : Z) (st st' : ElfFile) :
  rewrite_symtab i st = Done st' -> keeps st st'.
Proof.
  unfold rewrite_symtab. intros H. bind_inv H.
  destruct (_ && _); [done_inv H; subst; keeps_step |].
  eapply rewrite_symbols_keeps, H.
Qed.

Lemma rewriteHeaders_keeps (phdrAddress : Z) (st st' : ElfFile) :
  rewriteHeaders phdrAddress st = Done st' -> keeps st st'.
Proof.
  unfold rewriteHeaders. intros H. simpl negb in H. cbv iota in H.
  done_inv H.
  apply (for_shnum_keeps _ _ rewrite_symtab_keeps) in H.
  apply (for_shnum_keeps _ _ write_shdr_keeps) in Ha4.
  apply sortShdrs_keeps in Ha3.
  apply write_phdrs_keeps in Ha0.
  assert (keeps a4 a6).
  { destruct a5; [eapply update_dynamic_keeps, Ha6 | done_inv Ha6; subst; keeps_step]. }
  eapply keeps_trans; [| exact H].
  eapply keeps_trans; [| eassumption].
  eapply keeps_trans; [| eassumption].
  eapply keeps_trans; [| eassumption].
  eapply keeps_trans; [| exact Ha0].
  unfold sortPhdrs. eapply keeps_trans; apply keeps_with_phdrs.
Qed.

Lemma normalizeNoteSegments_keeps (fuel : nat) (st st' : ElfFile) :
  normalizeNoteSegments fuel st = Done st' -> keeps st st'.
Proof.
  unfold normalizeNoteSegments. intros H. bind_inv H.
  destruct (negb a); [done_inv H; subst; keeps_step |].
  bind_inv H. apply hdr_set_keeps in H.
  eapply keeps_trans; [| exact H]. keeps_step.
Qed.

(** ** Writing out the replaced sections empties the pending edits *)

Lemma clobber_keeps (l : list (string * list byte)) :
  forall (acc : outcome ElfFile) (st' : ElfFile),
    foldl clobber acc l = Done st' ->
    exists st0, acc = Done st0 /\ keeps st0 st'.
Proof.
  induction l as [| e l IH]; intros acc st' H; simpl in H.
  - exists st'. split; [exact H | apply keeps_refl].
  - apply IH in H as (st1 & H1 & K1). unfold clobber in H1.
    bind_inv H1. exists a. split; [exact Ha |].
    eapply keeps_trans; [| exact K1].
    bind_inv H1. destruct (negb _); done_inv H1; subst; [| keeps_step].
    apply keeps_with_fileContents. eapply mem_set_length, Ha1.
Qed.

Lemma write_section_keeps (startAddr startOffset : Z) (k : nat) (s s' : write_state) :
  write_section startAddr startOffset k s = Done s' -> keeps (w_file s) (w_file s').
Proof.
  unfold write_section. intros H. do 2 bind_inv H.
  destruct (replacedSections (w_file s) !! a0); [| done_inv H; subst; keeps_step].
  do 2 bind_inv H. destruct a2 as [[shdr phs] noted]. bind_inv H.
  injection H as <-. simpl.
  eapply keeps_trans; [eapply keeps_mem_write, Ha1 |].
  eapply keeps_trans; [apply keeps_with_shdrs | apply keeps_with_phdrs].
Qed.

Lemma write_sections_keeps (startAddr startOffset : Z) (n : nat) :
  forall k s s',
    write_sections startAddr startOffset n k s = Done s' -> keeps (w_file s) (w_file s').
Proof.
  induction n as [| n IH]; intros k s s' H; simpl in H.
  - injection H as <-. apply keeps_refl.
  - bind_inv H. apply write_section_keeps in Ha. apply IH in H.
    eauto using keeps_trans.
Qed.

Lemma writeReplacedSections_Done (curOff startAddr startOffset : Z) (st st' : ElfFile)
    (curOff' : Z) :
  writeReplacedSections curOff startAddr startOffset st = Done (st', curOff') ->
  length (fileContents st') = length (fileContents st) /\ replacedSections st' = ∅.
Proof.
  unfold writeReplacedSections. intros H. do 2 bind_inv H.
  injection H as <- <-. simpl.
  apply write_sections_keeps in Ha0. simpl in Ha0.
  assert (K : keeps st a).
  { destruct clobberOldSections.
    - apply clobber_keeps in Ha as (st0 & E & K). injection E as <-. exact K.
    - injection Ha as <-. apply keeps_refl. }
  split; [| reflexivity].
  rewrite (keeps_length _ _ Ha0). apply (keeps_length _ _ K).
Qed.

(** ** The library strategy, phase by phase *)

Lemma library_segment_keeps (lay : library_layout) (st st' : ElfFile) (addr : Z) :
  library_segment lay st = Done (st', addr) -> keeps st st'.
Proof.
  unfold library_segment. intros H.
  destruct (last (phdrs st)) as [lastSeg |]; [| discriminate].
  bind_inv H. destruct a as [st1 lastSegAddr].
  assert (K : keeps st st1).
  { destruct (_ && _); [| done_inv Ha; subst; keeps_step].
    bind_inv Ha. destruct (_ =? _); done_inv Ha; subst; keeps_step. }
  eapply keeps_trans; [exact K |].
  destruct (lastSegAddr =? 0); [| injection H as <- <-; apply keeps_refl].
  done_inv H. subst. unfold set_phdr.
  eapply keeps_trans; [| apply keeps_with_phdrs].
  eapply keeps_trans; [apply keeps_with_phdrs |].
  eapply hdr_set_keeps. eassumption.
Qed.

Lemma library_write_Done (fuel : nat) (lay : library_layout) (lastSegAddr : Z)
    (st st' : ElfFile) :
  library_write fuel lay lastSegAddr st = Done st' ->
  length (fileContents st') = length (fileContents st) /\ replacedSections st' = ∅.
Proof.
  unfold library_write. intros H. do 2 bind_inv H. destruct a0 as [st1 curOff].
  do 2 bind_inv H. destruct a1 as [st2 curOff2]. bind_inv H.
  apply normalizeNoteSegments_keeps in Ha.
  apply hdr_set_keeps in Ha1.
  apply writeReplacedSections_Done in Ha2 as [L E].
  assert (K1 : keeps a st1).
  { destruct (lay_relocatePht lay); done_inv Ha0; subst; keeps_step. }
  assert (K2 : keeps st2 st').
  { destruct (lay_relocatePht lay); [eapply rewriteHeaders_keeps, H |].
    bind_inv H. eapply rewriteHeaders_keeps, H. }
  split.
  - rewrite (keeps_length _ _ K2), L, (keeps_length _ _ Ha1), (keeps_length _ _ K1).
    apply (keeps_length _ _ Ha).
  - rewrite (keeps_edits _ _ K2). exact E.
Qed.

(** ** The executable strategy ends with the pending edits written out *)

Lemma rewriteSectionsExecutable_Done (fuel : nat) (st st' : ElfFile) :
  rewriteSectionsExecutable fuel st = Done st' -> replacedSections st' = ∅.
Proof.
  unfold rewriteSectionsExecutable. intros H.
  done_inv H.
  lazymatch goal with
  | Hh : rewriteHeaders _ _ = Done st', Hw : writeReplacedSections _ _ _ _ = Done _ |- _ =>
      apply rewriteHeaders_keeps in Hh; rewrite (keeps_edits _ _ Hh);
      apply writeReplacedSections_Done in Hw as [_ E]; exact E
  end.
Qed.

Lemma rewriteSectionsLibrary_Done (fuel : nat) (st st' : ElfFile) :
  rewriteSectionsLibrary fuel st = Done st' -> replacedSections st' = ∅.
Proof.
  unfold rewriteSectionsLibrary. intros H.
  bind_inv H. destruct a as [st1 lay]. bind_inv H. destruct a as [st2 addr].
  apply library_write_Done in H as [_ E]. exact E.
Qed.

(** C10.  A commit that runs a rewrite strategy (it is forced, or there is
    a pending edit) and completes leaves the map of pending edits empty;
    a commit with [force = false] right after it returns at once, leaving
    the object as it is. *)
Theorem commit_clears_edits (fuel : nat) (force : bool) (st st' : ElfFile) :
  force = true \/ replacedSections st <> ∅ ->
  rewriteSections fuel force st = Done st' ->
  replacedSections st' = ∅
  /\ forall fuel', rewriteSections fuel' false st' = Done st'.
Proof.
  intros Hrun H.
  assert (E : replacedSections st' = ∅).
  { unfold rewriteSections in H.
    destruct (negb force && bool_decide (replacedSections st = ∅)) eqn:Hnoop.
    - apply andb_true_iff in Hnoop as [Hf He].
      apply negb_true_iff in Hf. apply bool_decide_eq_true in He.
      destruct Hrun; congruence.
    - bind_inv H. destruct (a =? ET_DYN).
      + eapply rewriteSectionsLibrary_Done, H.
      + destruct (a =? ET_EXEC); [| discriminate].
        eapply rewriteSectionsExecutable_Done, H. }
  split; [exact E |].
  intros fuel'. unfold rewriteSections. rewrite E. reflexivity.
Qed.

(** ** Scheduling edits changes the pending edits only *)

(** [only_edits st st']: [st'] is [st] with other pending edits. *)
Definition only_edits (st st' : ElfFile) : Prop :=
  st' = with_replacedSections (replacedSections st') st.

Lemma only_edits_refl (st : ElfFile) : only_edits st st.
Proof. unfold only_edits. destruct st; reflexivity. Qed.

Lemma only_edits_trans (st1 st2 st3 : ElfFile) :
  only_edits st1 st2 -> only_edits st2 st3 -> only_edits st1 st3.
Proof.
  unfold only_edits. intros H1 H2. rewrite H2 at 1. rewrite H1 at 1. reflexivity.
Qed.

Lemma replaceSection_Done (sectionName : string) (size : Z) (st st' : ElfFile)
    (buf : list byte) :
  replaceSection sectionName size st = Done (st', buf) ->
  st' = with_replacedSections (<[sectionName := buf]> (replacedSections st)) st
  /\ length buf = Z.to_nat (u32 size).
Proof.
  unfold replaceSection. intros H. bind_inv H. injection H as <- <-.
  split; [reflexivity | apply length_resize].
Qed.

Lemma replaceSection_only_edits (sectionName : string) (size : Z) (st st' : ElfFile)
    (buf : list byte) :
  replaceSection sectionName size st = Done (st', buf) -> only_edits st st'.
Proof.
  intros H. apply replaceSection_Done in H as [-> _]. reflexivity.
Qed.

Lemma pht_make_room_only_edits (shnum phtSize : Z) (rest : list Elf_Shdr) :
  forall i st st',
    pht_make_room shnum phtSize i rest st = Done st' -> only_edits st st'.
Proof.
  induction rest as [| shdr rest IH]; intros i st st' H; simpl in H.
  - destruct (i <? shnum); done_inv H. subst. apply only_edits_refl.
  - destruct (i <? shnum); [| done_inv H; subst; apply only_edits_refl].
    destruct (_ <=? _); [| done_inv H; subst; apply only_edits_refl].
    do 2 bind_inv H. apply IH in H.
    eapply only_edits_trans; [| exact H].
    destruct (hasReplacedSection a st).
    + done_inv Ha0. subst. apply only_edits_refl.
    + bind_inv Ha0. injection Ha0 as <-. destruct a1.
      eapply replaceSection_only_edits. exact Ha1.
Qed.

(** The plan of the library strategy leaves the header tables alone. *)
Lemma library_plan_tables (st st1 : ElfFile) (lay : library_layout) :
  library_plan st = Done (st1, lay) ->
  phdrs st1 = phdrs st /\ shdrs st1 = shdrs st.
Proof.
  unfold library_plan. intros H. bind_inv H.
  destruct (scan_segments _ _ _ _) as [[startPage firstPage] alignStartPage].
  done_inv H. subst. simpl.
  lazymatch goal with
  | Hroom : (if negb ?r then _ else _) = Done ?s |- _ =>
      assert (K : only_edits st s);
      [ destruct (negb r);
        [ eapply pht_make_room_only_edits; eassumption
        | done_inv Hroom; subst; apply only_edits_refl ]
      | rewrite K; split; reflexivity ]
  end.
Qed.

(** C9.  The library strategy takes [phdrs.back()] before it tests
    [phdrs.empty()].  For an image opened from [b] whose type is ET_DYN,
    with any pending edits [m], a commit that runs the strategy and gets as
    far as that access (the plan before it succeeds) has undefined
    behaviour there when [e_phnum] is 0, and finds a last program header
    to read when [e_phnum >= 1]. *)
Theorem library_needs_a_program_header (b : list byte) (st st1 : ElfFile)
    (m : gmap string (list byte)) (fuel : nat) (force : bool) (lay : library_layout) :
  ElfFile_ctor b = Done st ->
  buffer_field e_type b = ET_DYN ->
  force = true \/ m <> ∅ ->
  library_plan (with_replacedSections m st) = Done (st1, lay) ->
  (buffer_field e_phnum b = 0 ->
     rewriteSections fuel force (with_replacedSections m st)
     = Undef "back() of an empty vector")
  /\ (1 <= buffer_field e_phnum b -> is_Some (last (phdrs st1))).
Proof.
  intros Hopen Htype Hrun Hplan.
  apply ctor_Done in Hopen as (Hc & _ & _ & Hsize & Hle & Hph & _).
  pose proof (library_plan_tables _ _ _ Hplan) as [Hphdrs _]. simpl in Hphdrs.
  split.
  - intros Hzero. unfold rewriteSections. simpl replacedSections.
    assert (Hnoop : negb force && bool_decide (m = ∅) = false).
    { destruct Hrun as [-> | Hm]; [reflexivity |].
      rewrite bool_decide_eq_false_2 by exact Hm. apply andb_false_r. }
    rewrite Hnoop.
    rewrite (hdr_get_buffer e_type b) by (assumption || reflexivity). cbn [bind].
    rewrite Htype. change (ET_DYN =? ET_DYN) with true. cbv iota.
    unfold rewriteSectionsLibrary. rewrite Hplan. cbn [bind].
    unfold library_segment.
    assert (Hnil : phdrs st1 = []).
    { apply length_zero_iff_nil. rewrite Hphdrs, Hph, Hzero. reflexivity. }
    rewrite Hnil. reflexivity.
  - intros Hone. rewrite last_is_Some. intros Hnil.
    rewrite Hphdrs in Hnil. rewrite Hnil in Hph. simpl in Hph. lia.
Qed.

(** ** The size of the file after the library strategy *)

(** [roundUp] without the 64-bit wrap-around: [n] rounded up to a multiple
    of [m], except that 0 goes to [m]. *)
Definition round_up (n m : Z) : Z :=
  if n =? 0 then m else ((n - 1) / m + 1) * m.

(** The space the pending edits [m] take when each is padded by [roundUp]
    to the section alignment. *)
Definition padded_size (e : string * list byte) : Z :=
  round_up (Z.of_nat (length (snd e))) sectionAlignment.

Definition list_space (l : list (string * list byte)) : Z :=
  foldr (fun e acc => padded_size e + acc) 0 l.

Definition edits_space (m : gmap string (list byte)) : Z :=
  list_space (map_to_list m).

(** The page-start alignment: the page size, or the largest [p_align] (as
    an [unsigned]) when one is larger. *)
Definition page_alignment (pageSize : Z) (l : list Elf_Phdr) : Z :=
  foldl (fun a phdr => Z.max a (u32 (p_align phdr))) pageSize l.

Lemma wrap_small (w x : Z) : 0 <= x < 2 ^ w -> wrap w x = x.
Proof. intros H. unfold wrap. apply Z.mod_small, H. Qed.

Lemma wrap_range (w x : Z) : 0 <= w -> 0 <= wrap w x < 2 ^ w.
Proof. intros H. unfold wrap. apply Z.mod_pos_bound. apply Z.pow_pos_nonneg; lia. Qed.

Lemma swrap_small (w x : Z) : 0 < w -> 0 <= x < 2 ^ (w - 1) -> swrap w x = x.
Proof.
  intros Hw H. unfold swrap.
  assert (2 ^ w = 2 * 2 ^ (w - 1)).
  { replace w with (Z.succ (w - 1)) at 1 by lia. apply Z.pow_succ_r. lia. }
  rewrite wrap_small by lia.
  destruct (Z.ltb_spec x (2 ^ (w - 1))); [reflexivity | lia].
Qed.

Lemma u64_small (x : Z) : 0 <= x < 2 ^ 64 -> u64 x = x.
Proof. apply wrap_small. Qed.

Lemma i64_small (x : Z) : 0 <= x < 2 ^ 63 -> i64 x = x.
Proof. intros H. unfold i64. apply swrap_small; [lia | exact H]. Qed.

Lemma addr_bits_cases : addr_bits = 32 \/ addr_bits = 64.
Proof. unfold addr_bits, sizeof_Off. destruct ElfClass; auto. Qed.

Lemma to_addr_small (x : Z) : 0 <= x < 2 ^ addr_bits -> to_addr x = x.
Proof. apply wrap_small. Qed.

Lemma sectionAlignment_pos : 0 < sectionAlignment.
Proof. unfold sectionAlignment, sizeof_Off. destruct ElfClass; lia. Qed.

Lemma round_up_bounds (n m : Z) :
  0 <= n -> 0 < m -> n <= round_up n m <= n + m /\ 0 < round_up n m.
Proof.
  intros Hn Hm. unfold round_up.
  destruct (Z.eqb_spec n 0) as [-> | Hne]; [lia |].
  pose proof (Z.div_mod (n - 1) m ltac:(lia)) as Hdiv.
  pose proof (Z.mod_pos_bound (n - 1) m Hm) as Hmod.
  nia.
Qed.

Lemma roundUp_exact (n m r : Z) :
  roundUp n m = Done r -> 0 <= round_up n m < 2 ^ 64 -> r = round_up n m.
Proof.
  unfold roundUp, round_up. intros H Hr.
  destruct (n =? 0); [injection H as <-; reflexivity |].
  destruct (m =? 0); [discriminate |].
  injection H as <-. apply u64_small, Hr.
Qed.

Lemma roundUp_Done_nonzero (n m r : Z) : roundUp n m = Done r -> n <> 0 -> m <> 0.
Proof.
  unfold roundUp. intros H Hn.
  destruct (Z.eqb_spec n 0); [contradiction |].
  destruct (Z.eqb_spec m 0); [discriminate | assumption].
Qed.

Lemma le_decode_nonneg (bs : list byte) : 0 <= le_decode bs.
Proof.
  induction bs as [| b bs IH]; simpl; [lia |].
  apply Z.lor_nonneg. split.
  - unfold byteZ. lia.
  - apply Z.shiftl_nonneg, IH.
Qed.

Lemma rdi_nonneg (le : bool) (bs : list byte) : 0 <= rdi le bs.
Proof. unfold rdi. destruct le; apply le_decode_nonneg. Qed.

Lemma hdr_get_nonneg (f : ehdr_field) (st : ElfFile) (v : Z) :
  hdr_get f st = Done v -> 0 <= v.
Proof. unfold hdr_get. intros H. done_inv H. subst v. apply rdi_nonneg. Qed.

Lemma getPageSize_nonneg (st : ElfFile) (p : Z) : getPageSize st = Done p -> 0 <= p.
Proof.
  unfold getPageSize. intros H.
  destruct (0 <? forcedPageSize).
  - injection H as <-. apply wrap_range. lia.
  - bind_inv H.
    repeat match type of H with
    | (if ?c then _ else _) = Done _ => destruct c
    end; injection H as <-; lia.
Qed.

Lemma scan_segments_alignment (l : list Elf_Phdr) :
  forall startPage firstPage a,
    snd (scan_segments l startPage firstPage a) = page_alignment a l.
Proof.
  induction l as [| phdr l IH]; intros startPage firstPage a; simpl; [reflexivity |].
  apply IH.
Qed.

Lemma page_alignment_ge (l : list Elf_Phdr) : forall a, a <= page_alignment a l.
Proof.
  induction l as [| phdr l IH]; intros a; simpl; [lia |].
  etransitivity; [| apply IH]. lia.
Qed.

(** *** The sum over the pending edits *)

Lemma padded_size_pos (e : string * list byte) : 0 < padded_size e.
Proof.
  unfold padded_size. apply round_up_bounds; [lia | apply sectionAlignment_pos].
Qed.

Lemma list_space_nonneg (l : list (string * list byte)) : 0 <= list_space l.
Proof.
  induction l as [| e l IH]; simpl; [lia |]. pose proof (padded_size_pos e). lia.
Qed.

Lemma insert_sorted_Permutation {A : Type} (lt : A -> A -> bool) (x : A) (l : list A) :
  insert_sorted lt x l ≡ₚ x :: l.
Proof.
  induction l as [| y l IH]; simpl; [reflexivity |].
  destruct (lt y x); [| reflexivity].
  rewrite IH. apply Permutation_swap.
Qed.

Lemma stable_sort_Permutation {A : Type} (lt : A -> A -> bool) (l : list A) :
  stable_sort lt l ≡ₚ l.
Proof.
  unfold stable_sort. induction l as [| x l IH]; simpl; [reflexivity |].
  rewrite insert_sorted_Permutation. rewrite IH. reflexivity.
Qed.

Lemma list_space_Permutation (l1 l2 : list (string * list byte)) :
  l1 ≡ₚ l2 -> list_space l1 = list_space l2.
Proof.
  induction 1; simpl; lia.
Qed.

Lemma edits_in_order_space (m : gmap string (list byte)) :
  list_space (edits_in_order m) = edits_space m.
Proof.
  unfold edits_in_order, edits_space. apply list_space_Permutation.
  apply stable_sort_Permutation.
Qed.

Lemma add_sizes_exact (conv : Z -> Z) (bound : Z) (l : list (string * list byte)) :
  (forall x, 0 <= x < bound -> conv x = x) -> bound <= 2 ^ 64 ->
  forall (acc : outcome Z) (v : Z),
    foldl (fun acc e => n <- acc;;
                        r <- roundUp (Z.of_nat (length (snd e))) sectionAlignment;;
                        ret (conv (n + r))) acc l = Done v ->
    exists n0, acc = Done n0
               /\ (0 <= n0 -> n0 + list_space l < bound -> v = n0 + list_space l).
Proof.
  intros Hconv Hb. induction l as [| e l IH]; intros acc v H; simpl in H.
  - exists v. split; [exact H |]. simpl. lia.
  - apply IH in H as (n1 & H1 & Hv). do 2 bind_inv H1. injection H1 as <-.
    exists a. split; [exact Ha |]. intros Hn Hsum. simpl in Hsum.
    pose proof (padded_size_pos e). pose proof (list_space_nonneg l).
    apply roundUp_exact in Ha0; [| fold (padded_size e); lia].
    fold (padded_size e) in Ha0. subst a0.
    rewrite Hconv in Hv by lia. simpl. rewrite Hv by lia. lia.
Qed.

(** *** The plan *)

Definition is_note (shdr : Elf_Shdr) : bool := sh_type shdr =? SHT_NOTE.

(** The exact sizes the library strategy plans with, for a state [st] with
    page size [pageSize], [shnum] section headers of [shentsize] bytes. *)
Definition exact_startOffset (pageSize : Z) (st : ElfFile) : Z :=
  round_up (Z.of_nat (length (fileContents st))) (page_alignment pageSize (phdrs st)).

Definition exact_shtSize (shnum shentsize : Z) : Z :=
  round_up (shnum * shentsize) sectionAlignment.

Definition exact_phtSize (st : ElfFile) : Z :=
  round_up ((Z.of_nat (length (phdrs st))
             + Z.of_nat (length (List.filter is_note (shdrs st))) + 1) * sizeof_Phdr
            + sizeof_Ehdr) sectionAlignment.

(** [neededSpace] for [relocatePht] and the pending edits [m]. *)
Definition exact_neededSpace (shnum shentsize : Z) (st : ElfFile) (relocatePht : bool)
    (m : gmap string (list byte)) : Z :=
  exact_shtSize shnum shentsize
  + (if relocatePht then exact_phtSize st else 0)
  + edits_space m.

Lemma sizeof_Phdr_range : 0 < sizeof_Phdr <= 56 /\ 0 < sizeof_Ehdr <= 64.
Proof. unfold sizeof_Phdr, sizeof_Ehdr. destruct ElfClass; lia. Qed.

Lemma exact_phtSize_range (st : ElfFile) :
  Z.of_nat (length (phdrs st)) < 2 ^ 32 -> Z.of_nat (length (shdrs st)) < 2 ^ 32 ->
  0 < exact_phtSize st < 2 ^ 40.
Proof.
  intros Hp Hs. unfold exact_phtSize.
  pose proof (List.filter_length_le is_note (shdrs st)) as Hf.
  pose proof sizeof_Phdr_range as [[? ?] [? ?]].
  pose proof sectionAlignment_pos.
  assert (sectionAlignment <= 8) by (unfold sectionAlignment, sizeof_Off; destruct ElfClass; lia).
  set (x := (_ * sizeof_Phdr + sizeof_Ehdr)).
  assert (0 <= x < 2 ^ 39) by (subst x; nia).
  pose proof (round_up_bounds x sectionAlignment ltac:(lia) ltac:(lia)). lia.
Qed.

Lemma library_plan_exact (st st1 : ElfFile) (lay : library_layout)
    (pageSize shnum shentsize : Z) :
  library_plan st = Done (st1, lay) ->
  getPageSize st = Done pageSize ->
  hdr_get e_shnum st = Done shnum ->
  hdr_get e_shentsize st = Done shentsize ->
  Z.of_nat (length (phdrs st)) < 2 ^ 32 ->
  Z.of_nat (length (shdrs st)) < 2 ^ 32 ->
  exact_startOffset pageSize st < 2 ^ addr_bits ->
  exact_startOffset pageSize st
  + exact_neededSpace shnum shentsize st (lay_relocatePht lay) (replacedSections st1) + 1
  < 2 ^ 63 ->
  lay_startOffset lay = exact_startOffset pageSize st
  /\ lay_neededSpace lay
     = exact_neededSpace shnum shentsize st (lay_relocatePht lay) (replacedSections st1)
  /\ lay_shtSize lay = exact_shtSize shnum shentsize
  /\ lay_phtSize lay = exact_phtSize st
  /\ Z.of_nat (length (fileContents st1))
     = lay_startOffset lay + lay_neededSpace lay + 1
  /\ Z.of_nat (length (fileContents st)) <= lay_startOffset lay
  /\ 0 <= lay_neededSpace lay.
Proof.
  intros Hplan Hpage Hshnum Hshent Hp Hs Hso Htotal.
  unfold library_plan in Hplan. rewrite Hpage, Hshnum, Hshent in Hplan. cbn [bind] in Hplan.
  pose proof (scan_segments_alignment (phdrs st) 0 0 pageSize) as Halign.
  destruct (scan_segments _ _ _ _) as [[startPage firstPage] alignStartPage].
  simpl in Halign.
  bind_inv Hplan. rename a into startPage', Ha into HstartPage.
  bind_inv Hplan. rename a into pht, Ha into Hpht.
  bind_inv Hplan. rename a into shbytes, Ha into Hmul.
  bind_inv Hplan. rename a into sht, Ha into Hsht.
  bind_inv Hplan. rename a into relocatePht, Ha into Hblocked.
  bind_inv Hplan. rename a into st2, Ha into Hroom.
  bind_inv Hplan. rename a into needed, Ha into Hneeded.
  bind_inv Hplan. rename a into so, Ha into Hstart.
  bind_inv Hplan. rename a into c, Ha into Hresize.
  injection Hplan as <- <-. simpl in *.
  (* the state after scheduling has the same file and tables *)
  assert (K : only_edits st st2).
  { destruct (negb relocatePht).
    - eapply pht_make_room_only_edits. exact Hroom.
    - injection Hroom as <-. apply only_edits_refl. }
  assert (Hc2 : fileContents st2 = fileContents st) by (rewrite K; reflexivity).
  rewrite Hc2 in *.
  (* the sizes of the two tables *)
  pose proof (exact_phtSize_range st Hp Hs) as Hphtr.
  pose proof (List.filter_length_le is_note (shdrs st)) as Hf.
  change (fun shdr : Elf_Shdr => sh_type shdr =? SHT_NOTE) with is_note in Hpht.
  rewrite (u32_id (Z.of_nat (length (List.filter is_note (shdrs st))))) in Hpht by lia.
  pose proof sizeof_Phdr_range as [[? ?] [? ?]].
  rewrite u64_small in Hpht by nia.
  apply roundUp_exact in Hpht; [| fold (exact_phtSize st); lia].
  fold (exact_phtSize st) in Hpht. subst pht.
  unfold mul_int in Hmul.
  destruct (Z.ltb_spec (shnum * shentsize) (2 ^ 31)); [| discriminate].
  injection Hmul as <-.
  pose proof (hdr_get_nonneg _ _ _ Hshnum). pose proof (hdr_get_nonneg _ _ _ Hshent).
  pose proof (round_up_bounds (shnum * shentsize) sectionAlignment ltac:(nia)
                sectionAlignment_pos) as Hshtr.
  assert (sectionAlignment <= 8)
    by (unfold sectionAlignment, sizeof_Off; destruct ElfClass; lia).
  apply roundUp_exact in Hsht; [| lia].
  fold (exact_shtSize shnum shentsize) in Hsht, Hshtr. subst sht.
  rewrite (i64_small (exact_shtSize _ _)) in * by lia.
  rewrite (i64_small (exact_phtSize _)) in * by lia.
  (* the start offset *)
  assert (Hlen : 0 < Z.of_nat (length (fileContents st))).
  { unfold hdr_get in Hshnum. bind_inv Hshnum.
    apply mem_read_Done in Ha as (? & ? & ? & _).
    pose proof (ehdr_field_in_header e_shnum). unfold ehdr_size in *. lia. }
  pose proof (getPageSize_nonneg _ _ Hpage) as Hpnn.
  pose proof (page_alignment_ge (phdrs st) pageSize) as Hage.
  rewrite <- Halign in Hage.
  pose proof (roundUp_Done_nonzero _ _ _ Hstart ltac:(lia)) as Hanz.
  unfold exact_startOffset in *. rewrite <- Halign in *.
  pose proof (round_up_bounds (Z.of_nat (length (fileContents st))) alignStartPage
                ltac:(lia) ltac:(lia)) as Hsor.
  pose proof addr_bits_cases as Hab.
  assert (2 ^ addr_bits <= 2 ^ 64) by (destruct Hab as [-> | ->]; lia).
  apply roundUp_exact in Hstart; [| lia]. subst so.
  rewrite to_addr_small in * by lia.
  (* the needed space *)
  unfold add_edit_sizes in Hneeded.
  apply (add_sizes_exact i64 (2 ^ 63)) in Hneeded as (n0 & Hn0 & Hv);
    [| intros; apply i64_small; assumption | lia].
  injection Hn0 as <-.
  rewrite edits_in_order_space in Hv.
  unfold exact_neededSpace in *.
  pose proof (list_space_nonneg (map_to_list (replacedSections st2))) as Hsp.
  change (0 <= edits_space (replacedSections st2)) in Hsp.
  assert (Hneed : needed = exact_shtSize shnum shentsize
                           + (if relocatePht then exact_phtSize st else 0)
                           + edits_space (replacedSections st2)).
  { destruct relocatePht.
    - rewrite i64_small in Hv by lia. rewrite Hv by lia. lia.
    - rewrite Hv by lia. lia. }
  subst needed.
  (* the resize *)
  unfold vec_resize in Hresize.
  destruct (2 ^ 63 <=? _); [discriminate |]. injection Hresize as <-.
  rewrite u64_small by (destruct relocatePht; lia).
  rewrite length_resize.
  repeat split; try reflexivity; destruct relocatePht; lia.
Qed.

Lemma off_plus_exact (a b : Z) : 0 <= a + b < 2 ^ 63 -> off_plus a b = a + b.
Proof.
  intros H. unfold off_plus. destruct ElfClass.
  - apply i64_small, H.
  - apply u64_small. lia.
Qed.

(** [library_write] is its two phases with the assertion on the cursor
    between them. *)
Lemma library_write_phases (fuel : nat) (lay : library_layout) (lastSegAddr : Z)
    (st : ElfFile) :
  library_write fuel lay lastSegAddr st
  = (r <- library_placement fuel lay st;;
     let (st, curOff) := r : ElfFile * Z in
     _ <- assert (curOff =? off_plus (lay_startOffset lay) (lay_neededSpace lay))
            "curOff == startOffset + neededSpace";;
     library_headers lay lastSegAddr st).
Proof.
  unfold library_write, library_placement, library_headers.
  destruct (normalizeNoteSegments fuel st) as [st1 | | | |]; try reflexivity. cbn [bind].
  destruct (lay_relocatePht lay).
  - destruct (hdr_set e_phoff (lay_startOffset lay) st1) as [st2 | | | |]; try reflexivity.
    cbn [bind ret].
    destruct (hdr_set e_shoff _ st2) as [st3 | | | |]; reflexivity.
  - cbn [bind ret].
    destruct (hdr_set e_shoff _ st1) as [st3 | | | |]; reflexivity.
Qed.

(** C5 (amended).  When the library strategy completes, the file has
    exactly [startOffset + neededSpace + 1] bytes, where [startOffset] is
    [roundUp] of the old file size to the page-start alignment and
    [neededSpace] is [roundUp] of the size of the section header table to
    the section alignment, plus the same for the program header table when
    it is relocated, plus the sum over the pending edits (those scheduled by
    the plan included) of [roundUp] of the size of the edit to the section
    alignment; [roundUp] is the helper of the program, which takes 0 to one
    whole unit of alignment.  The write cursor of this commit ends at
    [startOffset + neededSpace], one byte short of the end of the file: the
    commit is the plan, the step [library_segment] on the object [st1] of
    the plan, the phase [library_placement], which returns from
    [writeReplacedSections] with that cursor, and the rewrite of the headers
    [library_headers], which gives [st'].  The sizes are exact integers; the
    hypotheses say that none of them overflows the C type it is computed
    in. *)
Theorem library_file_size (fuel : nat) (st st1 st' : ElfFile) (lay : library_layout)
    (pageSize shnum shentsize : Z) :
  library_plan st = Done (st1, lay) ->
  rewriteSectionsLibrary fuel st = Done st' ->
  getPageSize st = Done pageSize ->
  hdr_get e_shnum st = Done shnum ->
  hdr_get e_shentsize st = Done shentsize ->
  let startOffset := exact_startOffset pageSize st in
  let neededSpace :=
    exact_neededSpace shnum shentsize st (lay_relocatePht lay) (replacedSections st1) in
  Z.of_nat (length (phdrs st)) < 2 ^ 32 ->
  Z.of_nat (length (shdrs st)) < 2 ^ 32 ->
  startOffset < 2 ^ addr_bits ->
  startOffset + neededSpace + 1 < 2 ^ 63 ->
  Z.of_nat (length (fileContents st')) = startOffset + neededSpace + 1
  /\ Z.of_nat (length (fileContents st)) <= startOffset
  /\ exists (st2 st3 : ElfFile) (lastSegAddr : Z),
       library_segment lay st1 = Done (st2, lastSegAddr)
       /\ library_placement fuel lay st2 = Done (st3, startOffset + neededSpace)
       /\ library_headers lay lastSegAddr st3 = Done st'.
Proof.
  intros Hplan Hrun Hpage Hshnum Hshent startOffset neededSpace Hp Hs Hso Htotal.
  destruct (library_plan_exact _ _ _ _ _ _ Hplan Hpage Hshnum Hshent Hp Hs Hso Htotal)
    as (Eso & Ens & _ & _ & Elen & Ele & Enn).
  fold startOffset in Eso. fold neededSpace in Ens.
  unfold rewriteSectionsLibrary in Hrun. rewrite Hplan in Hrun. cbn [bind] in Hrun.
  bind_inv Hrun. destruct a as [st2 lastSegAddr].
  pose proof (library_segment_keeps _ _ _ _ Ha) as K.
  pose proof (library_write_Done _ _ _ _ _ Hrun) as [L _].
  split; [| split].
  - rewrite L, (keeps_length _ _ K), Elen, Eso, Ens. reflexivity.
  - rewrite <- Eso. exact Ele.
  - rewrite library_write_phases in Hrun.
    apply bind_Done in Hrun as ([st3 cur] & Hplace & Hrun).
    apply bind_Done in Hrun as (u & Hassert & Hrun).
    apply assert_Done in Hassert. apply Z.eqb_eq in Hassert.
    rewrite Eso, Ens, off_plus_exact in Hassert by lia. subst cur.
    exists st2, st3, lastSegAddr. repeat split; assumption.
Qed.

(** *** The size with plain rounding

    The reading of C5 in which "rounded up" is the least multiple of the
    alignment that is not below the size, so that an empty edit takes no
    space. *)
Definition align_up (n m : Z) : Z := (n + m - 1) / m * m.

Definition plain_edits_space (m : gmap string (list byte)) : Z :=
  foldr (fun e acc => align_up (Z.of_nat (length (snd e))) sectionAlignment + acc) 0
        (map_to_list m).

Definition plain_size (pageSize shnum shentsize : Z) (st : ElfFile) (relocatePht : bool)
    (m : gmap string (list byte)) : Z :=
  align_up (Z.of_nat (length (fileContents st))) (page_alignment pageSize (phdrs st))
  + (align_up (shnum * shentsize) sectionAlignment
     + (if relocatePht
        then align_up ((Z.of_nat (length (phdrs st))
                        + Z.of_nat (length (List.filter is_note (shdrs st))) + 1) * sizeof_Phdr
                       + sizeof_Ehdr) sectionAlignment
        else 0)
     + plain_edits_space m)
  + 1.

(** ** The walk of the executable strategy *)

(** The stopping rule of the walk: a section of type SHT_PROGBITS other
    than [.interp], or the section right after [.dynstr]. *)
Definition irreplaceable (prevSection : string) (shdr : Elf_Shdr) (sectionName : string)
    : bool :=
  ((sh_type shdr =? SHT_PROGBITS) && negb (bool_decide (sectionName = ".interp")))
  || bool_decide (prevSection = ".dynstr").

(** The rule as C3 words it: the section must also have no pending edit. *)
Definition irreplaceable_unedited (m : gmap string (list byte)) (prevSection : string)
    (shdr : Elf_Shdr) (sectionName : string) : bool :=
  negb (bool_decide (is_Some (m !! sectionName)))
  && irreplaceable prevSection shdr sectionName.

(** The name of a section, empty when it has none. *)
Definition section_name (st : ElfFile) (shdr : Elf_Shdr) : string :=
  match getSectionName shdr st with
  | Done n => n
  | _ => String.EmptyString
  end.

(** The index of the first section of [l] (whose first element has index
    [i] and follows a section named [prev]) at which [rule] holds; the
    index after the last one when there is none. *)
Fixpoint first_stop (rule : string -> Elf_Shdr -> string -> bool) (st : ElfFile)
    (prev : string) (i : Z) (l : list Elf_Shdr) : Z :=
  match l with
  | [] => i
  | shdr :: l' =>
      if rule prev shdr (section_name st shdr) then i
      else first_stop rule st (section_name st shdr) (i + 1) l'
  end.

(** The edit that passes a section through: its bytes in the file, at its
    current size (as the [unsigned int] that [replaceSection] takes). *)
Definition pass_through (st : ElfFile) (shdr : Elf_Shdr) : list byte :=
  resize (Z.to_nat (u32 (sh_size shdr))) x00
    (take (Z.to_nat (sh_size shdr)) (drop (Z.to_nat (sh_offset shdr)) (fileContents st))).

(** The pending edits after the sections [l] have been passed: each one
    whose name has no pending edit yet is scheduled as a pass-through. *)
Fixpoint scheduled (st : ElfFile) (m : gmap string (list byte)) (l : list Elf_Shdr)
    : gmap string (list byte) :=
  match l with
  | [] => m
  | shdr :: l' =>
      let n := section_name st shdr in
      scheduled st (match m !! n with
                    | Some _ => m
                    | None => <[n := pass_through st shdr]> m
                    end) l'
  end.

Lemma first_stop_range rule st (l : list Elf_Shdr) :
  forall prev i, i <= first_stop rule st prev i l <= i + Z.of_nat (length l).
Proof.
  induction l as [| shdr l IH]; intros prev i; simpl; [lia |].
  destruct (rule _ _ _); [lia |].
  specialize (IH (section_name st shdr) (i + 1)). lia.
Qed.

(** [first_stop] is the first index at which the rule holds: the rule holds
    there (when it is an index of [l]) and at no index before it, the
    section before index [j] being the previous element of [l], or [prev]
    for the first. *)
Lemma first_stop_spec rule st (l : list Elf_Shdr) :
  forall prev i,
    let k := first_stop rule st prev i l in
    let before (j : Z) :=
      if j =? i then prev
      else section_name st (default (mkShdr 0 0 0 0 0 0 0 0 0 0)
                              (l !! Z.to_nat (j - i - 1))) in
    (forall j shdr, i <= j < k -> l !! Z.to_nat (j - i) = Some shdr ->
        rule (before j) shdr (section_name st shdr) = false)
    /\ (forall shdr, l !! Z.to_nat (k - i) = Some shdr ->
          rule (before k) shdr (section_name st shdr) = true).
Proof.
  induction l as [| shdr l IH]; intros prev i; simpl.
  - split; [intros; lia |]. intros shdr H. rewrite lookup_nil in H. discriminate.
  - destruct (rule prev shdr (section_name st shdr)) eqn:R.
    + split; [intros; lia |]. intros s H.
      replace (i - i) with 0 in H by lia. simpl in H. injection H as <-.
      rewrite Z.eqb_refl. exact R.
    + specialize (IH (section_name st shdr) (i + 1)). simpl in IH.
      destruct IH as [IH1 IH2].
      pose proof (first_stop_range rule st l (section_name st shdr) (i + 1)) as Hr.
      split.
      * intros j s Hj Hs. destruct (Z.eqb_spec j i) as [-> | Hne].
        -- replace (i - i) with 0 in Hs by lia. simpl in Hs. injection Hs as <-. exact R.
        -- replace (Z.to_nat (j - i)) with (S (Z.to_nat (j - (i + 1)))) in Hs by lia.
           simpl in Hs. specialize (IH1 j s ltac:(lia) Hs).
           destruct (Z.eqb_spec j (i + 1)) as [-> | Hne2].
           ++ replace (i + 1 - i - 1) with 0 by lia. simpl. exact IH1.
           ++ replace (Z.to_nat (j - i - 1)) with (S (Z.to_nat (j - (i + 1) - 1))) by lia.
              simpl. exact IH1.
      * intros s Hs.
        set (k := first_stop rule st (section_name st shdr) (i + 1) l) in *.
        replace (Z.to_nat (k - i)) with (S (Z.to_nat (k - (i + 1)))) in Hs by lia.
        simpl in Hs. specialize (IH2 s Hs).
        destruct (Z.eqb_spec k i) as [| _]; [lia |].
        destruct (Z.eqb_spec k (i + 1)) as [E | Hne2].
        -- rewrite E. replace (i + 1 - i - 1) with 0 by lia. simpl. exact IH2.
        -- replace (Z.to_nat (k - i - 1)) with (S (Z.to_nat (k - (i + 1) - 1))) by lia.
           simpl. exact IH2.
Qed.

(** The section directory does not look at the pending edits. *)
Lemma getSectionIndex_loop_edits (sectionName : string) (shnum : Z) (st : ElfFile)
    (m : gmap string (list byte)) (rest : list Elf_Shdr) :
  forall i,
    getSectionIndex_loop sectionName shnum (with_replacedSections m st) i rest
    = getSectionIndex_loop sectionName shnum st i rest.
Proof.
  induction rest as [| shdr rest IH]; intros i; simpl; [reflexivity |].
  destruct (i <? shnum); [| reflexivity].
  change (getSectionName shdr (with_replacedSections m st)) with (getSectionName shdr st).
  destruct (getSectionName shdr st); simpl; try reflexivity.
  destruct (decide (a = sectionName)); [reflexivity | apply IH].
Qed.

Lemma findSectionHeader_edits (sectionName : string) (st : ElfFile)
    (m : gmap string (list byte)) :
  findSectionHeader sectionName (with_replacedSections m st)
  = findSectionHeader sectionName st.
Proof.
  unfold findSectionHeader, tryFindSectionHeader, getSectionIndex.
  change (hdr_get e_shnum (with_replacedSections m st)) with (hdr_get e_shnum st).
  destruct (hdr_get e_shnum st); simpl; try reflexivity.
  rewrite getSectionIndex_loop_edits. reflexivity.
Qed.

(** [getSectionIndex] returns the first index with the name: the sections
    before it have other names. *)
Lemma getSectionIndex_loop_first (sectionName : string) (shnum : Z) (st : ElfFile)
    (rest : list Elf_Shdr) :
  forall i r,
    getSectionIndex_loop sectionName shnum st i rest = Done r -> r <> 0 -> 0 < i ->
    forall k shdr, (Z.of_nat k < r - i) -> rest !! k = Some shdr ->
      section_name st shdr <> sectionName.
Proof.
  induction rest as [| shdr rest IH]; intros i r H Hr Hi k s Hk Hs.
  - rewrite lookup_nil in Hs. discriminate.
  - simpl in H. destruct (i <? shnum); [| injection H as <-; congruence].
    bind_inv H. destruct (decide (a = sectionName)) as [-> | Hne].
    + injection H as <-. lia.
    + destruct k as [| k]; simpl in Hs.
      * injection Hs as <-. unfold section_name. rewrite Ha. exact Hne.
      * eapply (IH (i + 1) r H Hr ltac:(lia) k s); [lia | exact Hs].
Qed.

Lemma getSectionIndex_first (sectionName : string) (st : ElfFile) (r : Z) :
  getSectionIndex sectionName st = Done r -> r <> 0 ->
  forall j shdr, 1 <= j < r -> shdrs st !! Z.to_nat j = Some shdr ->
    section_name st shdr <> sectionName.
Proof.
  unfold getSectionIndex. intros H Hr j shdr Hj Hs. bind_inv H.
  eapply (getSectionIndex_loop_first _ _ _ _ 1 r H Hr ltac:(lia) (Z.to_nat (j - 1)));
    [lia |].
  rewrite lookup_drop. replace (1 + Z.to_nat (j - 1))%nat with (Z.to_nat j) by lia.
  exact Hs.
Qed.

(** Scheduling a section whose name has no pending edit, when every
    section before it has one: the edit is the pass-through of that very
    section. *)
Lemma replaceSection_pass_through (st0 : ElfFile) (m : gmap string (list byte))
    (j : Z) (shdr : Elf_Shdr) (n : string) (st' : ElfFile) (buf : list byte) :
  1 <= j ->
  shdrs st0 !! Z.to_nat j = Some shdr ->
  getSectionName shdr st0 = Done n ->
  m !! n = None ->
  (forall i s, 1 <= i < j -> shdrs st0 !! Z.to_nat i = Some s ->
     is_Some (m !! section_name st0 s)) ->
  replaceSection n (sh_size shdr) (with_replacedSections m st0) = Done (st', buf) ->
  st' = with_replacedSections (<[n := pass_through st0 shdr]> m) st0.
Proof.
  intros Hj Hs Hn Hm Hvisited H.
  unfold replaceSection in H. simpl replacedSections in H. rewrite Hm in H.
  rewrite findSectionHeader_edits in H.
  apply bind_Done in H as (bytes & Hbytes & H). injection H as <- <-.
  apply bind_Done in Hbytes as (found & Hfound & Hbytes).
  simpl fileContents in Hbytes.
  (* the header found by name is the one at [j] *)
  assert (found = shdr) as ->.
  { unfold findSectionHeader, tryFindSectionHeader in Hfound.
    apply bind_Done in Hfound as (o & Ho & Hfound).
    apply bind_Done in Ho as (idx & Hidx & Ho).
    destruct o as [s |]; [| discriminate]. injection Hfound as ->.
    destruct (Z.eqb_spec idx 0) as [| Hnz]; [discriminate |].
    apply bind_Done in Ho as (s' & Hat & Ho). injection Ho as ->.
    pose proof (getSectionIndex_found _ _ _ Hidx Hnz) as (Hpos & s2 & Hs2 & Hn2).
    pose proof (getSectionIndex_first _ _ _ Hidx Hnz) as Hfirst.
    assert (idx = j) as ->.
    { destruct (Z.lt_trichotomy idx j) as [Hlt | [E | Hgt]]; [| exact E |].
      - exfalso. specialize (Hvisited idx s2 ltac:(lia) Hs2).
        unfold section_name in Hvisited. rewrite Hn2, Hm in Hvisited.
        destruct Hvisited; discriminate.
      - exfalso. apply (Hfirst j shdr ltac:(lia) Hs).
        unfold section_name. rewrite Hn. reflexivity. }
    unfold vec_at in Hat. destruct (0 <=? j); [| discriminate].
    rewrite Hs in Hat. injection Hat as <-. reflexivity. }
  unfold extractString in Hbytes. apply mem_read_Done in Hbytes as (_ & _ & _ & ->).
  reflexivity.
Qed.

Lemma lookup_drop_head {A : Type} (l rest : list A) (x : A) (i : nat) :
  drop i l = x :: rest -> l !! i = Some x /\ drop (S i) l = rest.
Proof.
  revert i. induction l as [| y l IH]; intros i H.
  - rewrite drop_nil in H. discriminate.
  - destruct i as [| i]; simpl in *.
    + injection H as <- <-. split; reflexivity.
    + apply IH, H.
Qed.

(** The walk from index [i] on, with the pending edits [m]. *)
Lemma walk_sections_general (st0 : ElfFile) (lastReplaced : Z) (rest : list Elf_Shdr) :
  forall i prev m so sa lr w',
    1 <= i <= lastReplaced + 1 ->
    drop (Z.to_nat i) (shdrs st0) = rest ->
    (forall i' s, 1 <= i' < i -> shdrs st0 !! Z.to_nat i' = Some s ->
       is_Some (m !! section_name st0 s)) ->
    walk_sections lastReplaced i rest prev (mkWalk (with_replacedSections m st0) so sa lr)
    = Done w' ->
    let secs := take (Z.to_nat (lastReplaced + 1 - i)) rest in
    let k := first_stop irreplaceable st0 prev i secs in
    walk_file w'
    = with_replacedSections (scheduled st0 m (take (Z.to_nat (k - i)) secs)) st0
    /\ (k <= lastReplaced ->
        exists shdr, shdrs st0 !! Z.to_nat k = Some shdr
                     /\ walk_startOffset w' = sh_offset shdr
                     /\ walk_startAddr w' = sh_addr shdr
                     /\ walk_lastReplaced w' = k - 1)
    /\ (lastReplaced < k ->
        walk_startOffset w' = so /\ walk_startAddr w' = sa
        /\ walk_lastReplaced w' = lr /\ k = lastReplaced + 1).
Proof.
  induction rest as [| shdr rest IH]; intros i prev m so sa lr w' Hi Hdrop Hvisited H;
    simpl in H.
  - destruct (Z.leb_spec i lastReplaced); [discriminate |]. injection H as <-.
    rewrite take_nil. simpl. rewrite take_nil. simpl.
    split; [reflexivity |]. split; [lia |]. intros _. repeat split. lia.
  - destruct (Z.leb_spec i lastReplaced) as [Hle | Hgt].
    + apply lookup_drop_head in Hdrop as [Hshdr Hdrop].
      replace (Z.to_nat (lastReplaced + 1 - i))
        with (S (Z.to_nat (lastReplaced + 1 - (i + 1)))) by lia.
      cbn [take first_stop]. simpl walk_file in H.
      change (getSectionName shdr (with_replacedSections m st0))
        with (getSectionName shdr st0) in H.
      apply bind_Done in H as (n & Hn & H).
      assert (Hname : section_name st0 shdr = n) by (unfold section_name; rewrite Hn; reflexivity).
      rewrite Hname. fold (irreplaceable prev shdr n) in H.
      destruct (irreplaceable prev shdr n).
      * injection H as <-. simpl.
        replace (Z.to_nat (i - i)) with 0%nat by lia. simpl.
        split; [reflexivity |]. split; [| lia].
        intros _. exists shdr. repeat split. exact Hshdr.
      * apply bind_Done in H as (st1 & Hst1 & H).
        unfold hasReplacedSection in Hst1. simpl replacedSections in Hst1.
        set (m' := match m !! n with
                   | Some _ => m
                   | None => <[n := pass_through st0 shdr]> m
                   end).
        assert (Est1 : st1 = with_replacedSections m' st0).
        { subst m'. destruct (m !! n) as [b |] eqn:Em.
          - rewrite bool_decide_eq_true_2 in Hst1 by eauto. injection Hst1 as <-.
            reflexivity.
          - rewrite bool_decide_eq_false_2 in Hst1 by (intros [? ?]; discriminate).
            simpl in Hst1. apply bind_Done in Hst1 as ([st2 buf] & Hrep & Hst1).
            injection Hst1 as <-.
            eapply (replaceSection_pass_through st0 m i shdr n); eauto; lia. }
        subst st1. simpl in H.
        assert (Hsub : forall x, is_Some (m !! x) -> is_Some (m' !! x)).
        { intros x Hx. subst m'. destruct (m !! n) eqn:Em; [exact Hx |].
          destruct (decide (x = n)) as [-> | Hne].
          - rewrite lookup_insert_eq. eauto.
          - rewrite lookup_insert_ne by congruence. exact Hx. }
        assert (Hn' : is_Some (m' !! n)).
        { subst m'. destruct (m !! n) eqn:Em; [rewrite Em; eauto |].
          rewrite lookup_insert_eq. eauto. }
        replace (Z.to_nat (i + 1)) with (S (Z.to_nat i)) in IH by lia.
        specialize (IH (i + 1) n m' so sa lr w' ltac:(lia)).
        replace (Z.to_nat (i + 1)) with (S (Z.to_nat i)) in IH by lia.
        specialize (IH Hdrop).
        destruct IH as (IH1 & IH2 & IH3); [| exact H |].
        { intros i' s Hi' Hs. destruct (Z.eq_dec i' i) as [-> | Hne].
          - rewrite Hshdr in Hs. injection Hs as <-. rewrite Hname. exact Hn'.
          - apply Hsub. apply (Hvisited i' s); [lia | exact Hs]. }
        set (secs := take (Z.to_nat (lastReplaced + 1 - (i + 1))) rest) in *.
        pose proof (first_stop_range irreplaceable st0 secs n (i + 1)) as Hr.
        set (k := first_stop irreplaceable st0 n (i + 1) secs) in *.
        replace (Z.to_nat (k - i)) with (S (Z.to_nat (k - (i + 1)))) by lia.
        cbn [take scheduled]. rewrite Hname. fold m'.
        split; [exact IH1 |]. split; [exact IH2 | exact IH3].
    + injection H as <-.
      replace (Z.to_nat (lastReplaced + 1 - i)) with 0%nat by lia. simpl.
      rewrite take_nil. simpl.
      split; [reflexivity |]. split; [lia |].
      intros _. repeat split. lia.
Qed.

(** The loop that finds the last replaced section. *)
Lemma last_replaced_spec (st : ElfFile) (shnum : Z) (rest : list Elf_Shdr) :
  forall i acc r,
    last_replaced st shnum i rest acc = Done r ->
    0 <= i -> drop (Z.to_nat i) (shdrs st) = rest ->
    let edited (s : Elf_Shdr) := is_Some (replacedSections st !! section_name st s) in
    let none_after (r : Z) :=
      forall j s, r < j < shnum -> i <= j -> shdrs st !! Z.to_nat j = Some s -> ~ edited s in
    (r = acc /\ none_after (i - 1))
    \/ (i <= r < shnum /\ (exists s, shdrs st !! Z.to_nat r = Some s /\ edited s)
        /\ none_after r).
Proof.
  induction rest as [| shdr rest IH]; intros i acc r H Hi Hdrop edited none_after;
    simpl in H.
  - destruct (Z.ltb_spec i shnum); [discriminate |]. injection H as <-.
    left. split; [reflexivity |]. intros j s Hj. lia.
  - destruct (Z.ltb_spec i shnum) as [Hlt | Hge].
    + apply lookup_drop_head in Hdrop as [Hshdr Hdrop].
      apply bind_Done in H as (n & Hn & H).
      assert (Hname : section_name st shdr = n)
        by (unfold section_name; rewrite Hn; reflexivity).
      replace (S (Z.to_nat i)) with (Z.to_nat (i + 1)) in Hdrop by lia.
      apply IH in H; [| lia | exact Hdrop]. simpl in H.
      unfold hasReplacedSection in H.
      destruct H as [[-> Hnone] | (Hr & Hs & Hnone)].
      * destruct (bool_decide (is_Some (replacedSections st !! n))) eqn:E.
        -- apply bool_decide_eq_true in E. right. split; [lia |]. split.
           ++ exists shdr. split; [exact Hshdr |]. unfold edited. rewrite Hname. exact E.
           ++ intros j s Hj Hij Hs. apply (Hnone j s); [lia | lia | exact Hs].
        -- apply bool_decide_eq_false in E. left. split; [reflexivity |].
           intros j s Hj Hij Hs. destruct (Z.eq_dec j i) as [-> | Hne].
           ++ rewrite Hshdr in Hs. injection Hs as <-. unfold edited.
              rewrite Hname. exact E.
           ++ apply (Hnone j s); [lia | lia | exact Hs].
      * right. split; [lia |]. split; [exact Hs |].
        intros j s Hj Hij Hsj. apply (Hnone j s); [lia | lia | exact Hsj].
    + injection H as <-. left. split; [reflexivity |]. intros j s Hj. lia.
Qed.

(** C3 (amended).  In the executable strategy, with the section header
    table sorted by offset ([st0]) and [lastReplaced] the last index whose
    section has a pending edit, the walk from index 1 to [lastReplaced]
    stops at the first section [k] in that range that is not replaceable
    (its type is SHT_PROGBITS and its name is not [.interp], or the section
    before it is [.dynstr]), whether or not that section has a pending edit:
    [startOffset] and [startAddr] are the header fields of section [k] and
    [lastReplaced] becomes [k - 1].  When there is no such section, [k] is
    [lastReplaced + 1], whose header fields they already are.  The
    sections before [k] whose name has no pending edit are scheduled as
    pass-through edits of their current size, and nothing else changes. *)
Theorem executable_walk_spec (st : ElfFile) (w : exec_walk) :
  executable_walk st = Done w ->
  exists (st0 : ElfFile) (lastReplaced shnum : Z),
    sortShdrs st = Done st0
    /\ hdr_get e_shnum st0 = Done shnum
    /\ 1 <= lastReplaced < shnum
    /\ lastReplaced + 1 < Z.of_nat (length (shdrs st0))
    /\ (exists s, shdrs st0 !! Z.to_nat lastReplaced = Some s
                  /\ is_Some (replacedSections st0 !! section_name st0 s))
    /\ (forall j s, lastReplaced < j < shnum -> shdrs st0 !! Z.to_nat j = Some s ->
          replacedSections st0 !! section_name st0 s = None)
    /\ let secs := take (Z.to_nat lastReplaced) (drop 1 (shdrs st0)) in
       let k := first_stop irreplaceable st0 String.EmptyString 1 secs in
       1 <= k <= lastReplaced + 1
       /\ (exists shdr, shdrs st0 !! Z.to_nat k = Some shdr
                        /\ walk_startOffset w = sh_offset shdr
                        /\ walk_startAddr w = sh_addr shdr)
       /\ walk_lastReplaced w = k - 1
       /\ walk_file w
          = with_replacedSections
              (scheduled st0 (replacedSections st0) (take (Z.to_nat (k - 1)) secs)) st0.
Proof.
  unfold executable_walk. intros H. simpl negb in H. cbv iota in H.
  apply bind_Done in H as (st0 & Hsort & H).
  apply bind_Done in H as (shnum & Hshnum & H).
  apply bind_Done in H as (lastReplaced & Hlast & H).
  apply bind_Done in H as (u1 & Hnz & H). apply assert_Done in Hnz.
  apply bind_Done in H as (u2 & Hroom & H). apply assert_Done in Hroom.
  apply bind_Done in H as (next & Hnext & H).
  apply negb_true_iff, Z.eqb_neq in Hnz. apply Z.ltb_lt in Hroom.
  exists st0, lastReplaced, shnum.
  split; [exact Hsort |]. split; [exact Hshnum |].
  apply last_replaced_spec in Hlast; [| lia | reflexivity]. simpl in Hlast.
  destruct Hlast as [[E _] | (Hr & Hs & Hnone)]; [congruence |].
  split; [lia |]. split; [exact Hroom |]. split; [exact Hs |].
  split.
  { intros j s Hj Hsj. specialize (Hnone j s Hj ltac:(lia) Hsj).
    destruct (replacedSections st0 !! section_name st0 s) eqn:E; [| reflexivity].
    exfalso. apply Hnone. eauto. }
  cbv zeta.
  set (secs := take (Z.to_nat lastReplaced) (drop 1 (shdrs st0))).
  set (k := first_stop irreplaceable st0 String.EmptyString 1 secs).
  assert (Est0 : st0 = with_replacedSections (replacedSections st0) st0)
    by (destruct st0; reflexivity).
  rewrite Est0 in H at 2.
  apply (walk_sections_general st0 lastReplaced (drop 1 (shdrs st0)) 1) in H;
    [| lia | reflexivity | intros; lia].
  replace (lastReplaced + 1 - 1) with lastReplaced in H by lia.
  fold secs in H. fold k in H. destruct H as (Hfile & Hstop & Hnostop).
  pose proof (first_stop_range irreplaceable st0 secs String.EmptyString 1) as Hrange.
  fold k in Hrange.
  assert (Hlen : Z.of_nat (length secs) = lastReplaced).
  { subst secs. rewrite length_take, length_drop. lia. }
  split; [lia |].
  destruct (Z.le_gt_cases k lastReplaced) as [Hle | Hgt].
  - destruct (Hstop Hle) as (shdr & Hshdr & Hso & Hsa & Hlr).
    split; [exists shdr; auto |]. split; [exact Hlr | exact Hfile].
  - destruct (Hnostop ltac:(lia)) as (Hso & Hsa & Hlr & Hk).
    split.
    + exists next. unfold vec_at in Hnext.
      destruct (0 <=? lastReplaced + 1); [| discriminate].
      destruct (shdrs st0 !! Z.to_nat (lastReplaced + 1)) eqn:E; [| discriminate].
      injection Hnext as ->. rewrite Hk. auto.
    + split; [lia | exact Hfile].
Qed.

(** ** The note normalizer *)

(** What the search for the section at the current offset returns: the
    first note section that starts at [curr_off] rounded up to its
    alignment, or size 0 when no note section does. *)
Lemma find_note_spec (curr_off : Z) (l : list Elf_Shdr) (size c : Z) :
  find_note curr_off l = Done (size, c) ->
  (exists shdr, In shdr l /\ sh_type shdr = SHT_NOTE
                /\ roundUp curr_off (sh_addralign shdr) = Done c
                /\ sh_offset shdr = c /\ size = sh_size shdr)
  \/ (size = 0 /\ c = curr_off
      /\ forall shdr r, In shdr l -> sh_type shdr = SHT_NOTE ->
           roundUp curr_off (sh_addralign shdr) = Done r -> sh_offset shdr <> r).
Proof.
  induction l as [| shdr l IH]; simpl; intros H.
  - injection H as <- <-. right. repeat split. intros shdr r [].
  - destruct (Z.eqb_spec (sh_type shdr) SHT_NOTE) as [Htype | Htype]; simpl in H.
    + apply bind_Done in H as (r & Hr & H).
      destruct (Z.eqb_spec (sh_offset shdr) r) as [Hoff | Hoff]; simpl in H.
      * injection H as <- <-. left. exists shdr. repeat split; auto.
      * destruct (IH H) as [(s & Hin & Hs) | (Hsize & Hc & Hnone)].
        -- left. exists s. split; [right; exact Hin | exact Hs].
        -- right. repeat split; try assumption.
           intros s r' [<- | Hin] Hs Hr'; [congruence | eapply Hnone; eassumption].
    + destruct (IH H) as [(s & Hin & Hs) | (Hsize & Hc & Hnone)].
      * left. exists s. split; [right; exact Hin | exact Hs].
      * right. repeat split; try assumption.
        intros s r' [<- | Hin] Hs Hr'; [contradiction | eapply Hnone; eassumption].
Qed.

Lemma find_note_none (curr_off : Z) (l : list Elf_Shdr) :
  (forall shdr, In shdr l -> sh_type shdr = SHT_NOTE ->
     exists r, roundUp curr_off (sh_addralign shdr) = Done r /\ sh_offset shdr <> r) ->
  find_note curr_off l = Done (0, curr_off).
Proof.
  induction l as [| shdr l IH]; simpl; intros H; [reflexivity |].
  destruct (Z.eqb_spec (sh_type shdr) SHT_NOTE) as [Htype | Htype]; simpl.
  - destruct (H shdr (or_introl eq_refl) Htype) as (r & -> & Hoff). simpl.
    destruct (Z.eqb_spec (sh_offset shdr) r); [contradiction |]. simpl.
    apply IH. intros s Hin. apply H. right. exact Hin.
  - apply IH. intros s Hin. apply H. right. exact Hin.
Qed.

(** The walk fails when no note section starts at the current offset
    rounded up to its alignment. *)
Lemma note_walk_non_contiguous (fuel : nat) (shs : list Elf_Shdr)
    (start_off end_off curr_off : Z) (phdr : Elf_Phdr) (newPhdrs : list Elf_Phdr) :
  curr_off < end_off ->
  (forall shdr, In shdr shs -> sh_type shdr = SHT_NOTE ->
     exists r, roundUp curr_off (sh_addralign shdr) = Done r /\ sh_offset shdr <> r) ->
  note_walk (S fuel) shs start_off end_off curr_off phdr newPhdrs
  = Throw "cannot normalize PT_NOTE segment: non-contiguous SHT_NOTE sections".
Proof.
  intros Hlt Hnone. simpl.
  destruct (Z.ltb_spec curr_off end_off); [| lia].
  rewrite (find_note_none _ _ Hnone). reflexivity.
Qed.

(** The walk fails when the section found extends past the segment end. *)
Lemma note_walk_partially_mapped (fuel : nat) (shs : list Elf_Shdr)
    (start_off end_off curr_off size c : Z) (phdr : Elf_Phdr) (newPhdrs : list Elf_Phdr) :
  curr_off < end_off ->
  find_note curr_off shs = Done (size, c) -> size <> 0 ->
  end_off < u64 (c + size) ->
  note_walk (S fuel) shs start_off end_off curr_off phdr newPhdrs
  = Throw "cannot normalize PT_NOTE segment: partially mapped SHT_NOTE section".
Proof.
  intros Hlt Hfind Hsize Hpast. simpl.
  destruct (Z.ltb_spec curr_off end_off); [| lia].
  rewrite Hfind. simpl.
  destruct (Z.eqb_spec size 0); [contradiction |].
  destruct (Z.ltb_spec end_off (u64 (c + size))); [reflexivity | lia].
Qed.

(** The segment's own program header is replaced only by the header of a
    section that starts at the segment's offset: when no note section does,
    the walk returns it as it was, and the derived headers are all
    appended. *)
Lemma note_walk_slot_kept (shs : list Elf_Shdr) (start_off end_off : Z) (phdr : Elf_Phdr) :
  (forall shdr, In shdr shs -> sh_type shdr = SHT_NOTE -> sh_offset shdr <> start_off) ->
  forall fuel curr_off newPhdrs r,
    note_walk fuel shs start_off end_off curr_off phdr newPhdrs = Done r ->
    fst r = phdr /\ exists derived, snd r = newPhdrs ++ derived.
Proof.
  intros Hstart. induction fuel as [| fuel IH]; intros curr_off newPhdrs r H; simpl in H.
  - destruct (curr_off <? end_off); [discriminate |].
    injection H as <-. split; [reflexivity |]. exists []. rewrite app_nil_r. reflexivity.
  - destruct (curr_off <? end_off).
    2:{ injection H as <-. split; [reflexivity |]. exists []. rewrite app_nil_r. reflexivity. }
    apply bind_Done in H as ([size c] & Hfind & H).
    destruct (Z.eqb_spec size 0) as [Hz | Hnz]; [discriminate |].
    destruct (end_off <? u64 (c + size)); [discriminate |].
    destruct (find_note_spec _ _ _ _ Hfind) as [(s & Hin & Htype & _ & Hoff & _) | (Hsz & _)];
      [| contradiction].
    destruct (Z.eqb_spec c start_off) as [-> | Hne].
    { exfalso. eapply Hstart; eassumption. }
    apply IH in H as [Hslot (derived & Hnew)]. split; [exact Hslot |].
    eexists. rewrite Hnew, <- app_assoc. reflexivity.
Qed.

(** The header derived for the section found at [curr_off]: the parent's
    type, flags and alignment, its offset and addresses moved by the
    displacement within the segment, and the section's size. *)
Lemma note_phdr_fields (phdr : Elf_Phdr) (start_off curr_off size : Z) :
  let new_phdr := note_phdr phdr start_off curr_off size in
  p_type new_phdr = p_type phdr /\ p_flags new_phdr = p_flags phdr
  /\ p_align new_phdr = p_align phdr
  /\ p_offset new_phdr = wri_a curr_off
  /\ p_vaddr new_phdr = wri_a (p_vaddr phdr + (curr_off - start_off))
  /\ p_paddr new_phdr = wri_a (p_paddr phdr + (curr_off - start_off))
  /\ p_filesz new_phdr = wri_a size /\ p_memsz new_phdr = wri_a size.
Proof. destruct phdr. cbv zeta. unfold note_phdr. simpl. repeat split. Qed.

(** ** Rewriting the symbol tables *)

(** *** Reads after writes *)

Lemma mem_write_Done (c : list byte) (off : Z) (bs c' : list byte) :
  mem_write c off bs = Done c' ->
  0 <= off /\ off + Z.of_nat (length bs) <= Z.of_nat (length c)
  /\ c' = take (Z.to_nat off) c ++ bs ++ drop (Z.to_nat off + length bs) c.
Proof.
  unfold mem_write. intros H.
  destruct (Z.leb_spec 0 off); simpl in H; [| discriminate].
  destruct (Z.leb_spec (off + Z.of_nat (length bs)) (Z.of_nat (length c))); [| discriminate].
  injection H as <-. repeat split; lia.
Qed.

(** A read of the range just written returns what was written. *)
Lemma mem_read_written (c : list byte) (off : Z) (bs c' : list byte) :
  mem_write c off bs = Done c' ->
  mem_read c' off (Z.of_nat (length bs)) = Done bs.
Proof.
  intros H. pose proof (mem_write_length _ _ _ _ H) as Hlen.
  apply mem_write_Done in H as (H0 & H1 & ->).
  rewrite mem_read_in_bounds by lia. f_equal.
  rewrite drop_app_length' by (rewrite length_take; lia).
  rewrite Nat2Z.id. apply take_app_length.
Qed.

(** A read of a range apart from the one written is not affected. *)
Lemma mem_read_apart (c : list byte) (off : Z) (bs c' : list byte) (o n : Z) :
  mem_write c off bs = Done c' ->
  o + n <= off \/ off + Z.of_nat (length bs) <= o ->
  mem_read c' o n = mem_read c o n.
Proof.
  intros H Hapart. pose proof (mem_write_length _ _ _ _ H) as Hlen.
  apply mem_write_Done in H as (H0 & H1 & ->).
  unfold mem_read. rewrite Hlen.
  destruct (Z.leb_spec 0 o); simpl; [| reflexivity].
  destruct (Z.leb_spec 0 n); simpl; [| reflexivity].
  destruct (Z.leb_spec (o + n) (Z.of_nat (length c))); [| reflexivity].
  f_equal. destruct Hapart as [Hbefore | Hafter].
  - rewrite !take_drop_commute.
    rewrite take_app_le by (rewrite length_take; lia).
    rewrite take_take. do 2 f_equal. lia.
  - replace (Z.to_nat o)
      with (length (take (Z.to_nat off) c ++ bs) + (Z.to_nat o - Z.to_nat off - length bs))%nat
      at 1 by (rewrite length_app, length_take; lia).
    rewrite app_assoc, drop_app_add. rewrite drop_drop. f_equal. f_equal. lia.
Qed.

(** *** Fields: what is written is what is read *)

Lemma byteZ_Zbyte (x : Z) : byteZ (Zbyte x) = x mod 256.
Proof.
  unfold byteZ, Zbyte.
  pose proof (Z.mod_pos_bound x 256 ltac:(lia)) as Hr.
  destruct (Byte.of_N (Z.to_N (x mod 256))) as [b |] eqn:E.
  - apply Byte.to_of_N in E. rewrite E. lia.
  - apply Byte.of_N_None_iff in E. lia.
Qed.

Lemma le_decode_encode (n : nat) :
  forall x, le_decode (le_encode n x) = x mod 2 ^ (8 * Z.of_nat n).
Proof.
  induction n as [| n IH]; intros x; simpl le_encode; simpl le_decode.
  - rewrite Z.mod_1_r. reflexivity.
  - rewrite IH, byteZ_Zbyte.
    replace (8 * Z.of_nat (S n)) with (8 + 8 * Z.of_nat n) by lia.
    change 256 with (2 ^ 8).
    apply Z.bits_inj'. intros k Hk.
    rewrite Z.lor_spec.
    destruct (Z.lt_ge_cases k 8) as [Hlow | Hhigh].
    + rewrite Z.shiftl_spec_low by lia. rewrite orb_false_r.
      rewrite !Z.mod_pow2_bits_low by lia. reflexivity.
    + rewrite (Z.mod_pow2_bits_high x 8) by lia. simpl orb.
      rewrite Z.shiftl_spec by lia.
      destruct (Z.lt_ge_cases k (8 + 8 * Z.of_nat n)) as [Hin | Hout].
      * rewrite !Z.mod_pow2_bits_low by lia.
        rewrite Z.shiftr_spec by lia. f_equal. lia.
      * rewrite !Z.mod_pow2_bits_high by lia. reflexivity.
Qed.

Lemma length_le_encode (n : nat) : forall x, length (le_encode n x) = n.
Proof. induction n as [| n IH]; intros x; simpl; [reflexivity | rewrite IH; reflexivity]. Qed.

Lemma length_field_bytes (le : bool) (n : nat) (x : Z) : length (field_bytes le n x) = n.
Proof.
  unfold field_bytes. destruct le; [| rewrite length_rev]; apply length_le_encode.
Qed.

Lemma rdi_field_bytes (le : bool) (n : nat) (x : Z) :
  rdi le (field_bytes le n x) = x mod 2 ^ (8 * Z.of_nat n).
Proof.
  unfold rdi, field_bytes. destruct le; [| rewrite rev_involutive]; apply le_decode_encode.
Qed.

Lemma lor_low_high (a b : Z) :
  0 <= a < 2 ^ 8 -> Z.lor a (Z.shiftl b 8) = a + b * 2 ^ 8.
Proof.
  intros Ha. rewrite Z.shiftl_mul_pow2 by lia.
  assert (Hland : Z.land a (b * 2 ^ 8) = 0).
  { apply Z.bits_inj'. intros k Hk. rewrite Z.land_spec, Z.bits_0.
    destruct (Z.lt_ge_cases k 8).
    - rewrite Z.mul_pow2_bits_low by lia. apply andb_false_r.
    - destruct (Z.eq_dec a 0) as [-> | Hne]; [rewrite Z.bits_0; reflexivity |].
      rewrite (Z.bits_above_log2 a k); [reflexivity | lia |].
      assert (Z.log2 a < 8) by (apply Z.log2_lt_pow2; lia). lia. }
  rewrite <- Z.lxor_lor by exact Hland.
  symmetry. apply Z.add_nocarry_lxor. exact Hland.
Qed.

Lemma le_decode_bound (bs : list byte) :
  0 <= le_decode bs < 2 ^ (8 * Z.of_nat (length bs)).
Proof.
  induction bs as [| b bs IH]; simpl le_decode; [simpl; lia |].
  assert (Hb : 0 <= byteZ b < 2 ^ 8).
  { unfold byteZ. pose proof (Byte.to_N_bounded b). change (2 ^ 8) with 256. lia. }
  rewrite lor_low_high by exact Hb.
  replace (8 * Z.of_nat (length (b :: bs))) with (8 + 8 * Z.of_nat (length bs))
    by (simpl length; lia).
  rewrite Z.pow_add_r by lia. nia.
Qed.

Lemma rdi_bound (le : bool) (bs : list byte) :
  0 <= rdi le bs < 2 ^ (8 * Z.of_nat (length bs)).
Proof.
  unfold rdi. destruct le; [apply le_decode_bound |].
  rewrite <- (length_rev bs). apply le_decode_bound.
Qed.

(** *** Steps that leave ranges of the file alone *)

(** [[o, o + n)] lies apart from [[lo, hi)]. *)
Definition apart (lo hi o n : Z) : Prop := o + n <= lo \/ hi <= o.

(** [frame R st st']: the step from [st] to [st'] kept the header tables
    and what was captured at open, only added to what is printed, and left
    every read of a range in [R] as it was. *)
Record frame (R : Z -> Z -> Prop) (st st' : ElfFile) : Prop := mkFrame {
  frame_shdrs : shdrs st' = shdrs st;
  frame_names : sectionNames st' = sectionNames st;
  frame_old : sectionsByOldIndex st' = sectionsByOldIndex st;
  frame_endian : littleEndian st' = littleEndian st;
  frame_stderr : exists l, stderr st' = stderr st ++ l;
  frame_reads : forall o n, R o n ->
    mem_read (fileContents st') o n = mem_read (fileContents st) o n }.

Lemma frame_refl (R : Z -> Z -> Prop) (st : ElfFile) : frame R st st.
Proof. split; try reflexivity. exists []. rewrite app_nil_r. reflexivity. Qed.

Lemma frame_trans (R : Z -> Z -> Prop) (st1 st2 st3 : ElfFile) :
  frame R st1 st2 -> frame R st2 st3 -> frame R st1 st3.
Proof.
  intros [A1 A2 A3 A4 [l1 A5] A6] [B1 B2 B3 B4 [l2 B5] B6].
  split; try congruence.
  - exists (l1 ++ l2). rewrite B5, A5, app_assoc. reflexivity.
  - intros o n H. rewrite B6, A6 by exact H. reflexivity.
Qed.

Lemma frame_weaken (R R' : Z -> Z -> Prop) (st st' : ElfFile) :
  (forall o n, R' o n -> R o n) -> frame R st st' -> frame R' st st'.
Proof. intros Hsub [A1 A2 A3 A4 A5 A6]. split; auto. Qed.

(** A range of the ELF header. *)
Definition in_header (o n : Z) : Prop := 0 <= o /\ o + n <= sizeof_Ehdr.

Lemma frame_hdr_get (R : Z -> Z -> Prop) (st st' : ElfFile) (f : ehdr_field) :
  frame R st st' -> (forall o n, in_header o n -> R o n) ->
  hdr_get f st' = hdr_get f st.
Proof.
  intros F HR. unfold hdr_get.
  rewrite (frame_reads _ _ _ F), (frame_endian _ _ _ F); [reflexivity |].
  apply HR. pose proof (ehdr_field_in_header f). unfold in_header. lia.
Qed.

Lemma getSectionName_frame (R : Z -> Z -> Prop) (st st' : ElfFile) (shdr : Elf_Shdr) :
  frame R st st' -> getSectionName shdr st' = getSectionName shdr st.
Proof. intros F. unfold getSectionName. rewrite (frame_names _ _ _ F). reflexivity. Qed.

Lemma getSectionIndex_loop_frame (R : Z -> Z -> Prop) (st st' : ElfFile)
    (sectionName : string) (shnum : Z) (rest : list Elf_Shdr) :
  frame R st st' ->
  forall i, getSectionIndex_loop sectionName shnum st' i rest
            = getSectionIndex_loop sectionName shnum st i rest.
Proof.
  intros F. induction rest as [| shdr rest IH]; intros i; simpl; [reflexivity |].
  destruct (i <? shnum); [| reflexivity].
  rewrite (getSectionName_frame _ _ _ shdr F).
  destruct (getSectionName shdr st); simpl; try reflexivity.
  destruct (decide (a = sectionName)); [reflexivity | apply IH].
Qed.

Lemma getSectionIndex_frame (R : Z -> Z -> Prop) (st st' : ElfFile) (sectionName : string) :
  frame R st st' -> (forall o n, in_header o n -> R o n) ->
  getSectionIndex sectionName st' = getSectionIndex sectionName st.
Proof.
  intros F HR. unfold getSectionIndex.
  rewrite (frame_hdr_get _ _ _ e_shnum F HR), (frame_shdrs _ _ _ F).
  destruct (hdr_get e_shnum st); simpl; try reflexivity.
  apply getSectionIndex_loop_frame with (R := R). exact F.
Qed.




(** *** One symbol *)









(** *** One symbol table *)


(** *** All symbol tables *)














(** ** Helpers of the layout *)

(** [roundUp] rounds a positive [n] up to the least multiple of [m] that
    is not below [n], when that multiple fits in 64 bits. *)
Theorem roundUp_least_multiple (n m : Z) :
  0 < n -> 0 < m -> n + m <= 2 ^ 64 ->
  exists r, roundUp n m = Done r
    /\ r mod m = 0 /\ n <= r < n + m
    /\ forall k, k mod m = 0 -> n <= k -> r <= k.
Proof.
  intros Hn Hm Hfit. unfold roundUp.
  destruct (Z.eqb_spec n 0); [lia |]. destruct (Z.eqb_spec m 0); [lia |].
  pose proof (Z.div_mod (n - 1) m ltac:(lia)) as Hdiv.
  pose proof (Z.mod_pos_bound (n - 1) m Hm) as Hmod.
  assert (Hq : 0 <= (n - 1) / m) by (apply Z.div_pos; lia).
  eexists. split; [reflexivity |].
  rewrite u64_small by nia.
  split; [apply Z_mod_mult |]. split; [nia |].
  intros k Hk Hnk.
  apply Z_div_exact_full_2 in Hk; [| lia].
  assert ((n - 1) / m < k / m); [| nia].
  apply Z.div_lt_upper_bound; [lia |]. nia.
Qed.

(** ** Fields in the byte order of the file *)

Lemma Zbyte_byteZ (b : byte) : Zbyte (byteZ b) = b.
Proof.
  unfold Zbyte, byteZ. pose proof (Byte.to_N_bounded b) as Hb.
  rewrite Z.mod_small by lia. rewrite N2Z.id, Byte.of_to_N. reflexivity.
Qed.

Lemma le_encode_decode (bs : list byte) : le_encode (length bs) (le_decode bs) = bs.
Proof.
  induction bs as [| b bs IH]; [reflexivity |].
  simpl length. simpl le_encode. simpl le_decode.
  assert (Hb : 0 <= byteZ b < 2 ^ 8).
  { unfold byteZ. pose proof (Byte.to_N_bounded b). change (2 ^ 8) with 256. lia. }
  pose proof (le_decode_nonneg bs) as Hd.
  rewrite lor_low_high by exact Hb.
  f_equal.
  - rewrite <- (Zbyte_byteZ b) at 2. unfold Zbyte.
    replace ((byteZ b + le_decode bs * 2 ^ 8) mod 256) with (byteZ b mod 256);
      [reflexivity |].
    change 256 with (2 ^ 8). rewrite Z.mod_add by lia. reflexivity.
  - rewrite Z.shiftr_div_pow2 by lia.
    rewrite Z.div_add by lia.
    rewrite (Z.div_small (byteZ b)) by exact Hb.
    exact IH.
Qed.

(** [rdi] reads a field of [n] bytes as a number below [2 ^ (8 n)], and
    the bytes of a field are determined by what [rdi] reads from them, in
    either byte order: the bytes of a value read back as the value, and the
    value read from bytes has those bytes. *)
Theorem rdi_field_roundtrip (le : bool) (bs : list byte) (x : Z) :
  0 <= x < 2 ^ (8 * Z.of_nat (length bs)) ->
  rdi le (field_bytes le (length bs) x) = x
  /\ field_bytes le (length bs) (rdi le bs) = bs
  /\ 0 <= rdi le bs < 2 ^ (8 * Z.of_nat (length bs)).
Proof.
  intros Hx. split; [rewrite rdi_field_bytes; apply Z.mod_small, Hx |].
  split; [| apply rdi_bound].
  unfold rdi, field_bytes. destruct le; [apply le_encode_decode |].
  rewrite <- (length_rev bs), le_encode_decode. apply rev_involutive.
Qed.

(** ** [setSubstr] *)

(** [setSubstr(s, pos, t)] overwrites the [t.size()] bytes of [s] at [pos]
    with [t] and leaves the rest and the size of [s] as they were; it hits
    its assertion exactly when [t] does not fit in [s] at [pos]. *)
Theorem setSubstr_spec (s t : list byte) (pos : Z) :
  0 <= pos < 2 ^ 32 -> Z.of_nat (length t) < 2 ^ 63 ->
  (pos + Z.of_nat (length t) <= Z.of_nat (length s) ->
   exists s', setSubstr s pos t = Done s'
     /\ length s' = length s
     /\ take (Z.to_nat pos) s' = take (Z.to_nat pos) s
     /\ take (length t) (drop (Z.to_nat pos) s') = t
     /\ drop (Z.to_nat pos + length t) s' = drop (Z.to_nat pos + length t) s)
  /\ (Z.of_nat (length s) < pos + Z.of_nat (length t) ->
      setSubstr s pos t = Abort "pos + t.size() <= s.size()").
Proof.
  intros Hpos Ht. unfold setSubstr. rewrite (u32_id pos Hpos).
  rewrite u64_small by lia.
  split; intros H.
  - destruct (Z.leb_spec (pos + Z.of_nat (length t)) (Z.of_nat (length s))); [| lia].
    simpl. eexists. split; [reflexivity |].
    assert (Hlen : length (take (Z.to_nat pos) s) = Z.to_nat pos)
      by (rewrite length_take; lia).
    split; [rewrite !length_app, length_take, length_drop; lia |].
    split; [rewrite take_app_le by lia; rewrite take_ge by lia; reflexivity |].
    split.
    + rewrite drop_app_length' by (symmetry; exact Hlen). apply take_app_length.
    + rewrite app_assoc. rewrite drop_app_length'; [reflexivity |].
      rewrite length_app. lia.
  - destruct (Z.leb_spec (pos + Z.of_nat (length t)) (Z.of_nat (length s))); [lia |].
    reflexivity.
Qed.

(** ** More on the edit buffer *)

(** Once a section has a pending edit, [replaceSection] on its name does
    not look at the file or at the section headers again: it cannot fail, it
    resizes the pending buffer, and the name keeps its one entry.  Growing a
    buffer and shrinking it back gives the buffer. *)
Theorem replaceSection_again (sectionName : string) (size1 size2 : Z) (st st1 : ElfFile)
    (buf1 : list byte) :
  replaceSection sectionName size1 st = Done (st1, buf1) ->
  let buf2 := resize (Z.to_nat (u32 size2)) x00 buf1 in
  let st2 := with_replacedSections (<[sectionName := buf2]> (replacedSections st)) st in
  replaceSection sectionName size2 st1 = Done (st2, buf2)
  /\ (u32 size2 <= u32 size1 -> buf2 = take (Z.to_nat (u32 size2)) buf1)
  /\ (u32 size1 <= u32 size2 -> replaceSection sectionName size1 st2 = Done (st1, buf1)).
Proof.
  intros H buf2 st2. apply replaceSection_Done in H as [-> Hlen].
  split.
  { unfold replaceSection. simpl. rewrite lookup_insert_eq. simpl.
    rewrite insert_insert_eq. reflexivity. }
  split.
  { intros Hle. subst buf2. apply resize_le. lia. }
  intros Hle. unfold replaceSection. subst st2. simpl.
  rewrite lookup_insert_eq. simpl. rewrite insert_insert_eq.
  subst buf2. rewrite resize_resize by lia. rewrite <- Hlen, resize_all. reflexivity.
Qed.

(** ** More on the section directory *)

Lemma getSectionName_readable (shdr : Elf_Shdr) (st : ElfFile) :
  sh_name shdr < Z.of_nat (length (sectionNames st)) ->
  getSectionName shdr st = Done (section_name st shdr).
Proof.
  intros H. unfold section_name, getSectionName.
  destruct (Z.leb_spec (Z.of_nat (length (sectionNames st))) (sh_name shdr)); [lia |].
  reflexivity.
Qed.

(** With readable names and enough headers the search returns, and 0 only
    when no section in its range has the name. *)
Lemma getSectionIndex_loop_total (sectionName : string) (shnum : Z) (st : ElfFile)
    (rest : list Elf_Shdr) :
  forall i,
    0 < i -> shnum <= i + Z.of_nat (length rest) ->
    (forall k shdr, rest !! k = Some shdr -> i + Z.of_nat k < shnum ->
       sh_name shdr < Z.of_nat (length (sectionNames st))) ->
    exists r, getSectionIndex_loop sectionName shnum st i rest = Done r
      /\ (r = 0 ->
          forall k shdr, rest !! k = Some shdr -> i + Z.of_nat k < shnum ->
            section_name st shdr <> sectionName).
Proof.
  induction rest as [| shdr rest IH]; intros i Hi Hlen Hnames; simpl.
  - simpl in Hlen. destruct (Z.ltb_spec i shnum); [lia |].
    eexists. split; [reflexivity |]. intros _ k s Hs. rewrite lookup_nil in Hs. discriminate.
  - destruct (Z.ltb_spec i shnum) as [Hlt | Hge].
    + rewrite (getSectionName_readable shdr st)
        by (apply (Hnames 0%nat shdr); [reflexivity | lia]).
      simpl. destruct (decide (section_name st shdr = sectionName)) as [Heq | Hne].
      * eexists. split; [reflexivity |]. lia.
      * destruct (IH (i + 1)) as (r & Hr & Hzero); [lia | simpl in Hlen; lia | |].
        { intros k s Hs Hk. apply (Hnames (S k) s); [exact Hs | lia]. }
        exists r. split; [exact Hr |].
        intros Hz [| k] s Hs Hk; simpl in Hs.
        -- injection Hs as <-. exact Hne.
        -- apply (Hzero Hz k s Hs). lia.
    + eexists. split; [reflexivity |]. intros _ k s Hs Hk. lia.
Qed.

(** The hint that [findSectionHeader] adds for three names. *)
Definition static_hint (sectionName : string) : string :=
  if decide (sectionName = ".interp" \/ sectionName = ".dynamic" \/ sectionName = ".dynstr")
  then ". The input file is most likely statically linked" else EmptyString.

(** In an object whose sections 1 to [e_shnum - 1] are there and have
    readable names, [findSectionHeader] returns the header of the first of
    them that has the name (section 0 is never looked at), and when none has
    it raises [cannot find section '<name>'], with the hint on static
    linking for [.interp], [.dynamic] and [.dynstr] only. *)
Theorem findSectionHeader_first_or_error (sectionName : string) (st : ElfFile) (shnum : Z) :
  hdr_get e_shnum st = Done shnum ->
  shnum <= Z.of_nat (length (shdrs st)) ->
  (forall i shdr, 1 <= i < shnum -> shdrs st !! Z.to_nat i = Some shdr ->
     sh_name shdr < Z.of_nat (length (sectionNames st))) ->
  (exists r shdr,
     findSectionHeader sectionName st = Done shdr
     /\ getSectionIndex sectionName st = Done r /\ 1 <= r < shnum
     /\ shdrs st !! Z.to_nat r = Some shdr /\ section_name st shdr = sectionName
     /\ forall j s, 1 <= j < r -> shdrs st !! Z.to_nat j = Some s ->
          section_name st s <> sectionName)
  \/ (findSectionHeader sectionName st
      = Throw ("cannot find section '" +:+ sectionName +:+ "'" +:+ static_hint sectionName)
      /\ getSectionIndex sectionName st = Done 0
      /\ forall j s, 1 <= j < shnum -> shdrs st !! Z.to_nat j = Some s ->
           section_name st s <> sectionName).
Proof.
  intros Hshnum Hlen Hnames.
  destruct (getSectionIndex_loop_total sectionName shnum st (drop 1 (shdrs st)) 1)
    as (r & Hr & Hzero); [lia | rewrite length_drop; lia | |].
  { intros k s Hs Hk. rewrite lookup_drop in Hs.
    apply (Hnames (1 + Z.of_nat k) s); [lia |].
    replace (Z.to_nat (1 + Z.of_nat k)) with (1 + k)%nat by lia. exact Hs. }
  assert (Hidx : getSectionIndex sectionName st = Done r).
  { unfold getSectionIndex. rewrite Hshnum. exact Hr. }
  destruct (Z.eq_dec r 0) as [-> | Hnz].
  - right. split; [| split; [exact Hidx |]].
    + unfold findSectionHeader, tryFindSectionHeader. rewrite Hidx. reflexivity.
    + intros j s Hj Hs. apply (Hzero eq_refl (Z.to_nat (j - 1)) s); [| lia].
      rewrite lookup_drop. replace (1 + Z.to_nat (j - 1))%nat with (Z.to_nat j) by lia.
      exact Hs.
  - left. destruct (getSectionIndex_found _ _ _ Hidx Hnz) as (Hpos & shdr & Hs & Hname).
    exists r, shdr.
    split; [apply (findSectionHeader_found _ _ _ _ Hidx Hnz Hs) |].
    split; [exact Hidx |].
    assert (Hrange : r < shnum).
    { unfold getSectionIndex in Hidx. rewrite Hshnum in Hidx. simpl in Hidx.
      apply getSectionIndex_loop_found in Hidx; [lia | exact Hnz | lia]. }
    split; [lia |]. split; [exact Hs |].
    split; [unfold section_name; rewrite Hname; reflexivity |].
    apply (getSectionIndex_first _ _ _ Hidx Hnz).
Qed.

(** ** More on the constructor *)

Lemma checkPointer_Done (contents : list byte) (off size : Z) (u : unit) :
  checkPointer contents off size = Done u ->
  0 <= off /\ off + size <= Z.of_nat (length contents).
Proof.
  unfold checkPointer. intros H.
  destruct (Z.ltb_spec off 0); simpl in H; [discriminate |].
  destruct (Z.ltb_spec (Z.of_nat (length contents)) size); simpl in H; [discriminate |].
  destruct (Z.ltb_spec (Z.of_nat (length contents) - size) off); [discriminate |].
  lia.
Qed.

Lemma copy_headers_lookup {A : Type} (parse : list byte -> A) (contents : list byte)
    (base esize : Z) (n : nat) :
  forall i l, copy_headers parse contents base esize n i = Done l ->
    forall k, (k < n)%nat ->
      l !! k = Some (parse (take (Z.to_nat esize)
                              (drop (Z.to_nat (base + (i + Z.of_nat k) * esize)) contents)))
      /\ 0 <= base + (i + Z.of_nat k) * esize
      /\ base + (i + Z.of_nat k) * esize + esize <= Z.of_nat (length contents).
Proof.
  induction n as [| n IH]; intros i l H k Hk; [lia |].
  simpl in H. apply bind_Done in H as (u & Hcheck & H).
  apply bind_Done in H as (bs & Hread & H).
  apply bind_Done in H as (rest & Hrest & H). injection H as <-.
  apply mem_read_Done in Hread as (H0 & H1 & H2 & ->).
  destruct k as [| k].
  - replace (i + Z.of_nat 0) with i by lia. simpl. repeat split; lia.
  - destruct (IH (i + 1) rest Hrest k ltac:(lia)) as (Hl & Hlo & Hhi).
    replace (i + Z.of_nat (S k)) with (i + 1 + Z.of_nat k) by lia.
    simpl. repeat split; assumption.
Qed.

Lemma old_names_spec (st : ElfFile) (l : list Elf_Shdr) :
  forall names, old_names st l = Done names ->
    names = map (section_name st) l
    /\ forall shdr, In shdr l -> sh_name shdr < Z.of_nat (length (sectionNames st)).
Proof.
  induction l as [| shdr l IH]; intros names H; simpl in H.
  - injection H as <-. split; [reflexivity | intros s []].
  - apply bind_Done in H as (n & Hn & H). apply bind_Done in H as (rest & Hrest & H).
    injection H as <-. destruct (IH rest Hrest) as [-> Hin].
    assert (Hname : sh_name shdr < Z.of_nat (length (sectionNames st))).
    { unfold getSectionName in Hn.
      destruct (Z.leb_spec (Z.of_nat (length (sectionNames st))) (sh_name shdr));
        [discriminate | assumption]. }
    split.
    + simpl. f_equal. rewrite getSectionName_readable in Hn by exact Hname. congruence.
    + intros s [<- | Hs]; [exact Hname | apply Hin, Hs].
Qed.

Lemma old_names_names (st st' : ElfFile) (l : list Elf_Shdr) :
  sectionNames st = sectionNames st' -> old_names st l = old_names st' l.
Proof.
  intros H. induction l as [| shdr l IH]; simpl; [reflexivity |].
  unfold getSectionName. rewrite H, IH. reflexivity.
Qed.

(** Everything the constructor has checked and stored when it returns. *)
Lemma ctor_inv (b : list byte) (st : ElfFile) :
  ElfFile_ctor b = Done st ->
  let le := buffer_littleEndian b in
  exists strtab,
    take 4 b = ELFMAG
    /\ (buffer_field e_type b = ET_EXEC \/ buffer_field e_type b = ET_DYN)
    /\ buffer_field e_shnum b <> 0
    /\ buffer_field e_phentsize b = sizeof_Phdr
    /\ copy_headers (parse_Phdr le) b (buffer_field e_phoff b) sizeof_Phdr
         (Z.to_nat (buffer_field e_phnum b)) 0 = Done (phdrs st)
    /\ copy_headers (parse_Shdr le) b (buffer_field e_shoff b) sizeof_Shdr
         (Z.to_nat (buffer_field e_shnum b)) 0 = Done (shdrs st)
    /\ isExecutable st = existsb (fun p => p_type p =? PT_INTERP) (phdrs st)
    /\ changed st = false
    /\ shdrs st !! Z.to_nat (buffer_field e_shstrndx b) = Some strtab
    /\ 0 < sh_size strtab
    /\ mem_read b (sh_offset strtab) (sh_size strtab) = Done (sectionNames st)
    /\ mem_read b (sh_offset strtab + (sh_size strtab - 1)) 1 = Done [x00]
    /\ old_names st (drop 1 (shdrs st)) = Done (drop 1 (sectionsByOldIndex st))
    /\ sectionsByOldIndex st !! 0%nat = Some EmptyString.
Proof.
  intros H le. unfold ElfFile_ctor in H.
  destruct (Z.ltb_spec (Z.of_nat (length b)) sizeof_Ehdr) as [| Hsize]; [discriminate |].
  apply bind_Done in H as (ident & Hident & H).
  destruct (bool_decide_reflect (ident = ELFMAG)) as [Hmagic |]; [| discriminate].
  simpl negb in H. cbv iota in H.
  apply bind_Done in H as (data & Hdata & H).
  apply mem_read_Done in Hdata as (_ & _ & _ & ->).
  apply mem_read_Done in Hident as (_ & _ & _ & Hid).
  change (bool_decide (take (Z.to_nat 1) (drop (Z.to_nat EI_DATA) b) = [Zbyte ELFDATA2LSB]))
    with le in H.
  rewrite !(hdr_get_buffer _ b) in H by (exact Hsize || reflexivity). cbn [bind] in H.
  destruct (Z.eqb_spec (buffer_field e_type b) ET_EXEC) as [Hexec | Hexec];
    destruct (Z.eqb_spec (buffer_field e_type b) ET_DYN) as [Hdyn | Hdyn];
    simpl in H; try discriminate H.
  all: destruct (builtin_mul_overflow _ _); [| discriminate H].
  all: destruct (builtin_add_overflow _ _); [| discriminate H].
  all: destruct (_ <? _); [discriminate H |].
  all: destruct (Z.eqb_spec (buffer_field e_shnum b) 0) as [| Hshnum]; [discriminate H |].
  all: destruct (builtin_mul_overflow _ _); [| discriminate H].
  all: destruct (builtin_add_overflow _ _); [| discriminate H].
  all: destruct (_ <? _); [discriminate H |].
  all: destruct (Z.eqb_spec (buffer_field e_phentsize b) sizeof_Phdr) as [Hent |];
    [| discriminate H].
  all: simpl negb in H; cbv iota in H.
  all: apply bind_Done in H as (phs & Hphs & H).
  all: apply bind_Done in H as (shs & Hshs & H).
  all: destruct (Z.leb_spec (Z.of_nat (length shs)) (buffer_field e_shstrndx b));
    [discriminate H |].
  all: apply bind_Done in H as (strtab & Hstrtab & H).
  all: destruct (builtin_add_overflow _ _); [| discriminate H].
  all: apply bind_Done in H as (u & Hcheck & H).
  all: destruct (Z.eqb_spec (sh_size strtab) 0) as [| Hnz]; [discriminate H |].
  all: apply bind_Done in H as (term & Hterm & H).
  all: destruct (bool_decide_reflect (term = [x00])) as [-> |]; [| discriminate H].
  all: simpl negb in H; cbv iota in H.
  all: apply bind_Done in H as (names & Hnames & H).
  all: apply bind_Done in H as (olds & Holds & H).
  all: injection H as <-; simpl.
  all: exists strtab.
  all: unfold vec_index in Hstrtab.
  all: destruct (0 <=? buffer_field e_shstrndx b); [| discriminate Hstrtab].
  all: destruct (shs !! Z.to_nat (buffer_field e_shstrndx b)) as [s |] eqn:Es;
    [| discriminate Hstrtab].
  all: injection Hstrtab as ->.
  all: pose proof (mem_read_Done _ _ _ _ Hnames) as (_ & Hsz & _).
  all: repeat split; try assumption; try reflexivity; try lia; auto.
  all: try (rewrite <- Hmagic, Hid; reflexivity).
  all: erewrite old_names_names; [exact Holds | reflexivity].
Qed.

(** When the constructor returns, its two tables are the entries decoded
    from the buffer in the byte order the buffer records: entry [i] of the
    program headers from the [sizeof(Elf_Phdr)] bytes at
    [e_phoff + i * sizeof(Elf_Phdr)], entry [i] of the section headers from
    the [sizeof(Elf_Shdr)] bytes at [e_shoff + i * sizeof(Elf_Shdr)]
    (whatever [e_shentsize] says), all of them inside the buffer; there are
    [e_phnum] and [e_shnum] of them, and [isExecutable] tells whether a
    PT_INTERP segment is among them. *)
Theorem ctor_decodes_tables (b : list byte) (st : ElfFile) :
  ElfFile_ctor b = Done st ->
  let le := buffer_littleEndian b in
  let phoff := buffer_field e_phoff b in
  let shoff := buffer_field e_shoff b in
  Z.of_nat (length (phdrs st)) = buffer_field e_phnum b
  /\ Z.of_nat (length (shdrs st)) = buffer_field e_shnum b
  /\ (forall i, 0 <= i < buffer_field e_phnum b ->
        phdrs st !! Z.to_nat i
        = Some (parse_Phdr le (take (Z.to_nat sizeof_Phdr)
                                 (drop (Z.to_nat (phoff + i * sizeof_Phdr)) b)))
        /\ 0 <= phoff + i * sizeof_Phdr
        /\ phoff + i * sizeof_Phdr + sizeof_Phdr <= Z.of_nat (length b))
  /\ (forall i, 0 <= i < buffer_field e_shnum b ->
        shdrs st !! Z.to_nat i
        = Some (parse_Shdr le (take (Z.to_nat sizeof_Shdr)
                                 (drop (Z.to_nat (shoff + i * sizeof_Shdr)) b)))
        /\ 0 <= shoff + i * sizeof_Shdr
        /\ shoff + i * sizeof_Shdr + sizeof_Shdr <= Z.of_nat (length b))
  /\ (isExecutable st = true <-> exists p, In p (phdrs st) /\ p_type p = PT_INTERP).
Proof.
  intros H le phoff shoff.
  pose proof (ctor_Done _ _ H) as (_ & _ & _ & _ & _ & Hnp & Hns).
  destruct (ctor_inv _ _ H) as (strtab & _ & _ & _ & _ & Hphs & Hshs & Hexec & _).
  assert (Hp : 0 <= buffer_field e_phnum b) by apply rdi_nonneg.
  assert (Hs : 0 <= buffer_field e_shnum b) by apply rdi_nonneg.
  split; [lia |]. split; [lia |].
  split.
  { intros i Hi.
    pose proof (copy_headers_lookup _ _ _ _ _ _ _ Hphs (Z.to_nat i) ltac:(lia)) as Hk.
    rewrite Z2Nat.id, Z.add_0_l in Hk by lia. exact Hk. }
  split.
  { intros i Hi.
    pose proof (copy_headers_lookup _ _ _ _ _ _ _ Hshs (Z.to_nat i) ltac:(lia)) as Hk.
    rewrite Z2Nat.id, Z.add_0_l in Hk by lia. exact Hk. }
  rewrite Hexec, existsb_exists. split; intros (p & Hin & Hp').
  - exists p. split; [exact Hin | apply Z.eqb_eq, Hp'].
  - exists p. split; [exact Hin | apply Z.eqb_eq, Hp'].
Qed.

Lemma c_str_no_nul (bs : list byte) : ~ In x00 (c_str bs).
Proof.
  induction bs as [| b bs IH]; simpl; [tauto |].
  destruct (Byte.eqb b x00) eqn:E; simpl; [tauto |].
  intros [-> | Hin]; [| contradiction].
  apply Byte.eqb_false in E. congruence.
Qed.

(** When the constructor returns, the table of section names is not empty
    and ends with a NUL; the name of every section from index 1 on can be
    read (its [sh_name] lies inside the table) and is what
    [sectionsByOldIndex] holds at that index, and the entry at index 0 is the
    empty string. *)
Theorem ctor_section_names (b : list byte) (st : ElfFile) :
  ElfFile_ctor b = Done st ->
  last (sectionNames st) = Some x00
  /\ length (sectionsByOldIndex st) = length (shdrs st)
  /\ sectionsByOldIndex st !! 0%nat = Some EmptyString
  /\ forall (i : nat) shdr, (1 <= i)%nat -> shdrs st !! i = Some shdr ->
       sh_name shdr < Z.of_nat (length (sectionNames st))
       /\ getSectionName shdr st = Done (section_name st shdr)
       /\ sectionsByOldIndex st !! i = Some (section_name st shdr)
       /\ ~ In x00 (list_byte_of_string (section_name st shdr)).
Proof.
  intros H.
  pose proof (ctor_Done _ _ H) as (_ & _ & _ & _ & _ & _ & Hns).
  destruct (ctor_inv _ _ H)
    as (strtab & _ & _ & Hshnum & _ & _ & _ & _ & _ & _ & Hsize & Hnames & Hterm & Holds & Hzero).
  apply old_names_spec in Holds as [Holds Hread].
  assert (Hlen : length (sectionsByOldIndex st) = length (shdrs st)).
  { destruct (sectionsByOldIndex st) as [| o olds]; [discriminate Hzero |].
    simpl in Holds. rewrite drop_0 in Holds. subst olds.
    simpl. rewrite length_map, length_drop.
    assert (0 < buffer_field e_shnum b) by (pose proof (rdi_nonneg (buffer_littleEndian b)
      (take (Z.to_nat (ehdr_size e_shnum)) (drop (Z.to_nat (ehdr_offset e_shnum)) b)));
      unfold buffer_field in *; lia).
    lia. }
  split.
  { apply mem_read_Done in Hnames as (H0 & H1 & H2 & Hn).
    apply mem_read_Done in Hterm as (_ & _ & _ & Ht).
    rewrite Hn. rewrite last_lookup.
    assert (Hl : length (take (Z.to_nat (sh_size strtab))
                           (drop (Z.to_nat (sh_offset strtab)) b))
                 = Z.to_nat (sh_size strtab))
      by (rewrite length_take, length_drop; lia).
    rewrite Hl. rewrite lookup_take_lt by lia. rewrite lookup_drop.
    assert (Hb : take 1 (drop (Z.to_nat (sh_offset strtab + (sh_size strtab - 1))) b) = [x00])
      by (symmetry; exact Ht).
    replace (Z.to_nat (sh_offset strtab) + Nat.pred (Z.to_nat (sh_size strtab)))%nat
      with (Z.to_nat (sh_offset strtab + (sh_size strtab - 1))) by lia.
    destruct (drop (Z.to_nat (sh_offset strtab + (sh_size strtab - 1))) b) as [| c rest] eqn:E;
      [discriminate Hb |].
    injection Hb as ->.
    rewrite <- (Nat.add_0_r (Z.to_nat _)), <- lookup_drop, E. reflexivity. }
  split; [exact Hlen |]. split; [exact Hzero |].
  intros i shdr Hi Hs.
  assert (Hin : In shdr (drop 1 (shdrs st))).
  { apply list_elem_of_In, (list_elem_of_lookup_2 _ (i - 1)).
    rewrite lookup_drop. replace (1 + (i - 1))%nat with i by lia. exact Hs. }
  pose proof (Hread shdr Hin) as Hname.
  split; [exact Hname |]. split; [apply getSectionName_readable, Hname |].
  split.
  - replace i with (1 + (i - 1))%nat by lia. rewrite <- lookup_drop, Holds.
    rewrite list_lookup_fmap, lookup_drop.
    replace (1 + (i - 1))%nat with i by lia. rewrite Hs. reflexivity.
  - unfold section_name. rewrite getSectionName_readable by exact Hname.
    unfold section_name, getSectionName.
    destruct (Z.leb_spec (Z.of_nat (length (sectionNames st))) (sh_name shdr)); [lia |].
    simpl. rewrite list_byte_of_string_of_list_byte. apply c_str_no_nul.
Qed.

(** ** The type probe *)

Lemma mem_read_byte (c : list byte) (off : Z) (x : byte) :
  0 <= off < Z.of_nat (length c) ->
  (mem_read c off 1 = Done [x] <-> c !! Z.to_nat off = Some x).
Proof.
  intros H. rewrite mem_read_in_bounds by lia.
  destruct (lookup_lt_is_Some_2 c (Z.to_nat off) ltac:(lia)) as [y Hy].
  rewrite (drop_S _ _ _ Hy). simpl. rewrite take_0, Hy.
  split; intros E; injection E as ->; reflexivity.
Qed.

(** [getElfType] never fails on a buffer: it answers [{false, 0}] for
    whatever it does not accept, and says 32-bit exactly for a buffer of at
    least [sizeof(Elf32_Ehdr)] bytes with the ELF magic, version 1 and class
    1; the machine it reports is then, as for an accepted 64-bit header, the
    half word at offset 18 as the host reads it. *)
Theorem getElfType_spec (hostLittleEndian : bool) (c : list byte) :
  let accepted (cls : byte) :=
    sizeof_Elf32_Ehdr <= Z.of_nat (length c) /\ take 4 c = ELFMAG
    /\ c !! 6%nat = Some x01 /\ c !! 4%nat = Some cls in
  exists t, getElfType hostLittleEndian (Some c) = Done t
    /\ (is32Bit t = true <-> accepted x01)
    /\ (accepted x01 \/ accepted x02 ->
        machine t = rdi hostLittleEndian (take 2 (drop 18 c)))
    /\ (~ (accepted x01 \/ accepted x02) -> t = mkElfType false 0).
Proof.
  intros accepted. subst accepted. cbv beta. unfold getElfType, sizeof_Elf32_Ehdr.
  destruct (Z.ltb_spec (Z.of_nat (length c)) 52) as [Hshort | Hlong].
  { eexists. split; [reflexivity |]. simpl.
    split; [split; [discriminate | lia] |]. split; [lia | reflexivity]. }
  rewrite (mem_read_in_bounds c 0 SELFMAG) by (unfold SELFMAG; lia).
  change (take (Z.to_nat SELFMAG) (drop (Z.to_nat 0) c)) with (take 4 c). cbn [bind].
  destruct (bool_decide_reflect (take 4 c = ELFMAG)) as [Hmagic | Hmagic]; simpl negb; cbv iota.
  2:{ eexists. split; [reflexivity |]. simpl.
      split; [split; [discriminate | tauto] |]. split; [tauto | reflexivity]. }
  destruct (lookup_lt_is_Some_2 c 6 ltac:(lia)) as [v Hv].
  destruct (lookup_lt_is_Some_2 c 4 ltac:(lia)) as [k Hk].
  assert (Hrv : mem_read c EI_VERSION 1 = Done [v])
    by (apply mem_read_byte; [unfold EI_VERSION; lia | exact Hv]).
  assert (Hrk : mem_read c EI_CLASS 1 = Done [k])
    by (apply mem_read_byte; [unfold EI_CLASS; lia | exact Hk]).
  rewrite Hrv. cbn [bind].
  change (Zbyte EV_CURRENT) with x01.
  destruct (bool_decide_reflect ([v] = [x01])) as [Ev | Ev]; simpl negb; cbv iota.
  2:{ eexists. split; [reflexivity |]. simpl.
      assert (v <> x01) by congruence.
      split; [split; [discriminate | intros (_ & _ & E & _); congruence] |].
      split; [intros [(_ & _ & E & _) | (_ & _ & E & _)]; congruence | reflexivity]. }
  injection Ev as ->.
  rewrite Hrk. cbn [bind].
  change (Zbyte 1) with x01. change (Zbyte 2) with x02.
  rewrite (mem_read_in_bounds c e_machine_offset 2) by (unfold e_machine_offset; lia).
  change (take (Z.to_nat 2) (drop (Z.to_nat e_machine_offset) c)) with (take 2 (drop 18 c)).
  cbn [bind].
  destruct (bool_decide_reflect ([k] = [x01])) as [E1 | E1];
    destruct (bool_decide_reflect ([k] = [x02])) as [E2 | E2]; simpl.
  - congruence.
  - injection E1 as ->. eexists. split; [reflexivity |]. simpl.
    split; [tauto |]. split; [reflexivity | tauto].
  - injection E2 as ->. eexists. split; [reflexivity |]. simpl.
    split; [split; [discriminate | intros (_ & _ & _ & E); congruence] |].
    split; [reflexivity | tauto].
  - eexists. split; [reflexivity |]. simpl.
    split; [split; [discriminate | intros (_ & _ & _ & E); congruence] |].
    split; [intros [(_ & _ & _ & E) | (_ & _ & _ & E)]; congruence | reflexivity].
Qed.

(** What [getElfType] answers for a buffer without the ELF magic. *)
Lemma getElfType_no_magic (hostLittleEndian : bool) (c : list byte) :
  take 4 c <> ELFMAG ->
  getElfType hostLittleEndian (Some c) = Done (mkElfType false 0).
Proof.
  intros Hmagic. unfold getElfType, sizeof_Elf32_Ehdr.
  destruct (Z.ltb_spec (Z.of_nat (length c)) 52) as [Hshort | Hlong]; [reflexivity |].
  rewrite (mem_read_in_bounds c 0 SELFMAG) by (unfold SELFMAG; lia).
  change (take (Z.to_nat SELFMAG) (drop (Z.to_nat 0) c)) with (take 4 c). cbn [bind].
  rewrite bool_decide_eq_false_2 by exact Hmagic. reflexivity.
Qed.

(** ** The command line *)

(** An argument that is none of the three option words. *)
Definition plain_argument (arg : string) : Prop :=
  arg <> "--replace-needed" /\ arg <> "--output" /\ arg <> "--debug".

Lemma parse_args_plain (readFile : string -> option (list byte)) (args : list string) :
  Forall plain_argument args ->
  forall o, parse_args readFile args o
            = Done (mkOptions (neededLibsToReplace o) (outputFileName o) (debugMode o)
                      (fileNames o ++ args)).
Proof.
  induction 1 as [| arg args (H1 & H2 & H3) _ IH]; intros o; simpl.
  - rewrite app_nil_r. destruct o; reflexivity.
  - rewrite !bool_decide_eq_false_2 by assumption.
    rewrite IH. simpl. rewrite <- app_assoc. reflexivity.
Qed.

(** A command line of arguments that are not option words names the files
    to patch, in their order, with nothing to replace and no output file;
    with no argument at all the help text is shown instead. *)
Theorem mainWrapped_file_names (readFile : string -> option (list byte)) (env_debug : bool)
    (prog : string) (args : list string) :
  Forall plain_argument args ->
  mainWrapped_options readFile env_debug (prog :: args)
  = Done (match args with
          | [] => None
          | _ => Some (mkOptions ∅ EmptyString env_debug args)
          end).
Proof.
  intros H. unfold mainWrapped_options. destruct args as [| a args]; [reflexivity |].
  simpl length. cbn [Nat.leb]. rewrite drop_0 || simpl drop.
  rewrite (parse_args_plain readFile (a :: args) H). cbn [bind fileNames outputFileName].
  simpl app. rewrite bool_decide_eq_false_2 by discriminate.
  rewrite bool_decide_eq_true_2 by reflexivity. reflexivity.
Qed.

(** ** The string helpers *)

Lemma append_cons (c : ascii) (a b : string) : String c a +:+ b = String c (a +:+ b).
Proof. reflexivity. Qed.

Lemma append_empty (b : string) : EmptyString +:+ b = b.
Proof. reflexivity. Qed.

Lemma append_empty_r (a : string) : a +:+ EmptyString = a.
Proof. induction a as [| c a IH]; [reflexivity | rewrite append_cons, IH; reflexivity]. Qed.

(** The parts joined with colons. *)
Fixpoint join_colon (parts : list string) : string :=
  match parts with
  | [] => EmptyString
  | [p] => p
  | p :: rest => p +:+ String ":" (join_colon rest)
  end.

Fixpoint has_colon (s : string) : bool :=
  match s with
  | EmptyString => false
  | String c s' => Ascii.eqb c ":" || has_colon s'
  end.

Fixpoint ends_with_colon (s : string) : bool :=
  match s with
  | EmptyString => false
  | String c EmptyString => Ascii.eqb c ":"
  | String _ s' => ends_with_colon s'
  end.

Lemma find_colon_None (s : string) : find_colon s = None -> has_colon s = false.
Proof.
  induction s as [| c s IH]; simpl; [reflexivity |].
  destruct (Ascii.eqb c ":"); [discriminate |].
  destruct (find_colon s); [discriminate |]. intros _. apply IH. reflexivity.
Qed.

Lemma has_colon_ends (s : string) : has_colon s = false -> ends_with_colon s = false.
Proof.
  induction s as [| c s IH]; simpl; [reflexivity |].
  destruct (Ascii.eqb c ":"); [discriminate |]. simpl. intros H.
  destruct s; [reflexivity | apply IH, H].
Qed.

(** A string with a colon at [pos]: the part before it has no colon, the
    rest is shorter, and the string is the two around the colon. *)
Lemma find_colon_Some (s : string) :
  forall pos, find_colon s = Some pos ->
    has_colon (substr_to pos s) = false
    /\ s = substr_to pos s +:+ String ":" (substr_from (pos + 1) s)
    /\ (String.length (substr_from (pos + 1) s) < String.length s)%nat.
Proof.
  induction s as [| c s IH]; simpl; intros pos H; [discriminate |].
  destruct (Ascii.eqb_spec c ":") as [-> | Hc].
  - injection H as <-. simpl. rewrite append_empty. repeat split.
    destruct s; simpl; lia.
  - destruct (find_colon s) as [p |]; [| discriminate]. injection H as <-.
    destruct (IH p eq_refl) as (H1 & H2 & H3). simpl.
    destruct (Ascii.eqb_spec c ":"); [contradiction |]. simpl.
    split; [exact H1 |]. rewrite append_cons.
    split; [f_equal; exact H2 | lia].
Qed.

Lemma ends_with_colon_app (p s : string) :
  s <> EmptyString -> ends_with_colon (p +:+ String ":" s) = ends_with_colon s.
Proof.
  intros Hs. induction p as [| c p IH].
  - rewrite append_empty. simpl. destruct s; [contradiction | reflexivity].
  - rewrite append_cons. simpl. rewrite IH.
    destruct p; [rewrite append_empty | rewrite append_cons]; reflexivity.
Qed.

Lemma ends_with_colon_snoc (p : string) : ends_with_colon (p +:+ String ":" EmptyString) = true.
Proof.
  induction p as [| c p IH]; [reflexivity |].
  rewrite append_cons. simpl. rewrite IH.
  destruct p; [rewrite append_empty | rewrite append_cons]; reflexivity.
Qed.

Lemma append_assoc (a b c : string) : (a +:+ b) +:+ c = a +:+ (b +:+ c).
Proof.
  induction a as [| x a IH]; [reflexivity |]. rewrite !append_cons, IH. reflexivity.
Qed.

Lemma split_loop_spec (fuel : nat) :
  forall s acc, (String.length s <= fuel)%nat ->
    exists parts, split_loop fuel s acc = Done (acc ++ parts)
      /\ Forall (fun p => has_colon p = false) parts
      /\ (parts = [] <-> s = EmptyString)
      /\ s = join_colon parts
             +:+ (if ends_with_colon s then String ":" EmptyString else EmptyString).
Proof.
  induction fuel as [| fuel IH]; intros s acc Hlen.
  - destruct s; [| simpl in Hlen; lia]. simpl. exists []. rewrite app_nil_r.
    repeat split. constructor.
  - simpl. destruct (find_colon s) as [pos |] eqn:E.
    + destruct (find_colon_Some s pos E) as (Hpre & Hs & Hshort).
      destruct (IH (substr_from (pos + 1) s) (acc ++ [substr_to pos s]) ltac:(lia))
        as (parts & Hrun & Hparts & Hnil & Hjoin).
      exists (substr_to pos s :: parts).
      split; [rewrite Hrun, <- app_assoc; reflexivity |].
      split; [constructor; assumption |].
      split; [split; [discriminate | intros Hz; rewrite Hz in E; discriminate E] |].
      revert Hs Hnil Hjoin.
      generalize (substr_to pos s) as p. generalize (substr_from (pos + 1) s) as r.
      intros r p Hs Hnil Hjoin. clear - Hs Hnil Hjoin.
      destruct parts as [| q parts].
      * destruct Hnil as [Hnil _]. specialize (Hnil eq_refl). subst r. subst s.
        rewrite ends_with_colon_snoc. reflexivity.
      * assert (Hne : r <> EmptyString).
        { intros Hz. destruct Hnil as [_ Hnil]. specialize (Hnil Hz). discriminate Hnil. }
        subst s. rewrite ends_with_colon_app by exact Hne.
        change (join_colon (p :: q :: parts))
          with (p +:+ String ":" (join_colon (q :: parts))).
        rewrite append_assoc, append_cons. rewrite <- Hjoin. reflexivity.
    + pose proof (find_colon_None s E) as Hno.
      rewrite (has_colon_ends s Hno).
      destruct (bool_decide_reflect (s = EmptyString)) as [-> | Hne].
      * exists []. rewrite app_nil_r. repeat split. constructor.
      * exists [s]. split; [reflexivity |].
        split; [constructor; [exact Hno | constructor] |].
        split; [split; [discriminate | contradiction] |].
        simpl. symmetry. apply append_empty_r.
Qed.

(** [splitColonDelimitedString] always returns: parts without a colon
    (none for the empty string only) which, joined with colons, give the
    string back, up to one colon at the end of the string, which stands for
    no part. *)
Theorem splitColonDelimitedString_join (s : string) :
  exists parts, splitColonDelimitedString s = Done parts
    /\ Forall (fun p => has_colon p = false) parts
    /\ (parts = [] <-> s = EmptyString)
    /\ s = join_colon parts
           +:+ (if ends_with_colon s then String ":" EmptyString else EmptyString).
Proof.
  destruct (split_loop_spec (String.length s) s [] (Nat.le_refl _))
    as (parts & Hrun & Hparts & Hnil & Hjoin).
  exists parts. repeat split; try assumption; apply Hnil.
Qed.

(** *** [trim] *)

Definition starts_with_space (s : string) : bool :=
  match s with
  | EmptyString => false
  | String c _ => isspace c
  end.

Fixpoint ends_with_space (s : string) : bool :=
  match s with
  | EmptyString => false
  | String c EmptyString => isspace c
  | String _ s' => ends_with_space s'
  end.

Fixpoint all_spaces (s : string) : bool :=
  match s with
  | EmptyString => true
  | String c s' => isspace c && all_spaces s'
  end.

Lemma erase_leading_spec (s : string) :
  starts_with_space (erase_leading s) = false
  /\ exists pre, all_spaces pre = true /\ s = pre +:+ erase_leading s.
Proof.
  induction s as [| c s (IH1 & pre & Hpre & IH2)]; simpl.
  - split; [reflexivity |]. exists EmptyString. split; reflexivity.
  - destruct (isspace c) eqn:E.
    + split; [exact IH1 |]. exists (String c pre). simpl. rewrite E, Hpre.
      split; [reflexivity | rewrite append_cons; f_equal; exact IH2].
    + simpl. split; [exact E |]. exists EmptyString. split; reflexivity.
Qed.

Lemma all_spaces_app_false (post u : string) :
  u <> EmptyString -> ends_with_space u = false -> all_spaces (u +:+ post) = false.
Proof.
  induction u as [| e u IHu]; intros Hne He; [contradiction |].
  rewrite append_cons. simpl. destruct u as [| f u].
  - simpl in He. rewrite He. reflexivity.
  - rewrite IHu; [apply andb_false_r | discriminate | exact He].
Qed.

Lemma erase_trailing_spec (s : string) :
  ends_with_space (erase_trailing s) = false
  /\ starts_with_space (erase_trailing s) = (starts_with_space s && negb (all_spaces s))
  /\ exists post, all_spaces post = true /\ s = erase_trailing s +:+ post.
Proof.
  induction s as [| c s (IH1 & IH0 & post & Hpost & IH2)]; simpl.
  - split; [reflexivity |]. split; [reflexivity |].
    exists EmptyString. split; reflexivity.
  - destruct (erase_trailing s) as [| d t] eqn:E.
    + rewrite append_empty in IH2. subst post. destruct (isspace c) eqn:Ec; simpl.
      * rewrite Hpost. split; [reflexivity |]. split; [reflexivity |].
        exists (String c s). simpl. rewrite Ec, Hpost. split; reflexivity.
      * rewrite Ec. split; [reflexivity |]. split; [reflexivity |].
        exists s. split; [exact Hpost | reflexivity].
    + split; [exact IH1 |]. split.
      * simpl. destruct (isspace c); [| reflexivity]. simpl.
        rewrite IH2, all_spaces_app_false; [reflexivity | discriminate | exact IH1].
      * exists post. split; [exact Hpost |]. rewrite append_cons. f_equal. exact IH2.
Qed.

(** [trim] returns the string without the white space around it: the
    result neither starts nor ends with a space character, the string is
    the result between two runs of space characters, and trimming again
    changes nothing. *)
Theorem trim_spec (s : string) :
  starts_with_space (trim s) = false
  /\ ends_with_space (trim s) = false
  /\ (exists pre post, all_spaces pre = true /\ all_spaces post = true
                       /\ s = pre +:+ trim s +:+ post)
  /\ trim (trim s) = trim s.
Proof.
  unfold trim.
  destruct (erase_leading_spec s) as (Hlead & pre & Hpre & Hs).
  destruct (erase_trailing_spec (erase_leading s)) as (Htrail & Hstart & post & Hpost & Ht).
  assert (Hst : starts_with_space (erase_trailing (erase_leading s)) = false)
    by (rewrite Hstart, Hlead; reflexivity).
  split; [exact Hst |]. split; [exact Htrail |].
  split.
  { exists pre, post. split; [exact Hpre |]. split; [exact Hpost |].
    rewrite <- Ht. exact Hs. }
  assert (Hfix1 : forall u, starts_with_space u = false -> erase_leading u = u).
  { intros [| c u]; simpl; [reflexivity |]. intros ->. reflexivity. }
  assert (Hfix2 : forall u, ends_with_space u = false -> erase_trailing u = u).
  { induction u as [| c u IHu]; simpl; [reflexivity |].
    destruct u as [| d u].
    - simpl. intros ->. reflexivity.
    - intros Hu. rewrite (IHu Hu). reflexivity. }
  rewrite (Hfix1 _ Hst). apply Hfix2, Htrail.
Qed.

(** ** The DT_NEEDED replacer *)

(** *** Strings in a string section *)

Lemma c_str_app (l rest : list byte) : In x00 l -> c_str (l ++ rest) = c_str l.
Proof.
  induction l as [| b l IH]; simpl; intros H; [contradiction |].
  destruct (Byte.eqb b x00) eqn:E; [reflexivity |].
  destruct H as [-> | H]; [apply Byte.eqb_false in E; congruence |].
  rewrite IH by exact H. reflexivity.
Qed.

Lemma existsb_nul (l : list byte) : existsb (Byte.eqb x00) l = true <-> In x00 l.
Proof.
  rewrite existsb_exists. split.
  - intros (x & Hin & Hx). apply Byte.byte_dec_bl in Hx. subst x. exact Hin.
  - intros H. exists x00. split; [exact H | apply Byte.byte_dec_lb; reflexivity].
Qed.

Lemma in_drop_last (l : list byte) (d : nat) (x : byte) :
  last l = Some x -> (d < length l)%nat -> In x (drop d l).
Proof.
  intros Hlast Hd. rewrite last_lookup in Hlast.
  apply list_elem_of_In, (list_elem_of_lookup_2 _ (Nat.pred (length l) - d)).
  rewrite lookup_drop. replace (d + (Nat.pred (length l) - d))%nat with (Nat.pred (length l)) by lia.
  exact Hlast.
Qed.

(** The string at offset [d] of a string section with the bytes
    [content]. *)
Definition dynstr_name (content : list byte) (d : Z) : string :=
  string_of_list_byte (c_str (drop (Z.to_nat d) content)).

(** A C string read in the file inside a NUL-terminated section is the
    string of the section at that offset. *)
Lemma file_c_str_section (c content : list byte) (strTab size d : Z) :
  mem_read c strTab size = Done content ->
  last content = Some x00 -> 0 <= d < size ->
  file_c_str c (strTab + d) = Done (dynstr_name content d).
Proof.
  intros Hread Hlast Hd.
  apply mem_read_Done in Hread as (H0 & H1 & H2 & Hc).
  assert (Hlen : length content = Z.to_nat size)
    by (rewrite Hc, length_take, length_drop; lia).
  unfold file_c_str.
  destruct (Z.leb_spec 0 (strTab + d)); [| lia].
  destruct (Z.ltb_spec (strTab + d) (Z.of_nat (length c))); [| lia].
  simpl.
  assert (Hdrop : drop (Z.to_nat (strTab + d)) c
                  = drop (Z.to_nat d) content ++ drop (Z.to_nat (strTab + size)) c).
  { rewrite Hc.
    replace (Z.to_nat size) with (Z.to_nat d + (Z.to_nat size - Z.to_nat d))%nat at 1 by lia.
    rewrite <- take_drop_commute, drop_drop.
    replace (Z.to_nat strTab + Z.to_nat d)%nat with (Z.to_nat (strTab + d)) by lia.
    rewrite <- (take_drop (Z.to_nat size - Z.to_nat d) (drop (Z.to_nat (strTab + d)) c)) at 1.
    f_equal. rewrite drop_drop. f_equal. lia. }
  assert (Hin : In x00 (drop (Z.to_nat d) content))
    by (apply in_drop_last; [exact Hlast | lia]).
  rewrite Hdrop.
  assert (He : existsb (Byte.eqb x00)
                 (drop (Z.to_nat d) content ++ drop (Z.to_nat (strTab + size)) c) = true).
  { apply existsb_nul, in_or_app. left. exact Hin. }
  rewrite He. rewrite c_str_app by exact Hin. reflexivity.
Qed.

(** *** The bytes that the replacements can add *)

Definition need_len (r : string) : Z := Z.of_nat (String.length r) + 1.

(** The bytes still to add for the replacements of [l] that are not among
    the added strings. *)
Definition pending_len (l : list (string * string)) (added : gmap string Z) : Z :=
  foldr (fun e acc => match added !! e.2 with Some _ => 0 | None => need_len e.2 end + acc) 0 l.

(** The bytes that all the replacements of [libs] take, each with its
    NUL. *)
Definition total_len (libs : gmap string string) : Z :=
  pending_len (map_to_list libs) ∅.

Lemma need_len_pos (r : string) : 0 < need_len r.
Proof. unfold need_len. lia. Qed.

Lemma pending_len_nonneg (l : list (string * string)) (added : gmap string Z) :
  0 <= pending_len l added.
Proof.
  induction l as [| e l IH]; simpl; [lia |].
  pose proof (need_len_pos e.2). destruct (added !! e.2); lia.
Qed.

Lemma pending_len_insert_le (l : list (string * string)) (added : gmap string Z)
    (r : string) (o : Z) :
  pending_len l (<[r := o]> added) <= pending_len l added.
Proof.
  induction l as [| e l IH]; simpl; [lia |].
  pose proof (need_len_pos e.2). pose proof (need_len_pos r).
  destruct (decide (e.2 = r)) as [-> | Hne].
  - rewrite lookup_insert_eq. destruct (added !! r); lia.
  - rewrite lookup_insert_ne by congruence. destruct (added !! e.2); lia.
Qed.

Lemma pending_len_insert (l : list (string * string)) (added : gmap string Z)
    (name r : string) (o : Z) :
  In (name, r) l -> added !! r = None ->
  pending_len l (<[r := o]> added) + need_len r <= pending_len l added.
Proof.
  induction l as [| e l IH]; simpl; intros Hin Hnone; [contradiction |].
  destruct Hin as [-> | Hin].
  - simpl. rewrite lookup_insert_eq, Hnone.
    pose proof (pending_len_insert_le l added r o). lia.
  - specialize (IH Hin Hnone). pose proof (need_len_pos r).
    destruct (decide (e.2 = r)) as [-> | Hne].
    + rewrite lookup_insert_eq, Hnone. lia.
    + rewrite lookup_insert_ne by congruence. destruct (added !! e.2); lia.
Qed.

(** The replacement that [replaceNeeded] has for a name, if any. *)
Definition replacement_for (libs : gmap string string) (name : string) : option string :=
  match libs !! name with
  | Some r => if bool_decide (name <> r) then Some r else None
  | None => None
  end.

(** *** Steps of the loop *)

Lemma length_bytes_of_string (r : string) :
  length (list_byte_of_string r) = String.length r.
Proof. induction r as [| c r IH]; simpl; [reflexivity | f_equal; exact IH]. Qed.

Lemma mem_write_in_bounds (c : list byte) (off : Z) (bs : list byte) :
  0 <= off -> off + Z.of_nat (length bs) <= Z.of_nat (length c) ->
  exists c', mem_write c off bs = Done c'.
Proof.
  intros H1 H2. unfold mem_write.
  destruct (Z.leb_spec 0 off); [| lia].
  destruct (Z.leb_spec (off + Z.of_nat (length bs)) (Z.of_nat (length c))); [| lia].
  eexists. reflexivity.
Qed.

(** The new string goes right behind the buffer. *)
Lemma append_buffer (buf : list byte) (r : string) :
  Z.of_nat (length buf) + need_len r < 2 ^ 32 ->
  setSubstr (resize (Z.to_nat (Z.of_nat (length buf) + need_len r)) x00 buf)
    (Z.of_nat (length buf)) (list_byte_of_string r ++ [x00])
  = Done (buf ++ list_byte_of_string r ++ [x00]).
Proof.
  intros Hfit. pose proof (need_len_pos r) as Hpos. unfold setSubstr.
  rewrite u32_id by lia.
  assert (Hlen : Z.of_nat (length (list_byte_of_string r ++ [x00])) = need_len r).
  { rewrite length_app, length_bytes_of_string. unfold need_len. simpl. lia. }
  rewrite Hlen, u64_small by lia.
  rewrite length_resize.
  destruct (Z.leb_spec (Z.of_nat (length buf) + need_len r)
              (Z.of_nat (Z.to_nat (Z.of_nat (length buf) + need_len r)))); [| lia].
  simpl. f_equal.
  rewrite resize_ge by lia. rewrite Nat2Z.id.
  rewrite take_app_length. f_equal.
  rewrite drop_ge; [apply app_nil_r |].
  rewrite length_app, length_replicate. lia.
Qed.

(** A write of the value of a dynamic entry, read back. *)
Lemma dyn_set_Done (off v : Z) (st st' : ElfFile) :
  dyn_set off v st = Done st' ->
  exists c', mem_write (fileContents st) (off + dyn_off_un)
               (field_bytes (littleEndian st) (Z.to_nat sizeof_Off) v) = Done c'
             /\ st' = with_fileContents c' st.
Proof.
  unfold dyn_set. intros H. apply bind_Done in H as (c' & Hw & H).
  injection H as <-. eauto.
Qed.

Lemma sizeof_Off_cases : sizeof_Off = 4 \/ sizeof_Off = 8.
Proof. unfold sizeof_Off. destruct ElfClass; auto. Qed.

Lemma sizeof_Dyn_Off : sizeof_Dyn = 2 * sizeof_Off /\ dyn_off_un = sizeof_Off.
Proof. unfold sizeof_Dyn, dyn_off_un, sizeof_Off. destruct ElfClass; split; reflexivity. Qed.

Lemma dyn_val_written (off v : Z) (c c' : list byte) (le : bool) (st' : ElfFile) :
  mem_write c (off + dyn_off_un) (field_bytes le (Z.to_nat sizeof_Off) v) = Done c' ->
  fileContents st' = c' -> littleEndian st' = le ->
  0 <= v < 2 ^ 32 ->
  dyn_val off st' = Done v.
Proof.
  intros Hw Hc Hle Hv. unfold dyn_val. rewrite Hc, Hle.
  pose proof (mem_read_written _ _ _ _ Hw) as Hr.
  rewrite length_field_bytes in Hr.
  rewrite Z2Nat.id in Hr by (destruct sizeof_Off_cases; lia).
  rewrite Hr. simpl. f_equal. rewrite rdi_field_bytes.
  apply Z.mod_small. split; [lia |].
  apply Z.lt_le_trans with (2 ^ 32); [lia |].
  apply Z.pow_le_mono_r; [lia |]. destruct sizeof_Off_cases; lia.
Qed.

(** *** The first loop *)

(** Entry [j] of the dynamic table at [dyn_table], and its value field. *)
Definition dyn_entry (dyn_table j : Z) : Z := dyn_table + j * sizeof_Dyn.

Lemma dyn_reads_eq (st1 st2 : ElfFile) (off : Z) :
  littleEndian st1 = littleEndian st2 ->
  mem_read (fileContents st1) off sizeof_Off = mem_read (fileContents st2) off sizeof_Off ->
  dyn_tag_word off st1 = dyn_tag_word off st2.
Proof. intros Hle Hr. unfold dyn_tag_word. rewrite Hle, Hr. reflexivity. Qed.

Lemma dyn_val_eq (st1 st2 : ElfFile) (off : Z) :
  littleEndian st1 = littleEndian st2 ->
  mem_read (fileContents st1) (off + dyn_off_un) sizeof_Off
  = mem_read (fileContents st2) (off + dyn_off_un) sizeof_Off ->
  dyn_val off st1 = dyn_val off st2.
Proof. intros Hle Hr. unfold dyn_val. rewrite Hle, Hr. reflexivity. Qed.

Lemma to_addr_u32 (x : Z) : 0 <= x < 2 ^ 32 -> to_addr x = x.
Proof.
  intros H. apply to_addr_small. split; [lia |].
  apply Z.lt_le_trans with (2 ^ 32); [lia |].
  apply Z.pow_le_mono_r; [lia |]. destruct addr_bits_cases; lia.
Qed.

(** Appending a string to the pending edit of a string section whose
    buffer, pending or still in the file, is [buf]. *)
Lemma append_string_spec (sectionName : string) (strings : Elf_Shdr) (r : string)
    (s : needed_state) (buf : list byte) :
  replacedSections (nd_file s) !! sectionName = Some buf
  \/ (replacedSections (nd_file s) !! sectionName = None
      /\ findSectionHeader sectionName (nd_file s) = Done strings
      /\ mem_read (fileContents (nd_file s)) (sh_offset strings) (sh_size strings) = Done buf) ->
  Z.of_nat (length buf) = sh_size strings + nd_bytes s ->
  0 <= nd_bytes s -> 0 <= sh_size strings ->
  sh_size strings + nd_bytes s + need_len r < 2 ^ 32 ->
  append_string sectionName strings r s
  = Done (mkNeeded
            (with_replacedSections
               (<[sectionName := buf ++ list_byte_of_string r ++ [x00]]>
                  (replacedSections (nd_file s))) (nd_file s))
            (<[r := sh_size strings + nd_bytes s]> (nd_added s))
            (nd_bytes s + need_len r) (nd_verNeedNum s),
          sh_size strings + nd_bytes s).
Proof.
  intros Hbuf Hlen Hbytes Hsz Hfit. pose proof (need_len_pos r) as Hpos.
  unfold append_string.
  rewrite to_addr_u32 by lia.
  assert (Hx : u64 (sh_size strings + nd_bytes s + Z.of_nat (String.length r) + 1)
               = Z.of_nat (length buf) + need_len r).
  { unfold need_len in *. rewrite u64_small by lia. lia. }
  rewrite Hx.
  assert (Hrs : replaceSection sectionName (Z.of_nat (length buf) + need_len r) (nd_file s)
                = Done (with_replacedSections
                          (<[sectionName := resize (Z.to_nat (Z.of_nat (length buf) + need_len r))
                                              x00 buf]> (replacedSections (nd_file s)))
                          (nd_file s),
                        resize (Z.to_nat (Z.of_nat (length buf) + need_len r)) x00 buf)).
  { unfold replaceSection. rewrite u32_id by lia.
    destruct Hbuf as [-> | (-> & -> & Hread)]; [reflexivity |].
    simpl. unfold extractString. rewrite Hread. reflexivity. }
  rewrite Hrs. cbn [bind].
  rewrite <- Hlen. rewrite append_buffer by lia. cbn [bind].
  assert (Hb : u32 (nd_bytes s + Z.of_nat (String.length r) + 1) = nd_bytes s + need_len r).
  { unfold need_len in *. rewrite u32_id by lia. lia. }
  rewrite Hb. unfold ret, with_replacedSections. simpl.
  rewrite insert_insert_eq. reflexivity.
Qed.

Section NeededLoop.

Variables (libs : gmap string string) (st : ElfFile) (shdrDynStr : Elf_Shdr).
Variables (content : list byte) (dyn_table n : Z).

Local Abbreviation strTab := (sh_offset shdrDynStr).
Local Abbreviation size := (sh_size shdrDynStr).
Local Abbreviation entry := (dyn_entry dyn_table).

Hypothesis Hstr : findSectionHeader ".dynstr" st = Done shdrDynStr.
Hypothesis Hcontent : mem_read (fileContents st) strTab size = Done content.
Hypothesis Hnul : last content = Some x00.
Hypothesis Hnone : replacedSections st !! ".dynstr" = None.
Hypothesis Htable :
  0 <= dyn_table /\ 0 <= n
  /\ dyn_table + (n + 1) * sizeof_Dyn <= Z.of_nat (length (fileContents st)).
Hypothesis Hapart : apart strTab (strTab + size) dyn_table ((n + 1) * sizeof_Dyn).
Hypothesis Hsize : size + total_len libs < 2 ^ 32.
Hypothesis Htags : forall j, 0 <= j < n ->
  exists tag, dyn_tag_word (entry j) st = Done tag /\ tag <> DT_NULL
    /\ (tag = DT_NEEDED -> exists d, dyn_val (entry j) st = Done d /\ 0 <= d < size).
Hypothesis Hend : dyn_tag_word (entry n) st = Done DT_NULL.

(** The object after some entries were rewritten: the file [c], the
    pending edit [buf] of [.dynstr], and the flag. *)
Definition rewritten_file (c buf : list byte) : ElfFile :=
  with_changed true
    (with_replacedSections (<[".dynstr" := buf]> (replacedSections st))
       (with_fileContents c st)).

(** [c] is the file of [st] but for the values of the DT_NEEDED entries
    before [k]. *)
Definition needed_frame (k : Z) (c : list byte) : Prop :=
  length c = length (fileContents st)
  /\ forall o m,
       (forall j, 0 <= j < k -> dyn_tag_word (entry j) st = Done DT_NEEDED ->
          apart (entry j + dyn_off_un) (entry j + dyn_off_un + sizeof_Off) o m) ->
       mem_read c o m = mem_read (fileContents st) o m.

(** What holds of the entries before [k] in the state [s]. *)
Definition entries_done (k : Z) (s : needed_state) : Prop :=
  forall j d, 0 <= j < k ->
    dyn_tag_word (entry j) st = Done DT_NEEDED -> dyn_val (entry j) st = Done d ->
    match replacement_for libs (dynstr_name content d) with
    | Some r => exists off, nd_added s !! r = Some off
                            /\ dyn_val (entry j) (nd_file s) = Done off
    | None => dyn_val (entry j) (nd_file s) = Done d
    end.

Definition strings_added (added : gmap string Z) (bytes : Z) (buf : list byte) : Prop :=
  forall r off, added !! r = Some off ->
    size <= off /\ off + need_len r <= size + bytes
    /\ take (Z.to_nat (need_len r)) (drop (Z.to_nat off) buf) = list_byte_of_string r ++ [x00].

Record needed_inv (k : Z) (s : needed_state) : Prop := mkNeededInv {
  inv_state :
    (nd_file s = st /\ nd_added s = ∅ /\ nd_bytes s = 0
     /\ forall j d, 0 <= j < k ->
          dyn_tag_word (entry j) st = Done DT_NEEDED -> dyn_val (entry j) st = Done d ->
          replacement_for libs (dynstr_name content d) = None)
    \/ (exists c buf,
          nd_file s = rewritten_file c buf /\ needed_frame k c
          /\ Z.of_nat (length buf) = size + nd_bytes s
          /\ take (Z.to_nat size) buf = content
          /\ strings_added (nd_added s) (nd_bytes s) buf /\ entries_done k s);
  inv_bytes :
    0 <= nd_bytes s
    /\ nd_bytes s + pending_len (map_to_list libs) (nd_added s) <= total_len libs;
  inv_ver :
    (forall j, 0 <= j < k -> dyn_tag_word (entry j) st <> Done DT_VERNEEDNUM) ->
    nd_verNeedNum s = 0;
  inv_replaced :
    nd_file s = st
    \/ exists j d, 0 <= j < k /\ dyn_tag_word (entry j) st = Done DT_NEEDED
                   /\ dyn_val (entry j) st = Done d
                   /\ replacement_for libs (dynstr_name content d) <> None }.

Lemma needed_inv_start : needed_inv 0 (mkNeeded st ∅ 0 0).
Proof.
  split; simpl.
  - left. repeat split. intros j d Hj. lia.
  - unfold total_len. lia.
  - reflexivity.
  - left. reflexivity.
Qed.

Lemma layout_facts :
  0 < sizeof_Off /\ sizeof_Dyn = 2 * sizeof_Off /\ dyn_off_un = sizeof_Off
  /\ 0 <= size /\ 0 <= strTab
  /\ strTab + size <= Z.of_nat (length (fileContents st)).
Proof.
  pose proof sizeof_Dyn_Off as [H1 H2].
  apply mem_read_Done in Hcontent as (H3 & H4 & H5 & _).
  destruct sizeof_Off_cases; repeat split; lia.
Qed.

(** The file in a state that satisfies the invariant: its size, and the
    reads of the section and of the entries from [k] on. *)
Lemma needed_inv_reads (k : Z) (s : needed_state) :
  0 <= k <= n -> needed_inv k s ->
  length (fileContents (nd_file s)) = length (fileContents st)
  /\ littleEndian (nd_file s) = littleEndian st
  /\ mem_read (fileContents (nd_file s)) strTab size = Done content
  /\ (forall j, 0 <= j <= n ->
        dyn_tag_word (entry j) (nd_file s) = dyn_tag_word (entry j) st)
  /\ (forall j, k <= j <= n ->
        dyn_val (entry j) (nd_file s) = dyn_val (entry j) st).
Proof.
  intros Hk [Hstate _ _ _].
  destruct Hstate as [(-> & _) | (c & buf & -> & [Hlen Hframe] & _)].
  - repeat split; auto.
  - pose proof layout_facts as (L1 & L2 & L3 & L4 & L5 & L6).
    destruct Htable as (T1 & T2 & T3). unfold apart in Hapart.
    split; [exact Hlen |]. split; [reflexivity |].
    split.
    { simpl. rewrite <- Hcontent. apply Hframe. intros j Hj _.
      unfold apart, dyn_entry.
      assert (0 <= j * sizeof_Off <= n * sizeof_Off) by nia. lia. }
    split.
    + intros j Hj. apply dyn_reads_eq; [reflexivity |]. simpl. apply Hframe.
      intros i Hi _. unfold apart, dyn_entry.
      destruct (Z.lt_trichotomy i j) as [Hlt | [-> | Hgt]].
      * assert (i * sizeof_Off + sizeof_Off <= j * sizeof_Off) by nia. lia.
      * lia.
      * assert (j * sizeof_Off + sizeof_Off <= i * sizeof_Off) by nia. lia.
    + intros j Hj. apply dyn_val_eq; [reflexivity |]. simpl. apply Hframe.
      intros i Hi _. unfold apart, dyn_entry.
      assert (i * sizeof_Off + sizeof_Off <= j * sizeof_Off) by nia. lia.
Qed.

Lemma needed_frame_next (k : Z) (c : list byte) :
  needed_frame k c -> needed_frame (k + 1) c.
Proof.
  intros [Hlen Hf]. split; [exact Hlen |].
  intros o m H. apply Hf. intros j Hj. apply H. lia.
Qed.

Lemma needed_frame_refl (k : Z) : needed_frame k (fileContents st).
Proof. split; reflexivity. Qed.

(** An entry that is not a DT_NEEDED one. *)
Lemma needed_inv_skip (k : Z) (s : needed_state) (tag v : Z) :
  0 <= k < n -> needed_inv k s ->
  dyn_tag_word (entry k) st = Done tag -> tag <> DT_NEEDED ->
  (tag <> DT_VERNEEDNUM -> v = nd_verNeedNum s) ->
  needed_inv (k + 1) (mkNeeded (nd_file s) (nd_added s) (nd_bytes s) v).
Proof.
  intros Hk [Hstate Hbytes Hver Hrepl] Htag Hne Hv. split; simpl.
  - destruct Hstate as [(H1 & H2 & H3 & H4) | (c & buf & H1 & H2 & H3 & H4 & H5 & H6)].
    + left. repeat split; try assumption. intros j d Hj Hj1 Hj2.
      destruct (Z.eq_dec j k) as [-> | Hjk]; [congruence |].
      apply (H4 j d); [lia | assumption | assumption].
    + right. exists c, buf. split; [exact H1 |].
      split; [apply needed_frame_next, H2 |].
      split; [exact H3 |]. split; [exact H4 |]. split; [exact H5 |].
      intros j d Hj Hj1 Hj2.
      destruct (Z.eq_dec j k) as [-> | Hjk]; [congruence |].
      apply (H6 j d); [lia | assumption | assumption].
  - exact Hbytes.
  - intros Hall. rewrite Hv.
    + apply Hver. intros j Hj. apply Hall. lia.
    + intros ->. apply (Hall k); [lia | exact Htag].
  - destruct Hrepl as [Hsame | (j & d & Hj & Hrest)]; [left; exact Hsame |].
    right. exists j, d. split; [lia | exact Hrest].
Qed.

(** A DT_NEEDED entry whose name has no replacement. *)
Lemma needed_inv_keep (k : Z) (s : needed_state) (d : Z) :
  0 <= k < n -> needed_inv k s ->
  dyn_tag_word (entry k) st = Done DT_NEEDED -> dyn_val (entry k) st = Done d ->
  replacement_for libs (dynstr_name content d) = None ->
  needed_inv (k + 1) s.
Proof.
  intros Hk Hinv Htag Hd Hrep.
  pose proof (needed_inv_reads k s ltac:(lia) Hinv) as (_ & _ & _ & _ & Hreads).
  pose proof (Hreads k ltac:(lia)) as Hval.
  destruct Hinv as [Hstate Hbytes Hver Hrepl]. split.
  - destruct Hstate as [(H1 & H2 & H3 & H4) | (c & buf & H1 & H2 & H3 & H4 & H5 & H6)].
    + left. repeat split; try assumption. intros j d' Hj Hj1 Hj2.
      destruct (Z.eq_dec j k) as [-> | Hjk]; [congruence |].
      apply (H4 j d'); [lia | assumption | assumption].
    + right. exists c, buf. split; [exact H1 |].
      split; [apply needed_frame_next, H2 |].
      split; [exact H3 |]. split; [exact H4 |]. split; [exact H5 |].
      intros j d' Hj Hj1 Hj2.
      destruct (Z.eq_dec j k) as [-> | Hjk].
      * assert (d' = d) by congruence. subst d'. rewrite Hrep, Hval. exact Hd.
      * apply (H6 j d'); [lia | assumption | assumption].
  - exact Hbytes.
  - intros Hall. apply Hver. intros j Hj. apply Hall. lia.
  - destruct Hrepl as [Hsame | (j & d' & Hj & Hrest)]; [left; exact Hsame |].
    right. exists j, d'. split; [lia | exact Hrest].
Qed.

(** A DT_NEEDED entry that is given the offset [off] of its replacement
    [r], which is among the added strings. *)
Lemma needed_inv_rewrite (k : Z) (c c' buf : list byte) (added : gmap string Z)
    (bytes ver d off : Z) (r : string) :
  0 <= k < n ->
  dyn_tag_word (entry k) st = Done DT_NEEDED -> dyn_val (entry k) st = Done d ->
  replacement_for libs (dynstr_name content d) = Some r ->
  needed_frame k c ->
  mem_write c (entry k + dyn_off_un)
    (field_bytes (littleEndian st) (Z.to_nat sizeof_Off) off) = Done c' ->
  added !! r = Some off ->
  Z.of_nat (length buf) = size + bytes -> take (Z.to_nat size) buf = content ->
  strings_added added bytes buf ->
  (forall j d', 0 <= j < k ->
     dyn_tag_word (entry j) st = Done DT_NEEDED -> dyn_val (entry j) st = Done d' ->
     match replacement_for libs (dynstr_name content d') with
     | Some r' => exists off', added !! r' = Some off'
                               /\ dyn_val (entry j) (with_fileContents c st) = Done off'
     | None => dyn_val (entry j) (with_fileContents c st) = Done d'
     end) ->
  0 <= bytes /\ bytes + pending_len (map_to_list libs) added <= total_len libs ->
  ((forall j, 0 <= j < k -> dyn_tag_word (entry j) st <> Done DT_VERNEEDNUM) -> ver = 0) ->
  needed_inv (k + 1) (mkNeeded (rewritten_file c' buf) added bytes ver).
Proof.
  intros Hk Htag Hd Hrep [Hlen Hframe] Hw Hadded Hbuf Htake Hstrings Hbefore Hbytes Hver.
  pose proof layout_facts as (L1 & L2 & L3 & L4 & L5 & L6).
  pose proof (mem_write_length _ _ _ _ Hw) as Hlen'.
  assert (Hoff : 0 <= off < 2 ^ 32).
  { destruct (Hstrings r off Hadded) as (H1 & H2 & _).
    pose proof (need_len_pos r). pose proof (pending_len_nonneg (map_to_list libs) added). lia. }
  assert (Hapart_w : forall j, 0 <= j < k + 1 -> j <> k ->
            forall o, o = entry j + dyn_off_un ->
            mem_read c' o sizeof_Off = mem_read c o sizeof_Off).
  { intros j Hj Hjk o ->. apply (mem_read_apart _ _ _ _ _ _ Hw).
    rewrite length_field_bytes. unfold dyn_entry. rewrite Z2Nat.id by lia.
    assert (j * sizeof_Off + sizeof_Off <= k * sizeof_Off) by nia. lia. }
  split; simpl.
  - right. exists c', buf. split; [reflexivity |].
    split.
    { split; [congruence |]. intros o m H.
      rewrite (mem_read_apart _ _ _ _ _ _ Hw).
      - apply Hframe. intros j Hj Hj1. apply H; [lia | exact Hj1].
      - rewrite length_field_bytes, Z2Nat.id by lia.
        specialize (H k ltac:(lia) Htag). unfold apart in H. lia. }
    split; [exact Hbuf |]. split; [exact Htake |]. split; [exact Hstrings |].
    intros j d' Hj Hj1 Hj2. simpl.
    destruct (Z.eq_dec j k) as [-> | Hjk].
    + assert (d' = d) by congruence. subst d'. rewrite Hrep.
      exists off. split; [exact Hadded |].
      apply (dyn_val_written _ _ _ _ _ _ Hw); [reflexivity | reflexivity | exact Hoff].
    + specialize (Hbefore j d' ltac:(lia) Hj1 Hj2).
      assert (Hsame : dyn_val (entry j) (rewritten_file c' buf)
                      = dyn_val (entry j) (with_fileContents c st)).
      { apply dyn_val_eq; [reflexivity |]. simpl.
        apply (Hapart_w j); [lia | exact Hjk | reflexivity]. }
      rewrite Hsame. exact Hbefore.
  - exact Hbytes.
  - intros Hall. apply Hver. intros j Hj. apply Hall. lia.
  - right. exists k, d. split; [lia |]. split; [exact Htag |]. split; [exact Hd |].
    rewrite Hrep. discriminate.
Qed.

Lemma entry_in_file (k : Z) :
  0 <= k <= n ->
  0 <= entry k + dyn_off_un
  /\ entry k + dyn_off_un + sizeof_Off <= Z.of_nat (length (fileContents st)).
Proof.
  intros Hk. pose proof layout_facts as (L1 & L2 & L3 & L4 & L5 & L6).
  destruct Htable as (T1 & T2 & T3). unfold dyn_entry.
  assert (0 <= k * sizeof_Off <= n * sizeof_Off) by nia. lia.
Qed.

(** The body of the loop at a DT_NEEDED entry. *)
Lemma needed_entry_inv (k : Z) (s : needed_state) :
  0 <= k < n -> needed_inv k s ->
  dyn_tag_word (entry k) st = Done DT_NEEDED ->
  exists s' continued,
    needed_entry libs shdrDynStr strTab (entry k) s = Done (s', continued)
    /\ needed_inv (k + 1) s'.
Proof.
  intros Hk Hinv Htag.
  pose proof layout_facts as (L1 & L2 & L3 & L4 & L5 & L6).
  destruct (Htags k Hk) as (tag & Ht & _ & Hneeded).
  assert (tag = DT_NEEDED) by congruence. subst tag.
  destruct (Hneeded eq_refl) as (d & Hd & Hdr).
  pose proof (needed_inv_reads k s ltac:(lia) Hinv) as (Hlen & Hle & Hsec & _ & Hreads).
  pose proof (Hreads k ltac:(lia)) as Hval.
  destruct (entry_in_file k ltac:(lia)) as [Hlo Hhi].
  unfold needed_entry. rewrite Hval, Hd. cbn [bind].
  rewrite (file_c_str_section _ content strTab size d Hsec Hnul Hdr). cbn [bind].
  destruct (libs !! dynstr_name content d) as [r |] eqn:Elib.
  2:{ exists s, false. split; [reflexivity |].
      apply (needed_inv_keep k s d Hk Hinv Htag Hd).
      unfold replacement_for. rewrite Elib. reflexivity. }
  destruct (bool_decide_reflect (dynstr_name content d <> r)) as [Hne | Heq].
  2:{ exists s, false. split; [reflexivity |].
      apply (needed_inv_keep k s d Hk Hinv Htag Hd).
      unfold replacement_for. rewrite Elib. rewrite bool_decide_eq_false_2 by exact Heq.
      reflexivity. }
  assert (Hrep : replacement_for libs (dynstr_name content d) = Some r).
  { unfold replacement_for. rewrite Elib, bool_decide_eq_true_2 by exact Hne. reflexivity. }
  destruct Hinv as [Hstate Hbytes Hver _].
  destruct (nd_added s !! r) as [off |] eqn:Eadd.
  - (* the same replacement string has already been added *)
    destruct Hstate as [(H1 & H2 & _) | (c & buf & H1 & H2 & H3 & H4 & H5 & H6)].
    { rewrite H2, lookup_empty in Eadd. discriminate. }
    destruct (mem_write_in_bounds c (entry k + dyn_off_un)
                (field_bytes (littleEndian st) (Z.to_nat sizeof_Off) off)) as [c' Hw].
    { lia. }
    { rewrite length_field_bytes, Z2Nat.id by lia. destruct H2 as [-> _]. lia. }
    unfold dyn_set. rewrite H1. simpl fileContents. simpl littleEndian.
    rewrite Hw. cbn [bind].
    eexists _, true. split; [reflexivity |].
    change (with_nd_file (with_fileContents c' (rewritten_file c buf)) s)
      with (mkNeeded (rewritten_file c' buf) (nd_added s) (nd_bytes s) (nd_verNeedNum s)).
    apply (needed_inv_rewrite k c c' buf _ _ _ d off r); try assumption.
    intros j d' Hj Hj1 Hj2. specialize (H6 j d' Hj Hj1 Hj2). rewrite H1 in H6. exact H6.
  - (* a new string *)
    assert (Hin : In (dynstr_name content d, r) (map_to_list libs)).
    { apply list_elem_of_In, elem_of_map_to_list. exact Elib. }
    pose proof (pending_len_insert _ _ _ _ (size + nd_bytes s) Hin Eadd) as Hpend.
    pose proof (pending_len_nonneg (map_to_list libs)
                  (<[r := size + nd_bytes s]> (nd_added s))) as Hnn.
    pose proof (need_len_pos r) as Hpos.
    assert (Hbuf : exists c buf,
              fileContents (nd_file s) = c /\ needed_frame k c
              /\ (replacedSections (nd_file s) !! ".dynstr" = Some buf
                  \/ (replacedSections (nd_file s) !! ".dynstr" = None
                      /\ findSectionHeader ".dynstr" (nd_file s) = Done shdrDynStr
                      /\ mem_read (fileContents (nd_file s)) strTab size = Done buf))
              /\ Z.of_nat (length buf) = size + nd_bytes s
              /\ take (Z.to_nat size) buf = content
              /\ strings_added (nd_added s) (nd_bytes s) buf
              /\ with_changed true
                   (with_replacedSections
                      (<[".dynstr" := buf ++ list_byte_of_string r ++ [x00]]>
                         (replacedSections (nd_file s))) (nd_file s))
                 = rewritten_file c (buf ++ list_byte_of_string r ++ [x00])
              /\ (forall j d', 0 <= j < k ->
                    dyn_tag_word (entry j) st = Done DT_NEEDED ->
                    dyn_val (entry j) st = Done d' ->
                    match replacement_for libs (dynstr_name content d') with
                    | Some r' => exists off', nd_added s !! r' = Some off'
                                   /\ dyn_val (entry j) (with_fileContents c st) = Done off'
                    | None => dyn_val (entry j) (with_fileContents c st) = Done d'
                    end)).
    { destruct Hstate as [(H1 & H2 & H3 & H4) | (c & buf & H1 & H2 & H3 & H4 & H5 & H6)].
      - exists (fileContents st), content. rewrite H1.
        pose proof (mem_read_Done _ _ _ _ Hcontent) as (_ & _ & _ & Hc).
        assert (Hcl : length content = Z.to_nat size)
          by (rewrite Hc, length_take, length_drop; lia).
        split; [reflexivity |]. split; [apply needed_frame_refl |].
        split; [right; auto |]. split; [lia |].
        split; [apply take_ge; lia |].
        split; [intros r' off' Hr'; rewrite H2, lookup_empty in Hr'; discriminate |].
        split; [reflexivity |].
        intros j d' Hj Hj1 Hj2. rewrite (H4 j d' Hj Hj1 Hj2). exact Hj2.
      - exists c, buf. rewrite H1.
        split; [reflexivity |]. split; [exact H2 |].
        split; [left; simpl; apply lookup_insert_eq |].
        split; [exact H3 |]. split; [exact H4 |]. split; [exact H5 |].
        split.
        { unfold rewritten_file, with_changed, with_replacedSections, with_fileContents.
          simpl. rewrite insert_insert_eq. reflexivity. }
        intros j d' Hj Hj1 Hj2. specialize (H6 j d' Hj Hj1 Hj2). rewrite H1 in H6. exact H6. }
    destruct Hbuf as (c & buf & Hc & Hframe & Hstart & Hblen & Htake & Hstrings & Hfile & Hbefore).
    rewrite (append_string_spec ".dynstr" shdrDynStr r s buf Hstart Hblen) by lia.
    cbn [bind].
    destruct (mem_write_in_bounds c (entry k + dyn_off_un)
                (field_bytes (littleEndian st) (Z.to_nat sizeof_Off) (size + nd_bytes s)))
      as [c' Hw].
    { lia. }
    { rewrite length_field_bytes, Z2Nat.id by lia. destruct Hframe as [-> _]. lia. }
    unfold dyn_set. cbn [nd_file fileContents littleEndian with_replacedSections].
    rewrite Hc, Hle, Hw. cbn [bind].
    eexists _, false. split; [reflexivity |].
    assert (Hstate' :
      with_nd_file
        (with_changed true
           (with_fileContents c'
              (with_replacedSections
                 (<[".dynstr" := buf ++ list_byte_of_string r ++ [x00]]>
                    (replacedSections (nd_file s))) (nd_file s))))
        (mkNeeded
           (with_replacedSections
              (<[".dynstr" := buf ++ list_byte_of_string r ++ [x00]]>
                 (replacedSections (nd_file s))) (nd_file s))
           (<[r := size + nd_bytes s]> (nd_added s)) (nd_bytes s + need_len r)
           (nd_verNeedNum s))
      = mkNeeded (rewritten_file c' (buf ++ list_byte_of_string r ++ [x00]))
          (<[r := size + nd_bytes s]> (nd_added s)) (nd_bytes s + need_len r)
          (nd_verNeedNum s)).
    { unfold with_nd_file. simpl. f_equal.
      change (rewritten_file c' (buf ++ list_byte_of_string r ++ [x00]))
        with (with_fileContents c'
                (rewritten_file c (buf ++ list_byte_of_string r ++ [x00]))).
      rewrite <- Hfile. reflexivity. }
    rewrite Hstate'.
    assert (Hxlen : length (list_byte_of_string r ++ [x00]) = Z.to_nat (need_len r)).
    { rewrite length_app, length_bytes_of_string. unfold need_len. simpl. lia. }
    apply (needed_inv_rewrite k c c' _ _ _ _ d (size + nd_bytes s) r); try assumption.
    + apply lookup_insert_eq.
    + rewrite length_app, Hxlen. lia.
    + rewrite take_app_le by lia. exact Htake.
    + intros r' off' Hr'. destruct (decide (r' = r)) as [-> | Hnr].
      * rewrite lookup_insert_eq in Hr'. injection Hr' as <-.
        split; [lia |]. split; [lia |].
        replace (Z.to_nat (size + nd_bytes s)) with (length buf) by lia.
        rewrite drop_app_length. rewrite <- Hxlen. apply take_ge. lia.
      * rewrite lookup_insert_ne in Hr' by congruence.
        destruct (Hstrings r' off' Hr') as (S1 & S2 & S3).
        pose proof (need_len_pos r').
        split; [lia |]. split; [lia |].
        rewrite drop_app_le by lia. rewrite take_app_le; [exact S3 |].
        rewrite length_drop. lia.
    + intros j d' Hj Hj1 Hj2. specialize (Hbefore j d' Hj Hj1 Hj2).
      destruct (replacement_for libs (dynstr_name content d')) as [r' |]; [| exact Hbefore].
      destruct Hbefore as (off' & Ho1 & Ho2). exists off'. split; [| exact Ho2].
      rewrite lookup_insert_ne; [exact Ho1 |]. intros ->. congruence.
    + lia.
Qed.

(** The first loop of [replaceNeeded] runs through the entries before
    the DT_NULL one and keeps the invariant. *)
Lemma needed_loop_inv (fuel : nat) :
  forall k s, 0 <= k <= n -> n - k <= Z.of_nat fuel -> needed_inv k s ->
    exists s', needed_loop fuel libs shdrDynStr strTab (entry k) s = Done s'
               /\ needed_inv n s'.
Proof.
  pose proof layout_facts as (L1 & L2 & L3 & L4 & L5 & L6).
  induction fuel as [| fuel IH]; intros k s Hk Hfuel Hinv;
    pose proof (needed_inv_reads k s Hk Hinv) as (Hlen & Hle & Hsec & Htagr & Hvalr).
  - assert (k = n) by lia. subst k. simpl.
    rewrite (Htagr n ltac:(lia)), Hend. cbn [bind]. change (DT_NULL =? DT_NULL) with true.
    cbv iota. exists s. split; [reflexivity | exact Hinv].
  - cbn [needed_loop]. rewrite (Htagr k ltac:(lia)).
    destruct (Z.eq_dec k n) as [-> | Hkn].
    { rewrite Hend. cbn [bind]. change (DT_NULL =? DT_NULL) with true.
      cbv iota. exists s. split; [reflexivity | exact Hinv]. }
    destruct (Htags k ltac:(lia)) as (tag & Htag & Hnz & Hneeded).
    rewrite Htag. cbn [bind].
    destruct (Z.eqb_spec tag DT_NULL) as [| _]; [contradiction |].
    replace (entry k + sizeof_Dyn) with (entry (k + 1)) by (unfold dyn_entry; lia).
    destruct (Z.eqb_spec tag DT_NEEDED) as [-> | Hnn].
    + destruct (needed_entry_inv k s ltac:(lia) Hinv Htag) as (s1 & cont & Hrun & Hinv1).
      rewrite Hrun. cbn [bind].
      pose proof (needed_inv_reads (k + 1) s1 ltac:(lia) Hinv1) as (_ & _ & _ & Htag1 & _).
      assert (Hnext : (if cont then ret s1 else
                       d_tag <- dyn_tag_word (entry k) (nd_file s1);;
                       if d_tag =? DT_VERNEEDNUM then
                         d_val <- dyn_val (entry k) (nd_file s1);;
                         ret (mkNeeded (nd_file s1) (nd_added s1) (nd_bytes s1) (u32 d_val))
                       else ret s1) = Done s1).
      { destruct cont; [reflexivity |].
        rewrite (Htag1 k ltac:(lia)), Htag. reflexivity. }
      rewrite Hnext. cbn [bind].
      apply (IH (k + 1) s1); [lia | lia | exact Hinv1].
    + cbn [bind ret]. rewrite (Htagr k ltac:(lia)), Htag. cbn [bind].
      destruct (entry_in_file k ltac:(lia)) as [Hlo Hhi].
      destruct (Z.eqb_spec tag DT_VERNEEDNUM) as [-> | Hnv].
      * unfold dyn_val at 1.
        rewrite mem_read_in_bounds by (rewrite ?Hlen; lia). cbn [bind].
        apply (IH (k + 1)); [lia | lia |].
        eapply needed_inv_skip; [lia | exact Hinv | exact Htag | exact Hnn | congruence].
      * cbn [bind]. apply (IH (k + 1)); [lia | lia |].
        replace s with (mkNeeded (nd_file s) (nd_added s) (nd_bytes s) (nd_verNeedNum s))
          by (destruct s; reflexivity).
        eapply needed_inv_skip; [lia | | exact Htag | exact Hnn | reflexivity].
        destruct s; exact Hinv.
Qed.

End NeededLoop.

(** The walk of [replaceNeeded] over the dynamic table, for an object
    without pending edit of [.dynstr] whose string table ends with a NUL
    and lies apart from the dynamic table, whose DT_NEEDED entries point
    into the string table, which has no DT_VERNEEDNUM entry and [n] entries
    before the DT_NULL one, the replacements fitting with the table in 4 GiB:
    the walk returns; every DT_NEEDED entry whose name has a replacement
    that differs from it now holds the offset of that replacement, which
    stands NUL-terminated behind the old table in the pending edit of
    [.dynstr]; every other one keeps its value; the tags, the headers and
    the size of the file stay, and with no name to replace the object is
    left as it was. *)
Theorem replaceNeeded_rewrites_entries (libs : gmap string string) (st : ElfFile)
    (shdrDynamic shdrDynStr : Elf_Shdr) (content : list byte) (n : Z) :
  findSectionHeader ".dynamic" st = Done shdrDynamic ->
  findSectionHeader ".dynstr" st = Done shdrDynStr ->
  mem_read (fileContents st) (sh_offset shdrDynStr) (sh_size shdrDynStr) = Done content ->
  last content = Some x00 ->
  replacedSections st !! ".dynstr" = None ->
  0 <= sh_offset shdrDynamic /\ 0 <= n
  /\ sh_offset shdrDynamic + (n + 1) * sizeof_Dyn <= Z.of_nat (length (fileContents st)) ->
  apart (sh_offset shdrDynStr) (sh_offset shdrDynStr + sh_size shdrDynStr)
    (sh_offset shdrDynamic) ((n + 1) * sizeof_Dyn) ->
  sh_size shdrDynStr + total_len libs < 2 ^ 32 ->
  (forall j, 0 <= j < n ->
     exists tag, dyn_tag_word (dyn_entry (sh_offset shdrDynamic) j) st = Done tag
       /\ tag <> DT_NULL /\ tag <> DT_VERNEEDNUM
       /\ (tag = DT_NEEDED ->
           exists d, dyn_val (dyn_entry (sh_offset shdrDynamic) j) st = Done d
                     /\ 0 <= d < sh_size shdrDynStr)) ->
  dyn_tag_word (dyn_entry (sh_offset shdrDynamic) n) st = Done DT_NULL ->
  exists st',
    replaceNeeded_edits libs st = Done st'
    /\ (forall j d, 0 <= j < n ->
          dyn_tag_word (dyn_entry (sh_offset shdrDynamic) j) st = Done DT_NEEDED ->
          dyn_val (dyn_entry (sh_offset shdrDynamic) j) st = Done d ->
          match replacement_for libs (dynstr_name content d) with
          | Some r =>
              exists off buf,
                dyn_val (dyn_entry (sh_offset shdrDynamic) j) st' = Done off
                /\ replacedSections st' !! ".dynstr" = Some buf
                /\ take (Z.to_nat (sh_size shdrDynStr)) buf = content
                /\ sh_size shdrDynStr <= off
                /\ take (Z.to_nat (need_len r)) (drop (Z.to_nat off) buf)
                   = list_byte_of_string r ++ [x00]
                /\ changed st' = true
          | None => dyn_val (dyn_entry (sh_offset shdrDynamic) j) st' = Done d
          end)
    /\ (forall j, 0 <= j <= n ->
          dyn_tag_word (dyn_entry (sh_offset shdrDynamic) j) st'
          = dyn_tag_word (dyn_entry (sh_offset shdrDynamic) j) st)
    /\ ((forall j d, 0 <= j < n ->
           dyn_tag_word (dyn_entry (sh_offset shdrDynamic) j) st = Done DT_NEEDED ->
           dyn_val (dyn_entry (sh_offset shdrDynamic) j) st = Done d ->
           replacement_for libs (dynstr_name content d) = None) -> st' = st)
    /\ shdrs st' = shdrs st /\ phdrs st' = phdrs st
    /\ length (fileContents st') = length (fileContents st)
    /\ (forall other, other <> ".dynstr" ->
          replacedSections st' !! other = replacedSections st !! other).
Proof.
  intros Hdyn Hstr Hcontent Hnul Hnone Htable Hapart Hsize Htags Hend.
  assert (Htags' : forall j, 0 <= j < n ->
            exists tag, dyn_tag_word (dyn_entry (sh_offset shdrDynamic) j) st = Done tag
              /\ tag <> DT_NULL
              /\ (tag = DT_NEEDED ->
                  exists d, dyn_val (dyn_entry (sh_offset shdrDynamic) j) st = Done d
                            /\ 0 <= d < sh_size shdrDynStr)).
  { intros j Hj. destruct (Htags j Hj) as (tag & H1 & H2 & _ & H3). eauto. }
  destruct Htable as (T1 & T2 & T3).
  destruct (needed_loop_inv libs st shdrDynStr content (sh_offset shdrDynamic) n
              Hstr Hcontent Hnul Hnone (conj T1 (conj T2 T3)) Hapart Hsize Htags' Hend
              (length (fileContents st)) 0 (mkNeeded st ∅ 0 0))
    as (s' & Hrun & Hinv).
  { lia. }
  { pose proof sizeof_Dyn_Off as [L2 _]. destruct sizeof_Off_cases; nia. }
  { apply needed_inv_start. }
  pose proof (needed_inv_reads libs st shdrDynStr content (sh_offset shdrDynamic) n
                Hcontent (conj T1 (conj T2 T3)) Hapart n s' ltac:(lia) Hinv)
    as (Hlen & _ & _ & Htagr & _).
  destruct Hinv as [Hstate _ Hver Hrepl].
  assert (Hv : nd_verNeedNum s' = 0).
  { apply Hver. intros j Hj. destruct (Htags j Hj) as (tag & H1 & _ & H2 & _). congruence. }
  exists (nd_file s'). split.
  { unfold replaceNeeded_edits. rewrite Hdyn, Hstr. cbn [bind].
    unfold dyn_entry in Hrun. rewrite Z.mul_0_l, Z.add_0_r in Hrun.
    rewrite Hrun. cbn [bind]. rewrite Hv. reflexivity. }
  split.
  { intros j d Hj Hj1 Hj2.
    destruct Hstate as [(H1 & _ & _ & H4) | (c & buf & H1 & H2 & H3 & H4 & H5 & H6)].
    - rewrite (H4 j d Hj Hj1 Hj2), H1. exact Hj2.
    - specialize (H6 j d Hj Hj1 Hj2).
      destruct (replacement_for libs (dynstr_name content d)) as [r |]; [| exact H6].
      destruct H6 as (off & Ho1 & Ho2). destruct (H5 r off Ho1) as (S1 & _ & S3).
      exists off, buf. split; [exact Ho2 |]. rewrite H1.
      split; [simpl; apply lookup_insert_eq |]. split; [exact H4 |].
      split; [exact S1 |]. split; [exact S3 | reflexivity]. }
  split; [exact Htagr |].
  split.
  { intros Hall. destruct Hrepl as [Hsame | (j & d & Hj & Hj1 & Hj2 & Hj3)]; [exact Hsame |].
    contradiction Hj3. apply (Hall j d Hj Hj1 Hj2). }
  destruct Hstate as [(H1 & _) | (c & buf & H1 & _)]; rewrite H1 in *.
  - repeat split; reflexivity.
  - split; [reflexivity |]. split; [reflexivity |]. split; [exact Hlen |].
    intros other Hne. simpl. apply lookup_insert_ne. congruence.
Qed.

(** [replaceNeeded] with nothing to replace.  The object has no pending
    edit and is not marked changed; its dynamic table has [n] entries before
    the DT_NULL one, none of them DT_VERNEEDNUM (so that the walk over the
    version needs does not run), and lies in the file apart from [.dynstr],
    which ends with a NUL; the DT_NEEDED entries point into [.dynstr], the
    names they point to have no replacement in the map that differs from
    them, and the strings of the map fit with [.dynstr] in 4 GiB.  Then
    [replaceNeeded] leaves the object as it is, the commit at its end has
    nothing to do, and [patchElf2] writes the bytes of the file as they
    were read. *)
Theorem patchElf2_nothing_to_replace (fuel : nat) (libs : gmap string string) (st : ElfFile)
    (shdrDynamic shdrDynStr : Elf_Shdr) (content : list byte) (n : Z) :
  findSectionHeader ".dynamic" st = Done shdrDynamic ->
  findSectionHeader ".dynstr" st = Done shdrDynStr ->
  mem_read (fileContents st) (sh_offset shdrDynStr) (sh_size shdrDynStr) = Done content ->
  last content = Some x00 ->
  replacedSections st = ∅ -> changed st = false ->
  0 <= sh_offset shdrDynamic /\ 0 <= n
  /\ sh_offset shdrDynamic + (n + 1) * sizeof_Dyn <= Z.of_nat (length (fileContents st)) ->
  apart (sh_offset shdrDynStr) (sh_offset shdrDynStr + sh_size shdrDynStr)
    (sh_offset shdrDynamic) ((n + 1) * sizeof_Dyn) ->
  sh_size shdrDynStr + total_len libs < 2 ^ 32 ->
  (forall j, 0 <= j < n ->
     exists tag, dyn_tag_word (dyn_entry (sh_offset shdrDynamic) j) st = Done tag
       /\ tag <> DT_NULL /\ tag <> DT_VERNEEDNUM
       /\ (tag = DT_NEEDED ->
           exists d, dyn_val (dyn_entry (sh_offset shdrDynamic) j) st = Done d
                     /\ 0 <= d < sh_size shdrDynStr
                     /\ replacement_for libs (dynstr_name content d) = None)) ->
  dyn_tag_word (dyn_entry (sh_offset shdrDynamic) n) st = Done DT_NULL ->
  replaceNeeded fuel libs st = Done st
  /\ patchElf2 fuel libs st = Done (Some (fileContents st)).
Proof.
  intros Hdyn Hstr Hcontent Hnul Hempty Hchanged Htable Hapart Hsize Htags Hend.
  assert (Hrun : replaceNeeded fuel libs st = Done st).
  { unfold replaceNeeded.
    destruct (bool_decide (libs = ∅)); [reflexivity |].
    assert (Hnone : replacedSections st !! ".dynstr" = None)
      by (rewrite Hempty; apply lookup_empty).
    assert (Htags' : forall j, 0 <= j < n ->
              exists tag, dyn_tag_word (dyn_entry (sh_offset shdrDynamic) j) st = Done tag
                /\ tag <> DT_NULL
                /\ (tag = DT_NEEDED ->
                    exists d, dyn_val (dyn_entry (sh_offset shdrDynamic) j) st = Done d
                              /\ 0 <= d < sh_size shdrDynStr)).
    { intros j Hj. destruct (Htags j Hj) as (tag & H1 & H2 & _ & H3).
      exists tag. split; [exact H1 |]. split; [exact H2 |].
      intros Ht. destruct (H3 Ht) as (d & Hd & Hr & _). eauto. }
    destruct Htable as (T1 & T2 & T3).
    destruct (needed_loop_inv libs st shdrDynStr content (sh_offset shdrDynamic) n
                Hstr Hcontent Hnul Hnone (conj T1 (conj T2 T3)) Hapart Hsize Htags' Hend
                (length (fileContents st)) 0 (mkNeeded st ∅ 0 0))
      as (s' & Hloop & Hinv).
    { lia. }
    { pose proof sizeof_Dyn_Off as [L2 _]. destruct sizeof_Off_cases; nia. }
    { apply needed_inv_start. }
    destruct Hinv as [_ _ Hver Hrepl].
    assert (Hv : nd_verNeedNum s' = 0).
    { apply Hver. intros j Hj. destruct (Htags j Hj) as (tag & H1 & _ & H2 & _). congruence. }
    assert (Hsame : nd_file s' = st).
    { destruct Hrepl as [Hsame | (j & d & Hj & Hj1 & Hj2 & Hj3)]; [exact Hsame |].
      destruct (Htags j Hj) as (tag & H1 & _ & _ & H3).
      assert (tag = DT_NEEDED) by congruence.
      destruct (H3 H) as (d' & Hd' & _ & Hnone').
      assert (d' = d) by congruence. subst d'. contradiction. }
    unfold replaceNeeded_edits. rewrite Hdyn, Hstr. cbn [bind].
    unfold dyn_entry in Hloop. rewrite Z.mul_0_l, Z.add_0_r in Hloop.
    rewrite Hloop. cbn [bind]. rewrite Hv. simpl negb. cbv iota. cbn [bind ret].
    rewrite Hsame. unfold rewriteSections. rewrite Hempty. reflexivity. }
  split; [exact Hrun |].
  unfold patchElf2. rewrite Hrun. cbn [bind]. rewrite Hchanged. reflexivity.
Qed.

(** ** The shift of the file *)

(** *** Loops over a header table *)

(** A loop bounded by a header field that stays [n] under the invariant
    ends with the invariant at [n]. *)
Lemma for_header_inv {S : Type} (file : S -> ElfFile) (f : ehdr_field)
    (body : Z -> S -> outcome S) (I : Z -> S -> Prop) (n : Z) :
  (forall i s, I i s -> hdr_get f (file s) = Done n) ->
  (forall i s s', I i s -> i < n -> body i s = Done s' -> I (i + 1) s') ->
  forall fuel i s s',
    I i s -> i <= n -> for_header file f body fuel i s = Done s' -> I n s'.
Proof.
  intros Hn Hbody. induction fuel as [| fuel IH]; intros i s s' Hi Hle H; simpl in H;
    rewrite (Hn i s Hi) in H; simpl in H.
  - destruct (Z.ltb_spec i n); [bind_inv H; discriminate |].
    injection H as <-. replace n with i by lia. exact Hi.
  - destruct (Z.ltb_spec i n).
    + bind_inv H. apply (IH (i + 1) a s'); [eapply Hbody; eauto | lia | exact H].
    + injection H as <-. replace n with i by lia. exact Hi.
Qed.

(** *** Fields of the ELF header *)

Lemma ehdr_fields_apart (f g : ehdr_field) :
  f <> g ->
  ehdr_offset f + ehdr_size f <= ehdr_offset g
  \/ ehdr_offset g + ehdr_size g <= ehdr_offset f.
Proof.
  unfold ehdr_offset, ehdr_size, sizeof_Off.
  destruct ElfClass, f, g; intros H; first [congruence | lia].
Qed.

Lemma hdr_get_other (f g : ehdr_field) (v : Z) (st st' : ElfFile) :
  f <> g -> hdr_set g v st = Done st' -> hdr_get f st' = hdr_get f st.
Proof.
  intros Hne H. unfold hdr_set in H. done_inv H. subst st'.
  unfold hdr_get. simpl.
  rewrite (mem_read_apart _ _ _ _ (ehdr_offset f) (ehdr_size f) Ha); [reflexivity |].
  rewrite length_field_bytes.
  pose proof (ehdr_field_in_header g) as (_ & Hg & _).
  pose proof (ehdr_fields_apart f g Hne). lia.
Qed.

Lemma hdr_get_same (f : ehdr_field) (v : Z) (st st' : ElfFile) :
  hdr_set f v st = Done st' -> hdr_get f st' = Done (wrap (8 * ehdr_size f) v).
Proof.
  intros H. unfold hdr_set in H. done_inv H. subst st'.
  pose proof (ehdr_field_in_header f) as (_ & Hf & _).
  apply mem_read_written in Ha. rewrite length_field_bytes, Z2Nat.id in Ha by lia.
  unfold hdr_get. simpl. rewrite Ha. simpl.
  rewrite rdi_field_bytes, Z2Nat.id by lia. reflexivity.
Qed.

(** A write to a header field replaces the file contents by ones of the
    same size that differ inside the ELF header only. *)
Lemma hdr_set_tail (f : ehdr_field) (v : Z) (st st' : ElfFile) :
  hdr_set f v st = Done st' ->
  exists c', st' = with_fileContents c' st
    /\ length c' = length (fileContents st)
    /\ drop (Z.to_nat sizeof_Ehdr) c' = drop (Z.to_nat sizeof_Ehdr) (fileContents st).
Proof.
  intros H. unfold hdr_set in H. done_inv H. subst st'. exists a.
  split; [reflexivity |]. split; [eapply mem_write_length, Ha |].
  pose proof (ehdr_field_in_header f) as (Hf0 & Hf1 & Hf2).
  apply mem_write_Done in Ha as (H0 & H1 & ->).
  rewrite length_field_bytes in *.
  rewrite app_assoc, drop_app_ge by (rewrite length_app, length_take, length_field_bytes; lia).
  rewrite drop_drop. f_equal.
  rewrite length_app, length_take, length_field_bytes. lia.
Qed.

(** A read inside a prefix that two buffers share. *)
Lemma mem_read_prefix (c c' : list byte) (N off n : Z) :
  take (Z.to_nat N) c = take (Z.to_nat N) c' ->
  N <= Z.of_nat (length c) -> N <= Z.of_nat (length c') -> off + n <= N ->
  mem_read c off n = mem_read c' off n.
Proof.
  intros Heq Hc Hc' Hin. unfold mem_read.
  destruct (Z.leb_spec 0 off); simpl; [| reflexivity].
  destruct (Z.leb_spec 0 n); simpl; [| reflexivity].
  destruct (Z.leb_spec (off + n) (Z.of_nat (length c))); [| lia].
  destruct (Z.leb_spec (off + n) (Z.of_nat (length c'))); [| lia].
  f_equal. rewrite !take_drop_commute. f_equal.
  replace (Z.to_nat off + Z.to_nat n)%nat
    with (Nat.min (Z.to_nat off + Z.to_nat n) (Z.to_nat N)) by lia.
  rewrite <- !take_take, Heq. reflexivity.
Qed.

Lemma hdr_get_prefix (f : ehdr_field) (st st' : ElfFile) :
  take (Z.to_nat sizeof_Ehdr) (fileContents st') = take (Z.to_nat sizeof_Ehdr) (fileContents st) ->
  sizeof_Ehdr <= Z.of_nat (length (fileContents st)) ->
  sizeof_Ehdr <= Z.of_nat (length (fileContents st')) ->
  littleEndian st' = littleEndian st ->
  hdr_get f st' = hdr_get f st.
Proof.
  intros Heq Hc Hc' Hle. unfold hdr_get. rewrite Hle.
  pose proof (ehdr_field_in_header f) as (_ & _ & Hf).
  rewrite (mem_read_prefix _ _ sizeof_Ehdr _ _ Heq Hc' Hc Hf). reflexivity.
Qed.

(** *** The move of the contents *)

Lemma u64_le (x : Z) : 0 <= x -> u64 x <= x.
Proof. intros H. unfold u64, wrap. apply Z.mod_le; lia. Qed.

(** The four steps on the byte vector: resize, copy the tail up, clear
    the gap. *)
Lemma shift_contents (c : list byte) (startOffset shift : Z) (c1 moved c2 c3 : list byte) :
  0 <= startOffset < Z.of_nat (length c) -> 0 <= shift ->
  vec_resize (u64 (Z.of_nat (length c) + shift)) c = Done c1 ->
  mem_read c1 startOffset (Z.of_nat (length c) - startOffset) = Done moved ->
  mem_write c1 (startOffset + shift) moved = Done c2 ->
  mem_set c2 startOffset x00 shift = Done c3 ->
  c3 = take (Z.to_nat startOffset) c ++ replicate (Z.to_nat shift) x00
       ++ drop (Z.to_nat startOffset) c.
Proof.
  intros Hso Hshift H1 H2 H3 H4.
  unfold vec_resize in H1. destruct (2 ^ 63 <=? _); [discriminate |]. injection H1 as <-.
  apply mem_read_Done in H2 as (_ & _ & Hfit & ->).
  rewrite length_resize in Hfit.
  pose proof (u64_le (Z.of_nat (length c) + shift) ltac:(lia)) as Hu.
  apply mem_write_Done in H3 as (_ & Hfit2 & ->).
  rewrite length_take, length_drop, !length_resize in Hfit2.
  assert (Hn : u64 (Z.of_nat (length c) + shift) = Z.of_nat (length c) + shift) by lia.
  rewrite Hn in *. clear Hu Hn.
  replace (Z.to_nat (Z.of_nat (length c) + shift))
    with (length c + Z.to_nat shift)%nat in * by lia.
  rewrite resize_add_eq in * by reflexivity.
  assert (Hmoved : take (Z.to_nat (Z.of_nat (length c) - startOffset))
                     (drop (Z.to_nat startOffset) (c ++ replicate (Z.to_nat shift) x00))
                   = drop (Z.to_nat startOffset) c).
  { rewrite drop_app_le by lia. apply take_app_length'. rewrite length_drop. lia. }
  rewrite Hmoved in *.
  unfold mem_set in H4.
  destruct (0 <=? startOffset); simpl in H4; [| discriminate].
  destruct (0 <=? shift); simpl in H4; [| discriminate].
  destruct (_ <=? _) in H4; [| discriminate]. injection H4 as <-.
  assert (Hhead : length (take (Z.to_nat (startOffset + shift))
                            (c ++ replicate (Z.to_nat shift) x00))
                  = Z.to_nat (startOffset + shift))
    by (rewrite length_take, length_app, length_replicate; lia).
  f_equal.
  - rewrite take_app_le by lia. rewrite take_take, take_app_le by lia. f_equal. lia.
  - f_equal. rewrite drop_app_length' by (symmetry; exact Hhead).
    rewrite (drop_ge (c ++ _)) by (rewrite length_app, length_replicate, length_drop; lia).
    apply app_nil_r.
Qed.

(** *** The loop over the section headers *)

(** The header of section [k] once the loop has handled the sections
    before [i]. *)
Definition shift_section (startOffset shift i : Z) (k : nat) (s : Elf_Shdr) : Elf_Shdr :=
  if bool_decide (1 <= Z.of_nat k < i /\ startOffset <= sh_offset s)
  then with_sh_offset (to_addr (sh_offset s + shift)) s else s.

Lemma shift_section_next (startOffset shift i : Z) (k : nat) (s : Elf_Shdr) :
  Z.of_nat k <> i ->
  shift_section startOffset shift (i + 1) k s = shift_section startOffset shift i k s.
Proof.
  intros Hne. unfold shift_section.
  rewrite (bool_decide_ext (1 <= Z.of_nat k < i + 1 /\ startOffset <= sh_offset s)
             (1 <= Z.of_nat k < i /\ startOffset <= sh_offset s)) by lia.
  reflexivity.
Qed.

Lemma shift_shdrs_spec (startOffset shift : Z) (st st' : ElfFile) (shnum : Z) :
  hdr_get e_shnum st = Done shnum ->
  for_shnum 1 (shift_shdr startOffset shift) st = Done st' ->
  exists L, st' = with_shdrs L st
    /\ forall k, L !! k = shift_section startOffset shift shnum k <$> shdrs st !! k.
Proof.
  intros Hn H.
  destruct (Z.lt_ge_cases shnum 1) as [Hsmall | Hbig].
  { exists (shdrs st). unfold for_shnum in H.
    assert (Hst : st' = st).
    { destruct (length (shdrs st)); simpl in H; unfold id in H; rewrite Hn in H; simpl in H;
        (destruct (Z.ltb_spec 1 shnum); [lia |]); injection H as <-; reflexivity. }
    subst st'. split; [destruct st; reflexivity |].
    intros k. destruct (shdrs st !! k) as [s |]; [| reflexivity]. simpl. f_equal.
    unfold shift_section. rewrite bool_decide_eq_false_2 by lia. reflexivity. }
  pose (I := fun (i : Z) (s : ElfFile) =>
               1 <= i /\ exists L, s = with_shdrs L st
                 /\ forall k, L !! k = shift_section startOffset shift i k <$> shdrs st !! k).
  assert (Hend : I shnum st'); [| destruct Hend as [_ Hend]; exact Hend].
  unfold for_shnum in H.
  apply (for_header_inv id e_shnum (shift_shdr startOffset shift) I shnum) with (5 := H).
  - intros i s (_ & L & -> & _). exact Hn.
  - intros i s s' (Hi & L & -> & HL) Hlt Hbody. split; [lia |].
    unfold shift_shdr in Hbody. bind_inv Hbody. simpl in Ha.
    unfold vec_at in Ha. destruct (Z.leb_spec 0 i); [| lia].
    destruct (L !! Z.to_nat i) as [shdr |] eqn:Hshdr; [| discriminate]. injection Ha as <-.
    pose proof (HL (Z.to_nat i)) as Horig. rewrite Hshdr in Horig.
    destruct (shdrs st !! Z.to_nat i) as [orig |] eqn:Eorig; [| discriminate].
    simpl in Horig. injection Horig as Horig.
    unfold shift_section in Horig. rewrite bool_decide_eq_false_2 in Horig by lia.
    subst shdr.
    destruct (Z.leb_spec startOffset (sh_offset orig)) as [Hmove | Hstay];
      injection Hbody as <-.
    + exists (<[Z.to_nat i := with_sh_offset (wri_a (sh_offset orig + shift)) orig]> L).
      split; [reflexivity |]. intros k.
      destruct (decide (k = Z.to_nat i)) as [-> | Hne].
      * rewrite list_lookup_insert_eq by (apply lookup_lt_is_Some; eauto).
        rewrite Eorig. simpl. f_equal. unfold shift_section.
        rewrite bool_decide_eq_true_2 by lia. reflexivity.
      * rewrite list_lookup_insert_ne by congruence. rewrite HL.
        destruct (shdrs st !! k); [| reflexivity]. simpl. f_equal.
        symmetry. apply shift_section_next. lia.
    + exists L. split; [reflexivity |]. intros k. rewrite HL.
      destruct (shdrs st !! k) as [s |] eqn:Es; [| reflexivity]. simpl. f_equal.
      destruct (decide (Z.of_nat k = i)) as [Hk | Hne];
        [| symmetry; apply shift_section_next; exact Hne].
      replace k with (Z.to_nat i) in Es by lia. rewrite Eorig in Es. injection Es as <-.
      unfold shift_section. rewrite !bool_decide_eq_false_2 by lia. reflexivity.
  - split; [lia |]. exists (shdrs st). split; [destruct st; reflexivity |].
    intros k. destruct (shdrs st !! k) as [s |]; [| reflexivity]. simpl. f_equal.
    unfold shift_section. rewrite bool_decide_eq_false_2 by lia. reflexivity.
  - exact Hbig.
Qed.

(** *** Arithmetic modulo the width of an address *)

Lemma addr_modulus_pos : 0 < 2 ^ addr_bits.
Proof. apply Z.pow_pos_nonneg; destruct addr_bits_cases; lia. Qed.

Lemma to_addr_congr (a b k : Z) : a = b + k * 2 ^ addr_bits -> to_addr a = to_addr b.
Proof.
  intros ->. unfold to_addr, wrap. apply Z.mod_add. pose proof addr_modulus_pos. lia.
Qed.

Lemma to_addr_repr (x : Z) : exists k, to_addr x = x + k * 2 ^ addr_bits.
Proof.
  exists (- (x / 2 ^ addr_bits)). unfold to_addr, wrap.
  pose proof addr_modulus_pos. rewrite Z.mod_eq by lia. ring.
Qed.

Lemma u64_repr (x : Z) : exists k, u64 x = x + k * 2 ^ addr_bits.
Proof.
  exists (- (x / 2 ^ 64) * 2 ^ (64 - addr_bits)). unfold u64, wrap.
  rewrite Z.mod_eq by lia.
  replace (2 ^ 64) with (2 ^ (64 - addr_bits) * 2 ^ addr_bits) at 1
    by (rewrite <- Z.pow_add_r by (destruct addr_bits_cases; lia); f_equal; lia).
  ring.
Qed.

(** *** The loop over the program headers *)

(** The test of the loop for the PT_LOAD segment that [startOffset] lies
    in. *)
Definition covers (startOffset : Z) (ph : Elf_Phdr) : bool :=
  (p_offset ph <=? startOffset) && (startOffset <? to_addr (p_offset ph + p_filesz ph))
  && (p_type ph =? PT_LOAD).

(** What the loop makes of a program header [ph]: the segment that
    [startOffset] lies in starts at its new place and loses its part before
    [startOffset]; a segment from [startOffset] on moves with the contents;
    a segment before it moves down in memory where its addresses allow. *)
Record phdr_shifted (startOffset shift : Z) (ph ph' : Elf_Phdr) : Prop := mkPhdrShifted {
  shifted_type : p_type ph' = p_type ph;
  shifted_flags : p_flags ph' = p_flags ph;
  shifted_split : covers startOffset ph = true ->
    p_offset ph' = to_addr (startOffset + shift)
    /\ p_filesz ph' = to_addr (p_filesz ph - (startOffset - p_offset ph))
    /\ p_memsz ph' = to_addr (p_memsz ph - (startOffset - p_offset ph))
    /\ p_vaddr ph' = to_addr (p_vaddr ph + (startOffset - p_offset ph))
    /\ p_paddr ph' = to_addr (p_paddr ph + (startOffset - p_offset ph));
  shifted_after : covers startOffset ph = false -> startOffset <= p_offset ph ->
    p_offset ph' = to_addr (p_offset ph + shift)
    /\ p_filesz ph' = p_filesz ph /\ p_memsz ph' = p_memsz ph
    /\ p_vaddr ph' = p_vaddr ph /\ p_paddr ph' = p_paddr ph;
  shifted_before : covers startOffset ph = false -> p_offset ph < startOffset ->
    p_offset ph' = p_offset ph
    /\ p_filesz ph' = p_filesz ph /\ p_memsz ph' = p_memsz ph
    /\ p_vaddr ph' = (if shift <=? p_vaddr ph then to_addr (p_vaddr ph - shift)
                      else p_vaddr ph)
    /\ p_paddr ph' = (if shift <=? p_paddr ph then to_addr (p_paddr ph - shift)
                      else p_paddr ph) }.

Lemma shift_phdr_Done (startOffset shift i : Z) (s s' : shift_state) :
  0 <= startOffset -> shift_phdr startOffset shift i s = Done s' ->
  exists ph ph',
    vec_at (phdrs (shift_file s)) i = Done ph
    /\ shift_file s' = set_phdr i ph' (shift_file s)
    /\ phdr_shifted startOffset shift ph ph'
    /\ (if covers startOffset ph
        then splitIndex s = -1 /\ splitIndex s' = i
             /\ splitShift s' = u64 (startOffset - p_offset ph)
        else splitIndex s' = splitIndex s /\ splitShift s' = splitShift s).
Proof.
  intros Hso H. unfold shift_phdr in H. bind_inv H. rename a into ph. exists ph.
  change ((p_offset ph <=? startOffset)
          && (startOffset <? to_addr (p_offset ph + p_filesz ph))
          && (p_type ph =? PT_LOAD)) with (covers startOffset ph) in H.
  unfold wri_a in H.
  destruct (covers startOffset ph) eqn:Hc.
  - bind_inv H. bind_inv Ha0. apply assert_Done, Z.eqb_eq in Ha1. injection Ha0 as <-.
    pose proof Hc as Hc'. unfold covers in Hc'.
    apply andb_prop in Hc' as [Hc' Ht]. apply andb_prop in Hc' as [Hc1 Hc2].
    apply Z.leb_le in Hc1. apply Z.ltb_lt in Hc2. apply Z.eqb_eq in Ht.
    assert (Hid : to_addr startOffset = startOffset).
    { apply to_addr_small. pose proof (wrap_range addr_bits (p_offset ph + p_filesz ph)
        ltac:(destruct addr_bits_cases; lia)). unfold to_addr in Hc2. lia. }
    rewrite Hid in H. destruct (Z.leb_spec startOffset startOffset); [| lia].
    destruct ph as [t fl off va pa fs ms al]. simpl in *.
    bind_inv H. injection H as <-.
    destruct (u64_repr (startOffset - off)) as [k Hk].
    assert (Hph : exists al',
              a = mkPhdr t fl (to_addr (startOffset + shift))
                    (to_addr (va + (startOffset - off))) (to_addr (pa + (startOffset - off)))
                    (to_addr (fs - (startOffset - off))) (to_addr (ms - (startOffset - off)))
                    al').
    { rewrite (to_addr_congr (va + u64 (startOffset - off)) (va + (startOffset - off)) k)
        in Ha0 by (rewrite Hk; ring).
      rewrite (to_addr_congr (pa + u64 (startOffset - off)) (pa + (startOffset - off)) k)
        in Ha0 by (rewrite Hk; ring).
      rewrite (to_addr_congr (fs - u64 (startOffset - off)) (fs - (startOffset - off)) (- k))
        in Ha0 by (rewrite Hk; ring).
      rewrite (to_addr_congr (ms - u64 (startOffset - off)) (ms - (startOffset - off)) (- k))
        in Ha0 by (rewrite Hk; ring).
      destruct (_ && _) in Ha0; [bind_inv Ha0 |]; injection Ha0 as <-; eexists; reflexivity. }
    destruct Hph as (al' & ->). eexists.
    split; [exact Ha |]. split; [reflexivity |]. split.
    + split; simpl; try reflexivity.
      * intros _. repeat split; reflexivity.
      * intros Hn. rewrite Hc in Hn. discriminate Hn.
      * intros Hn. rewrite Hc in Hn. discriminate Hn.
    + repeat split; first [exact Ha1 | reflexivity].
  - simpl in H. bind_inv H. injection H as <-. exists a.
    split; [exact Ha |]. split; [reflexivity |]. split; [| split; reflexivity].
    destruct ph as [t fl off va pa fs ms al]. simpl in *.
    destruct (Z.leb_spec startOffset off) as [Hafter | Hbefore].
    + assert (Hph : exists al', a = mkPhdr t fl (to_addr (off + shift)) va pa fs ms al').
      { destruct (_ && _) in Ha0; [bind_inv Ha0 |]; injection Ha0 as <-; eexists; reflexivity. }
      destruct Hph as (al' & ->).
      split; simpl; try reflexivity.
      * intros Hn. rewrite Hc in Hn. discriminate Hn.
      * intros _ _. repeat split; reflexivity.
      * intros _ Hlt. lia.
    + injection Ha0 as <-.
      split; simpl.
      * destruct (shift <=? pa); simpl; destruct (shift <=? va); reflexivity.
      * destruct (shift <=? pa); simpl; destruct (shift <=? va); reflexivity.
      * intros Hn. rewrite Hc in Hn. discriminate Hn.
      * intros _ Hle. lia.
      * intros _ _.
        destruct (shift <=? pa); simpl; destruct (shift <=? va); repeat split; reflexivity.
Qed.

(** What the loop has found once it has handled the program headers
    before [i]: no segment that [startOffset] lies in, or exactly one. *)
Definition split_found (startOffset : Z) (orig : list Elf_Phdr) (i : Z) (s : shift_state)
    : Prop :=
  (splitIndex s = -1
   /\ forall k ph, Z.of_nat k < i -> orig !! k = Some ph -> covers startOffset ph = false)
  \/ exists ph,
       0 <= splitIndex s < i /\ orig !! Z.to_nat (splitIndex s) = Some ph
       /\ covers startOffset ph = true
       /\ splitShift s = u64 (startOffset - p_offset ph)
       /\ forall k ph2, Z.of_nat k < i -> orig !! k = Some ph2 ->
            covers startOffset ph2 = true -> Z.of_nat k = splitIndex s.

Definition phdrs_shifted (startOffset shift : Z) (st : ElfFile) (i : Z) (s : shift_state)
    : Prop :=
  exists P,
    shift_file s = with_phdrs P st
    /\ length P = length (phdrs st)
    /\ (forall k, i <= Z.of_nat k -> P !! k = phdrs st !! k)
    /\ (forall k, Z.of_nat k < i ->
          exists ph ph', phdrs st !! k = Some ph /\ P !! k = Some ph'
                         /\ phdr_shifted startOffset shift ph ph')
    /\ split_found startOffset (phdrs st) i s.

Lemma shift_phdrs_step (startOffset shift : Z) (st : ElfFile) (i : Z) (s s' : shift_state) :
  0 <= startOffset -> 0 <= i ->
  phdrs_shifted startOffset shift st i s ->
  shift_phdr startOffset shift i s = Done s' ->
  phdrs_shifted startOffset shift st (i + 1) s'.
Proof.
  intros Hso Hi (P & Hfile & Hlen & Hrest & Hdone & Hsplit) H.
  destruct (shift_phdr_Done _ _ _ _ _ Hso H) as (ph & ph' & Hat & Hfile' & Hrel & Hidx).
  rewrite Hfile in Hat, Hfile'. simpl in Hat. unfold vec_at in Hat.
  destruct (Z.leb_spec 0 i); [| lia].
  destruct (P !! Z.to_nat i) as [x |] eqn:HP; [| discriminate]. injection Hat as ->.
  assert (Horig : phdrs st !! Z.to_nat i = Some ph) by (rewrite <- Hrest by lia; exact HP).
  exists (<[Z.to_nat i := ph']> P).
  split; [exact Hfile' |]. split; [rewrite length_insert; exact Hlen |].
  split; [intros k Hk; rewrite list_lookup_insert_ne by lia; apply Hrest; lia |].
  split.
  { intros k Hk. destruct (decide (k = Z.to_nat i)) as [-> | Hne].
    - exists ph, ph'. split; [exact Horig |].
      split; [apply list_lookup_insert_eq, lookup_lt_is_Some; eauto | exact Hrel].
    - rewrite list_lookup_insert_ne by congruence. apply Hdone. lia. }
  destruct (covers startOffset ph) eqn:Hc.
  - destruct Hidx as (Hnone & Hnew & Hshift).
    destruct Hsplit as [[_ Hfalse] | (? & Hrange & _)]; [| lia].
    right. exists ph. rewrite Hnew, Hshift.
    split; [lia |]. split; [exact Horig |]. split; [exact Hc |]. split; [reflexivity |].
    intros k ph2 Hk Hph2 Hc2.
    destruct (decide (Z.of_nat k = i)) as [Hki | Hne]; [exact Hki |].
    rewrite (Hfalse k ph2 ltac:(lia) Hph2) in Hc2. discriminate Hc2.
  - destruct Hidx as (Hsame & Hshift). unfold split_found. rewrite Hsame, Hshift.
    destruct Hsplit as [[Hnone Hfalse] | (sp & Hrange & Hsp & Hcs & Hss & Huniq)].
    + left. split; [exact Hnone |]. intros k ph2 Hk Hph2.
      destruct (decide (k = Z.to_nat i)) as [-> | Hne].
      * rewrite Horig in Hph2. injection Hph2 as <-. exact Hc.
      * apply (Hfalse k ph2); [lia | exact Hph2].
    + right. exists sp. split; [lia |]. split; [exact Hsp |]. split; [exact Hcs |].
      split; [exact Hss |]. intros k ph2 Hk Hph2 Hc2.
      destruct (decide (k = Z.to_nat i)) as [-> | Hne].
      * rewrite Horig in Hph2. injection Hph2 as <-. rewrite Hc in Hc2. discriminate Hc2.
      * apply (Huniq k ph2); [lia | exact Hph2 | exact Hc2].
Qed.

Lemma shift_phdrs_spec (startOffset shift : Z) (st : ElfFile) (fuel : nat)
    (s : shift_state) (phnum : Z) :
  0 <= startOffset -> hdr_get e_phnum st = Done phnum ->
  for_header shift_file e_phnum (shift_phdr startOffset shift) fuel 0 (mkShift st (-1) 0)
  = Done s ->
  phdrs_shifted startOffset shift st phnum s.
Proof.
  intros Hso Hn H.
  pose (I := fun (i : Z) (s : shift_state) =>
               0 <= i /\ phdrs_shifted startOffset shift st i s).
  assert (Hend : I phnum s); [| destruct Hend as [_ Hend]; exact Hend].
  apply (for_header_inv shift_file e_phnum (shift_phdr startOffset shift) I phnum)
    with (5 := H).
  - intros i x (_ & P & -> & _). exact Hn.
  - intros i x x' (Hi & Hinv) _ Hbody. split; [lia |].
    exact (shift_phdrs_step _ _ _ _ _ _ Hso Hi Hinv Hbody).
  - split; [lia |]. exists (phdrs st).
    split; [destruct st; reflexivity |]. split; [reflexivity |].
    split; [reflexivity |]. split; [intros k Hk; lia |].
    left. split; [reflexivity |]. intros k ph Hk. lia.
  - eapply hdr_get_nonneg, Hn.
Qed.

(** *** The whole shift *)

Lemma getPageSize_eq (st st' : ElfFile) :
  hdr_get e_machine st' = hdr_get e_machine st -> getPageSize st' = getPageSize st.
Proof. intros H. unfold getPageSize. rewrite H. reflexivity. Qed.

Lemma hdr_get_range (f : ehdr_field) (st : ElfFile) (v : Z) :
  hdr_get f st = Done v -> 0 <= v < 2 ^ (8 * ehdr_size f).
Proof.
  unfold hdr_get. intros H. done_inv H. subst v.
  pose proof (ehdr_field_in_header f) as (_ & Hf & _).
  apply mem_read_Done in Ha as (H0 & H1 & H2 & ->).
  pose proof (rdi_bound (littleEndian st)
                (take (Z.to_nat (ehdr_size f))
                   (drop (Z.to_nat (ehdr_offset f)) (fileContents st)))) as Hb.
  rewrite length_take, length_drop in Hb.
  replace (Z.of_nat (Z.to_nat (ehdr_size f)
                     `min` (length (fileContents st) - Z.to_nat (ehdr_offset f))))
    with (ehdr_size f) in Hb by lia.
  exact Hb.
Qed.

Lemma for_header_bound {S : Type} (file : S -> ElfFile) (f : ehdr_field)
    (body : Z -> S -> outcome S) (fuel : nat) (i : Z) (s s' : S) :
  for_header file f body fuel i s = Done s' -> exists n, hdr_get f (file s) = Done n.
Proof. destruct fuel; simpl; intros H; bind_inv H; eauto. Qed.

(** The program header that the shift appends for the part of the split
    segment before [startOffset] and the room made. *)
Definition split_head (startOffset shift extraBytes pageSize : Z) (split : Elf_Phdr)
    : Elf_Phdr :=
  mkPhdr PT_LOAD (Z.lor PF_R PF_W) (to_addr (p_offset split))
    (to_addr (p_vaddr split - shift)) (to_addr (p_paddr split - shift))
    (to_addr (startOffset - p_offset split + extraBytes))
    (to_addr (startOffset - p_offset split + extraBytes)) (to_addr pageSize).

Lemma shiftFile_inv (extraPages startOffset extraBytes : Z) (st st' : ElfFile) :
  shiftFile extraPages startOffset extraBytes st = Done st' ->
  exists pageSize phnum shnum shoff cF L PF,
    getPageSize st = Done pageSize /\ hdr_get e_phnum st = Done phnum
    /\ hdr_get e_shnum st = Done shnum /\ hdr_get e_shoff st = Done shoff
    /\ sizeof_Ehdr <= startOffset < Z.of_nat (length (fileContents st))
    /\ st' = with_phdrs PF (with_shdrs L (with_fileContents cF st))
    /\ let shift := u32 (extraPages * pageSize) in
       Z.of_nat (length cF) = Z.of_nat (length (fileContents st)) + shift
       /\ drop (Z.to_nat sizeof_Ehdr) cF
          = drop (Z.to_nat sizeof_Ehdr)
              (take (Z.to_nat startOffset) (fileContents st)
               ++ replicate (Z.to_nat shift) x00
               ++ drop (Z.to_nat startOffset) (fileContents st))
       /\ hdr_get e_phoff st' = Done sizeof_Ehdr
       /\ hdr_get e_shoff st'
          = Done (if startOffset <=? shoff then to_addr (shoff + shift) else shoff)
       /\ hdr_get e_phnum st' = Done (phnum + 1)
       /\ (forall f, f <> e_phoff -> f <> e_shoff -> f <> e_phnum ->
             hdr_get f st' = hdr_get f st)
       /\ (forall k, L !! k = shift_section startOffset shift shnum k <$> shdrs st !! k)
       /\ Z.of_nat (length PF) = phnum + 1
       /\ (forall k, Z.of_nat k < phnum ->
             exists ph ph', phdrs st !! k = Some ph /\ PF !! k = Some ph'
                            /\ phdr_shifted startOffset shift ph ph')
       /\ exists k split,
            Z.of_nat k < phnum /\ phdrs st !! k = Some split
            /\ covers startOffset split = true
            /\ (forall k2 ph2, Z.of_nat k2 < phnum -> phdrs st !! k2 = Some ph2 ->
                  covers startOffset ph2 = true -> k2 = k)
            /\ PF !! Z.to_nat phnum
               = Some (split_head startOffset shift extraBytes pageSize split).
Proof.
  intros H. unfold shiftFile in H.
  bind_inv H. apply assert_Done, Z.leb_le in Ha.
  bind_inv H. apply assert_Done, Z.ltb_lt in Ha0.
  bind_inv H. rename a1 into pageSize. rename Ha1 into Hpage.
  set (shift := u32 (extraPages * pageSize)) in *.
  bind_inv H. bind_inv H. bind_inv H. bind_inv H.
  assert (Hshift : 0 <= shift) by (apply wrap_range; lia).
  assert (Hehdr : 0 < sizeof_Ehdr) by (unfold sizeof_Ehdr; destruct ElfClass; lia).
  assert (Hso : 0 <= startOffset < Z.of_nat (length (fileContents st))) by lia.
  pose proof (shift_contents _ _ _ _ _ _ _ Hso Hshift Ha1 Ha2 Ha3 Ha4) as Hc3.
  clear Ha1 Ha2 Ha3 Ha4. subst a4.
  remember (take (Z.to_nat startOffset) (fileContents st)
            ++ replicate (Z.to_nat shift) x00
            ++ drop (Z.to_nat startOffset) (fileContents st)) as c3 eqn:Ec3.
  assert (Hlen3 : Z.of_nat (length c3) = Z.of_nat (length (fileContents st)) + shift).
  { rewrite Ec3. rewrite !length_app, length_take, length_replicate, length_drop. lia. }
  assert (Hpre : take (Z.to_nat sizeof_Ehdr) c3
                 = take (Z.to_nat sizeof_Ehdr) (fileContents st)).
  { rewrite Ec3. rewrite take_app_le by (rewrite length_take; lia).
    rewrite take_take. f_equal. lia. }
  assert (Hget1 : forall f, hdr_get f (with_fileContents c3 st) = hdr_get f st).
  { intros f. apply hdr_get_prefix; simpl; [exact Hpre | lia | lia | reflexivity]. }
  apply bind_Done in H as (stA & HA & H).
  apply bind_Done in H as (shoff & Hshoff & H).
  apply bind_Done in H as (stB & HB & H).
  apply bind_Done in H as (stC & HC & H).
  apply bind_Done in H as (s & Hloop & H).
  apply bind_Done in H as (? & Hfound & H). apply assert_Done in Hfound.
  apply bind_Done in H as (phnum & Hphnum & H).
  apply bind_Done in H as (stE & HE & H).
  apply bind_Done in H as (phnum0 & Hphnum0 & H).
  apply bind_Done in H as (phdr & Hphdr & H).
  apply bind_Done in H as (split' & Hsplit' & H).
  apply bind_Done in H as (pageSize' & Hpage' & H).
  injection H as <-.
  (* the writes to the ELF header *)
  destruct (hdr_set_tail _ _ _ _ HA) as (cA & EA & HlenA & HdropA).
  simpl in HlenA, HdropA.
  assert (HgetA : forall f, f <> e_phoff -> hdr_get f stA = hdr_get f st).
  { intros f Hf. rewrite (hdr_get_other f e_phoff _ _ _ Hf HA). apply Hget1. }
  assert (HphoffA : hdr_get e_phoff stA = Done sizeof_Ehdr).
  { rewrite (hdr_get_same _ _ _ _ HA). f_equal. apply wrap_small.
    unfold ehdr_size, sizeof_Ehdr, sizeof_Off. destruct ElfClass; simpl; lia. }
  rewrite (HgetA e_shoff ltac:(discriminate)) in Hshoff.
  assert (HBspec : exists cB,
            stB = with_fileContents cB st
            /\ length cB = length c3
            /\ drop (Z.to_nat sizeof_Ehdr) cB = drop (Z.to_nat sizeof_Ehdr) c3
            /\ hdr_get e_phoff stB = Done sizeof_Ehdr
            /\ hdr_get e_shoff stB
               = Done (if startOffset <=? shoff then to_addr (shoff + shift) else shoff)
            /\ forall f, f <> e_phoff -> f <> e_shoff -> hdr_get f stB = hdr_get f st).
  { destruct (startOffset <=? shoff).
    - destruct (hdr_set_tail _ _ _ _ HB) as (cB & EB & HlenB & HdropB). exists cB.
      rewrite EA in HlenB, HdropB. simpl in HlenB, HdropB.
      split; [rewrite EB, EA; reflexivity |].
      split; [congruence |]. split; [congruence |].
      split; [rewrite (hdr_get_other e_phoff e_shoff _ _ _ ltac:(discriminate) HB);
              exact HphoffA |].
      split; [rewrite (hdr_get_same _ _ _ _ HB); reflexivity |].
      intros f H1 H2. rewrite (hdr_get_other f e_shoff _ _ _ H2 HB). apply HgetA, H1.
    - injection HB as <-. exists cA.
      split; [rewrite EA; reflexivity |].
      split; [exact HlenA |]. split; [exact HdropA |].
      split; [exact HphoffA |].
      split; [rewrite (HgetA e_shoff ltac:(discriminate)); exact Hshoff |].
      intros f H1 _. apply HgetA, H1. }
  destruct HBspec as (cB & EB & HlenB & HdropB & HphoffB & HshoffB & HgetB).
  clear HA HB HgetA HphoffA EA HlenA HdropA Hget1 cA stA.
  (* the loop over the section headers *)
  destruct (for_header_bound _ _ _ _ _ _ _ HC) as (shnum & Hshnum). unfold id in Hshnum.
  destruct (shift_shdrs_spec _ _ _ _ _ Hshnum HC) as (L & EC & HL).
  rewrite (HgetB e_shnum ltac:(discriminate) ltac:(discriminate)) in Hshnum.
  clear HC. subst stC.
  (* the loop over the program headers *)
  destruct (for_header_bound _ _ _ _ _ _ _ Hloop) as (phnumC & HphnumC).
  pose proof (shift_phdrs_spec _ _ _ _ _ _ (proj1 Hso) HphnumC Hloop)
    as (P & Es & HlenP & Hrest & Hdone & Hsplit).
  clear Hloop. rewrite Es in Hphnum, HE. 
  assert (HeqC : Done phnumC = Done phnum) by (rewrite <- HphnumC, <- Hphnum; reflexivity).
  injection HeqC as ->.
  assert (Hphnum_st : hdr_get e_phnum st = Done phnum).
  { rewrite <- (HgetB e_phnum ltac:(discriminate) ltac:(discriminate)).
    exact Hphnum. }
  subst stB. cbn [phdrs shdrs with_shdrs with_phdrs with_fileContents shift_file] in *.
  clear Hphnum HphnumC.
  (* the program header added at the end *)
  destruct (hdr_set_tail _ _ _ _ HE) as (cE & EE & HlenE & HdropE).
  cbn [fileContents with_phdrs with_shdrs with_fileContents] in HlenE, HdropE.
  pose proof (hdr_get_same _ _ _ _ HE) as Hnew. rewrite Hphnum0 in Hnew.
  injection Hnew as Hnew. unfold ehdr_size in Hnew.
  pose proof (hdr_get_range _ _ _ Hphnum_st) as Hrange. unfold ehdr_size in Hrange.
  assert (Hget_other : forall f, f <> e_phnum ->
            hdr_get f stE = hdr_get f (with_fileContents cB st)).
  { intros f Hf. rewrite (hdr_get_other f e_phnum _ _ _ Hf HE). reflexivity. }
  assert (Hpage_eq : pageSize' = pageSize).
  { assert (E : getPageSize stE = getPageSize st).
    { apply getPageSize_eq. rewrite Hget_other by discriminate.
      apply HgetB; discriminate. }
    rewrite Hpage', Hpage in E. injection E as ->. reflexivity. }
  subst pageSize'. clear Hpage' HE.
  subst stE. cbn [phdrs with_fileContents with_phdrs] in Hphdr, Hsplit'.
  assert (Hphnum1 : phnum0 = phnum + 1).
  { unfold vec_at in Hphdr. destruct (Z.leb_spec 0 (phnum0 - 1)); [| discriminate].
    subst phnum0. unfold wrap in *. change (2 ^ (8 * 2)) with 65536 in *.
    destruct (Z.eq_dec (phnum + 1) 65536) as [E | E].
    - rewrite E in *. change (65536 mod 65536) with 0 in *. lia.
    - apply Z.mod_small. lia. }
  clear Hnew. subst phnum0. replace (phnum + 1 - 1) with phnum in * by lia.
  destruct Hsplit as [[Hnone _] | (split & Hsp & Horig & Hcov & Hss & Huniq)].
  { rewrite Hnone in Hfound. discriminate Hfound. }
  destruct (Hdone (Z.to_nat (splitIndex s)) ltac:(lia)) as (ph & ph' & Hph & HPsp & Hrel).
  rewrite Horig in Hph. injection Hph as <-.
  assert (Hsplit_eq : split' = ph').
  { unfold vec_at in Hsplit'. destruct (Z.leb_spec 0 (splitIndex s)); [| lia].
    rewrite lookup_resize in Hsplit' by (try (apply lookup_lt_is_Some; eauto); lia).
    rewrite HPsp in Hsplit'. injection Hsplit' as <-. reflexivity. }
  subst split'. clear Hsplit' Hphdr.
  destruct (shifted_split _ _ _ _ Hrel Hcov) as (Eo & _ & _ & Ev & Ep).
  exists pageSize, phnum, shnum, shoff, cE, L.
  eexists.
  split; [exact Hpage |]. split; [exact Hphnum_st |]. split; [exact Hshnum |].
  split; [exact Hshoff |]. split; [lia |]. split; [reflexivity |].
  cbv zeta. fold shift.
  split; [lia |]. split; [congruence |].
  split; [exact (eq_trans (Hget_other e_phoff ltac:(discriminate)) HphoffB) |].
  split; [exact (eq_trans (Hget_other e_shoff ltac:(discriminate)) HshoffB) |].
  split; [exact Hphnum0 |].
  split; [intros f H1 H2 H3; exact (eq_trans (Hget_other f H3) (HgetB f H1 H2)) |].
  split; [exact HL |].
  unfold set_phdr. cbn [phdrs with_phdrs with_fileContents with_shdrs].
  split; [rewrite length_insert, length_resize; lia |].
  split.
  { intros k Hk. destruct (Hdone k Hk) as (q & q' & Hq & Hq' & Hqrel).
    exists q, q'. split; [exact Hq |]. split; [| exact Hqrel].
    rewrite list_lookup_insert_ne by lia.
    rewrite lookup_resize by (try (apply lookup_lt_is_Some; eauto); lia). exact Hq'. }
  exists (Z.to_nat (splitIndex s)), split.
  split; [lia |]. split; [exact Horig |]. split; [exact Hcov |].
  split.
  { intros k2 ph2 Hk2 Hph2 Hc2. pose proof (Huniq k2 ph2 Hk2 Hph2 Hc2). lia. }
  rewrite list_lookup_insert_eq by (rewrite length_resize; lia).
  f_equal. unfold split_head. destruct phdr. unfold wri_a.
  unfold with_p_align, with_p_flags, with_p_filesz, with_p_memsz, with_p_vaddr,
    with_p_paddr, with_p_offset, with_p_type.
  cbn [p_type p_flags p_offset p_vaddr p_paddr p_filesz p_memsz p_align].
  rewrite Eo, Ev, Ep, Hss.
  destruct (u64_repr (startOffset - p_offset split)) as [k Hk]. rewrite Hk.
  destruct (to_addr_repr (startOffset + shift)) as [k1 Hk1].
  destruct (to_addr_repr (p_vaddr split + (startOffset - p_offset split))) as [k2 Hk2].
  destruct (to_addr_repr (p_paddr split + (startOffset - p_offset split))) as [k3 Hk3].
  f_equal.
  - rewrite Hk1. apply (to_addr_congr _ _ (k1 - k)). ring.
  - rewrite Hk2. apply (to_addr_congr _ _ (k2 - k)). ring.
  - rewrite Hk3. apply (to_addr_congr _ _ (k3 - k)). ring.
  - apply (to_addr_congr _ _ k). ring.
  - apply (to_addr_congr _ _ k). ring.
Qed.

Lemma lookup_fmap_length {A : Type} (f : nat -> A -> A) (l l' : list A) :
  (forall k, l' !! k = f k <$> l !! k) -> length l' = length l.
Proof.
  intros H. apply Nat.le_antisymm.
  - destruct (Nat.le_gt_cases (length l') (length l)) as [Hle | Hgt]; [exact Hle |].
    pose proof (H (length l)) as Hk.
    rewrite (lookup_ge_None_2 l (length l)) in Hk by lia.
    apply lookup_ge_None_1 in Hk. lia.
  - destruct (Nat.le_gt_cases (length l) (length l')) as [Hle | Hgt]; [exact Hle |].
    pose proof (H (length l')) as Hk.
    rewrite (lookup_ge_None_2 l' (length l')) in Hk by lia.
    destruct (l !! length l') eqn:E; [discriminate Hk |].
    apply lookup_ge_None_1 in E. lia.
Qed.

(** [shiftFile] makes room in the file.  When it returns, the contents
    from [startOffset] on lie [shift] bytes further, [shift] being the extra
    pages in bytes, behind [shift] zero bytes, and the bytes between the ELF
    header and [startOffset] are as they were.  In the ELF header [e_phoff]
    is the size of the header, [e_shoff] has moved with the contents if it was
    not before [startOffset], [e_phnum] is one more, and the other fields are
    as they were.  The section headers 1 to [e_shnum - 1] whose offset was not
    before [startOffset] have it moved by [shift]; nothing else changes in
    the section headers, and the pending edits stay. *)
Theorem shiftFile_moves_contents (extraPages startOffset extraBytes : Z) (st st' : ElfFile) :
  shiftFile extraPages startOffset extraBytes st = Done st' ->
  exists pageSize shnum shoff phnum hdr,
    getPageSize st = Done pageSize /\ hdr_get e_shnum st = Done shnum
    /\ hdr_get e_shoff st = Done shoff /\ hdr_get e_phnum st = Done phnum
    /\ let shift := u32 (extraPages * pageSize) in
       let old := fileContents st in
       sizeof_Ehdr <= startOffset < Z.of_nat (length old)
       /\ length hdr = Z.to_nat sizeof_Ehdr
       /\ fileContents st'
          = hdr ++ take (Z.to_nat (startOffset - sizeof_Ehdr)) (drop (Z.to_nat sizeof_Ehdr) old)
            ++ replicate (Z.to_nat shift) x00 ++ drop (Z.to_nat startOffset) old
       /\ hdr_get e_phoff st' = Done sizeof_Ehdr
       /\ hdr_get e_shoff st'
          = Done (if startOffset <=? shoff then to_addr (shoff + shift) else shoff)
       /\ hdr_get e_phnum st' = Done (phnum + 1)
       /\ (forall f, f <> e_phoff -> f <> e_shoff -> f <> e_phnum ->
             hdr_get f st' = hdr_get f st)
       /\ length (shdrs st') = length (shdrs st)
       /\ (forall (k : nat) s, shdrs st !! k = Some s ->
             shdrs st' !! k
             = Some (if bool_decide (1 <= Z.of_nat k < shnum /\ startOffset <= sh_offset s)
                     then with_sh_offset (to_addr (sh_offset s + shift)) s else s))
       /\ replacedSections st' = replacedSections st
       /\ sectionNames st' = sectionNames st.
Proof.
  intros H.
  destruct (shiftFile_inv _ _ _ _ _ H)
    as (pageSize & phnum & shnum & shoff & cF & L & PF & Hpage & Hphnum & Hshnum & Hshoff
        & Hso & -> & Hlen & Hdrop & Hphoff' & Hshoff' & Hphnum' & Hother & HL & _).
  exists pageSize, shnum, shoff, phnum, (take (Z.to_nat sizeof_Ehdr) cF).
  split; [exact Hpage |]. split; [exact Hshnum |]. split; [exact Hshoff |].
  split; [exact Hphnum |]. cbv zeta.
  assert (Hshift : 0 <= u32 (extraPages * pageSize)) by (apply wrap_range; lia).
  assert (Hehdr : 0 < sizeof_Ehdr) by (unfold sizeof_Ehdr; destruct ElfClass; lia).
  split; [exact Hso |].
  split; [rewrite length_take; lia |].
  split.
  { cbn [fileContents with_phdrs with_shdrs with_fileContents].
    rewrite <- (take_drop (Z.to_nat sizeof_Ehdr) cF) at 1. f_equal.
    rewrite Hdrop. rewrite drop_app_le by (rewrite length_take; lia). f_equal.
    rewrite take_drop_commute. do 2 f_equal. lia. }
  split; [exact Hphoff' |]. split; [exact Hshoff' |]. split; [exact Hphnum' |].
  split; [exact Hother |].
  cbn [shdrs with_phdrs with_shdrs with_fileContents].
  split; [apply (lookup_fmap_length _ _ _ HL) |].
  split; [| split; reflexivity].
  intros k s Hs. rewrite HL, Hs. reflexivity.
Qed.

(** [shiftFile] and the program headers.  When it returns, exactly one of
    the [e_phnum] program headers was a PT_LOAD segment that [startOffset]
    lay in.  That segment now starts at the new place of [startOffset] and
    no longer holds its part before it; every segment that started at or
    after [startOffset] has its offset moved by [shift] and keeps its
    addresses and sizes; every segment before it keeps its offset and sizes;
    all keep their type and flags.  The table has one more entry, at its end:
    a readable and writable PT_LOAD segment that starts where the split
    segment started, [shift] lower in memory, of the size of the part split
    off plus [extraBytes], aligned to the page size. *)
Theorem shiftFile_splits_segment (extraPages startOffset extraBytes : Z) (st st' : ElfFile) :
  shiftFile extraPages startOffset extraBytes st = Done st' ->
  exists pageSize phnum (k : nat) split,
    getPageSize st = Done pageSize /\ hdr_get e_phnum st = Done phnum
    /\ let shift := u32 (extraPages * pageSize) in
       Z.of_nat k < phnum /\ phdrs st !! k = Some split
       /\ covers startOffset split = true
       /\ (forall (k2 : nat) ph2, Z.of_nat k2 < phnum -> phdrs st !! k2 = Some ph2 ->
             covers startOffset ph2 = true -> k2 = k)
       /\ Z.of_nat (length (phdrs st')) = phnum + 1
       /\ phdrs st' !! Z.to_nat phnum
          = Some (mkPhdr PT_LOAD (Z.lor PF_R PF_W) (to_addr (p_offset split))
                    (to_addr (p_vaddr split - shift)) (to_addr (p_paddr split - shift))
                    (to_addr (startOffset - p_offset split + extraBytes))
                    (to_addr (startOffset - p_offset split + extraBytes))
                    (to_addr pageSize))
       /\ forall j : nat, Z.of_nat j < phnum ->
            exists ph ph', phdrs st !! j = Some ph /\ phdrs st' !! j = Some ph'
                           /\ phdr_shifted startOffset shift ph ph'.
Proof.
  intros H.
  destruct (shiftFile_inv _ _ _ _ _ H)
    as (pageSize & phnum & shnum & shoff & cF & L & PF & Hpage & Hphnum & _ & _
        & _ & -> & _ & _ & _ & _ & _ & _ & _ & Hlen & Hdone & k & split & Hk & Hsplit
        & Hcov & Huniq & Hnew).
  exists pageSize, phnum, k, split.
  split; [exact Hpage |]. split; [exact Hphnum |]. cbv zeta.
  cbn [phdrs with_phdrs].
  split; [exact Hk |]. split; [exact Hsplit |]. split; [exact Hcov |].
  split; [exact Huniq |]. split; [exact Hlen |]. split; [exact Hnew |]. exact Hdone.
Qed.

(** ** The contents written for the pending edits *)

Lemma getSectionName_names (shdr : Elf_Shdr) (st st' : ElfFile) :
  sectionNames st' = sectionNames st -> getSectionName shdr st' = getSectionName shdr st.
Proof. intros H. unfold getSectionName. rewrite H. reflexivity. Qed.

Lemma with_fileContents_id (st : ElfFile) : with_fileContents (fileContents st) st = st.
Proof. destruct st. reflexivity. Qed.

(** Overwriting the old sections changes the file contents only, not
    their size. *)
Lemma clobber_contents (l : list (string * list byte)) :
  forall (acc : outcome ElfFile) (st' : ElfFile),
    foldl clobber acc l = Done st' ->
    exists st0 c, acc = Done st0 /\ st' = with_fileContents c st0
                  /\ length c = length (fileContents st0).
Proof.
  induction l as [| e l IH]; intros acc st' H; simpl in H.
  - exists st', (fileContents st'). split; [exact H |].
    split; [symmetry; apply with_fileContents_id | reflexivity].
  - apply IH in H as (st1 & c1 & H1 & -> & Hlen1). unfold clobber in H1.
    bind_inv H1. exists a. bind_inv H1.
    destruct (negb _).
    + bind_inv H1. injection H1 as <-. exists c1. split; [exact Ha |].
      split; [reflexivity |]. rewrite Hlen1. simpl. eapply mem_set_length, Ha1.
    + injection H1 as <-. exists c1. split; [exact Ha |]. split; [reflexivity | exact Hlen1].
Qed.

(** One section of the loop: without a pending edit nothing happens; with
    one, its bytes are written at [curOff], which advances by their padded
    size, and the header of the section is redirected to them. *)
Lemma write_section_spec (startAddr startOffset : Z) (k : nat) (s s' : write_state) :
  write_section startAddr startOffset k s = Done s' ->
  exists shdr name,
    shdrs (w_file s) !! k = Some shdr
    /\ getSectionName shdr (w_file s) = Done name
    /\ match replacedSections (w_file s) !! name with
       | None => s' = s
       | Some content =>
           exists c shdr' phs step,
             mem_write (fileContents (w_file s)) (w_curOff s) content = Done c
             /\ roundUp (Z.of_nat (length content)) sectionAlignment = Done step
             /\ w_curOff s' = to_addr (w_curOff s + step)
             /\ w_file s'
                = with_phdrs phs
                    (with_shdrs (<[k := shdr']> (shdrs (w_file s)))
                       (with_fileContents c (w_file s)))
             /\ sh_offset shdr' = to_addr (w_curOff s)
             /\ sh_addr shdr' = to_addr (startAddr + (w_curOff s - startOffset))
             /\ sh_size shdr' = to_addr (Z.of_nat (length content))
             /\ sh_name shdr' = sh_name shdr /\ sh_type shdr' = sh_type shdr
             /\ sh_flags shdr' = sh_flags shdr /\ sh_link shdr' = sh_link shdr
             /\ sh_info shdr' = sh_info shdr /\ sh_entsize shdr' = sh_entsize shdr
       end.
Proof.
  unfold write_section. intros H.
  apply bind_Done in H as (shdr & Hshdr & H).
  apply bind_Done in H as (name & Hname & H).
  exists shdr, name.
  assert (Hk : shdrs (w_file s) !! k = Some shdr).
  { unfold vec_index in Hshdr. destruct (0 <=? Z.of_nat k); [| discriminate].
    rewrite Nat2Z.id in Hshdr. destruct (shdrs (w_file s) !! k); [| discriminate].
    injection Hshdr as ->. reflexivity. }
  split; [exact Hk |]. split; [exact Hname |].
  destruct (replacedSections (w_file s) !! name) as [content |];
    [| injection H as <-; reflexivity].
  apply bind_Done in H as (c & Hc & H).
  apply bind_Done in H as (r & Hr & H).
  destruct r as [[shdr' phs] noted].
  apply bind_Done in H as (step & Hstep & H).
  injection H as <-. exists c, shdr'. eexists. exists step.
  split; [exact Hc |]. split; [exact Hstep |]. split; [reflexivity |].
  split; [reflexivity |].
  unfold wri_a in Hr.
  assert (Hshdr' : exists al,
            shdr' = mkShdr (sh_name shdr) (sh_type shdr) (sh_flags shdr)
                      (to_addr (startAddr + (w_curOff s - startOffset)))
                      (to_addr (w_curOff s)) (to_addr (Z.of_nat (length content)))
                      (sh_link shdr) (sh_info shdr) al (sh_entsize shdr)).
  { destruct shdr. simpl in Hr.
    destruct (_ =? SHT_NOTE) in Hr.
    - bind_inv Hr. injection Hr as <- _ _. destruct (_ <? _); eexists; reflexivity.
    - injection Hr as <- _ _. eexists. reflexivity. }
  destruct Hshdr' as (al & ->). simpl. repeat split; reflexivity.
Qed.

Section Placing.

Variables (st0 : ElfFile) (curOff0 startAddr startOffset : Z).
Hypothesis Hoff : 0 <= curOff0.
Hypothesis Hroom : Z.of_nat (length (fileContents st0)) + sectionAlignment < 2 ^ addr_bits.

(** The section with the header [shdr] and the pending edit [content] has
    been placed: [shdr'] is its header now and [c] holds its bytes. *)
Record placed (c : list byte) (shdr shdr' : Elf_Shdr) (content : list byte) : Prop :=
  mkPlaced {
    placed_name : sh_name shdr' = sh_name shdr;
    placed_type : sh_type shdr' = sh_type shdr;
    placed_size : sh_size shdr' = Z.of_nat (length content);
    placed_offset : curOff0 <= sh_offset shdr';
    placed_addr : sh_addr shdr' = to_addr (startAddr + (sh_offset shdr' - startOffset));
    placed_bytes : mem_read c (sh_offset shdr') (sh_size shdr') = Done content }.

Definition edited (shdr : Elf_Shdr) : Prop :=
  is_Some (replacedSections st0 !! section_name st0 shdr).

(** The loop before section [k]. *)
Record write_inv (k : nat) (s : write_state) : Prop := mkWriteInv {
  wi_names : sectionNames (w_file s) = sectionNames st0;
  wi_edits : replacedSections (w_file s) = replacedSections st0;
  wi_length : length (fileContents (w_file s)) = length (fileContents st0);
  wi_curOff : curOff0 <= w_curOff s;
  wi_rest : forall j, (k <= j)%nat -> shdrs (w_file s) !! j = shdrs st0 !! j;
  wi_count : length (shdrs (w_file s)) = length (shdrs st0);
  wi_done : forall j shdr, (j < k)%nat -> shdrs st0 !! j = Some shdr ->
    match replacedSections st0 !! section_name st0 shdr with
    | None => shdrs (w_file s) !! j = Some shdr
    | Some content =>
        exists shdr', shdrs (w_file s) !! j = Some shdr'
          /\ placed (fileContents (w_file s)) shdr shdr' content
          /\ sh_offset shdr' + sh_size shdr' <= w_curOff s
    end;
  wi_order : forall j1 j2 o1 o2 s1 s2, (j1 < j2 < k)%nat ->
    shdrs st0 !! j1 = Some o1 -> shdrs st0 !! j2 = Some o2 -> edited o1 -> edited o2 ->
    shdrs (w_file s) !! j1 = Some s1 -> shdrs (w_file s) !! j2 = Some s2 ->
    sh_offset s1 + sh_size s1 <= sh_offset s2 }.

Lemma write_inv_step (k : nat) (s s' : write_state) :
  write_inv k s -> write_section startAddr startOffset k s = Done s' ->
  write_inv (S k) s'.
Proof.
  intros [Hnames Hedits Hlen Hcur Hrest Hcount Hdone Horder] H.
  destruct (write_section_spec _ _ _ _ _ H) as (shdr & name & Hk & Hname & Hcase).
  assert (Horig : shdrs st0 !! k = Some shdr) by (rewrite <- Hrest by lia; exact Hk).
  assert (Hsn : section_name st0 shdr = name).
  { unfold section_name. rewrite <- (getSectionName_names shdr st0 (w_file s) Hnames).
    rewrite Hname. reflexivity. }
  rewrite Hedits in Hcase.
  destruct (replacedSections st0 !! name) as [content |] eqn:Hedit.
  2:{ subst s'. split; try assumption.
      - intros j Hj. apply Hrest. lia.
      - intros j o Hj Ho. destruct (decide (j = k)) as [-> | Hne].
        + rewrite Horig in Ho. injection Ho as <-. rewrite Hsn, Hedit. exact Hk.
        + apply Hdone; [lia | exact Ho].
      - intros j1 j2 o1 o2 s1 s2 Hj Ho1 Ho2 He1 He2 Hs1 Hs2.
        destruct (decide (j2 = k)) as [-> | Hne].
        + rewrite Horig in Ho2. injection Ho2 as <-.
          unfold edited in He2. rewrite Hsn, Hedit in He2. destruct He2 as [? He2].
          discriminate He2.
        + apply (Horder j1 j2 o1 o2 s1 s2); try assumption. lia. }
  destruct Hcase as (c & shdr' & phs & step & Hc & Hstep & Hcur' & Hfile & Eoff & Eaddr
                     & Esize & Ename & Etype & _).
  pose proof (mem_write_length _ _ _ _ Hc) as Hclen.
  pose proof (mem_read_written _ _ _ _ Hc) as Hread.
  pose proof (mem_write_Done _ _ _ _ Hc) as (Hc0 & Hc1 & _).
  pose proof sectionAlignment_pos as Halign.
  pose proof (round_up_bounds (Z.of_nat (length content)) sectionAlignment
                ltac:(lia) Halign) as [Hru _].
  assert (Hbits : 2 ^ addr_bits <= 2 ^ 64)
    by (apply Z.pow_le_mono_r; destruct addr_bits_cases; lia).
  apply roundUp_exact in Hstep; [| lia].
  rewrite to_addr_small in Eoff by lia.
  rewrite to_addr_small in Esize by lia.
  rewrite to_addr_small in Hcur' by lia.
  rewrite <- Eoff in Eaddr.
  assert (Hshdrs : shdrs (w_file s') = <[k := shdr']> (shdrs (w_file s)))
    by (rewrite Hfile; reflexivity).
  assert (Hc' : fileContents (w_file s') = c) by (rewrite Hfile; reflexivity).
  assert (Hlt : (k < length (shdrs (w_file s)))%nat) by (apply lookup_lt_is_Some; eauto).
  split.
  - rewrite Hfile. exact Hnames.
  - rewrite Hfile. exact Hedits.
  - rewrite Hc', Hclen. exact Hlen.
  - lia.
  - intros j Hj. rewrite Hshdrs, list_lookup_insert_ne by lia. apply Hrest. lia.
  - rewrite Hshdrs, length_insert. exact Hcount.
  - intros j o Hj Ho. destruct (decide (j = k)) as [-> | Hne].
    + rewrite Horig in Ho. injection Ho as <-. rewrite Hsn, Hedit.
      exists shdr'. split; [rewrite Hshdrs; apply list_lookup_insert_eq, Hlt |].
      split; [| lia].
      split; try assumption; [lia |].
      rewrite Hc', Eoff, Esize. exact Hread.
    + specialize (Hdone j o ltac:(lia) Ho).
      destruct (replacedSections st0 !! section_name st0 o) as [content' |].
      * destruct Hdone as (x & Hx & [P1 P2 P3 P4 P5 P6] & Hend).
        exists x. split; [rewrite Hshdrs, list_lookup_insert_ne by congruence; exact Hx |].
        split; [| lia].
        split; try assumption.
        rewrite Hc', (mem_read_apart _ _ _ _ _ _ Hc) by lia. exact P6.
      * rewrite Hshdrs, list_lookup_insert_ne by congruence. exact Hdone.
  - intros j1 j2 o1 o2 s1 s2 Hj Ho1 Ho2 He1 He2 Hs1 Hs2.
    rewrite Hshdrs in Hs1, Hs2.
    rewrite list_lookup_insert_ne in Hs1 by lia.
    destruct (decide (j2 = k)) as [-> | Hne].
    + rewrite list_lookup_insert_eq in Hs2 by exact Hlt. injection Hs2 as <-.
      specialize (Hdone j1 o1 ltac:(lia) Ho1). destruct He1 as [content1 He1].
      rewrite He1 in Hdone. destruct Hdone as (x & Hx & _ & Hend).
      rewrite Hs1 in Hx. injection Hx as <-. lia.
    + rewrite list_lookup_insert_ne in Hs2 by congruence.
      apply (Horder j1 j2 o1 o2 s1 s2); try assumption. lia.
Qed.

Lemma write_inv_loop (n : nat) :
  forall k s s',
    write_inv k s -> write_sections startAddr startOffset n k s = Done s' ->
    write_inv (k + n) s'.
Proof.
  induction n as [| n IH]; intros k s s' Hinv H; simpl in H.
  - injection H as <-. rewrite Nat.add_0_r. exact Hinv.
  - bind_inv H. replace (k + S n)%nat with (S k + n)%nat by lia.
    apply (IH (S k) a s'); [eapply write_inv_step; eauto | exact H].
Qed.

End Placing.

(** [writeReplacedSections] on an object whose file is smaller than the
    address space by more than the section alignment, from a [curOff] that is
    not negative.  When it returns, no edit is pending, and every section
    whose name had a pending edit has a header that gives the size of the
    edit, an offset from [curOff] on and the address that belongs to the
    offset, and the file holds the bytes of the edit there: neither the
    overwriting of the old contents nor a later write touched them.  These
    sections lie in the file in the order of their headers and end at or
    before the final [curOff].  The headers of the sections without pending
    edit are as they were, and the file keeps its size. *)
Theorem writeReplacedSections_places_edits (curOff startAddr startOffset : Z)
    (st st' : ElfFile) (curOff' : Z) :
  0 <= curOff ->
  Z.of_nat (length (fileContents st)) + sectionAlignment < 2 ^ addr_bits ->
  writeReplacedSections curOff startAddr startOffset st = Done (st', curOff') ->
  replacedSections st' = ∅
  /\ length (fileContents st') = length (fileContents st)
  /\ length (shdrs st') = length (shdrs st)
  /\ (forall (j : nat) shdr, shdrs st !! j = Some shdr ->
        match replacedSections st !! section_name st shdr with
        | None => shdrs st' !! j = Some shdr
        | Some content =>
            exists shdr', shdrs st' !! j = Some shdr'
              /\ sh_name shdr' = sh_name shdr /\ sh_type shdr' = sh_type shdr
              /\ sh_size shdr' = Z.of_nat (length content)
              /\ curOff <= sh_offset shdr' /\ sh_offset shdr' + sh_size shdr' <= curOff'
              /\ sh_addr shdr' = to_addr (startAddr + (sh_offset shdr' - startOffset))
              /\ mem_read (fileContents st') (sh_offset shdr') (sh_size shdr')
                 = Done content
        end)
  /\ (forall (j1 j2 : nat) o1 o2 s1 s2, (j1 < j2)%nat ->
        shdrs st !! j1 = Some o1 -> shdrs st !! j2 = Some o2 ->
        is_Some (replacedSections st !! section_name st o1) ->
        is_Some (replacedSections st !! section_name st o2) ->
        shdrs st' !! j1 = Some s1 -> shdrs st' !! j2 = Some s2 ->
        sh_offset s1 + sh_size s1 <= sh_offset s2).
Proof.
  intros Hoff Hroom H. unfold writeReplacedSections in H.
  apply bind_Done in H as (st1 & Hclobber & H).
  apply bind_Done in H as (s & Hloop & H). injection H as <- <-.
  assert (Hst1 : exists c, st1 = with_fileContents c st
                           /\ length c = length (fileContents st)).
  { destruct clobberOldSections.
    - apply clobber_contents in Hclobber as (st0 & c & E & -> & Hlen).
      injection E as <-. eauto.
    - injection Hclobber as <-. exists (fileContents st).
      split; [symmetry; apply with_fileContents_id | reflexivity]. }
  destruct Hst1 as (c & -> & Hlen).
  assert (Hstart : write_inv (with_fileContents c st) curOff startAddr startOffset 0
                     (mkWrite (with_fileContents c st) curOff ∅)).
  { split; try reflexivity; lia. }
  assert (Hroom1 : Z.of_nat (length (fileContents (with_fileContents c st)))
                   + sectionAlignment < 2 ^ addr_bits) by (simpl; lia).
  pose proof (write_inv_loop _ _ _ _ Hoff Hroom1 _ _ _ _ Hstart Hloop)
    as [Hnames Hedits Hlen' Hcur Hrest Hcount Hdone Horder].
  cbn [shdrs fileContents replacedSections sectionNames with_fileContents
       with_replacedSections] in *.
  split; [reflexivity |]. split; [lia |]. split; [exact Hcount |].
  split.
  - intros j shdr Hj.
    specialize (Hdone j shdr ltac:(apply lookup_lt_Some in Hj; lia) Hj).
    change (section_name (with_fileContents c st) shdr) with (section_name st shdr) in Hdone.
    destruct (replacedSections st !! section_name st shdr) as [content |]; [| exact Hdone].
    destruct Hdone as (x & Hx & [P1 P2 P3 P4 P5 P6] & Hend).
    exists x. repeat split; assumption.
  - intros j1 j2 o1 o2 s1 s2 Hj Ho1 Ho2 He1 He2 Hs1 Hs2.
    apply (Horder j1 j2 o1 o2 s1 s2); try assumption.
    apply lookup_lt_Some in Ho2. lia.
Qed.

(** ** The addresses in the dynamic section *)

Lemma tryFindSectionHeader_frame (R : Z -> Z -> Prop) (st st' : ElfFile) (name : string) :
  frame R st st' -> (forall o n, in_header o n -> R o n) ->
  tryFindSectionHeader name st' = tryFindSectionHeader name st.
Proof.
  intros F HR. unfold tryFindSectionHeader.
  rewrite (getSectionIndex_frame _ _ _ name F HR), (frame_shdrs _ _ _ F). reflexivity.
Qed.

Lemma findSectionHeader_frame (R : Z -> Z -> Prop) (st st' : ElfFile) (name : string) :
  frame R st st' -> (forall o n, in_header o n -> R o n) ->
  findSectionHeader name st' = findSectionHeader name st.
Proof.
  intros F HR. unfold findSectionHeader.
  rewrite (tryFindSectionHeader_frame _ _ _ name F HR). reflexivity.
Qed.

Lemma dyn_value_frame (R : Z -> Z -> Prop) (st st' : ElfFile) (d_tag off : Z)
    (shdrDynamic : Elf_Shdr) :
  frame R st st' -> (forall o n, in_header o n -> R o n) ->
  dyn_value d_tag off shdrDynamic st' = dyn_value d_tag off shdrDynamic st.
Proof.
  intros F HR. unfold dyn_value.
  repeat match goal with
         | |- context [findSectionHeader ?n st'] =>
             rewrite (findSectionHeader_frame _ _ _ n F HR)
         | |- context [tryFindSectionHeader ?n st'] =>
             rewrite (tryFindSectionHeader_frame _ _ _ n F HR)
         end.
  reflexivity.
Qed.

Lemma frame_with_stderr (R : Z -> Z -> Prop) (l : list string) (st : ElfFile) :
  frame R st (with_stderr (stderr st ++ l) st).
Proof. split; try reflexivity. exists l. reflexivity. Qed.

(** The value of a dynamic entry after it was set, and the other reads. *)
Lemma dyn_val_set (off v : Z) (st st' : ElfFile) :
  dyn_set off v st = Done st' -> dyn_val off st' = Done (to_addr v).
Proof.
  intros H. apply dyn_set_Done in H as (c & Hw & ->).
  apply mem_read_written in Hw. rewrite length_field_bytes in Hw.
  rewrite Z2Nat.id in Hw by (destruct sizeof_Off_cases; lia).
  unfold dyn_val. simpl. rewrite Hw. simpl. rewrite rdi_field_bytes.
  rewrite Z2Nat.id by (destruct sizeof_Off_cases; lia). reflexivity.
Qed.

Lemma dyn_set_frame (off v : Z) (st st' : ElfFile) :
  dyn_set off v st = Done st' ->
  frame (apart (off + dyn_off_un) (off + dyn_off_un + sizeof_Off)) st st'.
Proof.
  intros H. apply dyn_set_Done in H as (c & Hw & ->).
  split; try reflexivity.
  - exists []. rewrite app_nil_r. reflexivity.
  - intros o m Ha. simpl. eapply mem_read_apart; [exact Hw |].
    rewrite length_field_bytes. unfold apart in Ha.
    destruct sizeof_Off_cases; lia.
Qed.

Section DynamicLoop.

Variables (shdrDynamic : Elf_Shdr) (dyn_table n : Z) (st : ElfFile).
Hypothesis Htable : sizeof_Ehdr <= dyn_table.
Hypothesis Htags : forall j, 0 <= j < n ->
  exists tag, dyn_tag (dyn_entry dyn_table j) st = Done tag /\ tag <> DT_NULL.
Hypothesis Hend : dyn_tag (dyn_entry dyn_table n) st = Done DT_NULL.

(** [[o, o + m)] lies apart from the value of entry [j], and from the
    values of all entries before the DT_NULL one. *)
Definition off_value (j o m : Z) : Prop :=
  apart (dyn_entry dyn_table j + dyn_off_un) (dyn_entry dyn_table j + dyn_off_un + sizeof_Off)
    o m.

Definition off_values (o m : Z) : Prop := forall j, 0 <= j < n -> off_value j o m.

(** Entry [j] holds in [s] what the loop gives it. *)
Definition dyn_synced (j : Z) (s : ElfFile) : Prop :=
  exists tag r msgs,
    dyn_tag (dyn_entry dyn_table j) st = Done tag
    /\ dyn_value tag (j * sizeof_Dyn) shdrDynamic st = Done (r, msgs)
    /\ dyn_val (dyn_entry dyn_table j) s
       = match r with
         | Some v => Done (to_addr v)
         | None => dyn_val (dyn_entry dyn_table j) st
         end.

Lemma header_off_values (o m : Z) : in_header o m -> off_values o m.
Proof.
  intros [H0 H1] j Hj. unfold off_value, apart, dyn_entry.
  pose proof sizeof_Dyn_Off as [HD HU]. destruct sizeof_Off_cases; nia.
Qed.

Lemma tag_off_values (k : Z) : off_values (dyn_entry dyn_table k) sizeof_Off.
Proof.
  intros j Hj. unfold off_value, apart, dyn_entry.
  pose proof sizeof_Dyn_Off as [HD HU]. destruct sizeof_Off_cases; nia.
Qed.

Lemma value_off_value (j k : Z) :
  j <> k -> off_value k (dyn_entry dyn_table j + dyn_off_un) sizeof_Off.
Proof.
  intros Hne. unfold off_value, apart, dyn_entry.
  pose proof sizeof_Dyn_Off as [HD HU]. destruct sizeof_Off_cases; nia.
Qed.

Lemma dyn_tag_frame (R : Z -> Z -> Prop) (s s' : ElfFile) (off : Z) :
  frame R s s' -> R off sizeof_Off -> dyn_tag off s' = dyn_tag off s.
Proof.
  intros F HR. unfold dyn_tag.
  rewrite (frame_reads _ _ _ F _ _ HR), (frame_endian _ _ _ F). reflexivity.
Qed.

Lemma dyn_val_frame (R : Z -> Z -> Prop) (s s' : ElfFile) (off : Z) :
  frame R s s' -> R (off + dyn_off_un) sizeof_Off -> dyn_val off s' = dyn_val off s.
Proof.
  intros F HR. unfold dyn_val.
  rewrite (frame_reads _ _ _ F _ _ HR), (frame_endian _ _ _ F). reflexivity.
Qed.

Lemma update_dynamic_loop (fuel : nat) :
  forall k s st',
    0 <= k <= n -> frame off_values st s ->
    (forall j, 0 <= j < k -> dyn_synced j s) ->
    (forall j, k <= j < n ->
       dyn_val (dyn_entry dyn_table j) s = dyn_val (dyn_entry dyn_table j) st) ->
    update_dynamic fuel shdrDynamic dyn_table (dyn_entry dyn_table k) s = Done st' ->
    frame off_values st st' /\ forall j, 0 <= j < n -> dyn_synced j st'.
Proof.
  induction fuel as [| fuel IH]; intros k s st' Hk F Hdone Hrest H; simpl in H;
    apply bind_Done in H as (tag & Htag & H);
    rewrite (dyn_tag_frame _ _ _ _ F (tag_off_values k)) in Htag.
  - destruct (Z.eq_dec k n) as [-> | Hne].
    + rewrite Hend in Htag. injection Htag as <-. simpl in H. injection H as <-.
      split; [exact F | exact Hdone].
    + destruct (Htags k ltac:(lia)) as (t & Ht & Hnz). rewrite Ht in Htag.
      injection Htag as <-. destruct (Z.eqb_spec t DT_NULL); [contradiction | discriminate].
  - destruct (Z.eq_dec k n) as [-> | Hne].
    + rewrite Hend in Htag. injection Htag as <-. simpl in H. injection H as <-.
      split; [exact F | exact Hdone].
    + destruct (Htags k ltac:(lia)) as (t & Ht & Hnz). rewrite Ht in Htag.
      injection Htag as <-. destruct (Z.eqb_spec t DT_NULL); [contradiction |].
      apply bind_Done in H as (r & Hr & H).
      apply bind_Done in H as (s2 & Hs2 & H).
      replace (dyn_entry dyn_table k - dyn_table) with (k * sizeof_Dyn) in Hr
        by (unfold dyn_entry; ring).
      rewrite (dyn_value_frame _ _ _ _ _ _ F header_off_values) in Hr.
      replace (dyn_entry dyn_table k + sizeof_Dyn) with (dyn_entry dyn_table (k + 1)) in H
        by (unfold dyn_entry; ring).
      set (s1 := with_stderr (stderr s ++ snd r) s) in *.
      assert (F1 : frame off_values s s1) by apply frame_with_stderr.
      assert (Hval1 : forall j, dyn_val (dyn_entry dyn_table j) s1
                                = dyn_val (dyn_entry dyn_table j) s) by reflexivity.
      destruct r as [[v |] msgs]; cbn [fst snd] in *.
      * pose proof (dyn_set_frame _ _ _ _ Hs2) as F2.
        assert (F2' : frame off_values s1 s2).
        { eapply frame_weaken; [| exact F2]. intros o m Ha. apply (Ha k). lia. }
        apply (IH (k + 1) s2 st'); [lia | | | | exact H].
        -- eapply frame_trans; [exact F |]. eapply frame_trans; [exact F1 | exact F2'].
        -- intros j Hj. destruct (Z.eq_dec j k) as [-> | Hjk].
           ++ exists t, (Some v), msgs. split; [exact Ht |]. split; [exact Hr |].
              apply (dyn_val_set _ _ _ _ Hs2).
           ++ destruct (Hdone j ltac:(lia)) as (tj & rj & mj & A & B & C).
              exists tj, rj, mj. split; [exact A |]. split; [exact B |].
              rewrite <- C, <- Hval1.
              apply (dyn_val_frame _ _ _ _ F2). apply value_off_value. exact Hjk.
        -- intros j Hj. rewrite <- Hrest by lia. rewrite <- Hval1.
           apply (dyn_val_frame _ _ _ _ F2). apply value_off_value. lia.
      * injection Hs2 as <-.
        apply (IH (k + 1) s1 st'); [lia | | | | exact H].
        -- eapply frame_trans; [exact F | exact F1].
        -- intros j Hj. destruct (Z.eq_dec j k) as [-> | Hjk].
           ++ exists t, None, msgs. split; [exact Ht |]. split; [exact Hr |].
              rewrite Hval1. apply Hrest. lia.
           ++ destruct (Hdone j ltac:(lia)) as (tj & rj & mj & A & B & C).
              exists tj, rj, mj. split; [exact A |]. split; [exact B |].
              rewrite Hval1. exact C.
        -- intros j Hj. rewrite Hval1. apply Hrest. lia.
Qed.

End DynamicLoop.

(** The loop of [rewriteHeaders] over the dynamic table, for a table behind
    the ELF header with [n] entries before the DT_NULL one.  When the loop
    returns, every entry holds the value that belongs to its tag, taken from
    the section headers: a DT_STRTAB entry the address of [.dynstr], a
    DT_STRSZ entry its size, a DT_SYMTAB entry the address of [.dynsym], and
    so on as [dyn_value] lists them, converted to the width of the field; an
    entry with another tag keeps its value.  The tags, the section headers
    and every byte of the file outside the values of these entries are as
    they were. *)
Theorem update_dynamic_syncs (fuel : nat) (shdrDynamic : Elf_Shdr) (dyn_table n : Z)
    (st st' : ElfFile) :
  sizeof_Ehdr <= dyn_table -> 0 <= n ->
  (forall j, 0 <= j < n ->
     exists tag, dyn_tag (dyn_entry dyn_table j) st = Done tag /\ tag <> DT_NULL) ->
  dyn_tag (dyn_entry dyn_table n) st = Done DT_NULL ->
  update_dynamic fuel shdrDynamic dyn_table dyn_table st = Done st' ->
  shdrs st' = shdrs st
  /\ (forall j, 0 <= j <= n ->
        dyn_tag (dyn_entry dyn_table j) st' = dyn_tag (dyn_entry dyn_table j) st)
  /\ (forall j tag, 0 <= j < n -> dyn_tag (dyn_entry dyn_table j) st = Done tag ->
        exists r msgs,
          dyn_value tag (j * sizeof_Dyn) shdrDynamic st = Done (r, msgs)
          /\ dyn_val (dyn_entry dyn_table j) st'
             = match r with
               | Some v => Done (to_addr v)
               | None => dyn_val (dyn_entry dyn_table j) st
               end)
  /\ (forall j s, 0 <= j < n ->
        findSectionHeader ".dynstr" st = Done s ->
        (dyn_tag (dyn_entry dyn_table j) st = Done DT_STRTAB ->
         dyn_val (dyn_entry dyn_table j) st' = Done (to_addr (sh_addr s)))
        /\ (dyn_tag (dyn_entry dyn_table j) st = Done DT_STRSZ ->
            dyn_val (dyn_entry dyn_table j) st' = Done (to_addr (sh_size s))))
  /\ (forall o m,
        (forall j, 0 <= j < n ->
           apart (dyn_entry dyn_table j + dyn_off_un)
             (dyn_entry dyn_table j + dyn_off_un + sizeof_Off) o m) ->
        mem_read (fileContents st') o m = mem_read (fileContents st) o m).
Proof.
  intros Htable Hn Htags Hend H.
  replace dyn_table with (dyn_entry dyn_table 0) in H at 2 by (unfold dyn_entry; ring).
  destruct (update_dynamic_loop shdrDynamic dyn_table n st Htable Htags Hend
              fuel 0 st st' ltac:(lia) (frame_refl _ _)
              ltac:(intros j Hj; lia) ltac:(reflexivity) H) as [F Hsync].
  assert (Hvalue : forall j tag, 0 <= j < n ->
            dyn_tag (dyn_entry dyn_table j) st = Done tag ->
            exists r msgs,
              dyn_value tag (j * sizeof_Dyn) shdrDynamic st = Done (r, msgs)
              /\ dyn_val (dyn_entry dyn_table j) st'
                 = match r with
                   | Some v => Done (to_addr v)
                   | None => dyn_val (dyn_entry dyn_table j) st
                   end).
  { intros j tag Hj Htag. destruct (Hsync j Hj) as (t & r & msgs & A & B & C).
    rewrite A in Htag. injection Htag as <-. eauto. }
  split; [apply (frame_shdrs _ _ _ F) |].
  split; [intros j Hj; apply (dyn_tag_frame _ _ _ _ F), tag_off_values |].
  split; [exact Hvalue |].
  split; [| intros o m Ha; apply (frame_reads _ _ _ F); exact Ha].
  intros j s Hj Hs. split; intros Htag.
  - destruct (Hvalue j _ Hj Htag) as (r & msgs & Hr & Hv).
    unfold dyn_value in Hr. simpl in Hr. rewrite Hs in Hr. injection Hr as <- _.
    exact Hv.
  - destruct (Hvalue j _ Hj Htag) as (r & msgs & Hr & Hv).
    unfold dyn_value in Hr. simpl in Hr. rewrite Hs in Hr. injection Hr as <- _.
    exact Hv.
Qed.

(** ** Sorting the section headers *)

(** A section header without its cross references. *)
Definition unlinked (s : Elf_Shdr) : Elf_Shdr := with_sh_link 0 (with_sh_info 0 s).

Lemma unlinked_name (a b : Elf_Shdr) : unlinked a = unlinked b -> sh_name a = sh_name b.
Proof. intros H. apply (f_equal sh_name) in H. exact H. Qed.

Lemma unlinked_offset (a b : Elf_Shdr) : unlinked a = unlinked b -> sh_offset a = sh_offset b.
Proof. intros H. apply (f_equal sh_offset) in H. exact H. Qed.

Lemma getSectionName_sh_name (a b : Elf_Shdr) (st st' : ElfFile) :
  sh_name a = sh_name b -> sectionNames st' = sectionNames st ->
  getSectionName a st' = getSectionName b st.
Proof. intros H1 H2. unfold getSectionName. rewrite H1, H2. reflexivity. Qed.

Lemma section_name_sh_name (a b : Elf_Shdr) (st st' : ElfFile) :
  sh_name a = sh_name b -> sectionNames st' = sectionNames st ->
  section_name st' a = section_name st b.
Proof.
  intros H1 H2. unfold section_name. rewrite (getSectionName_sh_name a b st st' H1 H2).
  reflexivity.
Qed.

Lemma section_name_Done (s : Elf_Shdr) (st : ElfFile) (nm : string) :
  getSectionName s st = Done nm -> section_name st s = nm.
Proof. intros H. unfold section_name. rewrite H. reflexivity. Qed.

(** The search for a name looks at the names of the sections only. *)
Lemma getSectionIndex_loop_names (name : string) (shnum : Z) (st st' : ElfFile) :
  sectionNames st' = sectionNames st ->
  forall rest rest' i,
    sh_name <$> rest' = sh_name <$> rest ->
    getSectionIndex_loop name shnum st' i rest' = getSectionIndex_loop name shnum st i rest.
Proof.
  intros Hn. induction rest as [| a rest IH]; intros [| b rest'] i H; try discriminate H;
    simpl; [reflexivity |].
  injection H as Hab Hrest. destruct (i <? shnum); [| reflexivity].
  rewrite (getSectionName_sh_name b a st st' Hab Hn).
  destruct (getSectionName a st); simpl; try reflexivity.
  destruct (decide (a0 = name)); [reflexivity | apply IH, Hrest].
Qed.

Lemma getSectionIndex_names (name : string) (st st' : ElfFile) :
  sectionNames st' = sectionNames st -> hdr_get e_shnum st' = hdr_get e_shnum st ->
  sh_name <$> shdrs st' = sh_name <$> shdrs st ->
  getSectionIndex name st' = getSectionIndex name st.
Proof.
  intros Hn Hs Hl. unfold getSectionIndex. rewrite Hs.
  destruct (hdr_get e_shnum st); simpl; try reflexivity.
  apply getSectionIndex_loop_names; [exact Hn |].
  rewrite !fmap_drop, Hl. reflexivity.
Qed.

(** A search that returns 0 has read the name of every section in its
    range and found another one. *)
Lemma getSectionIndex_loop_zero (name : string) (shnum : Z) (st : ElfFile)
    (rest : list Elf_Shdr) :
  forall i, 0 < i ->
    getSectionIndex_loop name shnum st i rest = Done 0 ->
    forall k s, rest !! k = Some s -> i + Z.of_nat k < shnum ->
      exists nm, getSectionName s st = Done nm /\ nm <> name.
Proof.
  induction rest as [| a rest IH]; intros i Hi H k s Hs Hk.
  - rewrite lookup_nil in Hs. discriminate Hs.
  - simpl in H. destruct (Z.ltb_spec i shnum); [| lia].
    bind_inv H. destruct (decide (a0 = name)) as [-> | Hne]; [injection H as H; lia |].
    destruct k as [| k]; simpl in Hs.
    + injection Hs as <-. eauto.
    + apply (IH (i + 1) ltac:(lia) H k s Hs). lia.
Qed.

(** The sections from index 1 on have pairwise different names. *)
Definition distinct_names (st : ElfFile) : Prop :=
  NoDup (section_name st <$> drop 1 (shdrs st)).

Lemma distinct_names_eq (st : ElfFile) (i j : nat) (a b : Elf_Shdr) :
  distinct_names st -> (1 <= i)%nat -> (1 <= j)%nat ->
  shdrs st !! i = Some a -> shdrs st !! j = Some b ->
  section_name st a = section_name st b -> i = j.
Proof.
  intros Hd Hi Hj Ha Hb Hab.
  assert (E : (i - 1 = j - 1)%nat); [| lia].
  apply (NoDup_lookup _ _ _ (section_name st a) Hd).
  - rewrite list_lookup_fmap, lookup_drop.
    replace (1 + (i - 1))%nat with i by lia. rewrite Ha. reflexivity.
  - rewrite list_lookup_fmap, lookup_drop.
    replace (1 + (j - 1))%nat with j by lia. rewrite Hb, Hab. reflexivity.
Qed.

(** With distinct names, a search that returns gives the index of the
    section that has the name. *)
Lemma getSectionIndex_unique (name : string) (st : ElfFile) (shnum r : Z) (q : nat)
    (x : Elf_Shdr) :
  distinct_names st -> hdr_get e_shnum st = Done shnum ->
  getSectionIndex name st = Done r ->
  1 <= Z.of_nat q < shnum -> shdrs st !! q = Some x -> getSectionName x st = Done name ->
  r = Z.of_nat q.
Proof.
  intros Hd Hshnum Hr Hq Hx Hname.
  destruct (Z.eq_dec r 0) as [-> | Hnz].
  - unfold getSectionIndex in Hr. rewrite Hshnum in Hr. simpl in Hr.
    destruct (getSectionIndex_loop_zero _ _ _ _ 1 ltac:(lia) Hr (q - 1)%nat x)
      as (nm & Hnm & Hne); [| lia |].
    + rewrite lookup_drop. replace (1 + (q - 1))%nat with q by lia. exact Hx.
    + rewrite Hname in Hnm. injection Hnm as <-. contradiction.
  - destruct (getSectionIndex_found _ _ _ Hr Hnz) as (Hpos & y & Hy & Hyn).
    assert (E : Z.to_nat r = q); [| lia].
    apply (distinct_names_eq st (Z.to_nat r) q y x Hd); try lia; try assumption.
    rewrite (section_name_Done _ _ _ Hyn), (section_name_Done _ _ _ Hname). reflexivity.
Qed.

(** *** The cross references by name *)

(** What the loops that record cross references by name have in their map
    for the section [o] at an index of [idx], when the names of the sections
    at these indices are pairwise different. *)
Lemma record_names_spec (sel : Elf_Shdr -> bool) (fld : Elf_Shdr -> Z) (st : ElfFile)
    (idx : list Z) :
  forall m0 m,
    foldl (record_name sel fld st) (ret m0) idx = Done m ->
    (forall i j a b, i ∈ idx -> j ∈ idx -> i <> j ->
       vec_at (shdrs st) i = Done a -> vec_at (shdrs st) j = Done b ->
       section_name st a <> section_name st b) ->
    NoDup idx ->
    forall i o, i ∈ idx -> vec_at (shdrs st) i = Done o -> sel o = true ->
      exists t nm tn,
        vec_at (shdrs st) (fld o) = Done t
        /\ getSectionName o st = Done nm /\ getSectionName t st = Done tn
        /\ m !! nm = Some tn.
Proof.
  induction idx as [| k idx IH] using rev_ind; intros m0 m H Hdist Hnd i o Hi Ho Hsel.
  - apply elem_of_nil in Hi. contradiction.
  - rewrite foldl_app in H. simpl in H. unfold record_name at 1 in H.
    apply bind_Done in H as (m1 & Hm1 & H).
    apply bind_Done in H as (shdr & Hshdr & H).
    apply NoDup_app in Hnd as (Hnd & Hnot & _).
    assert (Hdist' : forall i j a b, i ∈ idx -> j ∈ idx -> i <> j ->
              vec_at (shdrs st) i = Done a -> vec_at (shdrs st) j = Done b ->
              section_name st a <> section_name st b).
    { intros i' j' a b Hi' Hj'. apply Hdist; apply elem_of_app; left; assumption. }
    apply elem_of_app in Hi as [Hi | Hi].
    + destruct (IH m0 m1 Hm1 Hdist' Hnd i o Hi Ho Hsel) as (t & nm & tn & Ht & Hnm & Htn & Hl).
      exists t, nm, tn. split; [exact Ht |]. split; [exact Hnm |]. split; [exact Htn |].
      destruct (sel shdr); [| injection H as <-; exact Hl].
      apply bind_Done in H as (target & Htarget & H).
      apply bind_Done in H as (v & Hv & H).
      apply bind_Done in H as (kname & Hkname & H). injection H as <-.
      rewrite lookup_insert_ne; [exact Hl |].
      intros ->.
      apply (Hdist i k o shdr); try assumption.
      * apply elem_of_app. left. exact Hi.
      * apply elem_of_app. right. apply list_elem_of_singleton. reflexivity.
      * intros ->. apply (Hnot k Hi). apply list_elem_of_singleton. reflexivity.
      * rewrite (section_name_Done _ _ _ Hnm), (section_name_Done _ _ _ Hkname). reflexivity.
    + apply list_elem_of_singleton in Hi. subst i. rewrite Ho in Hshdr. injection Hshdr as <-.
      rewrite Hsel in H.
      apply bind_Done in H as (target & Htarget & H).
      apply bind_Done in H as (v & Hv & H).
      apply bind_Done in H as (kname & Hkname & H). injection H as <-.
      exists target, kname, v. split; [exact Htarget |]. split; [exact Hkname |].
      split; [exact Hv |]. apply lookup_insert_eq.
Qed.

(** *** The loops that restore a cross reference *)

Section Restore.

Variables (sel : Elf_Shdr -> bool) (upd : Z -> Elf_Shdr -> Elf_Shdr)
  (tgt : string -> string -> Prop) (body : Z -> ElfFile -> outcome ElfFile).

Hypothesis upd_unlinked : forall r x, unlinked (upd r x) = unlinked x.

Hypothesis body_spec : forall i s s',
  body i s = Done s' ->
  exists x, 0 <= i /\ shdrs s !! Z.to_nat i = Some x
    /\ if sel x
       then exists nm v r,
              getSectionName x s = Done nm /\ tgt nm v /\ getSectionIndex v s = Done r
              /\ s' = set_shdr i (upd r x) s
       else s' = s.

(** The header [y] that the loop leaves for the header [x] of [st0]. *)
Definition restored (st0 : ElfFile) (x : Elf_Shdr) (y : option Elf_Shdr) : Prop :=
  if sel x
  then exists nm v r,
         getSectionName x st0 = Done nm /\ tgt nm v /\ getSectionIndex v st0 = Done r
         /\ y = Some (upd r x)
  else y = Some x.

Lemma restore_loop (st0 st1 : ElfFile) (shnum : Z) :
  hdr_get e_shnum st0 = Done shnum ->
  for_shnum 1 body st0 = Done st1 ->
  exists L,
    st1 = with_shdrs L st0
    /\ unlinked <$> L = unlinked <$> shdrs st0
    /\ (forall k : nat, k = 0%nat \/ shnum <= Z.of_nat k -> L !! k = shdrs st0 !! k)
    /\ (forall (k : nat) x, 1 <= Z.of_nat k < shnum -> shdrs st0 !! k = Some x ->
          restored st0 x (L !! k)).
Proof.
  intros Hn H.
  pose (I := fun (i : Z) (s : ElfFile) =>
               1 <= i /\ exists L,
                 s = with_shdrs L st0
                 /\ unlinked <$> L = unlinked <$> shdrs st0
                 /\ (forall k : nat, k = 0%nat \/ i <= Z.of_nat k -> L !! k = shdrs st0 !! k)
                 /\ (forall (k : nat) x, 1 <= Z.of_nat k < i -> shdrs st0 !! k = Some x ->
                       restored st0 x (L !! k))).
  assert (Hstart : I 1 st0).
  { split; [lia |]. exists (shdrs st0). split; [destruct st0; reflexivity |].
    split; [reflexivity |]. split; [reflexivity |]. intros k x Hk. lia. }
  destruct (Z.lt_ge_cases shnum 1) as [Hsmall | Hbig].
  { assert (Hst : st1 = st0).
    { unfold for_shnum in H.
      destruct (length (shdrs st0)); simpl in H; unfold id in H; rewrite Hn in H;
        simpl in H; (destruct (Z.ltb_spec 1 shnum); [lia |]); injection H as <-; reflexivity. }
    subst st1. destruct Hstart as (_ & L & HL & Hu & Hrest & _).
    exists L. split; [exact HL |]. split; [exact Hu |].
    split; [intros k Hk; apply Hrest; lia | intros k x Hk; lia]. }
  assert (Hend : I shnum st1); [| destruct Hend as [_ Hend]; exact Hend].
  unfold for_shnum in H.
  apply (for_header_inv id e_shnum body I shnum) with (5 := H); [| | exact Hstart | exact Hbig].
  - intros i s (_ & L & -> & _). exact Hn.
  - intros i s s' (Hi & L & -> & Hu & Hrest & Hdone) Hlt Hbody. split; [lia |].
    destruct (body_spec _ _ _ Hbody) as (x & _ & Hx & Hcase).
    cbn [shdrs with_shdrs] in Hx.
    assert (Hx0 : shdrs st0 !! Z.to_nat i = Some x) by (rewrite <- Hrest by lia; exact Hx).
    assert (Hnames : sh_name <$> L = sh_name <$> shdrs st0).
    { apply (f_equal (fmap sh_name)) in Hu. rewrite <- !list_fmap_compose in Hu. exact Hu. }
    destruct (sel x) eqn:Hsel.
    + destruct Hcase as (nm & v & r & Hnm & Htgt & Hr & ->).
      exists (<[Z.to_nat i := upd r x]> L). split; [reflexivity |].
      split.
      { rewrite list_fmap_insert, upd_unlinked. rewrite list_insert_id; [exact Hu |].
        rewrite list_lookup_fmap, Hx. reflexivity. }
      split.
      { intros k Hk. rewrite list_lookup_insert_ne by lia. apply Hrest. lia. }
      intros k y Hk Hy. destruct (decide (k = Z.to_nat i)) as [-> | Hne].
      * rewrite Hx0 in Hy. injection Hy as <-. unfold restored. rewrite Hsel.
        exists nm, v, r. split; [exact Hnm |]. split; [exact Htgt |].
        split; [| apply list_lookup_insert_eq, lookup_lt_is_Some; eauto].
        rewrite <- Hr. symmetry. apply getSectionIndex_names; [reflexivity | reflexivity |].
        exact Hnames.
      * rewrite list_lookup_insert_ne by congruence. apply Hdone; [lia | exact Hy].
    + subst s'. exists L. split; [reflexivity |]. split; [exact Hu |].
      split; [intros k Hk; apply Hrest; lia |].
      intros k y Hk Hy. destruct (decide (k = Z.to_nat i)) as [-> | Hne].
      * rewrite Hx0 in Hy. injection Hy as <-. unfold restored. rewrite Hsel. exact Hx.
      * apply Hdone; [lia | exact Hy].
Qed.

End Restore.

Lemma restore_link_spec (linkage : gmap string string) (i : Z) (s s' : ElfFile) :
  restore_link linkage i s = Done s' ->
  exists x, 0 <= i /\ shdrs s !! Z.to_nat i = Some x
    /\ if sel_link x
       then exists nm v r,
              getSectionName x s = Done nm /\ v = default EmptyString (linkage !! nm)
              /\ getSectionIndex v s = Done r
              /\ s' = set_shdr i (with_sh_link r x) s
       else s' = s.
Proof.
  unfold restore_link. intros H. apply bind_Done in H as (x & Hx & H).
  unfold vec_index in Hx. destruct (Z.leb_spec 0 i); [| discriminate].
  destruct (shdrs s !! Z.to_nat i) as [y |] eqn:Hy; [| discriminate]. injection Hx as ->.
  exists x. split; [lia |]. split; [reflexivity |].
  destruct (sel_link x); [| injection H as <-; reflexivity].
  apply bind_Done in H as (nm & Hnm & H). apply bind_Done in H as (r & Hr & H).
  injection H as <-. exists nm, (default EmptyString (linkage !! nm)), r. auto.
Qed.

Lemma restore_info_spec (info : gmap string string) (i : Z) (s s' : ElfFile) :
  restore_info info i s = Done s' ->
  exists x, 0 <= i /\ shdrs s !! Z.to_nat i = Some x
    /\ if sel_info x
       then exists nm v r,
              getSectionName x s = Done nm /\ info !! nm = Some v
              /\ getSectionIndex v s = Done r
              /\ s' = set_shdr i (with_sh_info r x) s
       else s' = s.
Proof.
  unfold restore_info. intros H. apply bind_Done in H as (x & Hx & H).
  unfold vec_at in Hx. destruct (Z.leb_spec 0 i); [| discriminate].
  destruct (shdrs s !! Z.to_nat i) as [y |] eqn:Hy; [| discriminate]. injection Hx as ->.
  exists x. split; [lia |]. split; [reflexivity |].
  destruct (sel_info x); [| injection H as <-; reflexivity].
  apply bind_Done in H as (nm & Hnm & H).
  destruct (info !! nm) as [v |] eqn:Hv; [| discriminate].
  apply bind_Done in H as (r & Hr & H).
  injection H as <-. exists nm, v, r. auto.
Qed.

Lemma with_sh_link_unlinked (r : Z) (x : Elf_Shdr) : unlinked (with_sh_link r x) = unlinked x.
Proof. destruct x. reflexivity. Qed.

Lemma with_sh_info_unlinked (r : Z) (x : Elf_Shdr) : unlinked (with_sh_info r x) = unlinked x.
Proof. destruct x. reflexivity. Qed.

(** The loop that restores [e_shstrndx]: the field ends as the index of a
    section at the offset of the old string table, if there is one among
    the sections 1 to [e_shnum - 1], and nothing else changes. *)
Lemma restore_shstrndx_loop (shstrtab : Elf_Shdr) (st0 st1 : ElfFile) (shnum : Z) :
  hdr_get e_shnum st0 = Done shnum ->
  for_shnum 1 (restore_shstrndx shstrtab) st0 = Done st1 ->
  exists c,
    st1 = with_fileContents c st0
    /\ (forall f, f <> e_shstrndx -> hdr_get f st1 = hdr_get f st0)
    /\ ((hdr_get e_shstrndx st1 = hdr_get e_shstrndx st0
         /\ forall (k : nat) x, 1 <= Z.of_nat k < shnum -> shdrs st0 !! k = Some x ->
              sh_offset x <> sh_offset shstrtab)
        \/ exists (k : nat) x,
             1 <= Z.of_nat k < shnum /\ shdrs st0 !! k = Some x
             /\ sh_offset x = sh_offset shstrtab
             /\ hdr_get e_shstrndx st1 = Done (Z.of_nat k)).
Proof.
  intros Hn H.
  pose proof (hdr_get_range _ _ _ Hn) as Hrange. unfold ehdr_size in Hrange.
  pose (I := fun (i : Z) (s : ElfFile) =>
               1 <= i /\ exists c,
                 s = with_fileContents c st0
                 /\ (forall f, f <> e_shstrndx -> hdr_get f s = hdr_get f st0)
                 /\ ((hdr_get e_shstrndx s = hdr_get e_shstrndx st0
                      /\ forall (k : nat) x, 1 <= Z.of_nat k < i -> shdrs st0 !! k = Some x ->
                           sh_offset x <> sh_offset shstrtab)
                     \/ exists (k : nat) x,
                          1 <= Z.of_nat k < i /\ shdrs st0 !! k = Some x
                          /\ sh_offset x = sh_offset shstrtab
                          /\ hdr_get e_shstrndx s = Done (Z.of_nat k))).
  assert (Hstart : I 1 st0).
  { split; [lia |]. exists (fileContents st0).
    split; [symmetry; apply with_fileContents_id |]. split; [reflexivity |].
    left. split; [reflexivity |]. intros k x Hk. lia. }
  destruct (Z.lt_ge_cases shnum 1) as [Hsmall | Hbig].
  { assert (Hst : st1 = st0).
    { unfold for_shnum in H.
      destruct (length (shdrs st0)); simpl in H; unfold id in H; rewrite Hn in H;
        simpl in H; (destruct (Z.ltb_spec 1 shnum); [lia |]); injection H as <-; reflexivity. }
    subst st1. exists (fileContents st0).
    split; [symmetry; apply with_fileContents_id |]. split; [reflexivity |].
    left. split; [reflexivity |]. intros k x Hk. lia. }
  assert (Hend : I shnum st1); [| destruct Hend as [_ Hend]; exact Hend].
  unfold for_shnum in H.
  apply (for_header_inv id e_shnum (restore_shstrndx shstrtab) I shnum) with (5 := H);
    [| | exact Hstart | exact Hbig].
  - intros i s (_ & c & _ & Hget & _). unfold id. rewrite Hget by discriminate. exact Hn.
  - intros i s s' (Hi & c & -> & Hget & Hcase) Hlt Hbody. split; [lia |].
    unfold restore_shstrndx in Hbody. apply bind_Done in Hbody as (x & Hx & Hbody).
    cbn [shdrs with_fileContents] in Hx. unfold vec_at in Hx.
    destruct (Z.leb_spec 0 i); [| lia].
    destruct (shdrs st0 !! Z.to_nat i) as [y |] eqn:Hy; [| discriminate]. injection Hx as ->.
    destruct (Z.eqb_spec (sh_offset x) (sh_offset shstrtab)) as [Heq | Hne].
    + destruct (hdr_set_tail _ _ _ _ Hbody) as (c' & -> & _ & _).
      exists c'. split; [reflexivity |].
      split.
      { intros f Hf. rewrite <- (Hget f Hf). apply (hdr_get_other f e_shstrndx _ _ _ Hf Hbody). }
      right. exists (Z.to_nat i), x. split; [lia |]. split; [exact Hy |].
      split; [exact Heq |].
      rewrite (hdr_get_same _ _ _ _ Hbody). f_equal. unfold ehdr_size.
      rewrite wrap_small by lia. lia.
    + injection Hbody as <-. exists c. split; [reflexivity |]. split; [exact Hget |].
      destruct Hcase as [[Hsame Hnone] | (k & z & Hk & Hz & Hoff & Hidx)].
      * left. split; [exact Hsame |]. intros k z Hk Hz.
        destruct (decide (k = Z.to_nat i)) as [-> | Hki].
        -- rewrite Hy in Hz. injection Hz as <-. exact Hne.
        -- apply (Hnone k z); [lia | exact Hz].
      * right. exists k, z. split; [lia |]. auto.
Qed.

Lemma fmap_related {A B C : Type} (f : A -> B) (g g' : A -> C) :
  (forall a b, f a = f b -> g' a = g b) ->
  forall l l' : list A, f <$> l' = f <$> l -> g' <$> l' = g <$> l.
Proof.
  intros Hrel. induction l as [| b l IH]; intros [| a l'] H; try discriminate H;
    [reflexivity |].
  rewrite !fmap_cons in H. injection H as Hab Hl. rewrite !fmap_cons.
  f_equal; [apply Hrel, Hab | apply IH, Hl].
Qed.

Lemma lookup_unlinked (l l' : list Elf_Shdr) (j : nat) (z : Elf_Shdr) :
  unlinked <$> l' = unlinked <$> l -> l !! j = Some z ->
  exists y, l' !! j = Some y /\ unlinked y = unlinked z.
Proof.
  intros H Hz. apply (f_equal (fun m => m !! j)) in H.
  rewrite !list_lookup_fmap, Hz in H.
  destruct (l' !! j) as [y |]; [| discriminate H].
  exists y. split; [reflexivity |]. apply (f_equal (default z)) in H. exact H.
Qed.

(** The states of [sortShdrs]: the headers after the sort, after the loop
    that restores [sh_link] and after the one that restores [sh_info]. *)
Lemma sortShdrs_Done (st st' : ElfFile) :
  sortShdrs st = Done st' ->
  exists linkage info strndx shstrtab null rest L1 L2 c,
    let sorted := stable_sort CompShdr rest in
    let st_s := with_shdrs (null :: sorted) st in
    let st_l := with_shdrs L1 st in
    collect_names sel_link sh_link st = Done linkage
    /\ collect_names sel_info sh_info st = Done info
    /\ hdr_get e_shstrndx st = Done strndx
    /\ vec_at (shdrs st) strndx = Done shstrtab
    /\ shdrs st = null :: rest
    /\ for_shnum 1 (restore_link linkage) st_s = Done st_l
    /\ for_shnum 1 (restore_info info) st_l = Done (with_shdrs L2 st)
    /\ for_shnum 1 (restore_shstrndx shstrtab) (with_shdrs L2 st) = Done st'
    /\ st' = with_fileContents c (with_shdrs L2 st).
Proof.
  unfold sortShdrs. intros H.
  apply bind_Done in H as (linkage & Hlinkage & H).
  apply bind_Done in H as (info & Hinfo & H).
  apply bind_Done in H as (strndx & Hstrndx & H).
  apply bind_Done in H as (shstrtab & Hshstrtab & H).
  apply bind_Done in H as (st_s & Hs & H).
  apply bind_Done in H as (st_l & Hl & H).
  apply bind_Done in H as (st_i & Hi & H).
  destruct (shdrs st) as [| null rest] eqn:Hshdrs; [discriminate Hs |].
  injection Hs as <-.
  destruct (for_header_bound _ _ _ _ _ _ _ Hl) as (n1 & Hn1).
  destruct (restore_loop sel_link with_sh_link
              (fun nm v => v = default EmptyString (linkage !! nm)) (restore_link linkage)
              with_sh_link_unlinked (restore_link_spec linkage) _ _ _ Hn1 Hl)
    as (L1 & -> & _).
  destruct (for_header_bound _ _ _ _ _ _ _ Hi) as (n2 & Hn2).
  destruct (restore_loop sel_info with_sh_info (fun nm v => info !! nm = Some v)
              (restore_info info) with_sh_info_unlinked (restore_info_spec info)
              _ _ _ Hn2 Hi)
    as (L2 & -> & _).
  destruct (for_header_bound _ _ _ _ _ _ _ H) as (n3 & Hn3).
  destruct (restore_shstrndx_loop _ _ _ _ Hn3 H) as (c & Hc & _).
  exists linkage, info, strndx, shstrtab, null, rest, L1, L2, c. cbv zeta.
  repeat split; assumption.
Qed.

Lemma stable_sort_position (null : Elf_Shdr) (rest : list Elf_Shdr) (k : nat) (o : Elf_Shdr) :
  (1 <= k)%nat -> (null :: rest) !! k = Some o ->
  exists p : nat,
    (1 <= p)%nat /\ (null :: stable_sort CompShdr rest) !! p = Some o
    /\ (p < S (length rest))%nat.
Proof.
  intros Hk Ho. destruct k as [| k]; [lia |]. simpl in Ho.
  apply list_elem_of_lookup_2 in Ho.
  pose proof (stable_sort_Permutation CompShdr rest) as Hperm.
  rewrite <- Hperm in Ho. apply list_elem_of_lookup_1 in Ho as [p Hp].
  exists (S p). split; [lia |]. split; [exact Hp |].
  apply lookup_lt_Some in Hp. pose proof (Permutation_length Hperm). lia.
Qed.

Lemma seqZ_sections (st : ElfFile) (shnum : Z) (i j : Z) (a b : Elf_Shdr) :
  distinct_names st ->
  i ∈ seqZ 1 (shnum - 1) -> j ∈ seqZ 1 (shnum - 1) -> i <> j ->
  vec_at (shdrs st) i = Done a -> vec_at (shdrs st) j = Done b ->
  section_name st a <> section_name st b.
Proof.
  intros Hd Hi Hj Hne Ha Hb Heq.
  apply elem_of_seqZ in Hi, Hj.
  unfold vec_at in Ha, Hb.
  destruct (0 <=? i); [| discriminate]. destruct (0 <=? j); [| discriminate].
  destruct (shdrs st !! Z.to_nat i) as [x |] eqn:Hx; [| discriminate]. injection Ha as ->.
  destruct (shdrs st !! Z.to_nat j) as [y |] eqn:Hy; [| discriminate]. injection Hb as ->.
  assert (Z.to_nat i = Z.to_nat j); [| lia].
  apply (distinct_names_eq st (Z.to_nat i) (Z.to_nat j) a b Hd);
    [lia | lia | exact Hx | exact Hy | exact Heq].
Qed.

Lemma vec_at_lookup {A : Type} (l : list A) (k : nat) (x : A) :
  l !! k = Some x -> vec_at l (Z.of_nat k) = Done x.
Proof.
  intros H. unfold vec_at. destruct (Z.leb_spec 0 (Z.of_nat k)); [| lia].
  rewrite Nat2Z.id, H. reflexivity.
Qed.

Lemma vec_at_Done {A : Type} (l : list A) (i : Z) (x : A) :
  vec_at l i = Done x -> 0 <= i /\ l !! Z.to_nat i = Some x.
Proof.
  unfold vec_at. intros H. destruct (Z.leb_spec 0 i); [| discriminate].
  destruct (l !! Z.to_nat i); [| discriminate]. injection H as ->. split; [lia | reflexivity].
Qed.

(** [sortShdrs] on an object whose section header table has the [e_shnum]
    entries the ELF header announces, the sections from index 1 on having
    pairwise different names.  When it returns, header 0 is where it was and
    the other headers are the old ones in another order, up to their
    [sh_link] and [sh_info].  A section whose [sh_link] was not 0 has, at its
    new index, the new index of the section it was linked to, which is not 0;
    a SHT_REL or SHT_RELA section whose [sh_info] was not 0 likewise has the
    new index of the section its [sh_info] named.  If [e_shstrndx] was not 0,
    it is now the index of a section at the offset of the old section name
    table.  The other fields of the ELF header are as they were. *)
Theorem sortShdrs_keeps_references (st st' : ElfFile) (shnum : Z) :
  sortShdrs st = Done st' ->
  hdr_get e_shnum st = Done shnum -> Z.of_nat (length (shdrs st)) = shnum ->
  distinct_names st ->
  shdrs st' !! 0%nat = shdrs st !! 0%nat
  /\ unlinked <$> drop 1 (shdrs st') ≡ₚ unlinked <$> drop 1 (shdrs st)
  /\ (forall f, f <> e_shstrndx -> hdr_get f st' = hdr_get f st)
  /\ (forall (k : nat) o, (1 <= k)%nat -> shdrs st !! k = Some o -> sh_link o <> 0 ->
        exists t (p q : nat) o' t',
          shdrs st !! Z.to_nat (sh_link o) = Some t
          /\ (1 <= p)%nat /\ shdrs st' !! p = Some o' /\ unlinked o' = unlinked o
          /\ (1 <= q)%nat /\ shdrs st' !! q = Some t' /\ unlinked t' = unlinked t
          /\ sh_link o' = Z.of_nat q)
  /\ (forall (k : nat) o, (1 <= k)%nat -> shdrs st !! k = Some o -> sh_info o <> 0 ->
        sh_type o = SHT_REL \/ sh_type o = SHT_RELA ->
        exists t (p q : nat) o' t',
          shdrs st !! Z.to_nat (sh_info o) = Some t
          /\ (1 <= p)%nat /\ shdrs st' !! p = Some o' /\ unlinked o' = unlinked o
          /\ (1 <= q)%nat /\ shdrs st' !! q = Some t' /\ unlinked t' = unlinked t
          /\ sh_info o' = Z.of_nat q)
  /\ (forall strndx s, hdr_get e_shstrndx st = Done strndx -> 1 <= strndx ->
        shdrs st !! Z.to_nat strndx = Some s ->
        exists (k : nat) s',
          hdr_get e_shstrndx st' = Done (Z.of_nat k) /\ (1 <= k)%nat
          /\ shdrs st' !! k = Some s' /\ sh_offset s' = sh_offset s).
Proof.
  intros H Hshnum Hlen Hd.
  destruct (sortShdrs_Done _ _ H)
    as (linkage & info & strndx & shstrtab & null & rest & L1 & L2 & c & Hlinkage & Hinfo
        & Hstrndx & Hshstrtab & Hshdrs & Hl & Hi & Hx & ->).
  set (sorted := stable_sort CompShdr rest) in *.
  set (S0 := null :: sorted) in *.
  pose proof (stable_sort_Permutation CompShdr rest : sorted ≡ₚ rest) as Hperm.
  assert (Hlen0 : Z.of_nat (length S0) = shnum).
  { unfold S0. simpl. rewrite (Permutation_length Hperm). rewrite Hshdrs in Hlen. exact Hlen. }
  (* the two loops over the sorted headers *)
  destruct (restore_loop sel_link with_sh_link
              (fun nm v => v = default EmptyString (linkage !! nm)) (restore_link linkage)
              with_sh_link_unlinked (restore_link_spec linkage)
              (with_shdrs S0 st) (with_shdrs L1 st) shnum Hshnum Hl)
    as (L1' & E1 & Hu1 & Hrest1 & Hdone1).
  assert (L1' = L1) by (apply (f_equal shdrs) in E1; symmetry; exact E1). subst L1'. clear E1.
  destruct (restore_loop sel_info with_sh_info (fun nm v => info !! nm = Some v)
              (restore_info info) with_sh_info_unlinked (restore_info_spec info)
              (with_shdrs L1 st) (with_shdrs L2 st) shnum Hshnum Hi)
    as (L2' & E2 & Hu2 & Hrest2 & Hdone2).
  assert (L2' = L2) by (apply (f_equal shdrs) in E2; symmetry; exact E2). subst L2'. clear E2.
  cbn [shdrs with_shdrs with_fileContents] in *.
  assert (Hu : unlinked <$> L2 = unlinked <$> S0) by (rewrite Hu2; exact Hu1).
  (* names *)
  assert (Hd0 : distinct_names (with_shdrs S0 st)).
  { unfold distinct_names in *. rewrite Hshdrs in Hd.
    change (NoDup (section_name st <$> rest)) in Hd.
    change (NoDup (section_name st <$> sorted)).
    rewrite Hperm. exact Hd. }
  assert (Hd1 : distinct_names (with_shdrs L1 st)).
  { unfold distinct_names in *. cbn [shdrs with_shdrs] in *.
    rewrite <- (fmap_related unlinked (section_name (with_shdrs S0 st))
                  (section_name (with_shdrs L1 st))
                  (fun a b E => section_name_sh_name a b _ _ (unlinked_name a b E) eq_refl)
                  (drop 1 S0) (drop 1 L1)) in Hd0; [exact Hd0 |].
    rewrite !fmap_drop, Hu1. reflexivity. }
  (* where the headers of [st] are after the sort *)
  assert (Hpos : forall (k : nat) o, (1 <= k)%nat -> shdrs st !! k = Some o ->
            exists p : nat, (1 <= p)%nat /\ S0 !! p = Some o /\ 1 <= Z.of_nat p < shnum).
  { intros k o Hk Ho. rewrite Hshdrs in Ho.
    destruct (stable_sort_position null rest k o Hk Ho) as (p & Hp1 & Hp & Hp2).
    exists p. split; [exact Hp1 |]. split; [exact Hp |].
    rewrite Hshdrs in Hlen. simpl in Hlen. lia. }
  assert (Hfold : forall sel fld m,
            collect_names sel fld st = Done m ->
            forall (k : nat) o, (1 <= k)%nat -> shdrs st !! k = Some o -> sel o = true ->
              exists t nm tn,
                vec_at (shdrs st) (fld o) = Done t
                /\ getSectionName o st = Done nm /\ getSectionName t st = Done tn
                /\ m !! nm = Some tn).
  { intros sel fld m Hm k o Hk Ho Hsel. unfold collect_names in Hm.
    rewrite Hshnum in Hm. simpl in Hm.
    apply (record_names_spec sel fld st (seqZ 1 (shnum - 1)) ∅ m Hm) with (i := Z.of_nat k).
    - intros i j a b. apply (seqZ_sections st shnum i j a b Hd).
    - apply NoDup_seqZ.
    - apply elem_of_seqZ. apply lookup_lt_Some in Ho. lia.
    - apply vec_at_lookup, Ho.
    - exact Hsel. }
  split.
  { rewrite Hrest2, Hrest1 by (left; reflexivity). rewrite Hshdrs. reflexivity. }
  split.
  { rewrite !fmap_drop, Hu, Hshdrs.
    change (unlinked <$> sorted ≡ₚ unlinked <$> rest). apply fmap_Permutation, Hperm. }
  destruct (restore_shstrndx_loop shstrtab (with_shdrs L2 st) _ shnum Hshnum Hx)
    as (c' & _ & Hother & Hndx).
  split; [exact Hother |].
  split.
  { intros k o Hk Ho Hlink.
    assert (Hsel : sel_link o = true).
    { unfold sel_link. destruct (Z.eqb_spec (sh_link o) 0); [contradiction | reflexivity]. }
    destruct (Hfold sel_link sh_link linkage Hlinkage k o Hk Ho Hsel)
      as (t & nm & tn & Ht & Hnm & Htn & Hlk).
    apply vec_at_Done in Ht as (Ht0 & Ht).
    destruct (Hpos k o Hk Ho) as (p & Hp1 & Hp & Hp2).
    destruct (Hpos (Z.to_nat (sh_link o)) t ltac:(lia) Ht) as (q & Hq1 & Hq & Hq2).
    pose proof (Hdone1 p o Hp2 Hp) as Hr. unfold restored in Hr. rewrite Hsel in Hr.
    destruct Hr as (nm' & v & r & Hnm' & -> & Hr & HL1).
    change (getSectionName o st = Done nm') in Hnm'.
    rewrite Hnm in Hnm'. injection Hnm' as <-. rewrite Hlk in Hr. simpl in Hr.
    pose proof (getSectionIndex_unique tn (with_shdrs S0 st) shnum r q t Hd0 Hshnum Hr
                  Hq2 Hq Htn) as ->.
    destruct (lookup_unlinked S0 L2 q t Hu Hq) as (t' & Ht' & Hut).
    exists t, p, q.
    pose proof (Hdone2 p _ Hp2 HL1) as Hr2. unfold restored in Hr2.
    destruct (sel_info (with_sh_link (Z.of_nat q) o)).
    - destruct Hr2 as (? & ? & r2 & _ & _ & _ & HL2).
      exists (with_sh_info r2 (with_sh_link (Z.of_nat q) o)), t'.
      split; [exact Ht |]. split; [exact Hp1 |]. split; [exact HL2 |].
      split; [rewrite with_sh_info_unlinked; apply with_sh_link_unlinked |].
      split; [exact Hq1 |]. split; [exact Ht' |]. split; [exact Hut | reflexivity].
    - exists (with_sh_link (Z.of_nat q) o), t'.
      split; [exact Ht |]. split; [exact Hp1 |]. split; [exact Hr2 |].
      split; [apply with_sh_link_unlinked |].
      split; [exact Hq1 |]. split; [exact Ht' |]. split; [exact Hut | reflexivity]. }
  split.
  { intros k o Hk Ho Hinf Htype.
    assert (Hsel : sel_info o = true).
    { unfold sel_info. destruct (Z.eqb_spec (sh_info o) 0); [contradiction |]. simpl.
      destruct Htype as [-> | ->]; [reflexivity | apply orb_true_r]. }
    destruct (Hfold sel_info sh_info info Hinfo k o Hk Ho Hsel)
      as (t & nm & tn & Ht & Hnm & Htn & Hlk).
    apply vec_at_Done in Ht as (Ht0 & Ht).
    destruct (Hpos k o Hk Ho) as (p & Hp1 & Hp & Hp2).
    destruct (Hpos (Z.to_nat (sh_info o)) t ltac:(lia) Ht) as (q & Hq1 & Hq & Hq2).
    assert (Hx1 : exists x, L1 !! p = Some x /\ unlinked x = unlinked o
                            /\ sel_info x = true).
    { pose proof (Hdone1 p o Hp2 Hp) as Hr. unfold restored in Hr.
      destruct (sel_link o).
      - destruct Hr as (? & ? & r & _ & _ & _ & HL1). exists (with_sh_link r o).
        split; [exact HL1 |]. split; [apply with_sh_link_unlinked | exact Hsel].
      - exists o. split; [exact Hr |]. split; [reflexivity | exact Hsel]. }
    destruct Hx1 as (x & HL1 & Hux & Hselx).
    pose proof (Hdone2 p x Hp2 HL1) as Hr2. unfold restored in Hr2. rewrite Hselx in Hr2.
    destruct Hr2 as (nm' & v & r & Hnm' & Hv & Hr & HL2).
    rewrite (getSectionName_sh_name x o st (with_shdrs L1 st) (unlinked_name _ _ Hux) eq_refl)
      in Hnm'.
    rewrite Hnm in Hnm'. injection Hnm' as <-. rewrite Hlk in Hv. injection Hv as <-.
    destruct (lookup_unlinked S0 L1 q t Hu1 Hq) as (t1 & Ht1 & Hut1).
    assert (Htn1 : getSectionName t1 (with_shdrs L1 st) = Done tn).
    { rewrite (getSectionName_sh_name t1 t st (with_shdrs L1 st) (unlinked_name _ _ Hut1)
                 eq_refl). exact Htn. }
    pose proof (getSectionIndex_unique tn (with_shdrs L1 st) shnum r q t1 Hd1 Hshnum Hr
                  Hq2 Ht1 Htn1) as ->.
    destruct (lookup_unlinked S0 L2 q t Hu Hq) as (t' & Ht' & Hut).
    exists t, p, q, (with_sh_info (Z.of_nat q) x), t'.
    split; [exact Ht |]. split; [exact Hp1 |]. split; [exact HL2 |].
    split; [rewrite with_sh_info_unlinked; exact Hux |].
    split; [exact Hq1 |]. split; [exact Ht' |]. split; [exact Hut | reflexivity]. }
  intros strndx0 s Hs0 Hs1 Hs.
  rewrite Hstrndx in Hs0. injection Hs0 as <-.
  apply vec_at_Done in Hshstrtab as (_ & Hshstrtab).
  rewrite Hs in Hshstrtab. injection Hshstrtab as <-.
  destruct (Hpos (Z.to_nat strndx) s ltac:(lia) Hs) as (q & Hq1 & Hq & Hq2).
  destruct (lookup_unlinked S0 L2 q s Hu Hq) as (y & Hy & Huy).
  destruct Hndx as [[_ Hnone] | (k & x & Hk & Hxk & Hoff & Hidx)].
  - exfalso. apply (Hnone q y Hq2 Hy). apply unlinked_offset, Huy.
  - exists k, x. split; [exact Hidx |]. split; [lia |]. split; [exact Hxk | exact Hoff].
Qed.
(** ** The options of the command line *)

(** What a run of the argument loop adds to the file-scope variables comes
    from the arguments it walks over. *)
Record parsed (args : list string) (o o' : options) : Prop := mkParsed {
  parsed_files : exists fs, fileNames o' = (fileNames o ++ fs)%list
                            /\ fs `sublist_of` args /\ Forall plain_argument fs;
  parsed_libs : forall k v, neededLibsToReplace o' !! k = Some v ->
                  neededLibsToReplace o !! k = Some v
                  \/ exists pre post,
                       args = (pre ++ "--replace-needed" :: k :: v :: post)%list;
  parsed_debug : debugMode o' = true -> debugMode o = true \/ In "--debug" args;
  parsed_output : outputFileName o' <> outputFileName o -> In "--output" args }.

Lemma parsed_skip (skipped args : list string) (o o1 o' : options) :
  fileNames o1 = fileNames o ->
  (forall k v, neededLibsToReplace o1 !! k = Some v ->
     neededLibsToReplace o !! k = Some v
     \/ exists post, (skipped ++ args)%list = "--replace-needed" :: k :: v :: post) ->
  (debugMode o1 = true -> debugMode o = true \/ In "--debug" skipped) ->
  (outputFileName o1 <> outputFileName o -> In "--output" skipped) ->
  parsed args o1 o' -> parsed (skipped ++ args) o o'.
Proof.
  intros Hf Hl Hd Ho [(fs & Hfs & Hsub & Hplain) Hlibs Hdebug Hout]. split.
  - exists fs. rewrite Hfs, Hf. repeat split; [| exact Hplain].
    apply sublist_inserts_l. exact Hsub.
  - intros k v Hkv. destruct (Hlibs k v Hkv) as [H1 | (pre & post & ->)].
    + destruct (Hl k v H1) as [H0 | (post & Hpost)]; [left; exact H0 |].
      right. exists [], post. exact Hpost.
    + right. exists (skipped ++ pre)%list, post. rewrite <- app_assoc. reflexivity.
  - intros H. rewrite in_app_iff.
    destruct (Hdebug H) as [H1 | H1]; [| right; right; exact H1].
    destruct (Hd H1) as [H0 | H0]; [left; exact H0 | right; left; exact H0].
  - intros H. rewrite in_app_iff.
    destruct (decide (outputFileName o1 = outputFileName o)) as [E | E].
    + right. apply Hout. rewrite E. exact H.
    + left. exact (Ho E).
Qed.

Lemma parse_args_parsed (readFile : string -> option (list byte)) (n : nat) :
  forall args o o', (length args <= n)%nat ->
    parse_args readFile args o = Done o' -> parsed args o o'.
Proof.
  induction n as [| n IH]; intros args o o' Hlen H.
  - destruct args; [| simpl in Hlen; lia]. simpl in H. injection H as <-.
    split; [exists []; rewrite app_nil_r; repeat split; constructor | auto | auto | congruence].
  - destruct args as [| arg rest].
    { simpl in H. injection H as <-.
      split; [exists []; rewrite app_nil_r; repeat split; constructor | auto | auto | congruence]. }
    simpl in Hlen. cbn [parse_args] in H.
    destruct (bool_decide (arg = "--replace-needed")) eqn:E1.
    { apply bool_decide_eq_true_1 in E1. subst arg.
      destruct rest as [| old [| new rest']]; try discriminate H.
      simpl in Hlen. apply IH in H; [| lia].
      apply (parsed_skip ["--replace-needed"; old; new] rest' o _ o') with (5 := H);
        [reflexivity | | cbn; tauto | cbn; tauto].
      cbn [neededLibsToReplace]. intros k v Hkv.
      destruct (decide (old = k)) as [-> | Hne].
      - rewrite lookup_insert_eq in Hkv. injection Hkv as ->. right. exists rest'. reflexivity.
      - rewrite lookup_insert_ne in Hkv by exact Hne. left. exact Hkv. }
    destruct (bool_decide (arg = "--output")) eqn:E2.
    { apply bool_decide_eq_true_1 in E2. subst arg.
      destruct rest as [| file rest']; try discriminate H.
      apply bind_Done in H as (name & _ & H).
      simpl in Hlen. apply IH in H; [| lia].
      apply (parsed_skip ["--output"; file] rest' o _ o') with (5 := H);
        [reflexivity | cbn; tauto | cbn; tauto |].
      intros _. left. reflexivity. }
    destruct (bool_decide (arg = "--debug")) eqn:E3.
    { apply bool_decide_eq_true_1 in E3. subst arg.
      apply IH in H; [| lia].
      apply (parsed_skip ["--debug"] rest o _ o') with (5 := H);
        [reflexivity | cbn; tauto | | cbn; tauto].
      intros _. right. left. reflexivity. }
    apply bool_decide_eq_false_1 in E1, E2, E3.
    apply IH in H; [| lia]. destruct H as [(fs & Hfs & Hsub & Hplain) Hlibs Hdebug Hout].
    cbn [fileNames neededLibsToReplace debugMode outputFileName] in *. split.
    + exists (arg :: fs). rewrite Hfs, <- app_assoc. repeat split.
      * apply sublist_skip. exact Hsub.
      * constructor; [repeat split; assumption | exact Hplain].
    + intros k v Hkv. destruct (Hlibs k v Hkv) as [H0 | (pre & post & ->)]; [left; exact H0 |].
      right. exists (arg :: pre), post. reflexivity.
    + intros H. destruct (Hdebug H) as [H0 | H0]; [left; exact H0 | right; right; exact H0].
    + intros H. right. exact (Hout H).
Qed.

(** When [mainWrapped] gets as far as calling [patchElf], there is a file
    to patch, and one only when an output file is named; the files are
    arguments that are not option words, in the order of the command line;
    every library to replace and its replacement stand behind a
    [--replace-needed] on the command line; debug mode is on only for
    PATCHELF_DEBUG or [--debug], and an output file is named only after
    [--output]. *)
Theorem mainWrapped_options_sound (readFile : string -> option (list byte))
    (env_debug : bool) (argv : list string) (o : options) :
  mainWrapped_options readFile env_debug argv = Done (Some o) ->
  fileNames o <> []
  /\ (outputFileName o <> EmptyString -> exists f, fileNames o = [f])
  /\ fileNames o `sublist_of` drop 1 argv
  /\ Forall plain_argument (fileNames o)
  /\ (forall k v, neededLibsToReplace o !! k = Some v ->
        exists pre post, drop 1 argv = (pre ++ "--replace-needed" :: k :: v :: post)%list)
  /\ (debugMode o = true -> env_debug = true \/ In "--debug" (drop 1 argv))
  /\ (outputFileName o <> EmptyString -> In "--output" (drop 1 argv)).
Proof.
  unfold mainWrapped_options. intros H.
  destruct (length argv <=? 1)%nat; [discriminate H |].
  apply bind_Done in H as (o1 & Hparse & H).
  destruct (bool_decide (fileNames o1 = [])) eqn:Ef; [discriminate H |].
  apply bool_decide_eq_false_1 in Ef.
  destruct (negb (bool_decide (outputFileName o1 = EmptyString))
            && negb (length (fileNames o1) =? 1)%nat) eqn:Eo; [discriminate H |].
  injection H as <-.
  apply (parse_args_parsed readFile (length (drop 1 argv))) in Hparse; [| lia].
  destruct Hparse as [(fs & Hfs & Hsub & Hplain) Hlibs Hdebug Hout].
  cbn [fileNames neededLibsToReplace debugMode outputFileName] in *.
  simpl in Hfs. rewrite Hfs in *.
  split; [exact Ef |]. split.
  { intros Hne. apply andb_false_iff in Eo as [Eo | Eo].
    - apply negb_false_iff, bool_decide_eq_true_1 in Eo. contradiction.
    - apply negb_false_iff, Nat.eqb_eq in Eo.
      destruct fs as [| f [| g fs]]; simpl in Eo; try discriminate Eo. exists f. reflexivity. }
  split; [exact Hsub |]. split; [exact Hplain |]. split.
  { intros k v Hkv. destruct (Hlibs k v Hkv) as [H0 | H0]; [| exact H0].
    rewrite lookup_empty in H0. discriminate H0. }
  split.
  { intros H. destruct (Hdebug H) as [H0 | H0]; [left; exact H0 | right; exact H0]. }
  intros Hne. apply Hout. exact Hne.
Qed.

(** The arguments of one [--replace-needed] option per pair. *)
Definition replace_needed_args (pairs : list (string * string)) : list string :=
  flat_map (fun p => ["--replace-needed"; p.1; p.2]) pairs.

Lemma parse_args_pairs (readFile : string -> option (list byte))
    (pairs : list (string * string)) (rest : list string) :
  forall o, parse_args readFile (replace_needed_args pairs ++ rest)%list o
            = parse_args readFile rest
                (mkOptions (foldl (fun m p => <[p.1 := p.2]> m) (neededLibsToReplace o) pairs)
                   (outputFileName o) (debugMode o) (fileNames o)).
Proof.
  induction pairs as [| [a b] pairs IH]; intros o.
  - destruct o; reflexivity.
  - cbn [replace_needed_args flat_map app parse_args fst snd].
    rewrite bool_decide_eq_true_2 by reflexivity.
    change (flat_map _ pairs) with (replace_needed_args pairs). rewrite IH. reflexivity.
Qed.

Lemma foldl_insert_last (pairs : list (string * string)) :
  forall (m : gmap string string),
    let libs := foldl (fun m p => <[p.1 := p.2]> m) m pairs in
    (forall pre a b post, pairs = (pre ++ (a, b) :: post)%list ->
       ~ In a (map fst post) -> libs !! a = Some b)
    /\ (forall a, ~ In a (map fst pairs) -> libs !! a = m !! a).
Proof.
  induction pairs as [| [k v] pairs IH]; intros m; cbn zeta.
  - split; [intros [| ? ?] ? ? ? H; discriminate H | reflexivity].
  - cbn [foldl fst snd]. destruct (IH (<[k := v]> m)) as [IH1 IH2]. split.
    + intros pre a b post E Hlast. destruct pre as [| p pre].
      * inversion E; subst. rewrite (IH2 a Hlast). apply lookup_insert_eq.
      * inversion E; subst. exact (IH1 pre a b post eq_refl Hlast).
    + intros a Ha. cbn [map fst In] in Ha.
      rewrite IH2 by tauto. apply lookup_insert_ne. tauto.
Qed.

(** A command line of [--replace-needed LIBRARY NEW_LIBRARY] options
    followed by file names: whatever the two words behind an option are
    (option words too), they are a library and its replacement; for a
    library named more than once the last replacement counts, and a library
    not named has none. *)
Theorem mainWrapped_replace_needed_pairs (readFile : string -> option (list byte))
    (env_debug : bool) (prog : string) (pairs : list (string * string))
    (files : list string) :
  Forall plain_argument files -> files <> [] ->
  exists libs,
    mainWrapped_options readFile env_debug (prog :: (replace_needed_args pairs ++ files)%list)
    = Done (Some (mkOptions libs EmptyString env_debug files))
    /\ (forall pre a b post, pairs = (pre ++ (a, b) :: post)%list ->
          ~ In a (map fst post) -> libs !! a = Some b)
    /\ (forall a, ~ In a (map fst pairs) -> libs !! a = None).
Proof.
  intros Hplain Hne.
  exists (foldl (fun m p => <[p.1 := p.2]> m) ∅ pairs).
  destruct (foldl_insert_last pairs ∅) as [H1 H2]. split; [| split; [exact H1 |]].
  - unfold mainWrapped_options.
    assert (Hlen : (length (prog :: (replace_needed_args pairs ++ files)%list) <=? 1)%nat = false).
    { apply Nat.leb_gt. cbn [length]. rewrite length_app.
      destruct files; [contradiction | simpl; lia]. }
    rewrite Hlen. change (drop 1 (prog :: ?l)) with l.
    rewrite parse_args_pairs, (parse_args_plain readFile files Hplain).
    cbn [bind fileNames outputFileName neededLibsToReplace debugMode app].
    rewrite (bool_decide_eq_false_2 _ Hne).
    rewrite bool_decide_eq_true_2 by reflexivity. reflexivity.
  - intros a Ha. rewrite (H2 a Ha). apply lookup_empty.
Qed.

(** The errors of the command line, behind file names [pre]: a
    [--replace-needed] with fewer than two words behind it, an [--output]
    as the last word, an [--output] with a file name (not an [@] file) and
    not exactly one input file, and a command line of [--debug] only. *)
Theorem mainWrapped_options_errors (readFile : string -> option (list byte))
    (env_debug : bool) (prog : string) (pre : list string) :
  Forall plain_argument pre ->
  (forall rest, (length rest < 2)%nat ->
     mainWrapped_options readFile env_debug (prog :: (pre ++ "--replace-needed" :: rest)%list)
     = Throw "missing argument(s)")
  /\ mainWrapped_options readFile env_debug (prog :: (pre ++ ["--output"])%list)
     = Throw "missing argument"
  /\ (forall out post,
        Forall plain_argument post -> out <> EmptyString ->
        (forall name, out <> String "@" name) ->
        length (pre ++ post)%list <> 1%nat ->
        mainWrapped_options readFile env_debug (prog :: (pre ++ "--output" :: out :: post)%list)
        = Throw (if bool_decide ((pre ++ post)%list = []) then "missing filename"
                 else "--output option only allowed with single input file"))
  /\ (forall n, mainWrapped_options readFile env_debug (prog :: replicate (S n) "--debug")
                = Throw "missing filename").
Proof.
  intros Hpre.
  assert (Hsplit : forall rest o,
            parse_args readFile (pre ++ rest)%list o
            = parse_args readFile rest
                (mkOptions (neededLibsToReplace o) (outputFileName o) (debugMode o)
                   (fileNames o ++ pre)%list)).
  { clear - Hpre. induction Hpre as [| arg args (H1 & H2 & H3) _ IH]; intros rest o.
    - rewrite app_nil_r. destruct o; reflexivity.
    - cbn [app parse_args]. rewrite !bool_decide_eq_false_2 by assumption.
      rewrite IH. cbn [neededLibsToReplace outputFileName debugMode fileNames].
      rewrite <- app_assoc. reflexivity. }
  assert (Hlong : forall rest, rest <> [] ->
            (length (prog :: (pre ++ rest)%list) <=? 1)%nat = false).
  { intros rest Hrest. apply Nat.leb_gt. cbn [length]. rewrite length_app.
    destruct rest; [contradiction | simpl; lia]. }
  split; [| split; [| split]].
  - intros rest Hrest. unfold mainWrapped_options. rewrite Hlong by discriminate.
    change (drop 1 (prog :: ?l)) with l. rewrite Hsplit. cbn [parse_args].
    rewrite bool_decide_eq_true_2 by reflexivity.
    destruct rest as [| a [| b rest]]; [reflexivity | reflexivity | simpl in Hrest; lia].
  - unfold mainWrapped_options. rewrite Hlong by discriminate.
    change (drop 1 (prog :: ?l)) with l. rewrite Hsplit. reflexivity.
  - intros out post Hpost Hout Hat Hlen. unfold mainWrapped_options.
    rewrite Hlong by discriminate.
    change (drop 1 (prog :: ?l)) with l. rewrite Hsplit. cbn [parse_args].
    rewrite bool_decide_eq_false_2 by discriminate.
    rewrite bool_decide_eq_true_2 by reflexivity.
    assert (Hres : resolveArgument readFile out = Done out).
    { unfold resolveArgument. destruct out as [| c out]; [reflexivity |].
      destruct (Ascii.ascii_dec c "@") as [-> | Hc]; [exfalso; exact (Hat out eq_refl) |].
      destruct c as [[] [] [] [] [] [] [] []]; try reflexivity. contradiction Hc. reflexivity. }
    rewrite Hres. cbn [bind]. rewrite (parse_args_plain readFile post Hpost).
    cbn [bind fileNames outputFileName neededLibsToReplace debugMode app].
    destruct (bool_decide ((pre ++ post)%list = [])); [reflexivity |].
    rewrite (bool_decide_eq_false_2 _ Hout).
    apply Nat.eqb_neq in Hlen. rewrite Hlen. reflexivity.
  - intros n. unfold mainWrapped_options. cbn [length Nat.leb].
    change (drop 1 (prog :: ?l)) with l.
    assert (Hdebug : forall k o, exists d,
              parse_args readFile (replicate k "--debug") o
              = Done (mkOptions (neededLibsToReplace o) (outputFileName o) d (fileNames o))).
    { induction k as [| k IH]; intros o.
      - exists (debugMode o). destruct o; reflexivity.
      - cbn [replicate parse_args]. rewrite !bool_decide_eq_false_2 by discriminate.
        rewrite bool_decide_eq_true_2 by reflexivity.
        destruct (IH (mkOptions (neededLibsToReplace o) (outputFileName o) true (fileNames o)))
          as (d & Hd). exists d. exact Hd. }
    destruct (Hdebug (S n) (mkOptions ∅ EmptyString env_debug [])) as (d & ->).
    reflexivity.
Qed.

(** ** Objects without a dynamic section *)

(** The error of [findSectionHeader] for a name that no section has. *)
Lemma findSectionHeader_missing (sectionName : string) (st : ElfFile) (shnum : Z) :
  hdr_get e_shnum st = Done shnum ->
  shnum <= Z.of_nat (length (shdrs st)) ->
  (forall shdr, In shdr (drop 1 (shdrs st)) ->
     sh_name shdr < Z.of_nat (length (sectionNames st))
     /\ section_name st shdr <> sectionName) ->
  findSectionHeader sectionName st
  = Throw ("cannot find section '" +:+ sectionName +:+ "'" +:+ static_hint sectionName).
Proof.
  intros Hshnum Hlen Hnames.
  assert (Hin : forall k s, drop 1 (shdrs st) !! k = Some s -> In s (drop 1 (shdrs st))).
  { intros k s Hs. apply list_elem_of_In, (list_elem_of_lookup_2 _ k), Hs. }
  destruct (getSectionIndex_loop_total sectionName shnum st (drop 1 (shdrs st)) 1)
    as (r & Hr & _); [lia | rewrite length_drop; lia | |].
  { intros k s Hs _. exact (proj1 (Hnames s (Hin k s Hs))). }
  assert (Hidx : getSectionIndex sectionName st = Done r).
  { unfold getSectionIndex. rewrite Hshnum. exact Hr. }
  destruct (Z.eq_dec r 0) as [-> | Hnz].
  - unfold findSectionHeader, tryFindSectionHeader. rewrite Hidx. reflexivity.
  - exfalso. destruct (getSectionIndex_found _ _ _ Hidx Hnz) as (Hpos & shdr & Hs & Hname).
    apply (proj2 (Hnames shdr (Hin (Z.to_nat r - 1)%nat shdr
                                 ltac:(rewrite lookup_drop;
                                       replace (1 + (Z.to_nat r - 1))%nat with (Z.to_nat r)
                                         by lia; exact Hs)))).
    unfold section_name. rewrite Hname. reflexivity.
Qed.

(** A file that the constructor accepts and in which no section is named
    [.dynamic], a statically linked one: with libraries to replace,
    [patchElf2] raises the error of [findSectionHeader] with its hint and
    nothing is written; with none, [replaceNeeded] returns at once and the
    file is written as it was read. *)
Theorem patchElf2_static_file (fuel : nat) (libs : gmap string string) (b : list byte)
    (st : ElfFile) :
  ElfFile_ctor b = Done st ->
  (forall shdr, In shdr (drop 1 (shdrs st)) -> section_name st shdr <> ".dynamic") ->
  patchElf2 fuel libs st
  = if bool_decide (libs = ∅) then Done (Some b)
    else Throw "cannot find section '.dynamic'. The input file is most likely statically linked".
Proof.
  intros Hopen Hnone.
  pose proof (ctor_Done _ _ Hopen) as (Hc & _ & _ & Hsize & Hle & _ & Hns).
  destruct (ctor_inv _ _ Hopen)
    as (strtab & _ & _ & _ & _ & _ & _ & _ & Hch & _ & _ & _ & _ & Holds & _).
  apply old_names_spec in Holds as [_ Hread].
  unfold patchElf2, replaceNeeded.
  destruct (bool_decide (libs = ∅)).
  - cbn [bind ret]. rewrite Hch, Hc. reflexivity.
  - unfold replaceNeeded_edits.
    rewrite (findSectionHeader_missing ".dynamic" st (buffer_field e_shnum b)).
    + reflexivity.
    + apply (hdr_get_buffer e_shnum b st Hsize Hc Hle).
    + rewrite Hns. pose proof (rdi_nonneg (buffer_littleEndian b)
        (take (Z.to_nat (ehdr_size e_shnum)) (drop (Z.to_nat (ehdr_offset e_shnum)) b))).
      unfold buffer_field in *. lia.
    + intros shdr Hin. split; [exact (Hread shdr Hin) | exact (Hnone shdr Hin)].
Qed.

(** ** The segments that follow a replaced section *)

(** The fields of a program header that [writeReplacedSections] copies
    from a section header. *)
Definition in_sync (shdr : Elf_Shdr) (ph : Elf_Phdr) : Prop :=
  p_offset ph = sh_offset shdr
  /\ p_vaddr ph = sh_addr shdr /\ p_paddr ph = sh_addr shdr
  /\ p_filesz ph = sh_size shdr /\ p_memsz ph = sh_size shdr.

(** The sections that have a segment type of their own. *)
Definition named_kind (name : string) (ptype : Z) : Prop :=
  (name = ".interp" /\ ptype = PT_INTERP)
  \/ (name = ".dynamic" /\ ptype = PT_DYNAMIC)
  \/ (name = ".MIPS.abiflags" /\ ptype = PT_MIPS_ABIFLAGS)
  \/ (name = ".note.gnu.property" /\ ptype = PT_GNU_PROPERTY).

(** The segment types that a replaced section of the name [name] and the
    type [stype] is copied to. *)
Definition synced_kind (name : string) (stype ptype : Z) : Prop :=
  named_kind name ptype \/ (stype = SHT_NOTE /\ ptype = PT_NOTE).

(** What one replaced section does to one program header. *)
Definition seg_step (name : string) (stype : Z) (shdr' : Elf_Shdr) (ph ph' : Elf_Phdr)
    : Prop :=
  (ph' = ph \/ (synced_kind name stype (p_type ph) /\ ph' = sync_with shdr' ph))
  /\ (named_kind name (p_type ph) -> ph' = sync_with shdr' ph).

Lemma sync_with_in_sync (shdr : Elf_Shdr) (ph : Elf_Phdr) : in_sync shdr (sync_with shdr ph).
Proof. repeat split. Qed.

Lemma sync_segments_lookup (ptype : Z) (shdr : Elf_Shdr) (l : list Elf_Phdr) (i : nat) :
  sync_segments ptype shdr l !! i
  = (fun ph => if p_type ph =? ptype then sync_with shdr ph else ph) <$> (l !! i).
Proof.
  revert i. induction l as [| ph l IH]; intros [| i]; try reflexivity. apply IH.
Qed.

Lemma sync_segments_length (ptype : Z) (shdr : Elf_Shdr) (l : list Elf_Phdr) :
  length (sync_segments ptype shdr l) = length l.
Proof. apply length_map. Qed.

Lemma sync_notes_lookup (orig_shdr shdr : Elf_Shdr) (l : list Elf_Phdr) :
  forall j noted phs noted',
    sync_notes orig_shdr shdr j noted l = Done (phs, noted') ->
    length phs = length l
    /\ forall i ph, l !! i = Some ph ->
         exists ph', phs !! i = Some ph'
           /\ (ph' = ph \/ (p_type ph = PT_NOTE /\ ph' = sync_with shdr ph)).
Proof.
  induction l as [| ph l IH]; intros j noted phs noted' H; simpl in H.
  - injection H as <- _. split; [reflexivity | intros i ph Hi; discriminate Hi].
  - apply bind_Done in H as ([ph1 noted1] & Hhead & H).
    apply bind_Done in H as ([rest noted2] & Hrest & H).
    injection H as <- _. destruct (IH _ _ _ _ Hrest) as [Hlen Hl].
    split; [simpl; rewrite Hlen; reflexivity |].
    intros [| i] x Hx; [| exact (Hl i x Hx)].
    injection Hx as <-. exists ph1. split; [reflexivity |].
    destruct (p_type ph =? PT_NOTE) eqn:Et; cbn [andb] in Hhead.
    + apply Z.eqb_eq in Et.
      repeat match type of Hhead with
             | (if ?c then _ else _) = Done _ => destruct c
             end; try discriminate Hhead; injection Hhead as <- _; auto.
    + injection Hhead as <- _. auto.
Qed.

(** One section of the loop and the program headers. *)
Lemma write_section_segments (startAddr startOffset : Z) (k : nat) (s s' : write_state) :
  write_section startAddr startOffset k s = Done s' ->
  exists shdr name,
    shdrs (w_file s) !! k = Some shdr
    /\ getSectionName shdr (w_file s) = Done name
    /\ match replacedSections (w_file s) !! name with
       | None => s' = s
       | Some _ =>
           exists shdr',
             shdrs (w_file s') = <[k := shdr']> (shdrs (w_file s))
             /\ sectionNames (w_file s') = sectionNames (w_file s)
             /\ replacedSections (w_file s') = replacedSections (w_file s)
             /\ length (phdrs (w_file s')) = length (phdrs (w_file s))
             /\ forall i ph, phdrs (w_file s) !! i = Some ph ->
                  exists ph', phdrs (w_file s') !! i = Some ph'
                              /\ seg_step name (sh_type shdr) shdr' ph ph'
       end.
Proof.
  unfold write_section. intros H.
  apply bind_Done in H as (shdr & Hshdr & H).
  apply bind_Done in H as (name & Hname & H).
  exists shdr, name.
  assert (Hk : shdrs (w_file s) !! k = Some shdr).
  { unfold vec_index in Hshdr. destruct (0 <=? Z.of_nat k); [| discriminate].
    rewrite Nat2Z.id in Hshdr. destruct (shdrs (w_file s) !! k); [| discriminate].
    injection Hshdr as ->. reflexivity. }
  split; [exact Hk |]. split; [exact Hname |].
  destruct (replacedSections (w_file s) !! name) as [content |];
    [| injection H as <-; reflexivity].
  apply bind_Done in H as (c & Hc & H).
  apply bind_Done in H as (r & Hr & H).
  destruct r as [[shdr' phs] noted].
  apply bind_Done in H as (step & Hstep & H).
  injection H as <-. exists shdr'.
  cbn [w_file shdrs sectionNames replacedSections phdrs with_phdrs with_shdrs
       with_fileContents].
  split; [reflexivity |]. split; [reflexivity |]. split; [reflexivity |].
  set (shdr1 := with_sh_addralign (wri_a sectionAlignment)
                  (with_sh_size (wri_a (Z.of_nat (length content)))
                     (with_sh_addr (wri_a (startAddr + (w_curOff s - startOffset)))
                        (with_sh_offset (wri_a (w_curOff s)) shdr)))) in *.
  set (phs1 := if decide (name = ".interp")
               then sync_segments PT_INTERP shdr1 (phdrs (w_file s))
               else if decide (name = ".dynamic")
                    then sync_segments PT_DYNAMIC shdr1 (phdrs (w_file s))
                    else phdrs (w_file s)) in *.
  assert (Htype : sh_type shdr1 = sh_type shdr) by (destruct shdr; reflexivity).
  (* the three fields that are copied are those of the final header *)
  assert (Hsame : (forall ph, sync_with shdr1 ph = sync_with shdr' ph)
                  /\ length phs = length phs1
                  /\ forall i x, phs1 !! i = Some x ->
                       exists x', phs !! i = Some x'
                         /\ (x' = x \/ (sh_type shdr = SHT_NOTE /\ p_type x = PT_NOTE
                                        /\ x' = sync_with shdr' x))).
  { rewrite Htype in Hr. destruct (sh_type shdr =? SHT_NOTE) eqn:Et.
    - apply Z.eqb_eq in Et.
      apply bind_Done in Hr as ([phs2 noted2] & Hnotes & Hr).
      injection Hr as E1 E2 _. cbn [fst] in E2. subst phs2.
      assert (Hsync : forall x, sync_with shdr' x = sync_with shdr1 x).
      { intros x. rewrite <- E1. destruct (_ <? _); destruct shdr; reflexivity. }
      split; [intros ph; symmetry; apply Hsync |].
      apply sync_notes_lookup in Hnotes as [Hlen Hl].
      split; [exact Hlen |].
      intros i x Hx. destruct (Hl i x Hx) as (x' & Hx' & Hcase). exists x'.
      split; [exact Hx' |]. destruct Hcase as [-> | [Hp ->]]; [left; reflexivity |].
      right. split; [exact Et |]. split; [exact Hp |].
      rewrite <- E1. destruct (_ <? _); destruct shdr; reflexivity.
    - injection Hr as E1 E2 _. subst shdr' phs. split; [reflexivity |].
      split; [reflexivity |]. intros i x Hx. exists x. auto. }
  destruct Hsame as (Hsync1 & Hlen2 & Hl2).
  assert (Hlen1 : length phs1 = length (phdrs (w_file s))).
  { unfold phs1. repeat destruct (decide _); rewrite ?sync_segments_length; reflexivity. }
  split.
  { repeat destruct (decide _); rewrite ?sync_segments_length; congruence. }
  intros i ph Hi.
  assert (H1 : exists x1, phs1 !! i = Some x1
                 /\ ((name = ".interp" /\ p_type ph = PT_INTERP
                      \/ name = ".dynamic" /\ p_type ph = PT_DYNAMIC)
                     /\ x1 = sync_with shdr' ph
                     \/ ~ (name = ".interp" /\ p_type ph = PT_INTERP
                           \/ name = ".dynamic" /\ p_type ph = PT_DYNAMIC)
                        /\ x1 = ph)).
  { unfold phs1. destruct (decide (name = ".interp")) as [E | E].
    - rewrite sync_segments_lookup, Hi. cbn [fmap option_fmap option_map].
      destruct (Z.eqb_spec (p_type ph) PT_INTERP) as [Ep | Ep]; eexists; (split; [reflexivity |]).
      + left. split; [left; auto | apply Hsync1].
      + right. split; [| reflexivity]. subst name. intros [[_ ?] | [? _]];
          [contradiction | discriminate].
    - destruct (decide (name = ".dynamic")) as [E' | E'].
      + rewrite sync_segments_lookup, Hi. cbn [fmap option_fmap option_map].
        destruct (Z.eqb_spec (p_type ph) PT_DYNAMIC) as [Ep | Ep]; eexists;
          (split; [reflexivity |]).
        * left. split; [right; auto | apply Hsync1].
        * right. split; [| reflexivity]. intros [[? _] | [_ ?]]; contradiction.
      + exists ph. split; [exact Hi |]. right. split; [| reflexivity].
        intros [[? _] | [? _]]; contradiction. }
  destruct H1 as (x1 & Hx1 & Hcase1).
  destruct (Hl2 i x1 Hx1) as (x2 & Hx2 & Hcase2).
  assert (Ht1 : p_type x1 = p_type ph) by (destruct Hcase1 as [[_ ->] | [_ ->]]; reflexivity).
  assert (Ht2 : p_type x2 = p_type ph)
    by (destruct Hcase2 as [-> | (_ & _ & ->)]; exact Ht1).
  assert (Hss : forall x, x = ph \/ x = sync_with shdr' ph ->
                  sync_with shdr' x = sync_with shdr' ph)
    by (intros x [-> | ->]; reflexivity).
  assert (Hor1 : x1 = ph \/ x1 = sync_with shdr' ph) by tauto.
  assert (Hor2 : x2 = ph \/ x2 = sync_with shdr' ph).
  { destruct Hcase2 as [-> | (_ & _ & ->)]; [exact Hor1 | right; apply Hss, Hor1]. }
  clearbody phs1 shdr1.
  set (third := fun x => if decide (name = ".MIPS.abiflags")
                         then (if p_type x =? PT_MIPS_ABIFLAGS then sync_with shdr' x else x)
                         else x).
  set (fourth := fun x => if decide (name = ".note.gnu.property")
                          then (if p_type x =? PT_GNU_PROPERTY then sync_with shdr' x else x)
                          else x).
  exists (fourth (third x2)). split.
  { unfold fourth, third.
    destruct (decide (name = ".note.gnu.property")), (decide (name = ".MIPS.abiflags"));
      rewrite ?sync_segments_lookup, ?Hx2; reflexivity. }
  assert (Ht3 : p_type (third x2) = p_type ph).
  { unfold third; cbv beta. destruct (decide (name = ".MIPS.abiflags"));
      [destruct (p_type x2 =? PT_MIPS_ABIFLAGS) |]; exact Ht2. }
  assert (Hor3 : third x2 = ph \/ third x2 = sync_with shdr' ph).
  { unfold third; cbv beta. destruct (decide (name = ".MIPS.abiflags"));
      [destruct (p_type x2 =? PT_MIPS_ABIFLAGS) |]; try exact Hor2.
    right. apply Hss, Hor2. }
  unfold seg_step, synced_kind, named_kind. split.
  - destruct (decide (fourth (third x2) = ph)) as [E | Hchanged]; [left; exact E |].
    right.
    assert (Hval : fourth (third x2) = sync_with shdr' ph).
    { unfold fourth; cbv beta. unfold fourth in Hchanged; cbv beta in Hchanged.
      destruct (decide (name = ".note.gnu.property"));
      [destruct (p_type (third x2) =? PT_GNU_PROPERTY) |]; try (apply Hss, Hor3);
        destruct Hor3 as [E | E]; try exact E; contradiction. }
    split; [| exact Hval].
    unfold fourth in Hchanged; cbv beta in Hchanged.
    destruct (decide (name = ".note.gnu.property")) as [E4 | E4].
    { destruct (Z.eqb_spec (p_type (third x2)) PT_GNU_PROPERTY) as [Ep | Ep].
      - left. right. right. right. split; [exact E4 | congruence]. 
      - revert Hchanged. unfold third; cbv beta.
        destruct (decide (name = ".MIPS.abiflags")) as [E3 | E3];
          [rewrite E4 in E3; discriminate E3 |].
        intros Hchanged. destruct Hcase2 as [-> | (Hs & Hp & ->)].
        + destruct Hcase1 as [[Hk1 _] | [_ ->]]; [| contradiction].
          left. tauto.
        + right. split; [exact Hs | congruence]. }
    revert Hchanged. unfold third; cbv beta.
    destruct (decide (name = ".MIPS.abiflags")) as [E3 | E3].
    { destruct (Z.eqb_spec (p_type x2) PT_MIPS_ABIFLAGS) as [Ep | Ep].
      - intros _. left. right. right. left. split; [exact E3 | congruence].
      - intros Hchanged. destruct Hcase2 as [-> | (Hs & Hp & ->)].
        + destruct Hcase1 as [[Hk1 _] | [_ ->]]; [| contradiction]. left. tauto.
        + right. split; [exact Hs | congruence]. }
    intros Hchanged. destruct Hcase2 as [-> | (Hs & Hp & ->)].
    + destruct Hcase1 as [[Hk1 _] | [_ ->]]; [| contradiction]. left. tauto.
    + right. split; [exact Hs | congruence].
  - intros Hkind. unfold fourth; cbv beta.
    destruct Hkind as [[E Hp] | [[E Hp] | [[E Hp] | [E Hp]]]].
    + assert (Ex1 : x1 = sync_with shdr' ph) by (destruct Hcase1 as [[_ ?] | [Hn _]]; tauto).
      assert (Ex2 : x2 = sync_with shdr' ph).
      { destruct Hcase2 as [-> | (_ & _ & ->)]; [exact Ex1 | apply Hss, Hor1]. }
      assert (Ex3 : third x2 = sync_with shdr' ph).
      { unfold third; cbv beta. destruct (decide (name = ".MIPS.abiflags"));
      [destruct (p_type x2 =? PT_MIPS_ABIFLAGS) |]; try exact Ex2.
        apply Hss, Hor2. }
      destruct (decide (name = ".note.gnu.property"));
      [destruct (p_type (third x2) =? PT_GNU_PROPERTY) |];
        try exact Ex3. apply Hss, Hor3.
    + assert (Ex1 : x1 = sync_with shdr' ph) by (destruct Hcase1 as [[_ ?] | [Hn _]]; tauto).
      assert (Ex2 : x2 = sync_with shdr' ph).
      { destruct Hcase2 as [-> | (_ & _ & ->)]; [exact Ex1 | apply Hss, Hor1]. }
      assert (Ex3 : third x2 = sync_with shdr' ph).
      { unfold third; cbv beta. destruct (decide (name = ".MIPS.abiflags"));
      [destruct (p_type x2 =? PT_MIPS_ABIFLAGS) |]; try exact Ex2.
        apply Hss, Hor2. }
      destruct (decide (name = ".note.gnu.property"));
      [destruct (p_type (third x2) =? PT_GNU_PROPERTY) |];
        try exact Ex3. apply Hss, Hor3.
    + assert (Ex3 : third x2 = sync_with shdr' ph).
      { unfold third; cbv beta. destruct (decide (name = ".MIPS.abiflags")) as [_ | Hn]; [| contradiction].
        rewrite Ht2, Hp. cbn [Z.eqb PT_MIPS_ABIFLAGS Pos.eqb]. apply Hss, Hor2. }
      destruct (decide (name = ".note.gnu.property"));
      [destruct (p_type (third x2) =? PT_GNU_PROPERTY) |];
        try exact Ex3. apply Hss, Hor3.
    + destruct (decide (name = ".note.gnu.property")) as [_ | Hn]; [| contradiction].
      rewrite Ht3, Hp. cbn [Z.eqb PT_GNU_PROPERTY Pos.eqb]. apply Hss, Hor3.
Qed.

Lemma seg_step_type (name : string) (stype : Z) (shdr' : Elf_Shdr) (ph ph' : Elf_Phdr) :
  seg_step name stype shdr' ph ph' -> p_type ph' = p_type ph.
Proof. intros [[-> | [_ ->]] _]; reflexivity. Qed.

Lemma named_kind_name (n1 n2 : string) (ptype : Z) :
  named_kind n1 ptype -> named_kind n2 ptype -> n1 = n2.
Proof.
  unfold named_kind, PT_INTERP, PT_DYNAMIC, PT_MIPS_ABIFLAGS, PT_GNU_PROPERTY.
  intros [[-> ->] | [[-> ->] | [[-> ->] | [-> ->]]]]
         [[-> E] | [[-> E] | [[-> E] | [-> E]]]]; try reflexivity; discriminate E.
Qed.

Lemma named_kind_not_note (name : string) : ~ named_kind name PT_NOTE.
Proof.
  unfold named_kind, PT_INTERP, PT_DYNAMIC, PT_MIPS_ABIFLAGS, PT_GNU_PROPERTY, PT_NOTE.
  intros [[_ E] | [[_ E] | [[_ E] | [_ E]]]]; discriminate E.
Qed.

Section Syncing.

Variables (st0 : ElfFile) (startAddr startOffset : Z).

(** The loop before section [k], as the program headers see it. *)
Record seg_inv (k : nat) (s : write_state) : Prop := mkSegInv {
  gi_names : sectionNames (w_file s) = sectionNames st0;
  gi_edits : replacedSections (w_file s) = replacedSections st0;
  gi_rest : forall j, (k <= j)%nat -> shdrs (w_file s) !! j = shdrs st0 !! j;
  gi_plen : length (phdrs (w_file s)) = length (phdrs st0);
  gi_segs : forall i ph, phdrs st0 !! i = Some ph ->
    exists ph', phdrs (w_file s) !! i = Some ph'
      /\ (ph' = ph
          \/ exists j shdr shdr',
               (j < k)%nat /\ shdrs st0 !! j = Some shdr
               /\ is_Some (replacedSections st0 !! section_name st0 shdr)
               /\ synced_kind (section_name st0 shdr) (sh_type shdr) (p_type ph)
               /\ shdrs (w_file s) !! j = Some shdr'
               /\ ph' = sync_with shdr' ph);
  gi_named : forall name ptype j shdr shdr',
    named_kind name ptype -> (j < k)%nat ->
    shdrs st0 !! j = Some shdr -> section_name st0 shdr = name ->
    is_Some (replacedSections st0 !! name) ->
    (forall j' x, (j < j' < k)%nat -> shdrs st0 !! j' = Some x ->
       section_name st0 x <> name) ->
    shdrs (w_file s) !! j = Some shdr' ->
    forall i ph', phdrs (w_file s) !! i = Some ph' -> p_type ph' = ptype ->
      in_sync shdr' ph' }.

Lemma seg_inv_step (k : nat) (s s' : write_state) :
  seg_inv k s -> write_section startAddr startOffset k s = Done s' ->
  seg_inv (S k) s'.
Proof.
  intros [Hnames Hedits Hrest Hplen Hsegs Hnamed] H.
  destruct (write_section_segments _ _ _ _ _ H) as (shdr & name & Hk & Hname & Hcase).
  assert (Horig : shdrs st0 !! k = Some shdr) by (rewrite <- Hrest by lia; exact Hk).
  assert (Hsn : section_name st0 shdr = name).
  { unfold section_name. rewrite <- (getSectionName_names shdr st0 (w_file s) Hnames).
    rewrite Hname. reflexivity. }
  rewrite Hedits in Hcase.
  destruct (replacedSections st0 !! name) as [content |] eqn:Hedit.
  2:{ subst s'. split; try assumption.
      - intros j Hj. apply Hrest. lia.
      - intros i ph Hi. destruct (Hsegs i ph Hi) as (ph' & Hph' & Hc). exists ph'.
        split; [exact Hph' |]. destruct Hc as [-> | (j & o & o' & Hj & Hrest')];
          [left; reflexivity |].
        right. exists j, o, o'. split; [lia | exact Hrest'].
      - intros nm ptype j o o' Hkind Hj Ho Hnm Hed Hlast Ho' i ph' Hph' Hp.
        destruct (decide (j = k)) as [-> | Hne].
        + rewrite Horig in Ho. injection Ho as <-. rewrite Hsn in Hnm. subst nm.
          rewrite Hedit in Hed. destruct Hed as [? Hed]. discriminate Hed.
        + apply (Hnamed nm ptype j o o' Hkind ltac:(lia) Ho Hnm Hed) with (i := i);
            try assumption.
          intros j' x Hj'. apply Hlast. lia. }
  destruct Hcase as (shdr' & Hshdrs & Hnames' & Hedits' & Hplen' & Hstep).
  assert (Hlt : (k < length (shdrs (w_file s)))%nat) by (apply lookup_lt_is_Some; eauto).
  split.
  - rewrite Hnames'. exact Hnames.
  - exact Hedits'.
  - intros j Hj. rewrite Hshdrs, list_lookup_insert_ne by lia. apply Hrest. lia.
  - rewrite Hplen'. exact Hplen.
  - intros i ph Hi. destruct (Hsegs i ph Hi) as (ph1 & Hph1 & Hc1).
    destruct (Hstep i ph1 Hph1) as (ph2 & Hph2 & [Hc2 _]).
    exists ph2. split; [exact Hph2 |].
    assert (Ht1 : p_type ph1 = p_type ph)
      by (destruct Hc1 as [-> | (j & o & o' & _ & _ & _ & _ & _ & ->)]; reflexivity).
    destruct Hc2 as [-> | [Hkind ->]].
    + destruct Hc1 as [-> | (j & o & o' & Hj & Ho & Hed & Hkind & Ho' & ->)];
        [left; reflexivity |].
      right. exists j, o, o'. split; [lia |]. split; [exact Ho |]. split; [exact Hed |].
      split; [exact Hkind |]. split; [| reflexivity].
      rewrite Hshdrs, list_lookup_insert_ne by lia. exact Ho'.
    + right. exists k, shdr, shdr'. split; [lia |]. split; [exact Horig |].
      split; [rewrite Hsn, Hedit; eauto |].
      split; [rewrite Hsn, <- Ht1; exact Hkind |].
      split; [rewrite Hshdrs; apply list_lookup_insert_eq, Hlt |].
      destruct Hc1 as [-> | (j & o & o' & _ & _ & _ & _ & _ & ->)]; reflexivity.
  - intros nm ptype j o o' Hkind Hj Ho Hnm Hed Hlast Ho' i ph2 Hph2 Hp.
    assert (Hi : (i < length (phdrs (w_file s)))%nat)
      by (rewrite <- Hplen'; apply lookup_lt_is_Some; eauto).
    apply lookup_lt_is_Some in Hi as [ph1 Hph1].
    destruct (Hstep i ph1 Hph1) as (x & Hx & Hseg).
    rewrite Hph2 in Hx. injection Hx as <-.
    pose proof (seg_step_type _ _ _ _ _ Hseg) as Ht.
    destruct Hseg as [Hc2 Hsync].
    rewrite Hshdrs in Ho'.
    destruct (decide (j = k)) as [-> | Hne].
    + rewrite list_lookup_insert_eq in Ho' by exact Hlt. injection Ho' as <-.
      rewrite Horig in Ho. injection Ho as <-. rewrite Hsn in Hnm. subst nm.
      rewrite Hsync by (rewrite <- Ht, Hp; exact Hkind). apply sync_with_in_sync.
    + rewrite list_lookup_insert_ne in Ho' by congruence.
      assert (Hdiff : name <> nm).
      { rewrite <- Hsn. apply (Hlast k shdr); [lia | exact Horig]. }
      assert (Hsame : ph2 = ph1).
      { destruct Hc2 as [E | [[Hk2 | [_ Hnote]] _]]; [exact E | |].
        - exfalso. apply Hdiff. rewrite <- Ht, Hp in Hk2.
          exact (named_kind_name _ _ _ Hk2 Hkind).
        - exfalso. rewrite <- Ht, Hp in Hnote. rewrite Hnote in Hkind.
          exact (named_kind_not_note _ Hkind). }
      subst ph2.
      apply (Hnamed nm ptype j o o' Hkind ltac:(lia) Ho Hnm Hed) with (i := i);
        try assumption.
      intros j' x Hj'. apply Hlast. lia.
Qed.

Lemma seg_inv_loop (n : nat) :
  forall k s s',
    seg_inv k s -> write_sections startAddr startOffset n k s = Done s' ->
    seg_inv (k + n) s'.
Proof.
  induction n as [| n IH]; intros k s s' Hinv H; simpl in H.
  - injection H as <-. rewrite Nat.add_0_r. exact Hinv.
  - bind_inv H. replace (k + S n)%nat with (S k + n)%nat by lia.
    apply (IH (S k) a s'); [eapply seg_inv_step; eauto | exact H].
Qed.

End Syncing.

(** [writeReplacedSections] and the program headers.  When it returns,
    there are as many as before, each with its type, flags and alignment; a
    header that has changed has the offset, the addresses and the sizes of
    the new header of a section with a pending edit: of [.interp] for
    PT_INTERP, [.dynamic] for PT_DYNAMIC, [.MIPS.abiflags] for
    PT_MIPS_ABIFLAGS, [.note.gnu.property] for PT_GNU_PROPERTY, of a
    SHT_NOTE section for PT_NOTE, so that the headers of all other types are
    unchanged.  And when one of the four names has a pending edit, every
    program header of its type is in sync with the new header of the last
    section of that name. *)
Theorem writeReplacedSections_syncs_segments (curOff startAddr startOffset : Z)
    (st st' : ElfFile) (curOff' : Z) :
  writeReplacedSections curOff startAddr startOffset st = Done (st', curOff') ->
  length (phdrs st') = length (phdrs st)
  /\ (forall (i : nat) ph, phdrs st !! i = Some ph ->
        exists ph', phdrs st' !! i = Some ph'
          /\ p_type ph' = p_type ph /\ p_flags ph' = p_flags ph /\ p_align ph' = p_align ph
          /\ (ph' = ph
              \/ exists (j : nat) shdr shdr',
                   shdrs st !! j = Some shdr
                   /\ is_Some (replacedSections st !! section_name st shdr)
                   /\ synced_kind (section_name st shdr) (sh_type shdr) (p_type ph)
                   /\ shdrs st' !! j = Some shdr'
                   /\ in_sync shdr' ph'))
  /\ (forall name ptype (j : nat) shdr shdr',
        named_kind name ptype ->
        shdrs st !! j = Some shdr -> section_name st shdr = name ->
        is_Some (replacedSections st !! name) ->
        (forall (j' : nat) x, (j < j')%nat -> shdrs st !! j' = Some x ->
           section_name st x <> name) ->
        shdrs st' !! j = Some shdr' ->
        forall (i : nat) ph', phdrs st' !! i = Some ph' -> p_type ph' = ptype ->
          in_sync shdr' ph').
Proof.
  intros H. unfold writeReplacedSections in H.
  apply bind_Done in H as (st1 & Hclobber & H).
  apply bind_Done in H as (s & Hloop & H). injection H as <- <-.
  assert (Hst1 : exists c, st1 = with_fileContents c st).
  { destruct clobberOldSections.
    - apply clobber_contents in Hclobber as (st0 & c & E & -> & Hlen).
      injection E as <-. eauto.
    - injection Hclobber as <-. exists (fileContents st).
      symmetry; apply with_fileContents_id. }
  destruct Hst1 as (c & ->).
  assert (Hstart : seg_inv (with_fileContents c st) 0
                     (mkWrite (with_fileContents c st) curOff ∅)).
  { split; try reflexivity.
    - intros i ph Hi. exists ph. split; [exact Hi | left; reflexivity].
    - intros nm ptype j o o' _ Hj. lia. }
  pose proof (seg_inv_loop _ _ _ _ _ _ _ Hstart Hloop)
    as [Hnames Hedits Hrest Hplen Hsegs Hnamed].
  cbn [shdrs phdrs fileContents replacedSections sectionNames with_fileContents
       with_replacedSections] in *.
  change (section_name (with_fileContents c st)) with (section_name st) in *.
  split; [exact Hplen |]. split.
  - intros i ph Hi. destruct (Hsegs i ph Hi) as (ph' & Hph' & Hc). exists ph'.
    split; [exact Hph' |].
    destruct Hc as [-> | (j & o & o' & Hj & Ho & Hed & Hkind & Ho' & ->)].
    + repeat split; try reflexivity. left. reflexivity.
    + repeat split; try reflexivity. right. exists j, o, o'.
      repeat split; try assumption; reflexivity.
  - intros nm ptype j o o' Hkind Ho Hnm Hed Hlast Ho' i ph' Hph' Hp.
    apply (Hnamed nm ptype j o o' Hkind ltac:(apply lookup_lt_Some in Ho; lia) Ho Hnm Hed)
      with (i := i); try assumption.
    intros j' x Hj'. apply Hlast. lia.
Qed.

(** ** The header tables in the file *)

(** *** Headers and their bytes *)

(** [x] is a value of an unsigned field of [n] bytes. *)
Definition fits (n : Z) (x : Z) : Prop := 0 <= x < 2 ^ (8 * n).

(** The fields of a section header, respectively of a program header, hold
    values of their types. *)
Definition Shdr_fits (s : Elf_Shdr) : Prop :=
  fits 4 (sh_name s) /\ fits 4 (sh_type s) /\ fits sizeof_Off (sh_flags s)
  /\ fits sizeof_Off (sh_addr s) /\ fits sizeof_Off (sh_offset s)
  /\ fits sizeof_Off (sh_size s) /\ fits 4 (sh_link s) /\ fits 4 (sh_info s)
  /\ fits sizeof_Off (sh_addralign s) /\ fits sizeof_Off (sh_entsize s).

Definition Phdr_fits (p : Elf_Phdr) : Prop :=
  fits 4 (p_type p) /\ fits 4 (p_flags p) /\ fits sizeof_Off (p_offset p)
  /\ fits sizeof_Off (p_vaddr p) /\ fits sizeof_Off (p_paddr p)
  /\ fits sizeof_Off (p_filesz p) /\ fits sizeof_Off (p_memsz p)
  /\ fits sizeof_Off (p_align p).

Lemma field_skip (le : bool) (a b : list byte) (off n : nat) :
  field le (a ++ b) (length a + off) n = field le b off n.
Proof. unfold field. rewrite <- drop_drop, drop_app_length. reflexivity. Qed.

Lemma field_here (le : bool) (n : nat) (x : Z) (rest : list byte) :
  fits (Z.of_nat n) x -> field le (field_bytes le n x ++ rest) 0 n = x.
Proof.
  intros Hx. unfold field. rewrite drop_0.
  replace (take n (field_bytes le n x ++ rest)) with (field_bytes le n x)
    by (symmetry; apply take_app_length'; symmetry; apply length_field_bytes).
  rewrite rdi_field_bytes. apply Z.mod_small. exact Hx.
Qed.

Lemma field_next (le : bool) (k : nat) (y : Z) (rest : list byte) (off off' n : nat)
    (x : Z) :
  off = (k + off')%nat -> field le rest off' n = x ->
  field le (field_bytes le k y ++ rest) off n = x.
Proof.
  intros -> <-. rewrite <- (length_field_bytes le k y) at 2. apply field_skip.
Qed.

Lemma length_bytes_Shdr (le : bool) (s : Elf_Shdr) :
  Z.of_nat (length (bytes_Shdr le s)) = sizeof_Shdr.
Proof.
  unfold bytes_Shdr, sizeof_Shdr, sizeof_Off. rewrite !length_app, !length_field_bytes.
  destruct ElfClass; reflexivity.
Qed.

Lemma length_bytes_Phdr (le : bool) (p : Elf_Phdr) :
  Z.of_nat (length (bytes_Phdr le p)) = sizeof_Phdr.
Proof.
  unfold bytes_Phdr, sizeof_Phdr.
  destruct ElfClass; rewrite !length_app, !length_field_bytes; reflexivity.
Qed.

Ltac field_of_bytes :=
  repeat first [ apply field_here; assumption
               | eapply field_next; [reflexivity |] ].

Lemma parse_bytes_Shdr (le : bool) (s : Elf_Shdr) :
  Shdr_fits s -> parse_Shdr le (bytes_Shdr le s) = s.
Proof.
  unfold Shdr_fits, parse_Shdr, bytes_Shdr, sizeof_Off.
  intros (H1 & H2 & H3 & H4 & H5 & H6 & H7 & H8 & H9 & H10).
  rewrite <- (app_nil_r (field_bytes le _ (sh_entsize s))).
  destruct s. cbn [sh_name sh_type sh_flags sh_addr sh_offset sh_size sh_link sh_info
                   sh_addralign sh_entsize] in *.
  destruct ElfClass;
    change (Z.to_nat 4) with 4%nat in *; change (Z.to_nat 8) with 8%nat in *;
    f_equal; field_of_bytes.
Qed.

Lemma parse_bytes_Phdr (le : bool) (p : Elf_Phdr) :
  Phdr_fits p -> parse_Phdr le (bytes_Phdr le p) = p.
Proof.
  unfold Phdr_fits, parse_Phdr, bytes_Phdr, sizeof_Off.
  intros (H1 & H2 & H3 & H4 & H5 & H6 & H7 & H8).
  destruct p. cbn [p_type p_flags p_offset p_vaddr p_paddr p_filesz p_memsz p_align] in *.
  destruct ElfClass;
    [rewrite <- (app_nil_r (field_bytes le 4 p_align0))
    |rewrite <- (app_nil_r (field_bytes le 8 p_align0))];
    f_equal; field_of_bytes.
Qed.

(** *** The loops that store the tables *)

Lemma sizeof_Shdr_pos : 0 < sizeof_Shdr.
Proof. unfold sizeof_Shdr. destruct ElfClass; lia. Qed.

Lemma sizeof_Phdr_pos : 0 < sizeof_Phdr.
Proof. unfold sizeof_Phdr. destruct ElfClass; lia. Qed.

Lemma hdr_get_reads (f : ehdr_field) (st st' : ElfFile) :
  littleEndian st' = littleEndian st ->
  (forall o n, in_header o n ->
     mem_read (fileContents st') o n = mem_read (fileContents st) o n) ->
  hdr_get f st' = hdr_get f st.
Proof.
  intros Hle Hreads. unfold hdr_get. rewrite Hle, Hreads; [reflexivity |].
  pose proof (ehdr_field_in_header f). unfold in_header. lia.
Qed.

(** The loop over the program headers [l], which are stored from entry [i]
    of the table on. *)
Lemma write_phdrs_spec (phoff : Z) (l : list Elf_Phdr) :
  sizeof_Ehdr <= phoff ->
  forall i st st',
    0 <= i -> hdr_get e_phoff st = Done phoff ->
    write_phdrs l i st = Done st' ->
    st' = with_fileContents (fileContents st') st
    /\ length (fileContents st') = length (fileContents st)
    /\ (forall (k : nat) p, l !! k = Some p ->
          mem_read (fileContents st') (phoff + (i + Z.of_nat k) * sizeof_Phdr) sizeof_Phdr
          = Done (bytes_Phdr (littleEndian st) p))
    /\ (forall o n,
          apart (phoff + i * sizeof_Phdr)
                (phoff + (i + Z.of_nat (length l)) * sizeof_Phdr) o n ->
          mem_read (fileContents st') o n = mem_read (fileContents st) o n).
Proof.
  intros Htable. pose proof sizeof_Phdr_pos as Hsz.
  induction l as [| p l IH]; intros i st st' Hi Hphoff H; simpl in H.
  - injection H as <-. split; [symmetry; apply with_fileContents_id |].
    split; [reflexivity |]. split; [intros k p Hk; discriminate Hk | reflexivity].
  - rewrite Hphoff in H. cbn [bind] in H. apply bind_Done in H as (c & Hc & H).
    assert (Hphoff1 : hdr_get e_phoff (with_fileContents c st) = Done phoff).
    { rewrite <- Hphoff. apply hdr_get_reads; [reflexivity |].
      intros o n [Ho Hn]. cbn [fileContents with_fileContents].
      apply (mem_read_apart _ _ _ _ _ _ Hc). left. nia. }
    destruct (IH (i + 1) _ _ ltac:(lia) Hphoff1 H) as (Hst & Hlen & Hslots & Hframe).
    cbn [fileContents with_fileContents littleEndian] in *.
    split; [rewrite Hst; destruct st; reflexivity |].
    split; [rewrite Hlen; eapply mem_write_length, Hc |].
    split.
    + intros [| k] q Hk.
      * injection Hk as <-. rewrite Hframe by (left; nia).
        replace (i + Z.of_nat 0) with i by lia.
        pose proof (mem_read_written _ _ _ _ Hc) as Hw.
        rewrite length_bytes_Phdr in Hw. exact Hw.
      * replace (i + Z.of_nat (S k)) with (i + 1 + Z.of_nat k) by lia.
        apply (Hslots k q Hk).
    + intros o n Hap. unfold apart in Hap. cbn [length] in Hap.
      rewrite Hframe by (unfold apart; nia).
      apply (mem_read_apart _ _ _ _ _ _ Hc). rewrite length_bytes_Phdr. nia.
Qed.

Section StoringSections.

Variables (st0 : ElfFile) (shnum shoff : Z).
Hypothesis Hshnum : hdr_get e_shnum st0 = Done shnum.
Hypothesis Hshoff : hdr_get e_shoff st0 = Done shoff.
Hypothesis Htable : sizeof_Ehdr <= shoff.

(** The loop before section [i]. *)
Record stored (i : Z) (st : ElfFile) : Prop := mkStored {
  stored_file : st = with_fileContents (fileContents st) st0;
  stored_length : length (fileContents st) = length (fileContents st0);
  stored_slots : forall j shdr, 1 <= j < i -> shdrs st0 !! Z.to_nat j = Some shdr ->
    mem_read (fileContents st) (shoff + j * sizeof_Shdr) sizeof_Shdr
    = Done (bytes_Shdr (littleEndian st0) shdr);
  stored_frame : forall o n,
    apart (shoff + sizeof_Shdr) (shoff + i * sizeof_Shdr) o n ->
    mem_read (fileContents st) o n = mem_read (fileContents st0) o n }.

Lemma stored_header (f : ehdr_field) (i : Z) (st : ElfFile) :
  1 <= i -> stored i st -> hdr_get f st = hdr_get f st0.
Proof.
  intros Hi [Hst _ _ Hframe]. pose proof sizeof_Shdr_pos.
  apply hdr_get_reads; [rewrite Hst; reflexivity |].
  intros o n [Ho Hn]. apply Hframe. left. lia.
Qed.

Lemma stored_step (i : Z) (st st' : ElfFile) :
  1 <= i -> stored i st -> write_shdr i st = Done st' -> stored (i + 1) st'.
Proof.
  intros Hi Hinv H. pose proof sizeof_Shdr_pos as Hsz.
  pose proof (stored_header e_shoff i st Hi Hinv) as Hoff.
  destruct Hinv as [Hst Hlen Hslots Hframe].
  unfold write_shdr in H. rewrite Hoff, Hshoff in H. cbn [bind] in H.
  apply bind_Done in H as (shdr & Hshdr & H).
  apply bind_Done in H as (c & Hc & H). injection H as <-.
  assert (Hi' : shdrs st0 !! Z.to_nat i = Some shdr).
  { unfold vec_at in Hshdr. destruct (0 <=? i); [| discriminate].
    rewrite Hst in Hshdr. cbn [shdrs with_fileContents] in Hshdr.
    destruct (shdrs st0 !! Z.to_nat i); [| discriminate].
    injection Hshdr as ->. reflexivity. }
  assert (Hle : littleEndian st = littleEndian st0) by (rewrite Hst; reflexivity).
  rewrite Hle in Hc.
  cbn [fileContents with_fileContents]. split.
  - rewrite Hst. reflexivity.
  - cbn [fileContents with_fileContents]. rewrite <- Hlen. eapply mem_write_length, Hc.
  - cbn [fileContents with_fileContents]. intros j s Hj Hs.
    destruct (Z.eq_dec j i) as [-> | Hne].
    + rewrite Hi' in Hs. injection Hs as <-.
      pose proof (mem_read_written _ _ _ _ Hc) as Hw.
      rewrite length_bytes_Shdr in Hw. exact Hw.
    + rewrite (mem_read_apart _ _ _ _ _ _ Hc) by (left; nia).
      apply Hslots; [lia | exact Hs].
  - cbn [fileContents with_fileContents]. intros o n Hap. unfold apart in Hap.
    rewrite (mem_read_apart _ _ _ _ _ _ Hc) by (rewrite length_bytes_Shdr; nia).
    apply Hframe. unfold apart. nia.
Qed.

End StoringSections.

Lemma write_phdrs_returns (phoff : Z) (l : list Elf_Phdr) :
  sizeof_Ehdr <= phoff ->
  forall i st,
    0 <= i -> hdr_get e_phoff st = Done phoff ->
    phoff + (i + Z.of_nat (length l)) * sizeof_Phdr <= Z.of_nat (length (fileContents st)) ->
    exists st', write_phdrs l i st = Done st'.
Proof.
  intros Htable. pose proof sizeof_Phdr_pos as Hsz.
  induction l as [| p l IH]; intros i st Hi Hphoff Hfit; simpl.
  - eexists. reflexivity.
  - rewrite Hphoff. cbn [bind]. cbn [length] in Hfit.
    pose proof (ehdr_field_in_header e_phoff) as (He & _).
    assert (Hsize : 0 <= sizeof_Ehdr) by (unfold sizeof_Ehdr; destruct ElfClass; lia).
    destruct (mem_write_in_bounds (fileContents st) (phoff + i * sizeof_Phdr)
                (bytes_Phdr (littleEndian st) p)) as (c & Hc);
      [nia | rewrite length_bytes_Phdr; nia |].
    rewrite Hc. cbn [bind].
    apply IH; [lia | |].
    + rewrite <- Hphoff. apply hdr_get_reads; [reflexivity |].
      intros o n [Ho Hn]. cbn [fileContents with_fileContents].
      apply (mem_read_apart _ _ _ _ _ _ Hc). left. nia.
    + cbn [fileContents with_fileContents]. rewrite (mem_write_length _ _ _ _ Hc). nia.
Qed.

(** The loop of [rewriteHeaders] over the program headers, for a table that
    lies behind the ELF header and inside the file: it returns; it changes
    nothing but bytes of the file; entry [i] of the table at [e_phoff] then
    holds the bytes of [phdrs[i]], from which a header whose fields hold
    values of their types is read back; and what lies apart from the table
    is as it was. *)
Theorem write_phdrs_stores_table (st : ElfFile) (phoff : Z) :
  hdr_get e_phoff st = Done phoff ->
  sizeof_Ehdr <= phoff ->
  phoff + Z.of_nat (length (phdrs st)) * sizeof_Phdr
  <= Z.of_nat (length (fileContents st)) ->
  exists st',
    write_phdrs (phdrs st) 0 st = Done st'
    /\ st' = with_fileContents (fileContents st') st
    /\ length (fileContents st') = length (fileContents st)
    /\ (forall (i : nat) p, phdrs st !! i = Some p ->
          mem_read (fileContents st') (phoff + Z.of_nat i * sizeof_Phdr) sizeof_Phdr
          = Done (bytes_Phdr (littleEndian st) p)
          /\ (Phdr_fits p ->
              parse_Phdr (littleEndian st)
                (take (Z.to_nat sizeof_Phdr)
                   (drop (Z.to_nat (phoff + Z.of_nat i * sizeof_Phdr)) (fileContents st')))
              = p))
    /\ (forall o n,
          apart phoff (phoff + Z.of_nat (length (phdrs st)) * sizeof_Phdr) o n ->
          mem_read (fileContents st') o n = mem_read (fileContents st) o n).
Proof.
  intros Hphoff Htable Hfit.
  destruct (write_phdrs_returns phoff (phdrs st) Htable 0 st ltac:(lia) Hphoff Hfit)
    as (st' & Hrun).
  exists st'. split; [exact Hrun |].
  destruct (write_phdrs_spec phoff (phdrs st) Htable 0 st st' ltac:(lia) Hphoff Hrun)
    as (Hst & Hlen & Hslots & Hframe).
  split; [exact Hst |]. split; [exact Hlen |]. split.
  - intros i p Hi. specialize (Hslots i p Hi). rewrite Z.add_0_l in Hslots.
    split; [exact Hslots |]. intros Hp.
    apply mem_read_Done in Hslots as (_ & _ & _ & Hbytes).
    rewrite <- Hbytes. apply parse_bytes_Phdr, Hp.
  - intros o n Hap. apply Hframe. rewrite Z.mul_0_l, Z.add_0_r, Z.add_0_l. exact Hap.
Qed.

Lemma stored_returns (st0 : ElfFile) (shnum shoff : Z) :
  hdr_get e_shnum st0 = Done shnum -> hdr_get e_shoff st0 = Done shoff ->
  sizeof_Ehdr <= shoff ->
  shnum <= Z.of_nat (length (shdrs st0)) ->
  shoff + shnum * sizeof_Shdr <= Z.of_nat (length (fileContents st0)) ->
  forall fuel i st,
    1 <= i <= shnum -> shnum - i <= Z.of_nat fuel -> stored st0 shoff i st ->
    exists st', for_header id e_shnum write_shdr fuel i st = Done st'
                /\ stored st0 shoff shnum st'.
Proof.
  intros Hshnum Hshoff Htable Hcount Hfit. pose proof sizeof_Shdr_pos as Hsz.
  induction fuel as [| fuel IH]; intros i st Hi Hfuel Hinv; simpl; try unfold id;
    rewrite (stored_header st0 shoff Htable e_shnum i st ltac:(lia) Hinv), Hshnum;
    cbn [bind].
  - destruct (Z.ltb_spec i shnum); [lia |].
    exists st. split; [reflexivity |]. replace shnum with i by lia. exact Hinv.
  - destruct (Z.ltb_spec i shnum) as [Hlt |].
    2:{ exists st. split; [reflexivity |]. replace shnum with i by lia. exact Hinv. }
    assert (Hbody : exists st1, write_shdr i st = Done st1).
    { unfold write_shdr.
      rewrite (stored_header st0 shoff Htable e_shoff i st ltac:(lia) Hinv), Hshoff.
      cbn [bind]. destruct Hinv as [Hst Hlen _ _].
      assert (Hsh : shdrs st = shdrs st0) by (rewrite Hst; reflexivity).
      destruct (lookup_lt_is_Some_2 (shdrs st0) (Z.to_nat i) ltac:(lia)) as [shdr Hs].
      unfold vec_at. destruct (Z.leb_spec 0 i); [| lia]. rewrite Hsh, Hs. cbn [bind].
      destruct (mem_write_in_bounds (fileContents st) (shoff + i * sizeof_Shdr)
                  (bytes_Shdr (littleEndian st) shdr)) as (c & Hc);
        [pose proof (ehdr_field_in_header e_shoff); nia
        | rewrite length_bytes_Shdr, Hlen; nia |].
      rewrite Hc. eexists. reflexivity. }
    destruct Hbody as (st1 & Hbody). rewrite Hbody. cbn [bind].
    apply IH; [lia | lia |].
    apply (stored_step st0 shoff Hshoff Htable i st st1); [lia | exact Hinv | exact Hbody].
Qed.

(** The loop of [rewriteHeaders] over the section headers, for a table of
    at least one entry that lies behind the ELF header and inside the file:
    it returns; it changes nothing but bytes of the file; entry [i] of the
    table at [e_shoff] then holds the bytes of [shdrs[i]] for every [i] from
    1 on, from which a header whose fields hold values of their types is
    read back; entry 0 of the table is not written, and what lies apart from
    the entries from 1 on is as it was. *)
Theorem write_shdrs_stores_table (st : ElfFile) (shnum shoff : Z) :
  hdr_get e_shnum st = Done shnum ->
  hdr_get e_shoff st = Done shoff ->
  sizeof_Ehdr <= shoff ->
  1 <= shnum <= Z.of_nat (length (shdrs st)) ->
  shoff + shnum * sizeof_Shdr <= Z.of_nat (length (fileContents st)) ->
  exists st',
    for_shnum 1 write_shdr st = Done st'
    /\ st' = with_fileContents (fileContents st') st
    /\ length (fileContents st') = length (fileContents st)
    /\ (forall i shdr, 1 <= i < shnum -> shdrs st !! Z.to_nat i = Some shdr ->
          mem_read (fileContents st') (shoff + i * sizeof_Shdr) sizeof_Shdr
          = Done (bytes_Shdr (littleEndian st) shdr)
          /\ (Shdr_fits shdr ->
              parse_Shdr (littleEndian st)
                (take (Z.to_nat sizeof_Shdr)
                   (drop (Z.to_nat (shoff + i * sizeof_Shdr)) (fileContents st')))
              = shdr))
    /\ (forall o n,
          apart (shoff + sizeof_Shdr) (shoff + shnum * sizeof_Shdr) o n ->
          mem_read (fileContents st') o n = mem_read (fileContents st) o n).
Proof.
  intros Hshnum Hshoff Htable Hcount Hfit.
  assert (Hstart : stored st shoff 1 st).
  { split; [symmetry; apply with_fileContents_id | reflexivity | intros; lia | reflexivity]. }
  destruct (stored_returns st shnum shoff Hshnum Hshoff Htable ltac:(lia) Hfit
              (length (shdrs st)) 1 st ltac:(lia) ltac:(lia) Hstart)
    as (st' & Hrun & [Hst Hlen Hslots Hframe]).
  exists st'. split; [exact Hrun |]. split; [exact Hst |]. split; [exact Hlen |].
  split; [| exact Hframe].
  intros i shdr Hi Hs. specialize (Hslots i shdr Hi Hs).
  split; [exact Hslots |]. intros Hp.
  apply mem_read_Done in Hslots as (_ & _ & _ & Hbytes).
  rewrite <- Hbytes. apply parse_bytes_Shdr, Hp.
Qed.


End WithClass.

(** * The driver over both classes *)

(** The body of the loop of [patchElf] for one file, with [contents] what
    [readFile] returned for it: the bytes handed to [writeFile], if any.
    A file that [getElfType] does not take for a 32-bit one is opened as a
    64-bit one. *)
Definition patchElf_file (hostLittleEndian : bool) (forcedPageSize : Z)
    (clobberOldSections : bool) (dataAddress : Z) (fuel : nat)
    (libs : gmap string string) (contents : option (list byte))
    : outcome (option (list byte)) :=
  t <- getElfType hostLittleEndian contents;;
  match contents with
  | None => Undef "null FileContents"
  | Some b =>
      if is32Bit t then
        st <- ElfFile_ctor ELFCLASS32 dataAddress b;;
        patchElf2 ELFCLASS32 forcedPageSize clobberOldSections fuel libs st
      else
        st <- ElfFile_ctor ELFCLASS64 dataAddress b;;
        patchElf2 ELFCLASS64 forcedPageSize clobberOldSections fuel libs st
  end.

(** * A sample image

    A small 64-bit little-endian image: the ELF header, two program
    headers (a PT_LOAD over the whole file and a PT_NOTE over two note
    sections), the sections [.note.a], [.note.b], [.dynstr], [.dynsym],
    [.text] and [.shstrtab] from offset 512 on, and the section header
    table at offset 688. *)

Module Sample.

Definition pad (n : nat) (l : list byte) : list byte := resize n x00 l.

Definition ehdr_at (type phoff phnum : Z) : list byte :=
  [x7f; x45; x4c; x46; x02; x01; x01; x00; x00; x00; x00; x00; x00; x00; x00; x00]
  ++ field_bytes true 2 type ++ field_bytes true 2 62 ++ field_bytes true 4 1
  ++ field_bytes true 8 0 ++ field_bytes true 8 phoff ++ field_bytes true 8 688
  ++ field_bytes true 4 0 ++ field_bytes true 2 64 ++ field_bytes true 2 56
  ++ field_bytes true 2 phnum ++ field_bytes true 2 64 ++ field_bytes true 2 7
  ++ field_bytes true 2 6.

Definition ehdr (type phnum : Z) : list byte := ehdr_at type 64 phnum.

Definition names : list byte :=
  x00 :: list_byte_of_string ".note.a" ++ x00 :: list_byte_of_string ".note.b"
  ++ x00 :: list_byte_of_string ".dynstr" ++ x00 :: list_byte_of_string ".dynsym"
  ++ x00 :: list_byte_of_string ".text" ++ x00 :: list_byte_of_string ".shstrtab"
  ++ [x00].

Definition section (name type addr off size link align : Z) : Elf_Shdr :=
  mkShdr name type 0 addr off size link 0 align 0.

Definition sections : list Elf_Shdr :=
  [ mkShdr 0 0 0 0 0 0 0 0 0 0;
    section 1 SHT_NOTE 512 512 16 0 4;
    section 9 SHT_NOTE 528 528 16 0 4;
    section 17 3 544 544 16 0 1;
    section 25 SHT_DYNSYM 560 560 48 3 8;
    section 33 SHT_PROGBITS 608 608 16 0 16;
    section 39 3 0 624 49 0 1 ].

Definition segments : list Elf_Phdr :=
  [ mkPhdr PT_LOAD 5 0 0 0 1136 1136 4096;
    mkPhdr PT_NOTE 4 512 512 512 32 32 4 ].

Definition symbol (name info shndx value size : Z) : list byte :=
  field_bytes true 4 name ++ field_bytes true 1 info ++ field_bytes true 1 0
  ++ field_bytes true 2 shndx ++ field_bytes true 8 value ++ field_bytes true 8 size.

Definition image_of (secs : list Elf_Shdr) (segs : list Elf_Phdr) (type phoff phnum : Z)
    : list byte :=
  pad 512 (ehdr_at type phoff phnum ++ flat_map (bytes_Phdr ELFCLASS64 true) segs)
  ++ pad 16 [x01] ++ pad 16 [x02]
  ++ pad 16 (x00 :: list_byte_of_string "libfoo.so")
  ++ symbol 0 0 0 0 0 ++ symbol 0 3 5 608 0
  ++ pad 16 [xc3] ++ pad 64 names
  ++ flat_map (bytes_Shdr ELFCLASS64 true) secs.

Definition image_at (type phoff phnum : Z) : list byte :=
  image_of sections segments type phoff phnum.

Definition image (type phnum : Z) : list byte := image_at type 64 phnum.

Definition empty_file : ElfFile := mkElfFile [] [] [] false false false [] [] ∅ [].

(** The object opened from an image. *)
Definition open (b : list byte) : ElfFile :=
  match ElfFile_ctor ELFCLASS64 4096 b with
  | Done st => st
  | _ => empty_file
  end.

Definition library : ElfFile := Eval vm_compute in open (image ET_DYN 2).
Definition executable : ElfFile := Eval vm_compute in open (image ET_EXEC 2).
Definition no_segments : ElfFile := Eval vm_compute in open (image ET_DYN 0).

(** [st] after [replaceSection(name, size)]. *)
Definition edit (name : string) (size : Z) (st : ElfFile) : ElfFile :=
  match replaceSection ELFCLASS64 name size st with
  | Done (st', _) => st'
  | _ => st
  end.

(** [st] after a commit. *)
Definition commit (fuel : nat) (force : bool) (st : ElfFile) : ElfFile :=
  match rewriteSections ELFCLASS64 (-1) true fuel force st with
  | Done st' => st'
  | _ => empty_file
  end.

Definition grown : ElfFile := Eval vm_compute in edit ".dynstr" 40 library.
Definition grown_committed : ElfFile := Eval vm_compute in commit 10 false grown.
Definition emptied : ElfFile := Eval vm_compute in edit ".dynstr" 0 library.
Definition emptied_committed : ElfFile := Eval vm_compute in commit 10 false emptied.

(** The walk of the executable strategy over [st]. *)
Definition walk (st : ElfFile) : exec_walk :=
  match executable_walk ELFCLASS64 st with
  | Done w => w
  | _ => mkWalk empty_file 0 0 0
  end.

Definition grown_executable : ElfFile := Eval vm_compute in edit ".dynstr" 40 executable.
Definition grown_walked : exec_walk := Eval vm_compute in walk grown_executable.
Definition both_edited : ElfFile := Eval vm_compute in edit ".dynsym" 48 grown_executable.
Definition both_walked : exec_walk := Eval vm_compute in walk both_edited.


(** The sample with four bytes of padding at the head of the PT_NOTE
    segment: the segment starts at offset 508, aligned to 4, and its first
    section [.note.a], aligned to 8, at offset 512. *)
Definition padded_sections : list Elf_Shdr :=
  [ mkShdr 0 0 0 0 0 0 0 0 0 0;
    section 1 SHT_NOTE 512 512 16 0 8;
    section 9 SHT_NOTE 528 528 16 0 4;
    section 17 3 544 544 16 0 1;
    section 25 SHT_DYNSYM 560 560 48 3 8;
    section 33 SHT_PROGBITS 608 608 16 0 16;
    section 39 3 0 624 49 0 1 ].

Definition padded_segments : list Elf_Phdr :=
  [ mkPhdr PT_LOAD 5 0 0 0 1136 1136 4096;
    mkPhdr PT_NOTE 4 508 508 508 36 36 4 ].

Definition padded_library : ElfFile :=
  Eval vm_compute in open (image_of padded_sections padded_segments ET_DYN 64 2).

(** Both libraries with a pending edit on the note section [.note.b]. *)
Definition note_edited : ElfFile := Eval vm_compute in edit ".note.b" 32 library.
Definition padded_note_edited : ElfFile :=
  Eval vm_compute in edit ".note.b" 32 padded_library.

End Sample.

(** * A sample with two symbol tables over the same bytes

    The sample image with the header of its third section turned into a
    SHT_SYMTAB header for the bytes of [.dynsym]; the constructor accepts
    it.  The symbol at offset 584 names section 5, [.text]. *)

Module Overlap.

Definition sections : list Elf_Shdr :=
  [ mkShdr 0 0 0 0 0 0 0 0 0 0;
    Sample.section 1 SHT_NOTE 512 512 16 0 4;
    Sample.section 9 SHT_SYMTAB 560 560 48 3 8;
    Sample.section 17 3 544 544 16 0 1;
    Sample.section 25 SHT_DYNSYM 560 560 48 3 8;
    Sample.section 33 SHT_PROGBITS 608 608 16 0 16;
    Sample.section 39 3 0 624 49 0 1 ].

Definition image : list byte := Sample.image_of sections Sample.segments ET_DYN 64 2.

Definition library : ElfFile := Eval vm_compute in Sample.open image.
Definition edited : ElfFile := Eval vm_compute in Sample.edit ".dynstr" 40 library.

End Overlap.

(** * The theorems at the sample image *)

Lemma replaceSection_spec_witness :
  exists (st' : ElfFile) (buf : list byte),
    replaceSection ELFCLASS64 ".dynstr" 40 Sample.library = Done (st', buf)
    /\ length buf = 40%nat
    /\ take 16 buf = x00 :: list_byte_of_string "libfoo.so" ++ replicate 6 x00
    /\ drop 16 buf = replicate 24 x00
    /\ replacedSections st' !! ".dynstr" = Some buf
    /\ (forall other, other <> ".dynstr" ->
          replacedSections st' !! other = replacedSections Sample.library !! other)
    /\ fileContents st' = fileContents Sample.library
    /\ shdrs st' = shdrs Sample.library /\ phdrs st' = phdrs Sample.library.
Proof.
  destruct (replaceSection_spec ELFCLASS64 ".dynstr" 40 Sample.library 3
              (Sample.section 17 3 544 544 16 0 1)
              (x00 :: list_byte_of_string "libfoo.so" ++ replicate 6 x00))
    as (st' & buf & H1 & H2 & H3 & H4 & H5);
    [ vm_compute; reflexivity | lia | reflexivity | lia
    | vm_compute; repeat split; discriminate | ].
  exists st', buf. repeat split; try assumption; tauto.
Defined.

Lemma canReplaceSection_spec_witness :
  exists b : bool,
    canReplaceSection ELFCLASS64 ".text" Sample.library = Done b
    /\ (b = true <-> ".text" = ".interp" \/ SHT_PROGBITS <> SHT_PROGBITS).
Proof.
  apply (canReplaceSection_spec ELFCLASS64 ".text" Sample.library 5
           (Sample.section 33 SHT_PROGBITS 608 608 16 0 16));
    [ vm_compute; reflexivity | lia | reflexivity ].
Defined.

Lemma open_commit_noop_witness :
  rewriteSections ELFCLASS64 (-1) true 0 false Sample.library = Done Sample.library
  /\ fileContents Sample.library = Sample.image ET_DYN 2
  /\ replacedSections Sample.library = ∅.
Proof.
  apply (open_commit_noop ELFCLASS64 (-1) true 4096 (Sample.image ET_DYN 2) Sample.library 0).
  vm_compute. reflexivity.
Defined.

Lemma ctor_rejects_tables_out_of_bounds_witness :
  exists msg,
    ElfFile_ctor ELFCLASS64 4096 (Sample.image_at ET_DYN (2 ^ 64 - 1) 2) = Throw msg
    /\ In msg table_errors.
Proof.
  apply (ctor_rejects_tables_out_of_bounds ELFCLASS64 4096
           (Sample.image_at ET_DYN (2 ^ 64 - 1) 2)).
  right. left. vm_compute. discriminate.
Defined.

Lemma commit_clears_edits_witness :
  replacedSections Sample.grown_committed = ∅
  /\ forall fuel',
       rewriteSections ELFCLASS64 (-1) true fuel' false Sample.grown_committed
       = Done Sample.grown_committed.
Proof.
  apply (commit_clears_edits ELFCLASS64 (-1) true 10 false Sample.grown).
  - right. vm_compute. discriminate.
  - vm_compute. reflexivity.
Defined.

Lemma library_needs_a_program_header_witness :
  rewriteSections ELFCLASS64 (-1) true 0 true
    (with_replacedSections ∅ Sample.no_segments)
  = Undef "back() of an empty vector".
Proof.
  eapply (library_needs_a_program_header ELFCLASS64 (-1) true 4096
            (Sample.image ET_DYN 0) Sample.no_segments _ ∅ 0 true _).
  - vm_compute. reflexivity.
  - vm_compute. reflexivity.
  - left. reflexivity.
  - vm_compute. reflexivity.
  - vm_compute. reflexivity.
Defined.

Lemma library_file_size_witness :
  Z.of_nat (length (fileContents Sample.grown_committed)) = 4096 + (448 + 0 + 40) + 1
  /\ exists (st1 : ElfFile) (lay : library_layout) (st2 st3 : ElfFile) (lastSegAddr cur : Z),
       library_plan ELFCLASS64 (-1) Sample.grown = Done (st1, lay)
       /\ library_segment ELFCLASS64 lay st1 = Done (st2, lastSegAddr)
       /\ library_placement ELFCLASS64 true 10 lay st2 = Done (st3, cur)
       /\ cur = 4096 + (448 + 0 + 40)
       /\ library_headers ELFCLASS64 lay lastSegAddr st3 = Done Sample.grown_committed.
Proof.
  pose proof (fun st1 lay => library_file_size ELFCLASS64 (-1) true 10 Sample.grown st1
                Sample.grown_committed lay 4096 7 64) as H.
  edestruct H as (Hsize & _ & st2 & st3 & lastSegAddr & Hseg & Hplace & Hhdrs).
  - vm_compute. reflexivity.
  - vm_compute. reflexivity.
  - vm_compute. reflexivity.
  - vm_compute. reflexivity.
  - vm_compute. reflexivity.
  - vm_compute. reflexivity.
  - vm_compute. reflexivity.
  - vm_compute. reflexivity.
  - vm_compute. reflexivity.
  - split; [rewrite Hsize; vm_compute; reflexivity |].
    eexists _, _, st2, st3, lastSegAddr, _.
    split; [vm_compute; reflexivity |].
    split; [exact Hseg |]. split; [exact Hplace |].
    split; [vm_compute; reflexivity | exact Hhdrs].
Defined.

(** With an empty pending edit the file is one unit of alignment longer
    than plain rounding of the sizes makes it. *)
Lemma library_file_size_counterexample :
  rewriteSections ELFCLASS64 (-1) true 10 false Sample.emptied
  = Done Sample.emptied_committed
  /\ replacedSections Sample.emptied !! ".dynstr" = Some []
  /\ Z.of_nat (length (fileContents Sample.emptied_committed))
     <> plain_size ELFCLASS64 4096 7 64 Sample.emptied false
          (replacedSections Sample.emptied).
Proof. vm_compute. repeat split; discriminate. Defined.




Lemma executable_walk_spec_witness :
  exists (st0 : ElfFile) (lastReplaced shnum : Z),
    sortShdrs ELFCLASS64 Sample.grown_executable = Done st0
    /\ hdr_get ELFCLASS64 e_shnum st0 = Done shnum
    /\ 1 <= lastReplaced < shnum
    /\ lastReplaced + 1 < Z.of_nat (length (shdrs st0))
    /\ (exists s, shdrs st0 !! Z.to_nat lastReplaced = Some s
                  /\ is_Some (replacedSections st0 !! section_name st0 s))
    /\ (forall j s, lastReplaced < j < shnum -> shdrs st0 !! Z.to_nat j = Some s ->
          replacedSections st0 !! section_name st0 s = None)
    /\ let secs := take (Z.to_nat lastReplaced) (drop 1 (shdrs st0)) in
       let k := first_stop irreplaceable st0 String.EmptyString 1 secs in
       1 <= k <= lastReplaced + 1
       /\ (exists shdr, shdrs st0 !! Z.to_nat k = Some shdr
                        /\ walk_startOffset Sample.grown_walked = sh_offset shdr
                        /\ walk_startAddr Sample.grown_walked = sh_addr shdr)
       /\ walk_lastReplaced Sample.grown_walked = k - 1
       /\ walk_file Sample.grown_walked
          = with_replacedSections
              (scheduled st0 (replacedSections st0) (take (Z.to_nat (k - 1)) secs)) st0.
Proof.
  apply (executable_walk_spec ELFCLASS64 Sample.grown_executable Sample.grown_walked).
  vm_compute. reflexivity.
Defined.

(** With pending edits on [.dynstr] and on [.dynsym], the section right
    after it, the walk stops at [.dynsym], index 4, which has a pending
    edit; no section of the range is both without an edit and not
    replaceable, so the rule that skips edited sections stops nowhere. *)
Lemma executable_walk_spec_counterexample :
  executable_walk ELFCLASS64 Sample.both_edited = Done Sample.both_walked
  /\ sortShdrs ELFCLASS64 Sample.both_edited = Done Sample.both_edited
  /\ replacedSections Sample.both_edited !! ".dynsym" <> None
  /\ walk_lastReplaced Sample.both_walked = 3
  /\ walk_startOffset Sample.both_walked = 560
  /\ first_stop (irreplaceable_unedited (replacedSections Sample.both_edited))
       Sample.both_edited String.EmptyString 1
       (take 4 (drop 1 (shdrs Sample.both_edited))) = 5
  /\ walk_lastReplaced Sample.both_walked
     <> first_stop (irreplaceable_unedited (replacedSections Sample.both_edited))
          Sample.both_edited String.EmptyString 1
          (take 4 (drop 1 (shdrs Sample.both_edited))) - 1.
Proof. vm_compute. repeat split; discriminate. Defined.

(** C4.  The note normalizer at the sample whose PT_NOTE segment starts
    with four bytes of padding, with a pending edit on [.note.b]: the
    section found first starts at offset 512, not at the segment's offset
    508, so its program header is appended like the second one instead of
    taking the segment's slot; the segment's own program header stays as it
    was, over both sections, next to the two derived ones, and the commit
    then fails on the overlap.  At the sample whose segment starts at its
    first section the slot is reused and the commit goes through. *)
Theorem normalize_leaves_padded_slot :
  (exists st',
     normalizeNoteSegments ELFCLASS64 10 Sample.padded_note_edited = Done st'
     /\ phdrs st'
        = [ mkPhdr PT_LOAD 5 0 0 0 1136 1136 4096;
            mkPhdr PT_NOTE 4 508 508 508 36 36 4;
            mkPhdr PT_NOTE 4 512 512 512 16 16 4;
            mkPhdr PT_NOTE 4 528 528 528 16 16 4 ]
     /\ hdr_get ELFCLASS64 e_phnum st' = Done 4)
  /\ rewriteSections ELFCLASS64 (-1) true 10 false Sample.padded_note_edited
     = Throw "unsupported overlap of SHT_NOTE and PT_NOTE"
  /\ (exists st',
        normalizeNoteSegments ELFCLASS64 10 Sample.note_edited = Done st'
        /\ phdrs st'
           = [ mkPhdr PT_LOAD 5 0 0 0 1136 1136 4096;
               mkPhdr PT_NOTE 4 512 512 512 16 16 4;
               mkPhdr PT_NOTE 4 528 528 528 16 16 4 ])
  /\ is_done (rewriteSections ELFCLASS64 (-1) true 10 false Sample.note_edited) = true.
Proof.
  split; [eexists; split; [vm_compute; reflexivity | split; vm_compute; reflexivity] |].
  split; [vm_compute; reflexivity |].
  split; [eexists; split; vm_compute; reflexivity |].
  vm_compute. reflexivity.
Qed.

(** * More on the driver *)

(** A file that does not start with the ELF magic is not patched:
    [getElfType] does not take it for a 32-bit file, so the 64-bit
    constructor gets it and raises [missing ELF header] when the file is
    shorter than a 64-bit ELF header and [not an ELF executable] otherwise;
    nothing is written. *)
Theorem patchElf_rejects_other_files (hostLittleEndian : bool) (forcedPageSize : Z)
    (clobberOldSections : bool) (dataAddress : Z) (fuel : nat)
    (libs : gmap string string) (c : list byte) :
  take 4 c <> ELFMAG ->
  patchElf_file hostLittleEndian forcedPageSize clobberOldSections dataAddress fuel libs
    (Some c)
  = Throw (if Z.of_nat (length c) <? 64 then "missing ELF header"
           else "not an ELF executable").
Proof.
  intros Hmagic. unfold patchElf_file.
  rewrite (getElfType_no_magic hostLittleEndian c Hmagic). cbn [bind is32Bit].
  unfold ElfFile_ctor. change (sizeof_Ehdr ELFCLASS64) with 64.
  destruct (Z.ltb_spec (Z.of_nat (length c)) 64) as [Hshort | Hlong]; [reflexivity |].
  rewrite (mem_read_in_bounds c 0 SELFMAG) by (unfold SELFMAG; lia).
  change (take (Z.to_nat SELFMAG) (drop (Z.to_nat 0) c)) with (take 4 c). cbn [bind].
  rewrite bool_decide_eq_false_2 by exact Hmagic. reflexivity.
Qed.

(** * A sample image with a dynamic section

    A 64-bit little-endian library with the sections [.dynstr] (the
    names [libfoo.so.1] and [libbar.so]), [.dynamic] (two DT_NEEDED
    entries, DT_STRTAB, DT_STRSZ and DT_NULL), [.text] and [.shstrtab]. *)

Module Linked.

Definition dyn (tag val : Z) : list byte := field_bytes true 8 tag ++ field_bytes true 8 val.

Definition names : list byte :=
  x00 :: list_byte_of_string ".dynstr" ++ x00 :: list_byte_of_string ".dynamic"
  ++ x00 :: list_byte_of_string ".text" ++ x00 :: list_byte_of_string ".shstrtab" ++ [x00].

Definition sections : list Elf_Shdr :=
  [ mkShdr 0 0 0 0 0 0 0 0 0 0;
    Sample.section 1 3 512 512 32 0 1;
    mkShdr 9 6 0 544 544 80 1 0 8 16;
    Sample.section 18 SHT_PROGBITS 624 624 16 0 16;
    Sample.section 24 3 0 640 34 0 1 ].

Definition segments : list Elf_Phdr :=
  [ mkPhdr PT_LOAD 5 0 0 0 1008 1008 4096;
    mkPhdr 2 6 544 544 544 80 80 8 ].

Definition ehdr : list byte :=
  [x7f; x45; x4c; x46; x02; x01; x01; x00; x00; x00; x00; x00; x00; x00; x00; x00]
  ++ field_bytes true 2 ET_DYN ++ field_bytes true 2 62 ++ field_bytes true 4 1
  ++ field_bytes true 8 0 ++ field_bytes true 8 64 ++ field_bytes true 8 688
  ++ field_bytes true 4 0 ++ field_bytes true 2 64 ++ field_bytes true 2 56
  ++ field_bytes true 2 2 ++ field_bytes true 2 64 ++ field_bytes true 2 5
  ++ field_bytes true 2 4.

Definition dynstr : list byte :=
  Sample.pad 32 (x00 :: list_byte_of_string "libfoo.so.1"
                 ++ x00 :: list_byte_of_string "libbar.so").

Definition image : list byte :=
  Sample.pad 512 (ehdr ++ flat_map (bytes_Phdr ELFCLASS64 true) segments)
  ++ dynstr
  ++ dyn DT_NEEDED 1 ++ dyn DT_NEEDED 13 ++ dyn DT_STRTAB 512 ++ dyn DT_STRSZ 32
  ++ dyn DT_NULL 0
  ++ Sample.pad 16 [xc3] ++ Sample.pad 48 names
  ++ flat_map (bytes_Shdr ELFCLASS64 true) sections.

Definition library : ElfFile := Eval vm_compute in Sample.open image.

Definition content : list byte := Eval vm_compute in dynstr.

(** Replace [libfoo.so.1]; and a map for a library the image does not
    need. *)
Definition libs : gmap string string := {[ "libfoo.so.1" := "libfoo.so.2" ]}.
Definition other_libs : gmap string string := {[ "libqux.so" := "libquux.so" ]}.

(** The library once [.dynstr] has been given a new place in the section
    headers, and then after the loop over the dynamic table. *)
Definition moved : ElfFile :=
  with_shdrs (<[1%nat := Sample.section 1 3 8192 4608 62 0 1]> (shdrs library)) library.

Definition synced : ElfFile :=
  Eval vm_compute in
    match update_dynamic ELFCLASS64 10 (mkShdr 9 6 0 544 544 80 1 0 8 16) 544 544 moved with
    | Done st => st
    | _ => Sample.empty_file
    end.

End Linked.

(** * The further theorems at the samples *)

Lemma roundUp_least_multiple_witness :
  exists r, roundUp 10 4 = Done r
    /\ r mod 4 = 0 /\ 10 <= r < 10 + 4
    /\ forall k, k mod 4 = 0 -> 10 <= k -> r <= k.
Proof. apply (roundUp_least_multiple 10 4); lia. Defined.

Lemma rdi_field_roundtrip_witness :
  rdi false (field_bytes false 2 0x1234) = 0x1234
  /\ field_bytes false 2 (rdi false [x12; x34]) = [x12; x34]
  /\ 0 <= rdi false [x12; x34] < 2 ^ 16.
Proof. apply (rdi_field_roundtrip false [x12; x34] 0x1234). simpl. lia. Defined.

Lemma setSubstr_spec_witness :
  exists s', setSubstr [x01; x02; x03; x04] 1 [x0a; x0b] = Done s'
    /\ length s' = 4%nat
    /\ take 1 s' = [x01]
    /\ take 2 (drop 1 s') = [x0a; x0b]
    /\ drop 3 s' = [x04].
Proof.
  apply (setSubstr_spec [x01; x02; x03; x04] [x0a; x0b] 1); simpl; lia.
Defined.

Lemma replaceSection_again_witness :
  let buf1 := resize 40 x00 (x00 :: list_byte_of_string "libfoo.so") in
  let buf2 := resize 8 x00 buf1 in
  let st2 := with_replacedSections (<[".dynstr" := buf2]> (replacedSections Sample.library))
               Sample.library in
  replaceSection ELFCLASS64 ".dynstr" 8 Sample.grown = Done (st2, buf2)
  /\ (u32 8 <= u32 40 -> buf2 = take 8 buf1)
  /\ (u32 40 <= u32 8 -> replaceSection ELFCLASS64 ".dynstr" 40 st2 = Done (Sample.grown, buf1)).
Proof.
  apply (replaceSection_again ELFCLASS64 ".dynstr" 40 8 Sample.library Sample.grown
           (resize 40 x00 (x00 :: list_byte_of_string "libfoo.so"))).
  vm_compute. reflexivity.
Defined.

(** Every section of the sample has its name inside the name table. *)
Lemma sample_names_readable (i : Z) (shdr : Elf_Shdr) :
  1 <= i < 7 -> shdrs Sample.library !! Z.to_nat i = Some shdr ->
  sh_name shdr < Z.of_nat (length (sectionNames Sample.library)).
Proof.
  intros Hi Hs.
  assert (Hc : i = 1 \/ i = 2 \/ i = 3 \/ i = 4 \/ i = 5 \/ i = 6) by lia.
  destruct Hc as [-> | [-> | [-> | [-> | [-> | ->]]]]];
    vm_compute in Hs; injection Hs as <-; vm_compute; reflexivity.
Qed.

Lemma findSectionHeader_first_or_error_witness :
  (exists r shdr,
     findSectionHeader ELFCLASS64 ".text" Sample.library = Done shdr
     /\ getSectionIndex ELFCLASS64 ".text" Sample.library = Done r /\ 1 <= r < 7
     /\ shdrs Sample.library !! Z.to_nat r = Some shdr
     /\ section_name Sample.library shdr = ".text"
     /\ forall j s, 1 <= j < r -> shdrs Sample.library !! Z.to_nat j = Some s ->
          section_name Sample.library s <> ".text")
  \/ (findSectionHeader ELFCLASS64 ".text" Sample.library
      = Throw ("cannot find section '" +:+ ".text" +:+ "'" +:+ static_hint ".text")
      /\ getSectionIndex ELFCLASS64 ".text" Sample.library = Done 0
      /\ forall j s, 1 <= j < 7 -> shdrs Sample.library !! Z.to_nat j = Some s ->
           section_name Sample.library s <> ".text").
Proof.
  apply (findSectionHeader_first_or_error ELFCLASS64 ".text" Sample.library 7).
  - vm_compute. reflexivity.
  - vm_compute. discriminate.
  - exact sample_names_readable.
Defined.

Lemma ctor_decodes_tables_witness :
  Z.of_nat (length (phdrs Sample.library)) = 2
  /\ Z.of_nat (length (shdrs Sample.library)) = 7
  /\ (isExecutable Sample.library = true
      <-> exists p, In p (phdrs Sample.library) /\ p_type p = PT_INTERP).
Proof.
  destruct (ctor_decodes_tables ELFCLASS64 4096 (Sample.image ET_DYN 2) Sample.library)
    as (H1 & H2 & _ & _ & H5); [vm_compute; reflexivity |].
  split; [rewrite H1; vm_compute; reflexivity |].
  split; [rewrite H2; vm_compute; reflexivity | exact H5].
Defined.

Lemma ctor_section_names_witness :
  last (sectionNames Sample.library) = Some x00
  /\ length (sectionsByOldIndex Sample.library) = length (shdrs Sample.library)
  /\ sectionsByOldIndex Sample.library !! 0%nat = Some EmptyString
  /\ forall (i : nat) shdr, (1 <= i)%nat -> shdrs Sample.library !! i = Some shdr ->
       sh_name shdr < Z.of_nat (length (sectionNames Sample.library))
       /\ getSectionName shdr Sample.library = Done (section_name Sample.library shdr)
       /\ sectionsByOldIndex Sample.library !! i = Some (section_name Sample.library shdr)
       /\ ~ In x00 (list_byte_of_string (section_name Sample.library shdr)).
Proof.
  apply (ctor_section_names ELFCLASS64 4096 (Sample.image ET_DYN 2) Sample.library).
  vm_compute. reflexivity.
Defined.

Lemma mainWrapped_file_names_witness :
  mainWrapped_options (fun _ => None) false ["patchelf"; "a.out"; "libb.so"]
  = Done (Some (mkOptions ∅ EmptyString false ["a.out"; "libb.so"])).
Proof.
  apply (mainWrapped_file_names (fun _ => None) false "patchelf" ["a.out"; "libb.so"]).
  repeat constructor; discriminate.
Defined.

Lemma patchElf_rejects_other_files_witness :
  patchElf_file true (-1) true 4096 10 ∅ (Some (list_byte_of_string "#!/bin/sh"))
  = Throw "missing ELF header".
Proof.
  apply (patchElf_rejects_other_files true (-1) true 4096 10 ∅
           (list_byte_of_string "#!/bin/sh")).
  vm_compute. discriminate.
Defined.

(** The four entries of the dynamic table of [Linked.library]. *)
Lemma linked_tags (libs : gmap string string) (j : Z) :
  0 <= j < 4 ->
  exists tag, dyn_tag_word ELFCLASS64 (dyn_entry ELFCLASS64 544 j) Linked.library = Done tag
    /\ tag <> DT_NULL /\ tag <> DT_VERNEEDNUM
    /\ (tag = DT_NEEDED ->
        exists d, dyn_val ELFCLASS64 (dyn_entry ELFCLASS64 544 j) Linked.library = Done d
                  /\ 0 <= d < 32
                  /\ (libs = Linked.other_libs ->
                      replacement_for libs (dynstr_name Linked.content d) = None)).
Proof.
  intros Hj. assert (Hc : j = 0 \/ j = 1 \/ j = 2 \/ j = 3) by lia.
  destruct Hc as [-> | [-> | [-> | ->]]]; eexists;
    (split; [vm_compute; reflexivity |]); (split; [discriminate |]);
    (split; [discriminate |]); intros Htag; try discriminate Htag;
    eexists; (split; [vm_compute; reflexivity |]); (split; [lia |]);
    intros ->; vm_compute; reflexivity.
Qed.

Lemma replaceNeeded_rewrites_entries_witness :
  exists st' off buf,
    replaceNeeded_edits ELFCLASS64 Linked.libs Linked.library = Done st'
    /\ dyn_val ELFCLASS64 (dyn_entry ELFCLASS64 544 0) st' = Done off
    /\ replacedSections st' !! ".dynstr" = Some buf
    /\ take 32 buf = Linked.content
    /\ 32 <= off
    /\ take 12 (drop (Z.to_nat off) buf) = (list_byte_of_string "libfoo.so.2" ++ [x00])%list
    /\ changed st' = true
    /\ dyn_val ELFCLASS64 (dyn_entry ELFCLASS64 544 1) st' = Done 13
    /\ shdrs st' = shdrs Linked.library.
Proof.
  destruct (replaceNeeded_rewrites_entries ELFCLASS64 Linked.libs Linked.library
              (mkShdr 9 6 0 544 544 80 1 0 8 16) (Sample.section 1 3 512 512 32 0 1)
              Linked.content 4)
    as (st' & Hrun & Hent & _ & _ & Hsh & _).
  - vm_compute. reflexivity.
  - vm_compute. reflexivity.
  - vm_compute. reflexivity.
  - vm_compute. reflexivity.
  - vm_compute. reflexivity.
  - vm_compute. repeat split; discriminate.
  - right. vm_compute. discriminate.
  - vm_compute. reflexivity.
  - intros j Hj. destruct (linked_tags Linked.libs j Hj) as (tag & H1 & H2 & H3 & H4).
    exists tag. repeat split; try assumption.
    intros Ht. destruct (H4 Ht) as (d & Hd & Hr & _). exists d. split; assumption.
  - vm_compute. reflexivity.
  - pose proof (Hent 0 1 ltac:(lia) ltac:(vm_compute; reflexivity)
                  ltac:(vm_compute; reflexivity)) as H0.
    pose proof (Hent 1 13 ltac:(lia) ltac:(vm_compute; reflexivity)
                  ltac:(vm_compute; reflexivity)) as H1.
    vm_compute replacement_for in H0. vm_compute replacement_for in H1.
    destruct H0 as (off & buf & A1 & A2 & A3 & A4 & A5 & A6).
    exists st', off, buf. repeat split; assumption.
Defined.

Lemma patchElf2_nothing_to_replace_witness :
  replaceNeeded ELFCLASS64 (-1) true 10 Linked.other_libs Linked.library
  = Done Linked.library
  /\ patchElf2 ELFCLASS64 (-1) true 10 Linked.other_libs Linked.library
     = Done (Some (fileContents Linked.library)).
Proof.
  apply (patchElf2_nothing_to_replace ELFCLASS64 (-1) true 10 Linked.other_libs
           Linked.library (mkShdr 9 6 0 544 544 80 1 0 8 16)
           (Sample.section 1 3 512 512 32 0 1) Linked.content 4).
  - vm_compute. reflexivity.
  - vm_compute. reflexivity.
  - vm_compute. reflexivity.
  - vm_compute. reflexivity.
  - vm_compute. reflexivity.
  - vm_compute. reflexivity.
  - vm_compute. repeat split; discriminate.
  - right. vm_compute. discriminate.
  - vm_compute. reflexivity.
  - intros j Hj. destruct (linked_tags Linked.other_libs j Hj) as (tag & H1 & H2 & H3 & H4).
    exists tag. repeat split; try assumption.
    intros Ht. destruct (H4 Ht) as (d & Hd & Hr & Hn). exists d. auto.
  - vm_compute. reflexivity.
Defined.

Module Room.

(** The sample library after [shiftFile(1, 512, 100)]: one page of room
    at offset 512. *)
Definition shifted : ElfFile :=
  Eval vm_compute in
    match shiftFile ELFCLASS64 (-1) 1 512 100 Sample.library with
    | Done st => st
    | _ => Sample.empty_file
    end.

(** The sample library with a pending edit of [.dynstr] after
    [writeReplacedSections] from offset 1000. *)
Definition placed : ElfFile * Z :=
  Eval vm_compute in
    match writeReplacedSections ELFCLASS64 true 1000 4096 904 Sample.grown with
    | Done r => r
    | _ => (Sample.empty_file, 0)
    end.

(** The sample library with the header of [.dynsym], which links to
    [.dynstr], in front of that of [.dynstr], and after [sortShdrs]. *)
Definition dynsym : Elf_Shdr := mkShdr 25 SHT_DYNSYM 0 560 560 48 4 0 8 0.

Definition unsorted : ElfFile :=
  with_shdrs
    [ mkShdr 0 0 0 0 0 0 0 0 0 0;
      Sample.section 1 SHT_NOTE 512 512 16 0 4;
      Sample.section 9 SHT_NOTE 528 528 16 0 4;
      dynsym;
      Sample.section 17 3 544 544 16 0 1;
      Sample.section 33 SHT_PROGBITS 608 608 16 0 16;
      Sample.section 39 3 0 624 49 0 1 ]
    Sample.library.

Definition resorted : ElfFile :=
  Eval vm_compute in
    match sortShdrs ELFCLASS64 unsorted with
    | Done st => st
    | _ => Sample.empty_file
    end.

End Room.

Lemma shiftFile_moves_contents_witness :
  exists hdr,
    length hdr = 64%nat
    /\ fileContents Room.shifted
       = (hdr ++ take 448 (drop 64 (fileContents Sample.library))
          ++ replicate 4096 x00 ++ drop 512 (fileContents Sample.library))%list
    /\ hdr_get ELFCLASS64 e_shoff Room.shifted = Done (688 + 4096)
    /\ length (shdrs Room.shifted) = 7%nat.
Proof.
  destruct (shiftFile_moves_contents ELFCLASS64 (-1) 1 512 100 Sample.library Room.shifted)
    as (pageSize & shnum & shoff & phnum & hdr & Hpage & Hshnum & Hshoff & Hphnum & _
        & Hhdr & Hfile & _ & Hshoff' & _ & _ & Hlen & _).
  - vm_compute. reflexivity.
  - vm_compute in Hpage. injection Hpage as <-.
    vm_compute in Hshoff. injection Hshoff as <-.
    exists hdr. split; [exact Hhdr |]. split; [exact Hfile |].
    split; [exact Hshoff' |]. exact Hlen.
Defined.

Lemma shiftFile_splits_segment_witness :
  Z.of_nat (length (phdrs Room.shifted)) = 2 + 1
  /\ phdrs Room.shifted !! 2%nat = Some (mkPhdr PT_LOAD 6 0 (2 ^ 64 - 4096) (2 ^ 64 - 4096) 612 612 4096).
Proof.
  destruct (shiftFile_splits_segment ELFCLASS64 (-1) 1 512 100 Sample.library Room.shifted)
    as (pageSize & phnum & k & split & Hpage & Hphnum & Hk & Hsplit & Hcov & Huniq & Hlen
        & Hnew & _).
  - vm_compute. reflexivity.
  - vm_compute in Hpage. injection Hpage as <-.
    vm_compute in Hphnum. injection Hphnum as <-.
    split; [exact Hlen |].
    assert (k = 0%nat) as ->.
    { destruct k as [| [| k]]; [reflexivity | | lia].
      vm_compute in Hsplit. injection Hsplit as <-. vm_compute in Hcov. discriminate Hcov. }
    vm_compute in Hsplit. injection Hsplit as <-. exact Hnew.
Defined.

Lemma writeReplacedSections_places_edits_witness :
  exists shdr',
    shdrs Room.placed.1 !! 3%nat = Some shdr'
    /\ sh_size shdr' = 40
    /\ 1000 <= sh_offset shdr' /\ sh_offset shdr' + sh_size shdr' <= Room.placed.2
    /\ mem_read (fileContents Room.placed.1) (sh_offset shdr') (sh_size shdr')
       = Done (resize 40 x00 (x00 :: list_byte_of_string "libfoo.so")).
Proof.
  destruct (writeReplacedSections_places_edits ELFCLASS64 true 1000 4096 904 Sample.grown
              Room.placed.1 Room.placed.2)
    as (_ & _ & _ & Hsec & _).
  - lia.
  - vm_compute. reflexivity.
  - vm_compute. reflexivity.
  - specialize (Hsec 3%nat (Sample.section 17 3 544 544 16 0 1) eq_refl).
    change (replacedSections Sample.grown
              !! section_name Sample.grown (Sample.section 17 3 544 544 16 0 1))
      with (Some (resize 40 x00 (x00 :: list_byte_of_string "libfoo.so"))) in Hsec.
    destruct Hsec as (shdr' & H1 & _ & _ & H2 & H3 & H4 & _ & H5).
    exists shdr'. repeat split; assumption.
Defined.

(** The four entries of the dynamic table of [Linked.moved]. *)
Lemma moved_tags (j : Z) :
  0 <= j < 4 ->
  exists tag, dyn_tag ELFCLASS64 (dyn_entry ELFCLASS64 544 j) Linked.moved = Done tag
              /\ tag <> DT_NULL.
Proof.
  intros Hj. assert (Hc : j = 0 \/ j = 1 \/ j = 2 \/ j = 3) by lia.
  destruct Hc as [-> | [-> | [-> | ->]]]; eexists;
    (split; [vm_compute; reflexivity | discriminate]).
Qed.

Lemma update_dynamic_syncs_witness :
  dyn_val ELFCLASS64 (dyn_entry ELFCLASS64 544 2) Linked.moved = Done 512
  /\ dyn_val ELFCLASS64 (dyn_entry ELFCLASS64 544 2) Linked.synced = Done 8192
  /\ dyn_val ELFCLASS64 (dyn_entry ELFCLASS64 544 3) Linked.synced = Done 62
  /\ shdrs Linked.synced = shdrs Linked.moved.
Proof.
  destruct (update_dynamic_syncs ELFCLASS64 10 (mkShdr 9 6 0 544 544 80 1 0 8 16) 544 4
              Linked.moved Linked.synced)
    as (Hshdrs & _ & _ & Hstr & _).
  - vm_compute. discriminate.
  - lia.
  - exact moved_tags.
  - vm_compute. reflexivity.
  - vm_compute. reflexivity.
  - split; [vm_compute; reflexivity |].
    destruct (Hstr 2 (Sample.section 1 3 8192 4608 62 0 1) ltac:(lia)
                ltac:(vm_compute; reflexivity)) as [H2 _].
    destruct (Hstr 3 (Sample.section 1 3 8192 4608 62 0 1) ltac:(lia)
                ltac:(vm_compute; reflexivity)) as [_ H3].
    split; [apply H2; vm_compute; reflexivity |].
    split; [apply H3; vm_compute; reflexivity | exact Hshdrs].
Defined.

Lemma sortShdrs_keeps_references_witness :
  exists t (p q : nat) o' t',
    shdrs Room.unsorted !! Z.to_nat (sh_link Room.dynsym) = Some t
    /\ (1 <= p)%nat /\ shdrs Room.resorted !! p = Some o' /\ unlinked o' = unlinked Room.dynsym
    /\ (1 <= q)%nat /\ shdrs Room.resorted !! q = Some t' /\ unlinked t' = unlinked t
    /\ sh_link o' = Z.of_nat q.
Proof.
  destruct (sortShdrs_keeps_references ELFCLASS64 Room.unsorted Room.resorted 7)
    as (_ & _ & _ & Hlink & _).
  - vm_compute. reflexivity.
  - vm_compute. reflexivity.
  - reflexivity.
  - unfold distinct_names. refine (@bool_decide_unpack _ (NoDup_dec _) _). vm_compute. reflexivity.
  - apply (Hlink 3%nat Room.dynsym); [lia | reflexivity | discriminate].
Defined.

Lemma mainWrapped_options_sound_witness :
  let o := mkOptions {[ "libfoo.so.1" := "libfoo.so.2" ]} "out" true ["a.out"] in
  let args := ["--replace-needed"; "libfoo.so.1"; "libfoo.so.2"; "--debug"; "--output";
               "out"; "a.out"] in
  mainWrapped_options (fun _ => None) false ("patchelf" :: args) = Done (Some o)
  /\ fileNames o <> []
  /\ (outputFileName o <> EmptyString -> exists f, fileNames o = [f])
  /\ fileNames o `sublist_of` args
  /\ Forall plain_argument (fileNames o)
  /\ (forall k v, neededLibsToReplace o !! k = Some v ->
        exists pre post, args = (pre ++ "--replace-needed" :: k :: v :: post)%list)
  /\ (debugMode o = true -> false = true \/ In "--debug" args)
  /\ (outputFileName o <> EmptyString -> In "--output" args).
Proof.
  cbn zeta.
  assert (H : mainWrapped_options (fun _ => None) false
                ["patchelf"; "--replace-needed"; "libfoo.so.1"; "libfoo.so.2"; "--debug";
                 "--output"; "out"; "a.out"]
              = Done (Some (mkOptions {[ "libfoo.so.1" := "libfoo.so.2" ]} "out" true
                              ["a.out"]))) by reflexivity.
  split; [exact H |].
  exact (mainWrapped_options_sound (fun _ => None) false _ _ H).
Defined.

Lemma mainWrapped_replace_needed_pairs_witness :
  exists libs,
    mainWrapped_options (fun _ => None) false
      ["patchelf"; "--replace-needed"; "liba.so"; "libb.so"; "--replace-needed"; "liba.so";
       "--debug"; "a.out"]
    = Done (Some (mkOptions libs EmptyString false ["a.out"]))
    /\ libs !! "liba.so" = Some "--debug"
    /\ libs !! "libb.so" = None.
Proof.
  destruct (mainWrapped_replace_needed_pairs (fun _ => None) false "patchelf"
              [("liba.so", "libb.so"); ("liba.so", "--debug")] ["a.out"])
    as (libs & Hrun & Hlast & Hnone).
  - repeat constructor; discriminate.
  - discriminate.
  - exists libs. split; [exact Hrun |]. split.
    + apply (Hlast [("liba.so", "libb.so")] "liba.so" "--debug" []); [reflexivity |].
      intros [].
    + apply Hnone. simpl. intros [H | [H | []]]; discriminate H.
Defined.

Lemma mainWrapped_options_errors_witness :
  mainWrapped_options (fun _ => None) false ["patchelf"; "a.out"; "--replace-needed"; "liba.so"]
  = Throw "missing argument(s)"
  /\ mainWrapped_options (fun _ => None) false ["patchelf"; "a.out"; "--output"]
     = Throw "missing argument"
  /\ mainWrapped_options (fun _ => None) false
       ["patchelf"; "a.out"; "--output"; "out"; "libb.so"]
     = Throw "--output option only allowed with single input file"
  /\ mainWrapped_options (fun _ => None) false ["patchelf"; "--debug"; "--debug"]
     = Throw "missing filename".
Proof.
  destruct (mainWrapped_options_errors (fun _ => None) false "patchelf" ["a.out"])
    as (H1 & H2 & H3 & H4).
  - repeat constructor; discriminate.
  - split; [apply (H1 ["liba.so"]); simpl; lia |].
    split; [exact H2 |].
    split; [| exact (H4 1%nat)].
    apply (H3 "out" ["libb.so"]).
    + repeat constructor; discriminate.
    + discriminate.
    + discriminate.
    + simpl. lia.
Defined.

Lemma patchElf2_static_file_witness :
  patchElf2 ELFCLASS64 (-1) true 10 Linked.libs Sample.library
  = Throw "cannot find section '.dynamic'. The input file is most likely statically linked"
  /\ patchElf2 ELFCLASS64 (-1) true 10 ∅ Sample.library = Done (Some (Sample.image ET_DYN 2)).
Proof.
  assert (Hopen : ElfFile_ctor ELFCLASS64 4096 (Sample.image ET_DYN 2) = Done Sample.library)
    by (vm_compute; reflexivity).
  assert (Hnone : forall shdr, In shdr (drop 1 (shdrs Sample.library)) ->
                    section_name Sample.library shdr <> ".dynamic").
  { intros shdr Hin. simpl in Hin.
    repeat (destruct Hin as [<- | Hin]; [vm_compute; discriminate |]). destruct Hin. }
  split.
  - exact (patchElf2_static_file ELFCLASS64 (-1) true 4096 10 Linked.libs _ _ Hopen Hnone).
  - exact (patchElf2_static_file ELFCLASS64 (-1) true 4096 10 ∅ _ _ Hopen Hnone).
Defined.

(** The library of [Linked] with a pending edit of [.dynamic], and after
    the edit has been written at offset 900. *)
Module Resync.

Definition edited : ElfFile := Eval vm_compute in Sample.edit ".dynamic" 80 Linked.library.

Definition placed : ElfFile * Z :=
  Eval vm_compute in
    match writeReplacedSections ELFCLASS64 true 900 4096 804 edited with
    | Done r => r
    | _ => (Sample.empty_file, 0)
    end.

End Resync.

Lemma writeReplacedSections_syncs_segments_witness :
  exists shdr' ph',
    shdrs Resync.placed.1 !! 2%nat = Some shdr'
    /\ phdrs Resync.placed.1 !! 1%nat = Some ph'
    /\ in_sync shdr' ph' /\ p_offset ph' = 900 /\ p_vaddr ph' = 4192
    /\ phdrs Resync.placed.1 !! 0%nat = phdrs Linked.library !! 0%nat.
Proof.
  destruct (writeReplacedSections_syncs_segments ELFCLASS64 true 900 4096 804 Resync.edited
              Resync.placed.1 Resync.placed.2)
    as (_ & _ & Hnamed); [vm_compute; reflexivity |].
  eexists. eexists. split; [reflexivity |]. split; [reflexivity |].
  split; [| vm_compute; repeat split; reflexivity].
  apply (Hnamed ".dynamic" PT_DYNAMIC 2%nat (mkShdr 9 6 0 544 544 80 1 0 8 16))
    with (i := 1%nat).
  - right. left. split; reflexivity.
  - reflexivity.
  - vm_compute. reflexivity.
  - vm_compute. eexists. reflexivity.
  - intros j' x Hj' Hx.
    destruct j' as [| [| [| [| [| j']]]]]; try lia; try discriminate Hx;
      injection Hx as <-; vm_compute; discriminate.
  - reflexivity.
  - reflexivity.
  - reflexivity.
Defined.

Lemma write_phdrs_stores_table_witness :
  exists st',
    write_phdrs ELFCLASS64 (phdrs Sample.library) 0 Sample.library = Done st'
    /\ length (fileContents st') = length (fileContents Sample.library)
    /\ parse_Phdr ELFCLASS64 true (take 56 (drop 120 (fileContents st')))
       = mkPhdr PT_NOTE 4 512 512 512 32 32 4.
Proof.
  destruct (write_phdrs_stores_table ELFCLASS64 Sample.library 64)
    as (st' & Hrun & _ & Hlen & Hslots & _).
  - vm_compute. reflexivity.
  - vm_compute. discriminate.
  - vm_compute. discriminate.
  - exists st'. split; [exact Hrun |]. split; [exact Hlen |].
    destruct (Hslots 1%nat (mkPhdr PT_NOTE 4 512 512 512 32 32 4) eq_refl) as [_ Hparse].
    apply Hparse. vm_compute. repeat split; discriminate.
Defined.

Lemma write_shdrs_stores_table_witness :
  exists st',
    for_shnum ELFCLASS64 1 (write_shdr ELFCLASS64) Sample.library = Done st'
    /\ length (fileContents st') = length (fileContents Sample.library)
    /\ parse_Shdr ELFCLASS64 true (take 64 (drop 880 (fileContents st')))
       = Sample.section 17 3 544 544 16 0 1
    /\ mem_read (fileContents st') 688 64 = mem_read (fileContents Sample.library) 688 64.
Proof.
  destruct (write_shdrs_stores_table ELFCLASS64 Sample.library 7 688)
    as (st' & Hrun & _ & Hlen & Hslots & Hframe).
  - vm_compute. reflexivity.
  - vm_compute. reflexivity.
  - vm_compute. discriminate.
  - vm_compute. split; discriminate.
  - vm_compute. discriminate.
  - exists st'. split; [exact Hrun |]. split; [exact Hlen |]. split.
    + destruct (Hslots 3 (Sample.section 17 3 544 544 16 0 1) ltac:(lia) eq_refl)
        as [_ Hparse].
      apply Hparse. vm_compute. repeat split; discriminate.
    + apply Hframe. left. vm_compute. discriminate.
Defined.
